(* ===== verification/_CoqProject ===== *)
-Q . S2P
Prelude.v
Hash.v
Slab.v
Entry.v
Shard.v
Wal.v
Cache.v
CacheInv.v
CacheSafe.v
CacheSpec.v
CacheThm.v
CacheLife.v
Capacity.v
Proto.v
ProtoSpec.v
Double.v
ProtoMem.v
Smoke.v
Bench.v
BenchThm.v
BenchRun.v
BenchHits.v
Auth.v
Kv.v
Commands.v
CommandsSpec.v
Replies.v
Session.v
Scan.v
Server.v
ServerThm.v
Worker.v
WorkerSafe.v
WorkerThm.v
SeqLock.v
Treiber.v
Pool.v
Resp.v
Net.v
NetScript.v
Cluster.v
ClusterInv.v
ClusterThm.v
ClusterTopo.v
ClusterUse.v
ClusterBugs.v
Cli.v
CliThm.v
CliArgs.v
CliUse.v
Served.v
EndToEnd.v
Lifecycle.v
LifecycleThm.v
Wepoll.v
WepollThm.v
Clock.v
WinThread.v
WinMem.v
ServerIo.v
WinPort.v
