(* ===== verification/Prelude.v ===== *)
(** * VoidCache: a verification development

    VoidCache is an in-memory key-value cache in C with a RESP server in front of it, a
    cluster client and a command-line client.  This library models these parts as
    executable functions and step relations and proves what they promise.

    ** The program

    [src/src/voidcache.c] is the cache.  A key is hashed by [wyhash64]; six bits of the
    hash choose one of 64 shards, other bits the home slot in the shard's table.  A
    table is open addressed with Robin Hood displacement and tombstones; its entries
    hold key and value inline (up to 32 bytes together), or a pointer to a slab block
    or a mapping, and perhaps to a heap copy of the key.  Writers take a spin lock and
    make a sequence counter odd; readers retry on it.  A full table evicts by CLOCK.
    Every mutation is first appended to a ring-shaped log.  [src/net/proto.c] has the
    I/O buffers, the reply writers and the command parser; [src/net/auth.c] SHA-256,
    the user table and the ACL file; [src/net/commands.c] the handlers, the
    authentication guard and the dispatch table; [src/net/server.c] the connection
    pool, the read-parse-dispatch-flush loop, the event loop of a worker and the life of
    the server.  [src/net/cluster.c] is a client of a cluster: slot hashing, a node table
    with connection pools, redirections and health checks.  [src/cli/vcli.c] is the
    program: server mode, and a client that reads commands from its arguments, a pipe or
    a terminal and prints the replies.  [src/bench/benchmark.c] measures the cache.
    [src/compat] has the Windows port: [wepoll.c] gives epoll, [pthread_win32.h] threads and
    locks, [mman.c] mappings, [msvc.h] and [windows.h] the rest.

    ** The files

    - [Prelude.v]: machine integers with their wrap-around written out, little-endian
      bytes, memory as a finite map of bytes, regions, tactics, shared lemmas.
    - [Hash.v]: [next_pow2_32], [xxh32], [wyhash64], shard and slot arithmetic.
    - [Slab.v]: the heap ([malloc], [free], [mmap], [munmap]) and the slab allocator,
      with its free lists in memory.
    - [Entry.v]: the 64-byte entry, its three storage forms, its release; the ownership
      invariant [mem_inv] (what LIVE entries own and what the slab has free is disjoint).
    - [Shard.v]: lock and sequence counter, lookup, eviction, insertion; the table
      invariant (every live entry is reachable by probing from its home slot).
    - [Wal.v]: the log.
    - [Cache.v]: [vc_create], [vc_set], [vc_get], [vc_del], [vc_flush], [vc_stats],
      [vc_destroy]; [CacheInv.v] builds entries without leaks, [CacheSafe.v] has the
      well-formedness invariant [cache_wf] and its preservation, [CacheSpec.v] the
      abstraction [abs] of a cache to a finite map from keys to values with expiry,
      [CacheThm.v] the theorems, [CacheLife.v] the life of a cache from creation to
      destruction, [Capacity.v] how many values it can hold; [Smoke.v] is the test program
      of [src/src/main.c].
    - [Proto.v] and [ProtoSpec.v]: buffers, writers, parser and their theorems;
      [ProtoMem.v] the heap blocks behind buffers, commands and values.
    - [Double.v]: doubles as 64-bit words, their arithmetic, [strtod] and [printf].
    - [Bench.v]: the benchmark program; [BenchThm.v] its keys and its table of ranks,
      [BenchRun.v] its whole run, [BenchHits.v] its hit counts.
    - [Auth.v]: digests, users, rights.
    - [Kv.v]: the interface between commands and cache, a class of operations and a class
      of laws; the cache is an instance of both.
    - [Commands.v]: the handlers and the dispatcher over that interface;
      [CommandsSpec.v] access control, [Replies.v] what commands answer and store,
      [Session.v] when a command is undefined, [Scan.v] the cursor of SCAN.
    - [Server.v] and [ServerThm.v]: one connection, and the theorem that the cutting of the
      byte stream does not matter.  [Worker.v]: the event loop of a worker over all its
      connections; [WorkerSafe.v] its safety under an invariant that commands keep,
      [WorkerThm.v] two instances of it.  [Lifecycle.v] and [LifecycleThm.v]: creation,
      start, run, stop and destruction of the server, and the server mode of [main].
    - [SeqLock.v]: the spin lock and the sequence counter of a shard, with the lookup and both
      paths of [vc_get] and the writers, as a step relation over any number of threads.  [Treiber.v]: the lock-free free list of a slab class,
      and [Pool.v]: the connection pool under several workers, in the same way.
    - [Resp.v]: replies as trees and their encoding, shared by both clients.
    - [Net.v]: the interface to the system calls on sockets (class [Net]), what a stream
      delivers (class [NetStream]), [tcp_connect], [sock_sendall], [sock_readline],
      [sock_readn]; [NetScript.v] is an instance that plays a script.
    - [Cluster.v]: the cluster client; [ClusterInv.v] the invariant of its handle,
      [ClusterThm.v] replies, routing and checksum, [ClusterTopo.v] topologies,
      [ClusterUse.v] the theorems, [ClusterBugs.v] replies that it misreads.
    - [Cli.v]: the command-line client; [CliThm.v] tokenizer, encoder and printer,
      [CliArgs.v] the options, [CliUse.v] the theorems.
    - [Served.v]: the server of [Server.v] behind the socket interface of [Net.v];
      what is sent to it arrives in packets that [process_conn] reads.  [EndToEnd.v]: both
      clients against it.
    - [ServerIo.v]: the TLS context, reading and writing with or without TLS (class
      [NetIo]), socket options (class [Fcntl]), and that [Server.v]'s flush is what the
      calls amount to.
    - [Wepoll.v] and [WepollThm.v]: the epoll layer for Windows.  [Clock.v]: the readings of
      time and the clock of the MSVC port.  [WinThread.v]: read-write locks, threads,
      mutexes, one-time initialisation.  [WinMem.v]: mappings.  [WinPort.v]: sockets,
      [fcntl] (an instance of [Fcntl]), the shutdown event, errors of Winsock.

    ** How code is modelled

    A function of the source is a function with the same name; state that it changes is
    an argument and part of the result.  [None] is undefined behaviour (a bad access, a
    double release, a signed overflow) or waiting for ever; error codes are values.
    What the environment answers (clocks, [malloc], [strndup], [mmap], [read], [write],
    random bytes, the file of the ACL, TLS) is an argument or a method of a class, and so
    are, in the commands and the clients, [strtod] and the printing of doubles, for which
    [Double.v] has concrete functions.  Allocators may refuse anywhere; a refusal whose NULL
    the source uses unchecked is [None].  A log record that does not fit the 64 MB of the
    ring is [None] too, so theorems about a cache with a log ask for records of at most 64
    MB less 71 bytes ([log_room]).  Objects of Windows (handles, locks, regions, events) are
    modelled by their documented behaviour.  Loops that are not structural carry fuel: the
    capacity of a table for probing, sweeping and inserting (the code's own bound), 65
    doublings for a buffer (after 64 a [size_t] is 0), the number of unread bytes for the
    parse loop and of unsent bytes for a flush (each round consumes at least one), 65
    rounds for the 64 shards of SCAN, the size of the destination for reads from a
    socket, the depth of nesting for the reply printer and for values that are freed, the
    number of lines for a pipe, the rounds and two clock readings of a benchmark thread.
    Concurrent code is a relation between configurations, with one step per atomic
    access, over sequentially consistent memory.

    ** What is shown

    - Cache: any history of operations of one thread, with records that fit the log, is
      free of undefined behaviour and keeps the invariant; set, get, delete and flush
      refine the map operations; creation establishes the invariant; a cache can be
      destroyed whatever was done with it, and then arenas, tables and its own block are
      released, each once; the smoke test of the repository passes; a set value is read back
      until it expires.  Set refines the map update when the shard is not full and the key
      has no expired binding, and fails exactly when an allocator refuses; the two theorems on
      lost keys show that these conditions matter.  The values of a size class, of at most
      65535 bytes, are never more than one arena has blocks.
    - Threads: the spin lock excludes, a reader returns a value that was there, every
      operation can come to its end; the free list loses no block while allocations do
      not overlap, and can give a block out twice when they do; workers never meet at a
      connection or use a freed buffer unless the idle sweep of one closes a connection of
      another, which can happen.
    - Log: an append stays inside the ring and a log that has not wrapped is read back
      in full; a record larger than the ring is written past it.
    - Protocol: encoded commands parse back, prefixes wait, accepted input is bounded,
      buffers grow without losing bytes; buffers, complete commands and values give back
      exactly their blocks, and an incomplete command loses some at every attempt.
    - Authentication: login accepts exactly the registered digests; loading and start-up
      fail closed; SHA-256 pads as specified and matches the published digests.
    - Commands: without accepted credentials, or without the write right, no sequence of
      commands or no command changes the store; a command is undefined exactly in a short
      list of situations and leaves a well-formed store in all others; SET, GET, MGET,
      DEL, INCR, VCSET, VCGET and SCAN answer what the store holds.
    - Server: whatever the sizes of the reads and of the writes the socket takes, the
      commands that run and the bytes sent back are those of the commands one after the
      other; when the buffers of a connection are granted and no NUL arrives, clients without
      a password cannot make a worker fail or change the store, and no client at all can
      make it fail without the eight commands that can be undefined; a server starts with
      an empty store and the configured users, and after a signal it ends, with the store
      released, exactly when its workers do.
    - Cluster client: whatever the network answers its handle stays well-formed; commands
      go to the node of the key's slot and their answers come back, redirections are
      followed, a refresh implements the topology, dead nodes are tried again; the
      checksum is compared with CRC16-CCITT, and the topology of this server is misread.
    - Command-line client: options and typed lines are read as they were written, a reply
      is printed as its tree prescribes and nothing more is read.
    - End to end: a value set through the cluster client comes back through it; a script
      piped into the command-line client prints the replies of the dispatcher.
    - TLS: the server has a context exactly when OpenSSL accepted certificate and key, and
      it excludes the old protocols; a reply cut short is lost when its buffer moves.
    - Benchmark: it comes to its end for all clocks and all orders in which its threads take
      turns operation by operation, with the number of operations it reports; its table of ranks is the one intended; the reads of slab
      values that it labels as hits are bounded by the arena.
    - Windows port: the socket table of the epoll layer is a map, and a completion of a
      removed socket is not handled; the read-write lock is never released in the wrong
      mode and excludes; threads lose no block and run once; anonymous mappings behave as
      the cache's heap model says, file mappings leave a handle open; the clock is
      monotone; Ctrl+C wakes the main thread; with MSVC no request over plain sockets is
      served.

    ** What is not modelled

    Weak memory orders; several workers that run commands on the store at the same moment
    (each operation of the cache is one step there; the lock that makes it one, and the
    pool that the workers share, are shown apart); likewise the threads of the benchmark.
    OpenSSL, the kernel's sockets and epoll, signals, [msync] and [fsync]: their answers are
    arguments.  Macros of the port that only rename functions of
    the C library.  The drivers under [src/tests], the build files and the documents. *)

From stdpp Require Export base list gmap numbers option list_numbers.
From Stdlib Require Export ZArith Lia.
From Stdlib Require Import Ascii.
From Stdlib Require String.
Export String.StringSyntax.

#[global] Open Scope Z_scope.

(** ** Fixed-width machine integers *)

(** An unsigned C integer of [w] bits is the [Z] in [0, 2^w); every operation
    that can overflow is followed by one of these reductions. *)
Definition u8 (z : Z) : Z := z mod 2 ^ 8.
Definition u16 (z : Z) : Z := z mod 2 ^ 16.
Definition u32 (z : Z) : Z := z mod 2 ^ 32.
Definition u64 (z : Z) : Z := z mod 2 ^ 64.

(** Two's-complement reading of the low 64 bits ([int64_t]). *)
Definition s64 (z : Z) : Z := (z + 2 ^ 63) mod 2 ^ 64 - 2 ^ 63.

(** Two's-complement reading of the low 32 bits ([int]). *)
Definition s32 (z : Z) : Z := (z + 2 ^ 31) mod 2 ^ 32 - 2 ^ 31.

Definition is_byte (z : Z) : Prop := 0 <= z < 256.

Definition UINT32_MAX : Z := 4294967295.

(** ** Little-endian encoding of words, as [memcpy] of an integer leaves it *)

Fixpoint le_encode (n : nat) (z : Z) : list Z :=
  match n with
  | O => []
  | S n' => z mod 256 :: le_encode n' (z / 256)
  end.

Fixpoint le_decode (bs : list Z) : Z :=
  match bs with
  | [] => 0
  | b :: bs' => b + 256 * le_decode bs'
  end.

(** ** Flat byte memory

    [mem_get] of an address never written is 0, as fresh anonymous pages are. *)
Abbreviation bytemap := (gmap Z Z).

Definition mem_get (m : bytemap) (a : Z) : Z := default 0 (m !! a).

Fixpoint mem_read (m : bytemap) (a : Z) (n : nat) : list Z :=
  match n with
  | O => []
  | S n' => mem_get m a :: mem_read m (a + 1) n'
  end.

Fixpoint mem_write (m : bytemap) (a : Z) (bs : list Z) : bytemap :=
  match bs with
  | [] => m
  | b :: bs' => mem_write (<[a := b]> m) (a + 1) bs'
  end.

(** A region is a base address and a length. *)
Definition region : Type := Z * Z.

Definition region_disj (r1 r2 : region) : Prop :=
  r1.1 + r1.2 <= r2.1 \/ r2.1 + r2.2 <= r1.1.

Definition region_sub (r1 r2 : region) : Prop :=
  r2.1 <= r1.1 /\ r1.1 + r1.2 <= r2.1 + r2.2.

Fixpoint regions_disj (rs : list region) : Prop :=
  match rs with
  | [] => True
  | r :: rs' => Forall (region_disj r) rs' /\ regions_disj rs'
  end.

(** ** Text *)

(** The bytes of a C string literal (without its terminating NUL). *)
Fixpoint bs (s : String.string) : list Z :=
  match s with
  | String.EmptyString => []
  | String.String c s' => Z.of_N (N_of_ascii c) :: bs s'
  end.
Delimit Scope string_scope with string.
Arguments bs s%_string.

Definition CR : Z := 13.
Definition LF : Z := 10.
Definition CRLF : list Z := [CR; LF].

(** ** Automation *)

Create HintDb vc discriminated.
Create Rewrite HintDb vc_len.

(** Splits conjunctions and existentials of the context. *)
Ltac destr :=
  repeat match goal with
  | H : _ /\ _ |- _ => destruct H
  | H : exists _, _ |- _ => destruct H
  end.

(** Case analysis on a boolean integer comparison of the goal. *)
Ltac zcase :=
  match goal with
  | |- context [Z.eqb ?a ?b] => destruct (Z.eqb_spec a b)
  | |- context [Z.ltb ?a ?b] => destruct (Z.ltb_spec a b)
  | |- context [Z.leb ?a ?b] => destruct (Z.leb_spec a b)
  end.

(** Reflects boolean comparisons of the context into inequalities. *)
Ltac zreflect :=
  repeat match goal with
  | H : Z.eqb _ _ = true |- _ => apply Z.eqb_eq in H
  | H : Z.eqb _ _ = false |- _ => apply Z.eqb_neq in H
  | H : Z.ltb _ _ = true |- _ => apply Z.ltb_lt in H
  | H : Z.ltb _ _ = false |- _ => apply Z.ltb_ge in H
  | H : Z.leb _ _ = true |- _ => apply Z.leb_le in H
  | H : Z.leb _ _ = false |- _ => apply Z.leb_gt in H
  | H : andb _ _ = true |- _ => apply andb_true_iff in H; destruct H
  | H : orb _ _ = false |- _ => apply orb_false_iff in H; destruct H
  | H : negb _ = true |- _ => apply negb_true_iff in H
  | H : negb _ = false |- _ => apply negb_false_iff in H
  end.

(** Linear arithmetic with divisions and remainders turned into equations. *)
Ltac zdivlia := Z.div_mod_to_equations; lia.

(** ** Lemmas on machine integers *)

Lemma u8_range z : 0 <= u8 z < 2 ^ 8.
Proof. apply Z.mod_pos_bound. lia. Qed.
Lemma u16_range z : 0 <= u16 z < 2 ^ 16.
Proof. apply Z.mod_pos_bound. lia. Qed.
Lemma u32_range z : 0 <= u32 z < 2 ^ 32.
Proof. apply Z.mod_pos_bound. lia. Qed.
Lemma u64_range z : 0 <= u64 z < 2 ^ 64.
Proof. apply Z.mod_pos_bound. lia. Qed.
Lemma u16_id z : 0 <= z < 2 ^ 16 -> u16 z = z.
Proof. apply Z.mod_small. Qed.
Lemma u32_id z : 0 <= z < 2 ^ 32 -> u32 z = z.
Proof. apply Z.mod_small. Qed.
Lemma u64_id z : 0 <= z < 2 ^ 64 -> u64 z = z.
Proof. apply Z.mod_small. Qed.
Lemma s64_id z : - 2 ^ 63 <= z < 2 ^ 63 -> s64 z = z.
Proof. intros H. unfold s64. rewrite Z.mod_small; lia. Qed.
Lemma s64_range z : - 2 ^ 63 <= s64 z < 2 ^ 63.
Proof. unfold s64. pose proof (Z.mod_pos_bound (z + 2 ^ 63) (2 ^ 64)). lia. Qed.

#[export] Hint Resolve u8_range u16_range u32_range u64_range s64_range : vc.

Lemma lxor_range a b n :
  0 <= n -> 0 <= a < 2 ^ n -> 0 <= b < 2 ^ n -> 0 <= Z.lxor a b < 2 ^ n.
Proof.
  intros Hn Ha Hb. split; [apply Z.lxor_nonneg; lia|].
  destruct (Z.eq_dec (Z.lxor a b) 0) as [->|Hne]; [lia|].
  apply Z.log2_lt_pow2; [pose proof (Z.lxor_nonneg a b); lia|].
  pose proof (Z.log2_lxor a b). destruct (Z.eq_dec n 0) as [->|]; [|].
  - assert (a = 0 /\ b = 0) as [-> ->] by (simpl in *; lia). done.
  - assert (forall z, 0 <= z < 2 ^ n -> Z.log2 z < n).
    { intros z Hz. destruct (Z.eq_dec z 0) as [->|]; [simpl; lia|].
      apply Z.log2_lt_pow2; lia. }
    pose proof (H0 a Ha). pose proof (H0 b Hb). lia.
Qed.

(** A mask with [2^k - 1] is the remainder modulo [2^k]. *)
Lemma land_mask z k : 0 <= k -> Z.land z (2 ^ k - 1) = z mod 2 ^ k.
Proof. intros. rewrite <- Z.land_ones, Z.ones_equiv by lia. f_equal. Qed.

(** [x & ~(2^k - 1)] on an [n]-bit mask rounds down to a multiple of [2^k]. *)
Lemma land_clear x n k :
  0 <= k <= n -> 0 <= x < 2 ^ n -> Z.land x (2 ^ n - 2 ^ k) = x / 2 ^ k * 2 ^ k.
Proof.
  intros Hk Hx. replace (2 ^ n - 2 ^ k) with (Z.shiftl (Z.ones (n - k)) k).
  2: { rewrite Z.shiftl_mul_pow2, Z.ones_equiv by lia. replace n with (n - k + k) at 2 by lia.
       rewrite Z.pow_add_r by lia. lia. }
  replace (x / 2 ^ k * 2 ^ k) with (Z.shiftl (Z.shiftr x k) k)
    by (rewrite Z.shiftl_mul_pow2, Z.shiftr_div_pow2 by lia; done).
  apply Z.bits_inj'. intros i Hi. rewrite Z.land_spec. destruct (Z.lt_ge_cases i k).
  - rewrite !Z.shiftl_spec_low by lia. apply andb_false_r.
  - rewrite !Z.shiftl_spec, Z.shiftr_spec by lia. replace (i - k + k) with i by lia.
    destruct (Z.lt_ge_cases (i - k) (n - k)).
    + rewrite Z.ones_spec_low by lia. apply andb_true_r.
    + rewrite Z.ones_spec_high by lia. rewrite andb_false_r. symmetry.
      destruct (Z.eq_dec x 0) as [->|]; [apply Z.testbit_0_l|].
      apply Z.bits_above_log2; [lia|]. apply Z.log2_lt_pow2; [lia|].
      pose proof (Z.pow_le_mono_r 2 n i). lia.
Qed.

(** ** Lemmas on little-endian words *)

Lemma length_le_encode n z : length (le_encode n z) = n.
Proof. revert z. induction n; simpl; auto. Qed.

Lemma le_encode_bytes n z : Forall is_byte (le_encode n z).
Proof.
  revert z. induction n as [|n IH]; intros z; simpl; constructor; auto.
  apply Z.mod_pos_bound. lia.
Qed.

Lemma le_decode_encode n z :
  le_decode (le_encode n z) = z mod 256 ^ Z.of_nat n.
Proof.
  revert z. induction n as [|n IH]; intros z.
  - simpl. rewrite Z.mod_1_r. done.
  - cbn [le_encode le_decode]. rewrite IH, Nat2Z.inj_succ, Z.pow_succ_r by lia.
    rewrite Z.rem_mul_r; [done | lia | apply Z.pow_pos_nonneg; lia].
Qed.

Lemma le_decode_range bs' :
  Forall is_byte bs' -> 0 <= le_decode bs' < 256 ^ Z.of_nat (length bs').
Proof.
  unfold is_byte. induction 1 as [|b bs' Hb _ IH]; [simpl; lia|].
  cbn [le_decode length]. rewrite Nat2Z.inj_succ, Z.pow_succ_r by lia. nia.
Qed.

Lemma le_encode_decode bs' :
  Forall is_byte bs' -> le_encode (length bs') (le_decode bs') = bs'.
Proof.
  unfold is_byte. induction 1 as [|b bs' Hb _ IH]; [done|].
  cbn [le_decode length le_encode]. f_equal.
  - rewrite Z.mul_comm, Z.mod_add by lia. apply Z.mod_small. lia.
  - rewrite Z.mul_comm, Z.div_add by lia.
    rewrite Z.div_small, Z.add_0_l by lia. exact IH.
Qed.

Lemma le8_roundtrip z : 0 <= z < 2 ^ 64 -> le_decode (le_encode 8 z) = z.
Proof. intros. rewrite le_decode_encode. apply Z.mod_small. lia. Qed.

(** ** Lemmas on memory *)

Lemma length_mem_read m a n : length (mem_read m a n) = n.
Proof. revert a. induction n; simpl; auto. Qed.

#[export] Hint Rewrite length_le_encode length_mem_read : vc_len.

Lemma mem_get_insert m a b x :
  mem_get (<[a := b]> m) x = if decide (a = x) then b else mem_get m x.
Proof. unfold mem_get. rewrite lookup_insert. by case_decide. Qed.

Lemma mem_get_write_out m a bs' x :
  x < a \/ a + Z.of_nat (length bs') <= x ->
  mem_get (mem_write m a bs') x = mem_get m x.
Proof.
  revert m a. induction bs' as [|b bs' IH]; intros m a Hx; simpl in *; [done|].
  rewrite IH by lia. rewrite mem_get_insert, decide_False by lia. done.
Qed.

Lemma mem_read_ext m m' a n :
  (forall x, a <= x < a + Z.of_nat n -> mem_get m x = mem_get m' x) ->
  mem_read m a n = mem_read m' a n.
Proof.
  revert a. induction n as [|n IH]; intros a H; simpl; [done|].
  f_equal; [apply H; lia | apply IH; intros; apply H; lia].
Qed.

Lemma mem_read_write_disj m a bs' b n :
  region_disj (a, Z.of_nat (length bs')) (b, Z.of_nat n) ->
  mem_read (mem_write m a bs') b n = mem_read m b n.
Proof.
  unfold region_disj; simpl. intros H. apply mem_read_ext.
  intros x Hx. apply mem_get_write_out. lia.
Qed.

Lemma mem_read_write_same m a bs' :
  mem_read (mem_write m a bs') a (length bs') = bs'.
Proof.
  revert m a. induction bs' as [|b bs' IH]; intros m a; simpl; [done|].
  rewrite IH. f_equal. rewrite mem_get_write_out by lia.
  by rewrite mem_get_insert, decide_True.
Qed.

Lemma mem_read_app m a n k :
  mem_read m a (n + k) = mem_read m a n ++ mem_read m (a + Z.of_nat n) k.
Proof.
  revert a. induction n as [|n IH]; intros a; simpl.
  - f_equal. lia.
  - rewrite IH. do 3 f_equal. lia.
Qed.

Lemma mem_read_take m a n k :
  (k <= n)%nat -> mem_read m a k = take k (mem_read m a n).
Proof.
  intros. replace n with (k + (n - k))%nat by lia.
  rewrite mem_read_app, take_app_length'; [done | by rewrite length_mem_read].
Qed.

Lemma mem_read_write_prefix m a bs' k :
  (k <= length bs')%nat -> mem_read (mem_write m a bs') a k = take k bs'.
Proof.
  intros. rewrite (mem_read_take _ _ (length bs')) by done.
  by rewrite mem_read_write_same.
Qed.

Lemma mem_write_app m a l1 l2 :
  mem_write m a (l1 ++ l2) = mem_write (mem_write m a l1) (a + Z.of_nat (length l1)) l2.
Proof.
  revert m a. induction l1 as [|b l1 IH]; intros m a; simpl.
  - by rewrite Z.add_0_r.
  - rewrite IH. f_equal. lia.
Qed.

Lemma mem_get_write_bytes m a bs' x :
  Forall is_byte bs' -> is_byte (mem_get m x) ->
  is_byte (mem_get (mem_write m a bs') x).
Proof.
  revert m a. induction bs' as [|b bs' IH]; intros m a Hbs Hx; simpl; [done|].
  apply Forall_cons in Hbs as [Hb Hbs]. apply IH; [done|].
  rewrite mem_get_insert. by case_decide.
Qed.

(** ** Lemmas on regions *)

Lemma region_disj_sym r1 r2 : region_disj r1 r2 -> region_disj r2 r1.
Proof. unfold region_disj. tauto. Qed.

Lemma region_disj_sub r1 r1' r2 :
  region_disj r1 r2 -> region_sub r1' r1 -> region_disj r1' r2.
Proof. unfold region_disj, region_sub. lia. Qed.

Lemma regions_disj_app rs1 rs2 :
  regions_disj (rs1 ++ rs2) <->
  regions_disj rs1 /\ regions_disj rs2 /\
  (forall r1 r2, r1 ∈ rs1 -> r2 ∈ rs2 -> region_disj r1 r2).
Proof.
  induction rs1 as [|r rs1 IH]; simpl.
  - set_solver.
  - rewrite IH, Forall_app, !Forall_forall. set_solver.
Qed.

#[export] Instance regions_disj_perm : Proper ((≡ₚ) ==> iff) regions_disj.
Proof.
  intros l1 l2 H. induction H as [|x l1 l2 H IH|x y l|l1 l2 l3 _ IH1 _ IH2]; simpl.
  - done.
  - by rewrite IH, H.
  - rewrite !Forall_cons. split; intros ([Hxy Hy] & Hx & Hl); repeat split;
      try done; by apply region_disj_sym.
  - by rewrite IH1.
Qed.

#[export] Instance region_disj_dec r1 r2 : Decision (region_disj r1 r2).
Proof. unfold region_disj. apply _. Defined.

#[export] Instance regions_disj_dec rs : Decision (regions_disj rs).
Proof. induction rs; simpl; apply _. Defined.

(** ** Lemmas on lists *)

Lemma Forall_lookup_byte (l : list Z) (i : nat) (x : Z) :
  Forall is_byte l -> l !! i = Some x -> is_byte x.
Proof. intros Hl Hi. by eapply (Forall_lookup_1 _ _ _ _ Hl Hi). Qed.

Lemma Forall_repeat_n {A} (P : A -> Prop) x n : P x -> Forall P (replicate n x).
Proof. apply Forall_replicate. Qed.

Lemma take_app_exact {A} (l1 l2 : list A) n : length l1 = n -> take n (l1 ++ l2) = l1.
Proof. intros <-. by rewrite take_app_length. Qed.

Lemma drop_app_exact {A} (l1 l2 : list A) n : length l1 = n -> drop n (l1 ++ l2) = l2.
Proof. intros <-. by rewrite drop_app_length. Qed.

(** A slice of what a list was read back as. *)
Lemma mem_read_slice m a l off n :
  mem_read m a (length l) = l -> (off + n <= length l)%nat ->
  mem_read m (a + Z.of_nat off) n = take n (drop off l).
Proof.
  intros Hl Hn. rewrite <- Hl at 1.
  replace (length l) with (off + (n + (length l - off - n)))%nat by lia.
  rewrite !mem_read_app. rewrite drop_app_exact by apply length_mem_read.
  by rewrite take_app_exact by apply length_mem_read.
Qed.

(** What a list holds after one element was replaced. *)
Lemma list_insert_cases {A} (l : list A) i x' j y :
  <[i := x']> l !! j = Some y -> (j = i /\ y = x') \/ (j <> i /\ l !! j = Some y).
Proof.
  intros E. destruct (decide (j = i)) as [->|Hne].
  - left. split; [done|]. pose proof (lookup_lt_Some _ _ _ E) as Hl. rewrite length_insert in Hl.
    rewrite list_lookup_insert_eq in E by done. by injection E.
  - right. by rewrite list_lookup_insert_ne in E.
Qed.

(** Replacing the element at [i] splits the list as a permutation. *)
Lemma insert_perm {A} (l : list A) (i : nat) (x y : A) :
  l !! i = Some x -> exists l', l ≡ₚ x :: l' /\ <[i := y]> l ≡ₚ y :: l'.
Proof.
  intros Hi. exists (take i l ++ drop (S i) l).
  pose proof (lookup_lt_Some _ _ _ Hi).
  rewrite insert_take_drop by done. split.
  - rewrite <- (take_drop_middle l i x Hi) at 1.
    by rewrite Permutation_middle.
  - by rewrite Permutation_middle.
Qed.

(** ** Agreement of two memories on a set of regions *)

Definition agree (m m' : bytemap) (rs : list region) : Prop :=
  forall r x, r ∈ rs -> r.1 <= x < r.1 + r.2 -> mem_get m x = mem_get m' x.

Lemma agree_refl m rs : agree m m rs.
Proof. done. Qed.

Lemma agree_trans m1 m2 m3 rs : agree m1 m2 rs -> agree m2 m3 rs -> agree m1 m3 rs.
Proof. intros H1 H2 r x Hr Hx. by rewrite (H1 r x), (H2 r x). Qed.

Lemma agree_sub m m' rs rs' : agree m m' rs -> rs' ⊆ rs -> agree m m' rs'.
Proof. intros H Hs r x Hr Hx. apply (H r x); [by apply Hs | done]. Qed.

Lemma agree_write m a bs' rs :
  Forall (region_disj (a, Z.of_nat (length bs'))) rs -> agree m (mem_write m a bs') rs.
Proof.
  intros Hd r x Hr Hx. rewrite mem_get_write_out; [done|].
  rewrite Forall_forall in Hd. specialize (Hd r Hr). unfold region_disj in Hd. simpl in Hd. lia.
Qed.

Lemma agree_read m m' rs r a n :
  agree m m' rs -> r ∈ rs -> region_sub (a, Z.of_nat n) r ->
  mem_read m a n = mem_read m' a n.
Proof.
  unfold region_sub; simpl. intros H Hr Hs. apply mem_read_ext.
  intros x Hx. apply (H r x Hr). lia.
Qed.

#[export] Hint Resolve agree_refl : vc.

#[global] Arguments le_encode : simpl never.
#[global] Arguments le_decode : simpl never.
#[global] Arguments mem_read : simpl never.
#[global] Arguments mem_write : simpl never.
#[global] Arguments Z.pow : simpl never.
#[global] Arguments Z.modulo : simpl never.
#[global] Arguments Z.div : simpl never.
#[global] Arguments Z.land : simpl never.
#[global] Arguments Z.lor : simpl never.
#[global] Arguments Z.lxor : simpl never.
#[global] Arguments Z.shiftl : simpl never.
#[global] Arguments Z.shiftr : simpl never.
