(* ===== verification/Hash.v ===== *)
(** * Hash functions and index arithmetic

    [src/src/voidcache.c], lines 52-150 and 350-361: [next_pow2_32], the
    xxHash32 checksum of the write-ahead log, the wyhash64 key hash, and the
    arithmetic that turns a hash into a shard and a slot.  Every load from the
    key goes through [rd], which is [None] outside the buffer, so a hash that
    is [Some _] performed no out-of-bounds read. *)

From S2P Require Import Prelude.

(** ** Definitions *)

(** [v |= v >> 1; v |= v >> 2; ... v |= v >> 16;] *)
Definition smear32 (v : Z) : Z :=
  let v := Z.lor v (Z.shiftr v 1) in
  let v := Z.lor v (Z.shiftr v 2) in
  let v := Z.lor v (Z.shiftr v 4) in
  let v := Z.lor v (Z.shiftr v 8) in
  Z.lor v (Z.shiftr v 16).

Definition next_pow2_32 (v : Z) : Z :=
  if v =? 0 then 1 else u32 (smear32 (u32 (v - 1)) + 1).

(** A little-endian load of [n] bytes at offset [off] of a buffer. *)
Definition rd (buf : list Z) (off : Z) (n : nat) : option Z :=
  if (0 <=? off) && (off + Z.of_nat n <=? Z.of_nat (length buf))
  then Some (le_decode (take n (drop (Z.to_nat off) buf)))
  else None.

Definition XXH_PRIME1 : Z := 0x9E3779B1.
Definition XXH_PRIME2 : Z := 0x85EBCA77.
Definition XXH_PRIME3 : Z := 0xC2B2AE3D.
Definition XXH_PRIME4 : Z := 0x27D4EB2F.
Definition XXH_PRIME5 : Z := 0x165667B1.

Definition rotl32 (x r : Z) : Z :=
  u32 (Z.lor (Z.shiftl x r) (Z.shiftr x (32 - r))).

(** [v = rotl32(v + w*P2, 13)*P1] *)
Definition xxh_round (v w : Z) : Z :=
  u32 (rotl32 (u32 (v + u32 (w * XXH_PRIME2))) 13 * XXH_PRIME1).

Definition lanes : Type := Z * Z * Z * Z.

(** The [do .. while (p <= end - 16)] loop; [p] is the offset from [data]. *)
Fixpoint xxh_stripes (fuel : nat) (data : list Z) (p : Z) (v : lanes)
    : option (Z * lanes) :=
  match fuel with
  | O => None
  | S fuel =>
      let '(v1, v2, v3, v4) := v in
      w1 ← rd data p 4;
      w2 ← rd data (p + 4) 4;
      w3 ← rd data (p + 8) 4;
      w4 ← rd data (p + 12) 4;
      let v := (xxh_round v1 w1, xxh_round v2 w2, xxh_round v3 w3, xxh_round v4 w4) in
      if p + 16 <=? Z.of_nat (length data) - 16
      then xxh_stripes fuel data (p + 16) v
      else Some (p + 16, v)
  end.

Definition xxh_word (h w : Z) : Z :=
  u32 (rotl32 (u32 (h + u32 (w * XXH_PRIME3))) 17 * XXH_PRIME4).

Definition xxh_byte (h b : Z) : Z :=
  u32 (rotl32 (u32 (h + u32 (b * XXH_PRIME5))) 11 * XXH_PRIME1).

(** [while (p <= end - 4)] *)
Fixpoint xxh_words (fuel : nat) (data : list Z) (p h : Z) : option (Z * Z) :=
  match fuel with
  | O => None
  | S fuel =>
      if p <=? Z.of_nat (length data) - 4
      then w ← rd data p 4; xxh_words fuel data (p + 4) (xxh_word h w)
      else Some (p, h)
  end.

(** [while (p < end)] *)
Fixpoint xxh_bytes (fuel : nat) (data : list Z) (p h : Z) : option Z :=
  match fuel with
  | O => None
  | S fuel =>
      if p <? Z.of_nat (length data)
      then b ← rd data p 1; xxh_bytes fuel data (p + 1) (xxh_byte h b)
      else Some h
  end.

Definition xxh_merge (v : lanes) : Z :=
  let '(v1, v2, v3, v4) := v in
  u32 (rotl32 v1 1 + rotl32 v2 7 + rotl32 v3 12 + rotl32 v4 18).

Definition xxh_avalanche (h : Z) : Z :=
  let h := Z.lxor h (Z.shiftr h 15) in
  let h := u32 (h * XXH_PRIME2) in
  let h := Z.lxor h (Z.shiftr h 13) in
  let h := u32 (h * XXH_PRIME3) in
  Z.lxor h (Z.shiftr h 16).

Definition xxh_init (seed : Z) : lanes :=
  (u32 (seed + XXH_PRIME1 + XXH_PRIME2), u32 (seed + XXH_PRIME2), seed,
   u32 (seed - XXH_PRIME1)).

(** Fuel [length data + 1] covers every loop: each iteration advances [p]. *)
Definition xxh32 (data : list Z) (seed : Z) : option Z :=
  let len := Z.of_nat (length data) in
  let fuel := S (length data) in
  '(p, h) ← (if 16 <=? len then
               '(p, v) ← xxh_stripes fuel data 0 (xxh_init seed);
               Some (p, xxh_merge v)
             else Some (0, u32 (seed + XXH_PRIME5)));
  let h := u32 (h + u32 len) in
  '(p, h) ← xxh_words fuel data p h;
  h ← xxh_bytes fuel data p h;
  Some (xxh_avalanche h).

Definition wymix (a b : Z) : Z :=
  let r := a * b in
  Z.lxor (u64 r) (u64 (Z.shiftr r 64)).

(** [while (i > 32)] of [wyhash64]: returns [p], [i], [a], [b]. *)
Fixpoint wy_blocks (fuel : nat) (key : list Z) (p i a b : Z)
    : option (Z * Z * Z * Z) :=
  match fuel with
  | O => None
  | S fuel =>
      if 32 <? i then
        x ← rd key p 8; y ← rd key (p + 8) 8;
        let a := wymix (Z.lxor a x) (Z.lxor b y) in
        x ← rd key (p + 16) 8; y ← rd key (p + 24) 8;
        let b := wymix (Z.lxor a x) (Z.lxor b y) in
        wy_blocks fuel key (p + 32) (i - 32) a b
      else Some (p, i, a, b)
  end.

(** The pair [(a, b)] that the key contributes, by length class. *)
Definition wy_ab (key : list Z) : option (Z * Z) :=
  let len := Z.of_nat (length key) in
  if len <=? 16 then
    if 4 <=? len then
      lo ← rd key 0 4;
      hi ← rd key (Z.shiftr len 1 - 2) 4;
      lo2 ← rd key (len - 4) 4;
      hi2 ← rd key (len - 4 - Z.shiftr len 1 + 2) 4;
      Some (Z.lor (u64 (Z.shiftl lo 32)) hi, Z.lor (u64 (Z.shiftl lo2 32)) hi2)
    else if 0 <? len then
      b0 ← rd key 0 1;
      bm ← rd key (Z.shiftr len 1) 1;
      bl ← rd key (len - 1) 1;
      Some (Z.lor (Z.lor (Z.shiftl b0 16) (Z.shiftl bm 8)) bl, 0)
    else Some (0, 0)
  else
    '(p, i, a, b) ← wy_blocks (S (length key)) key 0 len 0 0;
    '(p, i, a) ← (if 16 <? i then
                    x ← rd key p 8; y ← rd key (p + 8) 8;
                    Some (p + 16, i - 16, wymix (Z.lxor a x) (Z.lxor b y))
                  else Some (p, i, a));
    x ← rd key (p + i - 16 + (if 8 <? i then 0 else 8 - i)) 8;
    y ← rd key (p + i - 8) 8;
    Some (Z.lxor a x, Z.lxor b y).

Definition wyhash64_opt (key : list Z) (seed : Z) : option Z :=
  let seed := Z.lxor seed (wymix (Z.lxor seed 0x9e3779b97f4a7c15) 0xa0761d6478bd642f) in
  '(a, b) ← wy_ab key;
  Some (wymix (Z.lxor seed (Z.of_nat (length key)))
              (wymix (Z.lxor a 0x9e3779b97f4a7c15) (Z.lxor b 0xe7037ed1a0b428db))).

(** The hash as the callers use it; [wyhash64_total] shows that the default
    is never taken. *)
Definition wyhash64 (key : list Z) (seed : Z) : Z := default 0 (wyhash64_opt key seed).

Definition VC_SHARD_BITS : Z := 6.
Definition VC_NUM_SHARDS : Z := 64.

Definition shard_idx (h : Z) : Z := u32 (Z.shiftr h (64 - VC_SHARD_BITS)).

Definition table_slot (h cap : Z) : Z := u32 (Z.land h (u32 (cap - 1))).

Definition probe_dist (h slot cap : Z) : Z :=
  let ideal := table_slot h cap in
  Z.land (u32 (slot + cap - ideal)) (u32 (cap - 1)).

(** ** Reference definition of XXH32 (xxHash specification, section XXH32)

    It consumes the input as a list: stripes of sixteen bytes, then words of
    four, then single bytes. *)

Fixpoint spec_stripes (data : list Z) (v : lanes) : lanes * list Z :=
  match data with
  | a0 :: a1 :: a2 :: a3 :: b0 :: b1 :: b2 :: b3 ::
    c0 :: c1 :: c2 :: c3 :: d0 :: d1 :: d2 :: d3 :: rest =>
      let '(v1, v2, v3, v4) := v in
      spec_stripes rest
        (xxh_round v1 (le_decode [a0; a1; a2; a3]),
         xxh_round v2 (le_decode [b0; b1; b2; b3]),
         xxh_round v3 (le_decode [c0; c1; c2; c3]),
         xxh_round v4 (le_decode [d0; d1; d2; d3]))
  | _ => (v, data)
  end.

Fixpoint spec_tail (data : list Z) (h : Z) : Z :=
  match data with
  | a0 :: a1 :: a2 :: a3 :: rest => spec_tail rest (xxh_word h (le_decode [a0; a1; a2; a3]))
  | a0 :: rest => spec_tail rest (xxh_byte h a0)
  | [] => h
  end.

Definition xxh32_spec (data : list Z) (seed : Z) : Z :=
  let len := Z.of_nat (length data) in
  let '(h, rest) :=
    if 16 <=? len
    then let '(v, rest) := spec_stripes data (xxh_init seed) in (xxh_merge v, rest)
    else (u32 (seed + XXH_PRIME5), data) in
  xxh_avalanche (spec_tail rest (u32 (h + u32 len))).

(** ** Loads *)

Lemma rd_prefix data p n pre rest :
  0 <= p -> drop (Z.to_nat p) data = pre ++ rest -> length pre = S n ->
  rd data p (S n) = Some (le_decode pre).
Proof.
  intros Hp Hd Hn. unfold rd.
  assert (Hlen : (length (drop (Z.to_nat p) data) = S n + length rest)%nat)
    by (rewrite Hd, length_app; lia).
  rewrite length_drop in Hlen.
  rewrite Hd, take_app_exact by done.
  destruct (Z.leb_spec 0 p); [|lia].
  by destruct (Z.leb_spec (p + Z.of_nat (S n)) (Z.of_nat (length data))); [|lia].
Qed.

Lemma rd_in_bounds data off n :
  0 <= off -> off + Z.of_nat n <= Z.of_nat (length data) ->
  exists w, rd data off n = Some w.
Proof.
  intros H1 H2. unfold rd.
  destruct (Z.leb_spec 0 off); [|lia].
  destruct (Z.leb_spec (off + Z.of_nat n) (Z.of_nat (length data))); [|lia].
  by eexists.
Qed.

(** Proves that a load of the goal succeeds, from its bounds. *)
Ltac rd_ok :=
  match goal with
  | |- context [rd ?d ?o ?n] =>
      let w := fresh "w" in let Hw := fresh "Hw" in
      destruct (rd_in_bounds d o n) as [w Hw]; [lia | lia |];
      rewrite Hw; clear Hw; cbn [mbind option_bind]
  end.

Lemma drop_app_next {A} (data pre rest : list A) p k :
  0 <= p -> drop (Z.to_nat p) data = pre ++ rest -> Z.of_nat (length pre) = k ->
  drop (Z.to_nat (p + k)) data = rest.
Proof.
  intros Hp Hd <-. replace (Z.to_nat (p + Z.of_nat (length pre)))
    with (Z.to_nat p + length pre)%nat by lia.
  by rewrite <- drop_drop, Hd, drop_app_length.
Qed.

(** ** xxHash32 *)

#[local] Opaque xxh_byte xxh_word xxh_round.

Lemma xxh_bytes_spec fuel data p h :
  0 <= p -> (length (drop (Z.to_nat p) data) < fuel)%nat ->
  (length (drop (Z.to_nat p) data) < 4)%nat ->
  xxh_bytes fuel data p h = Some (spec_tail (drop (Z.to_nat p) data) h).
Proof.
  revert p h. induction fuel as [|fuel IH]; intros p h Hp Hf H4; [lia|].
  cbn [xxh_bytes]. destruct (drop (Z.to_nat p) data) as [|b rest] eqn:Hd.
  - apply (f_equal length) in Hd. rewrite length_drop in Hd. simpl in Hd.
    by destruct (Z.ltb_spec p (Z.of_nat (length data))); [lia|].
  - pose proof (drop_app_next data [b] rest p 1 Hp Hd eq_refl) as Hn.
    pose proof (f_equal length Hd) as Hl. rewrite length_drop in Hl. simpl in Hl, Hf, H4.
    destruct (Z.ltb_spec p (Z.of_nat (length data))); [|lia].
    rewrite (rd_prefix data p 0 [b] rest) by done. cbn [mbind option_bind].
    rewrite IH; rewrite ?Hn; [|lia..].
    replace (le_decode [b]) with b by (unfold le_decode; lia).
    destruct rest as [|? [|? [|? ?]]]; [reflexivity..|simpl in H4; lia].
Qed.

Lemma xxh_words_spec fuel data p h :
  0 <= p -> (length (drop (Z.to_nat p) data) < fuel)%nat ->
  exists p' h', xxh_words fuel data p h = Some (p', h') /\ p <= p' /\
    (length (drop (Z.to_nat p') data) < 4)%nat /\
    spec_tail (drop (Z.to_nat p') data) h' = spec_tail (drop (Z.to_nat p) data) h.
Proof.
  revert p h. induction fuel as [|fuel IH]; intros p h Hp Hf; [lia|].
  cbn [xxh_words]. destruct (Z.leb_spec p (Z.of_nat (length data) - 4)) as [Hle|Hgt].
  - destruct (drop (Z.to_nat p) data) as [|a [|b [|c [|d rest]]]] eqn:Hd;
      pose proof (f_equal length Hd) as Hl; rewrite length_drop in Hl; simpl in Hl, Hf; try lia.
    rewrite (rd_prefix data p 3 [a; b; c; d] rest) by done. cbn [mbind option_bind].
    pose proof (drop_app_next data [a; b; c; d] rest p 4 Hp Hd eq_refl) as Hn.
    destruct (IH (p + 4) (xxh_word h (le_decode [a; b; c; d]))) as (p' & h' & -> & Hle' & H4 & Heq);
      rewrite ?Hn in *; [lia..|].
    exists p', h'. repeat split; [lia | done |]. rewrite Heq. reflexivity.
  - exists p, h. repeat split; [lia|]. rewrite length_drop. lia.
Qed.

Lemma xxh_stripes_spec fuel data p v :
  0 <= p -> (16 <= length (drop (Z.to_nat p) data) < fuel)%nat ->
  exists p' v', xxh_stripes fuel data p v = Some (p', v') /\ p <= p' /\
    spec_stripes (drop (Z.to_nat p) data) v = (v', drop (Z.to_nat p') data).
Proof.
  revert p v. induction fuel as [|fuel IH]; intros p v Hp Hf; [lia|].
  destruct (drop (Z.to_nat p) data)
    as [|a0 [|a1 [|a2 [|a3 [|b0 [|b1 [|b2 [|b3 [|c0 [|c1 [|c2 [|c3 [|d0 [|d1 [|d2 [|d3 rest]]]]]]]]]]]]]]]]
    eqn:Hd; try (simpl in Hf; lia).
  pose proof (f_equal length Hd) as Hl. rewrite length_drop in Hl. simpl in Hl, Hf.
  pose proof (drop_app_next data [a0; a1; a2; a3] _ p 4 Hp Hd eq_refl) as H1.
  pose proof (drop_app_next data [a0; a1; a2; a3; b0; b1; b2; b3] _ p 8 Hp Hd eq_refl) as H2.
  pose proof (drop_app_next data [a0; a1; a2; a3; b0; b1; b2; b3; c0; c1; c2; c3] _ p 12 Hp Hd eq_refl) as H3.
  pose proof (drop_app_next data [a0; a1; a2; a3; b0; b1; b2; b3; c0; c1; c2; c3; d0; d1; d2; d3]
                rest p 16 Hp Hd eq_refl) as H4.
  cbn [xxh_stripes spec_stripes]. destruct v as [[[v1 v2] v3] v4].
  rewrite (rd_prefix data p 3 [a0; a1; a2; a3] _ Hp Hd) by done. cbn [mbind option_bind].
  rewrite (rd_prefix data (p + 4) 3 [b0; b1; b2; b3] (c0 :: c1 :: c2 :: c3 :: d0 :: d1 :: d2 :: d3 :: rest)) by (try done; lia).
  rewrite (rd_prefix data (p + 8) 3 [c0; c1; c2; c3] (d0 :: d1 :: d2 :: d3 :: rest)) by (try done; lia).
  rewrite (rd_prefix data (p + 12) 3 [d0; d1; d2; d3] rest) by (try done; lia).
  cbn [mbind option_bind].
  destruct (Z.leb_spec (p + 16) (Z.of_nat (length data) - 16)) as [Hle|Hgt].
  - destruct (IH (p + 16) (xxh_round v1 (le_decode [a0; a1; a2; a3]),
       xxh_round v2 (le_decode [b0; b1; b2; b3]), xxh_round v3 (le_decode [c0; c1; c2; c3]),
       xxh_round v4 (le_decode [d0; d1; d2; d3]))) as (p' & v' & -> & Hp' & Heq); [lia| |].
    + rewrite H4. lia.
    + exists p', v'. rewrite H4 in Heq. repeat split; [lia | exact Heq].
  - eexists (p + 16), _. repeat split; [lia|]. rewrite H4.
    do 16 (destruct rest as [|? rest]; [reflexivity|]). simpl in Hl. lia.
Qed.

Lemma xxh32_spec_ok data seed : xxh32 data seed = Some (xxh32_spec data seed).
Proof.
  unfold xxh32, xxh32_spec. destruct (Z.leb_spec 16 (Z.of_nat (length data))) as [H|H].
  - destruct (xxh_stripes_spec (S (length data)) data 0 (xxh_init seed))
      as (p & v & -> & Hp & Hs); [lia | simpl; rewrite drop_0; lia |].
    cbn [mbind option_bind]. change (Z.to_nat 0) with 0%nat in Hs. rewrite drop_0 in Hs. rewrite Hs.
    destruct (xxh_words_spec (S (length data)) data p (u32 (xxh_merge v + u32 (Z.of_nat (length data)))))
      as (p' & h' & -> & Hp' & H4 & Heq); [lia | rewrite length_drop; lia |].
    cbn [mbind option_bind]. rewrite xxh_bytes_spec, Heq by (rewrite ?length_drop in *; lia).
    reflexivity.
  - cbn [mbind option_bind].
    destruct (xxh_words_spec (S (length data)) data 0
                (u32 (u32 (seed + XXH_PRIME5) + u32 (Z.of_nat (length data)))))
      as (p' & h' & -> & Hp' & H4 & Heq); [lia | rewrite length_drop; lia |].
    cbn [mbind option_bind]. rewrite xxh_bytes_spec, Heq by (rewrite ?length_drop in *; lia).
    change (Z.to_nat 0) with 0%nat. rewrite drop_0. reflexivity.
Qed.

(** The index-based loops of [xxh32] compute, for every input and seed and
    without any read outside the buffer, the XXH32 digest of the reference
    definition that consumes stripes, words and bytes from a list. *)
Theorem xxh32_equiv data seed : xxh32 data seed = Some (xxh32_spec data seed).
Proof. apply xxh32_spec_ok. Qed.

(** The published XXH32 test vectors. *)
Example xxh32_empty : xxh32 [] 0 = Some 0x02CC5D05.
Proof. reflexivity. Qed.
Example xxh32_text : xxh32 (bs "Nobody inspects the spammish repetition") 0 = Some 0xE2293B2F.
Proof. vm_compute. reflexivity. Qed.

#[local] Transparent xxh_byte xxh_word xxh_round.

(** ** wyhash64 *)

Lemma wymix_range a b : 0 <= wymix a b < 2 ^ 64.
Proof. apply lxor_range; auto using u64_range. lia. Qed.

Lemma wy_blocks_total fuel key p i a b :
  0 <= p -> p + i = Z.of_nat (length key) -> 16 < i -> i < Z.of_nat fuel ->
  exists p' i' a' b', wy_blocks fuel key p i a b = Some (p', i', a', b') /\
    p <= p' /\ p' + i' = Z.of_nat (length key) /\ 0 < i' <= 32 /\ (i' <= 16 -> 32 <= p').
Proof.
  revert p i a b. induction fuel as [|fuel IH]; intros p i a b Hp Hs Hi Hf; [lia|].
  cbn [wy_blocks]. destruct (Z.ltb_spec 32 i); [|exists p, i, a, b; repeat split; lia].
  do 4 rd_ok.
  destruct (Z.le_gt_cases (i - 32) 16) as [Hle|Hgt].
  - destruct fuel as [|fuel]; [lia|]. cbn [wy_blocks].
    destruct (Z.ltb_spec 32 (i - 32)); [lia|]. do 4 eexists. repeat split; try lia.
  - edestruct (IH (p + 32) (i - 32)) as (p' & i' & a' & b' & -> & ?); [lia..|].
    exists p', i', a', b'. split; [done|]. lia.
Qed.

Lemma wy_ab_total key : exists a b, wy_ab key = Some (a, b).
Proof.
  unfold wy_ab. set (len := Z.of_nat (length key)).
  assert (Hsh : Z.shiftr len 1 = len / 2) by (rewrite Z.shiftr_div_pow2; [done | lia]).
  rewrite Hsh. destruct (Z.leb_spec len 16).
  - destruct (Z.leb_spec 4 len).
    + assert (2 <= len / 2 /\ 2 * (len / 2) <= len <= 2 * (len / 2) + 1) by zdivlia.
      do 4 rd_ok. by do 2 eexists.
    + destruct (Z.ltb_spec 0 len); [|by do 2 eexists].
      assert (0 <= len / 2 < len) by zdivlia.
      do 3 rd_ok. by do 2 eexists.
  - edestruct (wy_blocks_total (S (length key)) key 0 len 0 0)
      as (p & i & a & b & -> & Hp & Hs & Hi & H16); [lia..|].
    cbn [mbind option_bind]. destruct (Z.ltb_spec 16 i); cbn [mbind option_bind].
    + do 2 rd_ok. destruct (Z.ltb_spec 8 (i - 16)); do 2 rd_ok; by do 2 eexists.
    + destruct (Z.ltb_spec 8 i); do 2 rd_ok; by do 2 eexists.
Qed.

Lemma wyhash64_opt_some key seed :
  exists h, wyhash64_opt key seed = Some h /\ 0 <= h < 2 ^ 64.
Proof.
  unfold wyhash64_opt. destruct (wy_ab_total key) as (a & b & ->).
  eexists. split; [reflexivity | apply wymix_range].
Qed.

Lemma wyhash64_range key seed : 0 <= wyhash64 key seed < 2 ^ 64.
Proof. unfold wyhash64. by destruct (wyhash64_opt_some key seed) as (h & -> & ?). Qed.

(** [wyhash64] reads only bytes of the key for every key length (all the
    overlapping-load branches included) and returns a 64-bit word. *)
Theorem wyhash64_total key seed :
  wyhash64_opt key seed = Some (wyhash64 key seed) /\ 0 <= wyhash64 key seed < 2 ^ 64.
Proof.
  unfold wyhash64. by destruct (wyhash64_opt_some key seed) as (h & -> & ?).
Qed.

(** ** Shard and slot arithmetic *)

Lemma shard_idx_range h : 0 <= h < 2 ^ 64 -> 0 <= shard_idx h < VC_NUM_SHARDS.
Proof.
  intros. unfold shard_idx, VC_SHARD_BITS, VC_NUM_SHARDS.
  rewrite Z.shiftr_div_pow2 by lia.
  assert (0 <= h / 2 ^ (64 - 6) < 64) by zdivlia.
  rewrite u32_id; lia.
Qed.

Lemma table_slot_mod h k : 0 <= k <= 31 -> table_slot h (2 ^ k) = h mod 2 ^ k.
Proof.
  intros Hk. unfold table_slot.
  assert (0 < 2 ^ k <= 2 ^ 31) by (split; [apply Z.pow_pos_nonneg | apply Z.pow_le_mono_r]; lia).
  rewrite (u32_id (2 ^ k - 1)), land_mask by lia. apply u32_id.
  pose proof (Z.mod_pos_bound h (2 ^ k)). lia.
Qed.

Lemma probe_dist_mod h slot k :
  0 <= k <= 31 -> 0 <= slot < 2 ^ k ->
  probe_dist h slot (2 ^ k) = (slot - h) mod 2 ^ k.
Proof.
  intros Hk Hs. unfold probe_dist. rewrite table_slot_mod by done.
  assert (0 < 2 ^ k <= 2 ^ 31) by (split; [apply Z.pow_pos_nonneg | apply Z.pow_le_mono_r]; lia).
  pose proof (Z.mod_pos_bound h (2 ^ k)).
  rewrite (u32_id (2 ^ k - 1)), land_mask by lia. rewrite u32_id by lia.
  replace (slot + 2 ^ k - h mod 2 ^ k) with (slot - h mod 2 ^ k + 1 * 2 ^ k) by lia.
  rewrite Z.mod_add by lia. apply Zminus_mod_idemp_r.
Qed.

(** One smearing step doubles the run of set bits below the leading bit. *)
Definition top_run (n w x : Z) : Prop :=
  0 <= x /\ (forall i, n < i -> Z.testbit x i = false) /\
  (forall i, 0 <= i -> n - w < i <= n -> Z.testbit x i = true).

Lemma top_run_smear n w x :
  0 < w -> top_run n w x -> top_run n (w + w) (Z.lor x (Z.shiftr x w)).
Proof.
  intros Hw (Hx & Hhi & Hlo). repeat split.
  - apply Z.lor_nonneg. split; [done|]. by apply Z.shiftr_nonneg.
  - intros i Hi. rewrite Z.lor_spec, Hhi by done. simpl.
    destruct (Z.neg_nonneg_cases i); [by rewrite Z.testbit_neg_r|].
    rewrite Z.shiftr_spec by done. apply Hhi. lia.
  - intros i H0 Hi. rewrite Z.lor_spec, Z.shiftr_spec by done.
    destruct (Z.le_gt_cases i (n - w)) as [Hle|Hgt].
    + rewrite (Hlo (i + w)) by lia. apply orb_true_r.
    + by rewrite Hlo by lia.
Qed.

Lemma top_run_full n w x : 0 <= n -> n < w -> top_run n w x -> x = 2 ^ (n + 1) - 1.
Proof.
  intros Hn Hw (Hx & Hhi & Hlo).
  replace (2 ^ (n + 1) - 1) with (Z.ones (n + 1)) by (rewrite Z.ones_equiv; lia).
  apply Z.bits_inj'. intros i Hi. destruct (Z.le_gt_cases i n) as [Hle|Hgt].
  - rewrite Z.ones_spec_low by lia. apply Hlo; lia.
  - rewrite Z.ones_spec_high by lia. apply Hhi; lia.
Qed.

Lemma smear32_spec x :
  0 < x < 2 ^ 32 -> smear32 x = 2 ^ (Z.log2 x + 1) - 1.
Proof.
  intros Hx. assert (Z.log2 x < 32) by (apply Z.log2_lt_pow2; lia).
  assert (Hrun : top_run (Z.log2 x) 1 x).
  { repeat split; [lia| |]; intros i; [intros; apply Z.bits_above_log2; lia|].
    intros H0 Hi. replace i with (Z.log2 x) by lia. apply Z.bit_log2. lia. }
  apply (top_run_full _ 32); [apply Z.log2_nonneg | lia |].
  unfold smear32. do 5 (apply top_run_smear in Hrun; [|lia]). exact Hrun.
Qed.

Lemma next_pow2_32_cases v :
  0 <= v < 2 ^ 32 ->
  (v <= 2 ^ 31 -> exists k, 0 <= k <= 31 /\ next_pow2_32 v = 2 ^ k /\ v <= 2 ^ k /\
                            (forall j, 0 <= j -> v <= 2 ^ j -> k <= j)) /\
  (2 ^ 31 < v -> next_pow2_32 v = 0).
Proof.
  intros Hv. unfold next_pow2_32.
  destruct (Z.eqb_spec v 0) as [->|Hv0].
  { split; [|lia]. intros _. exists 0. repeat split; lia. }
  rewrite (u32_id (v - 1)) by lia. destruct (Z.eq_dec v 1) as [->|Hv1].
  { split; [|lia]. intros _. exists 0. repeat split; try lia. }
  rewrite smear32_spec by lia. set (n := Z.log2 (v - 1)).
  assert (Hn : 0 <= n /\ 2 ^ n <= v - 1 < 2 ^ (n + 1)).
  { split; [apply Z.log2_nonneg|]. apply Z.log2_spec. lia. }
  replace (2 ^ (n + 1) - 1 + 1) with (2 ^ (n + 1)) by lia. split.
  - intros Hle. assert (n < 31) by (apply (Z.pow_lt_mono_r_iff 2); lia).
    exists (n + 1). pose proof (Z.pow_lt_mono_r 2 (n + 1) 32).
    split; [lia|]. split; [rewrite u32_id; lia|]. split; [lia|].
    intros j Hj Hvj. apply Z.le_succ_l. apply (Z.pow_lt_mono_r_iff 2); lia.
  - intros Hgt. assert (n < 32) by (apply (Z.pow_lt_mono_r_iff 2); lia).
    assert (31 < n + 1) by (apply (Z.pow_lt_mono_r_iff 2); lia).
    by replace n with 31 by lia.
Qed.

(** For every capacity request up to 2^31, [next_pow2_32] is the least power
    of two that is at least the request (and 1 for a request of 0); above 2^31
    the sum wraps to 0. *)
Theorem next_pow2_32_spec v :
  0 <= v < 2 ^ 32 ->
  (v <= 2 ^ 31 -> exists k, 0 <= k <= 31 /\ next_pow2_32 v = 2 ^ k /\ v <= 2 ^ k /\
                            (forall j, 0 <= j -> v <= 2 ^ j -> k <= j)) /\
  (2 ^ 31 < v -> next_pow2_32 v = 0).
Proof. apply next_pow2_32_cases. Qed.

Lemma next_pow2_32_witness :
  (exists k, 0 <= k <= 31 /\ next_pow2_32 1000 = 2 ^ k /\ 1000 <= 2 ^ k /\
             (forall j, 0 <= j -> 1000 <= 2 ^ j -> k <= j)) /\
  next_pow2_32 (2 ^ 31 + 1) = 0.
Proof.
  split.
  - apply (next_pow2_32_spec 1000); lia.
  - apply (next_pow2_32_spec (2 ^ 31 + 1)); lia.
Defined.
