(* ===== verification/Slab.v ===== *)
(** * Heap and slab allocator

    [src/src/voidcache.c], lines 197-289, with the part of the C library and of
    the kernel it relies on ([malloc], [free], [mmap], [munmap]).

    A heap is a flat byte memory with the table of the live [malloc] blocks and
    of the live mappings.  What [malloc] and [mmap] answer is an argument of
    every operation that calls them ([None]: the call failed); the addresses
    must be fresh, which is a hypothesis where it matters.  [free] and [munmap]
    of something that is not live are undefined, and are [None] here. *)

From S2P Require Import Prelude.

(** ** Error codes of the public interface *)
Inductive vc_err : Type :=
| VC_OK
| VC_ERR_OOM
| VC_ERR_FULL
| VC_ERR_NOTFND
| VC_ERR_EXPIRED
| VC_ERR_WAL
| VC_ERR_INVAL.

#[export] Instance vc_err_eq_dec : EqDecision vc_err.
Proof. solve_decision. Defined.

(** ** Heap *)

Record heap := Heap {
  h_bytes : bytemap;
  h_mallocs : gmap Z Z;       (** live [malloc] blocks: address, size *)
  h_maps : gmap Z Z;          (** live mappings: address, length *)
  h_remnants : list region    (** parts of mappings that nothing can unmap *)
}.

Definition PAGE_SIZE : Z := 4096.

Definition with_bytes (h : heap) (m : bytemap) : heap :=
  Heap m (h_mallocs h) (h_maps h) (h_remnants h).

Definition write (h : heap) (a : Z) (bs' : list Z) : heap :=
  with_bytes h (mem_write (h_bytes h) a bs').

(** [memcpy] of a pointer-sized word. *)
Definition read64 (m : bytemap) (a : Z) : Z := le_decode (mem_read m a 8).
Definition write64 (h : heap) (a v : Z) : heap := write h a (le_encode 8 v).

Definition malloc (ans : option Z) (n : Z) (h : heap) : option Z * heap :=
  match ans with
  | Some a => (Some a, Heap (h_bytes h) (<[a := n]> (h_mallocs h)) (h_maps h) (h_remnants h))
  | None => (None, h)
  end.

Definition free (a : Z) (h : heap) : option heap :=
  match h_mallocs h !! a with
  | Some _ => Some (Heap (h_bytes h) (delete a (h_mallocs h)) (h_maps h) (h_remnants h))
  | None => None
  end.

Definition mmap_anon (ans : option Z) (n : Z) (h : heap) : option Z * heap :=
  match ans with
  | Some a => (Some a, Heap (h_bytes h) (h_mallocs h) (<[a := n]> (h_maps h)) (h_remnants h))
  | None => (None, h)
  end.

Definition page_round (n : Z) : Z := (n + PAGE_SIZE - 1) / PAGE_SIZE * PAGE_SIZE.

(** Unmapping a prefix leaves the rest of the mapping behind. *)
Definition munmap (a len : Z) (h : heap) : option heap :=
  match h_maps h !! a with
  | Some n =>
      let r := page_round len in
      Some (Heap (h_bytes h) (h_mallocs h) (delete a (h_maps h))
                 (if n <=? r then h_remnants h else (a + r, n - r) :: h_remnants h))
  | None => None
  end.

(** ** Slab allocator *)

Definition VC_SLAB_CLASSES : nat := 16.
Definition VC_SLAB_BASE : Z := 64.
Definition SLAB_ARENA_MB : Z := 16.
Definition SLAB_ARENA_BYTES : Z := SLAB_ARENA_MB * 1024 * 1024.

Record vc_slab_class := SlabClass {
  sc_head : Z;            (** Treiber stack head, 0 is NULL *)
  sc_arena : Z;
  sc_block_size : Z;
  sc_arena_size : Z;
  sc_alloc_count : Z;
  sc_free_count : Z
}.

Abbreviation vc_slab := (list vc_slab_class).

Definition slab_class_size (cls : Z) : Z := u64 (Z.shiftl VC_SLAB_BASE cls).

Fixpoint slab_class_loop (fuel : nat) (sz s cls : Z) : Z :=
  match fuel with
  | O => cls
  | S fuel =>
      if (s <? sz) && (cls <? Z.of_nat VC_SLAB_CLASSES - 1)
      then slab_class_loop fuel sz (u64 (Z.shiftl s 1)) (cls + 1)
      else cls
  end.

(** The loop stops when [cls] reaches the last class: 16 rounds are enough. *)
Definition slab_class_for (sz : Z) : Z :=
  if sz <=? VC_SLAB_BASE then 0 else slab_class_loop VC_SLAB_CLASSES sz VC_SLAB_BASE 0.

(** [for (size_t i = n; i-- > 0; ) { node->next = prev; prev = node; }] *)
Fixpoint slab_link (i : nat) (arena bsz : Z) (h : heap) (prev : Z) : heap * Z :=
  match i with
  | O => (h, prev)
  | S i' =>
      let node := arena + Z.of_nat i' * bsz in
      slab_link i' arena bsz (write64 h node prev) node
  end.

(** One iteration of the loop of [slab_init]; [arena_bytes] is the tunable
    [SLAB_ARENA_MB * 1024 * 1024]. *)
Definition slab_init_class (arena_bytes : Z) (ans : option Z) (c : Z) (h : heap)
    : option vc_slab_class * heap :=
  let bsz := slab_class_size c in
  let asz := arena_bytes / bsz * bsz in
  match mmap_anon ans asz h with
  | (None, h) => (None, h)
  | (Some arena, h) =>
      let '(h, prev) := slab_link (Z.to_nat (asz / bsz)) arena bsz h 0 in
      (Some (SlabClass prev arena bsz asz 0 0), h)
  end.

(** [answers] holds what the [mmap] of each class returns. *)
Fixpoint slab_init_loop (arena_bytes : Z) (answers : list (option Z)) (c : Z) (h : heap)
    : vc_err * vc_slab * heap :=
  match answers with
  | [] => (VC_OK, [], h)
  | ans :: answers =>
      match slab_init_class arena_bytes ans c h with
      | (None, h) => (VC_ERR_OOM, [], h)
      | (Some sc, h) =>
          let '(err, sl, h) := slab_init_loop arena_bytes answers (c + 1) h in
          (err, sc :: sl, h)
      end
  end.

Definition slab_init (arena_bytes : Z) (answers : list (option Z)) (h : heap)
    : vc_err * vc_slab * heap :=
  slab_init_loop arena_bytes (take VC_SLAB_CLASSES answers) 0 h.

Definition sc_with_head (sc : vc_slab_class) (head da df : Z) : vc_slab_class :=
  SlabClass head (sc_arena sc) (sc_block_size sc) (sc_arena_size sc)
    (u64 (sc_alloc_count sc + da)) (u64 (sc_free_count sc + df)).

(** Without interference the compare-and-swap of the Treiber pop succeeds at
    once; [Treiber.v] has the interleaved version.  The result is the block
    (NULL when the class is exhausted), its class and the new slab. *)
Definition slab_alloc (sl : vc_slab) (sz : Z) (h : heap) : option Z * Z * vc_slab :=
  let cls := slab_class_for sz in
  match sl !! Z.to_nat cls with
  | None => (None, cls, sl)
  | Some sc =>
      if sc_head sc =? 0 then (None, cls, sl)
      else
        let next := read64 (h_bytes h) (sc_head sc) in
        (Some (sc_head sc), cls, <[Z.to_nat cls := sc_with_head sc next 1 0]> sl)
  end.

Definition slab_free (sl : vc_slab) (ptr cls : Z) (h : heap) : vc_slab * heap :=
  match sl !! Z.to_nat cls with
  | None => (sl, h)
  | Some sc =>
      (<[Z.to_nat cls := sc_with_head sc ptr 0 1]> sl, write64 h ptr (sc_head sc))
  end.

Fixpoint slab_destroy (sl : vc_slab) (h : heap) : option heap :=
  match sl with
  | [] => Some h
  | sc :: sl =>
      if sc_arena sc =? 0 then slab_destroy sl h
      else h ← munmap (sc_arena sc) (sc_arena_size sc) h; slab_destroy sl h
  end.

(** ** Invariant *)

(** The free list of a class, as a list of block addresses. *)
Fixpoint free_chain (m : bytemap) (head : Z) (l : list Z) : Prop :=
  match l with
  | [] => head = 0
  | p :: l' => head = p /\ p <> 0 /\ free_chain m (read64 m p) l'
  end.

Definition class_regions (c : nat) (ps : list Z) : list region :=
  (fun p => (p, slab_class_size (Z.of_nat c))) <$> ps.

(** The regions of all free blocks; [F] lists the free blocks of each class. *)
Definition free_regions (F : list (list Z)) : list region :=
  concat (imap class_regions F).

Definition block_ok (c : nat) (p : Z) : Prop :=
  0 < p /\ p + slab_class_size (Z.of_nat c) <= 2 ^ 64.

Definition slab_ok (m : bytemap) (sl : vc_slab) (F : list (list Z)) : Prop :=
  length sl = VC_SLAB_CLASSES /\ length F = VC_SLAB_CLASSES /\
  forall c sc ps, sl !! c = Some sc -> F !! c = Some ps ->
    free_chain m (sc_head sc) ps /\ Forall (block_ok c) ps.

(** ** Size classes *)

Lemma slab_class_size_eq c : 0 <= c <= 15 -> slab_class_size c = 64 * 2 ^ c.
Proof.
  intros Hc. unfold slab_class_size, VC_SLAB_BASE. rewrite Z.shiftl_mul_pow2 by lia.
  pose proof (Z.pow_le_mono_r 2 c 15). pose proof (Z.pow_pos_nonneg 2 c).
  apply u64_id. lia.
Qed.

Lemma slab_class_size_pos c : 0 <= c <= 15 -> 64 <= slab_class_size c <= 2 ^ 21.
Proof.
  intros Hc. rewrite slab_class_size_eq by done.
  pose proof (Z.pow_le_mono_r 2 c 15). pose proof (Z.pow_pos_nonneg 2 c). lia.
Qed.

Lemma slab_class_size_mono c d :
  0 <= c <= d -> d <= 15 -> slab_class_size c <= slab_class_size d.
Proof.
  intros. rewrite !slab_class_size_eq by lia. pose proof (Z.pow_le_mono_r 2 c d). lia.
Qed.

Lemma slab_class_loop_spec fuel sz c :
  0 <= c <= 15 -> 15 - c < Z.of_nat fuel -> sz <= 2 ^ 21 ->
  (forall d, 0 <= d < c -> slab_class_size d < sz) ->
  let r := slab_class_loop fuel sz (slab_class_size c) c in
  0 <= r <= 15 /\ sz <= slab_class_size r /\
  (forall d, 0 <= d < r -> slab_class_size d < sz).
Proof.
  revert c. induction fuel as [|fuel IH]; intros c Hc Hf Hsz Hlt; [lia|].
  cbn [slab_class_loop]. change (Z.of_nat VC_SLAB_CLASSES - 1) with 15.
  destruct (Z.ltb_spec (slab_class_size c) sz); simpl.
  - destruct (Z.ltb_spec c 15); simpl.
    + replace (u64 (Z.shiftl (slab_class_size c) 1)) with (slab_class_size (c + 1)).
      * apply IH; [lia..|]. intros d Hd. destruct (Z.eq_dec d c) as [->|]; [done|].
        apply Hlt. lia.
      * rewrite !slab_class_size_eq, Z.shiftl_mul_pow2, Z.pow_add_r by lia.
        pose proof (Z.pow_le_mono_r 2 c 14). pose proof (Z.pow_pos_nonneg 2 c).
        rewrite u64_id; lia.
    + assert (c = 15) as -> by lia. rewrite slab_class_size_eq in H by lia. lia.
  - repeat split; try lia. done.
Qed.

Lemma slab_class_for_fits sz :
  0 <= sz <= 2 ^ 21 ->
  0 <= slab_class_for sz <= 15 /\ sz <= slab_class_size (slab_class_for sz) /\
  (forall d, 0 <= d < slab_class_for sz -> slab_class_size d < sz).
Proof.
  intros Hsz. unfold slab_class_for, VC_SLAB_BASE. destruct (Z.leb_spec sz 64).
  - split; [lia|]. change (slab_class_size 0) with 64. split; [lia|]. intros; lia.
  - apply (slab_class_loop_spec VC_SLAB_CLASSES sz 0); unfold VC_SLAB_CLASSES; [lia..|intros; lia].
Qed.

Lemma slab_class_for_mono a b :
  0 <= a <= b -> b <= 2 ^ 21 -> slab_class_for a <= slab_class_for b.
Proof.
  intros H1 H2. destruct (slab_class_for_fits a) as (Ha & _ & Hmin); [lia|].
  destruct (slab_class_for_fits b) as (Hb & Hfit & _); [lia|].
  destruct (Z.le_gt_cases (slab_class_for a) (slab_class_for b)); [done|].
  specialize (Hmin (slab_class_for b)). lia.
Qed.

(** ** Free lists *)

Lemma read64_write m a w : 0 <= w < 2 ^ 64 -> read64 (mem_write m a (le_encode 8 w)) a = w.
Proof.
  intros Hw. unfold read64. rewrite mem_read_write_prefix by (by rewrite length_le_encode).
  rewrite take_ge by (by rewrite length_le_encode). by apply le8_roundtrip.
Qed.

Lemma free_chain_agree c m m' head l :
  agree m m' (class_regions c l) -> 0 <= Z.of_nat c <= 15 ->
  free_chain m head l -> free_chain m' head l.
Proof.
  intros Ha Hc. pose proof (slab_class_size_pos (Z.of_nat c) Hc) as Hsz.
  revert head Ha. induction l as [|p l IH]; intros head Ha H; [done|].
  destruct H as (-> & Hp & H). split; [done|]. split; [done|].
  assert (read64 m p = read64 m' p) as <-.
  - unfold read64. f_equal. apply (agree_read _ _ _ (p, slab_class_size (Z.of_nat c)) _ _ Ha).
    + left.
    + unfold region_sub; simpl; lia.
  - apply IH; [|done]. eapply agree_sub; [exact Ha|]. simpl. set_solver.
Qed.

Lemma free_regions_split F c ps :
  F !! c = Some ps ->
  exists A B, free_regions F = A ++ class_regions c ps ++ B /\
    forall ps', free_regions (<[c := ps']> F) = A ++ class_regions c ps' ++ B.
Proof.
  intros Hc. pose proof (lookup_lt_Some _ _ _ Hc) as Hlt.
  exists (concat (imap class_regions (take c F))),
    (concat (imap (class_regions ∘ Nat.add (S c)) (drop (S c) F))).
  assert (Hins : forall ps', free_regions (<[c := ps']> F) =
    concat (imap class_regions (take c F)) ++ class_regions c ps' ++
    concat (imap (class_regions ∘ Nat.add (S c)) (drop (S c) F))).
  { intros ps'. unfold free_regions. rewrite insert_take_drop by done.
    rewrite imap_app, imap_cons, concat_app, length_take_le by lia. cbn [concat].
    rewrite Nat.add_0_r. do 3 f_equal. apply imap_ext. intros i x _. simpl.
    f_equal. lia. }
  split; [|exact Hins]. rewrite <- (list_insert_id F c ps Hc) at 1. apply Hins.
Qed.

Lemma free_regions_pop F c p ps :
  F !! c = Some (p :: ps) ->
  free_regions F ≡ₚ (p, slab_class_size (Z.of_nat c)) :: free_regions (<[c := ps]> F).
Proof.
  intros Hc. destruct (free_regions_split F c _ Hc) as (A & B & -> & ->). simpl.
  symmetry. apply Permutation_middle.
Qed.

Lemma class_regions_sub F c ps : F !! c = Some ps -> class_regions c ps ⊆ free_regions F.
Proof.
  intros Hc. destruct (free_regions_split F c _ Hc) as (A & B & -> & _). set_solver.
Qed.

Lemma slab_ok_agree m m' sl F :
  agree m m' (free_regions F) -> slab_ok m sl F -> slab_ok m' sl F.
Proof.
  intros Ha (Hl & HF & H). split; [done|]. split; [done|]. intros c sc ps Hsc Hps.
  destruct (H c sc ps Hsc Hps) as [Hch Hb]. split; [|done].
  apply lookup_lt_Some in Hsc. unfold VC_SLAB_CLASSES in *.
  apply (free_chain_agree c m); [|lia|done].
  eapply agree_sub; [exact Ha | by apply class_regions_sub].
Qed.

Lemma slab_ok_update m sl F c sc sc' ps ps' :
  slab_ok m sl F -> sl !! c = Some sc -> F !! c = Some ps ->
  free_chain m (sc_head sc') ps' -> Forall (block_ok c) ps' ->
  slab_ok m (<[c := sc']> sl) (<[c := ps']> F).
Proof.
  intros (Hl & HF & H) Hsc Hps Hch Hb. rewrite <- Hl in HF.
  pose proof (lookup_lt_Some _ _ _ Hsc).
  split; [by rewrite length_insert|]. split; [by rewrite length_insert, HF|].
  intros d sd qs Hd Hq. destruct (decide (c = d)) as [<-|Hne].
  - rewrite list_lookup_insert_eq in Hd by done.
    rewrite list_lookup_insert_eq in Hq by lia. by simplify_eq.
  - rewrite list_lookup_insert_ne in Hd by done. rewrite list_lookup_insert_ne in Hq by done. by apply (H d).
Qed.

(** What a successful and a failing [slab_alloc] do to the free lists. *)
Lemma slab_alloc_spec h sl F sz r cls sl' :
  slab_ok (h_bytes h) sl F -> 0 <= sz <= 2 ^ 21 ->
  slab_alloc sl sz h = (r, cls, sl') ->
  cls = slab_class_for sz /\
  match r with
  | None => sl' = sl /\ F !! Z.to_nat cls = Some []
  | Some p => exists ps, F !! Z.to_nat cls = Some (p :: ps) /\
      slab_ok (h_bytes h) sl' (<[Z.to_nat cls := ps]> F) /\ block_ok (Z.to_nat cls) p /\
      free_regions F ≡ₚ (p, slab_class_size cls) :: free_regions (<[Z.to_nat cls := ps]> F)
  end.
Proof.
  intros Hok Hsz Heq. unfold slab_alloc in Heq.
  destruct (slab_class_for_fits sz Hsz) as (Hc & _).
  destruct (Hok) as (Hl & HF & H). unfold VC_SLAB_CLASSES in Hl, HF.
  destruct (lookup_lt_is_Some_2 sl (Z.to_nat (slab_class_for sz))) as [sc Hsc]; [lia|].
  destruct (lookup_lt_is_Some_2 F (Z.to_nat (slab_class_for sz))) as [ps Hps]; [lia|].
  destruct (H _ _ _ Hsc Hps) as [Hch Hb]. rewrite Hsc in Heq.
  destruct (Z.eqb_spec (sc_head sc) 0) as [E|E]; simplify_eq/=; split; try done.
  - split; [done|]. destruct ps as [|p ps]; [done|]. destruct Hch as (? & ? & _). congruence.
  - destruct ps as [|p ps]; [done|]. destruct Hch as (-> & Hp & Hch).
    apply Forall_cons in Hb as [Hbp Hb]. exists ps. split; [done|].
    split; [by eapply slab_ok_update|]. split; [done|].
    rewrite (free_regions_pop _ _ _ _ Hps), Z2Nat.id by lia. done.
Qed.

(** What [slab_free] of a block that overlaps no free block does. *)
Lemma slab_free_spec h sl F ptr cls sl' h' :
  slab_ok (h_bytes h) sl F -> 0 <= cls <= 15 -> block_ok (Z.to_nat cls) ptr ->
  Forall (region_disj (ptr, slab_class_size cls)) (free_regions F) ->
  slab_free sl ptr cls h = (sl', h') ->
  h_mallocs h' = h_mallocs h /\ h_maps h' = h_maps h /\
  exists F' w, slab_ok (h_bytes h') sl' F' /\
    free_regions F' ≡ₚ (ptr, slab_class_size cls) :: free_regions F /\
    h_bytes h' = mem_write (h_bytes h) ptr (le_encode 8 w).
Proof.
  intros Hok Hc Hb Hd Heq. unfold slab_free in Heq.
  pose proof Hok as (Hl & HF & H). unfold VC_SLAB_CLASSES in Hl, HF.
  destruct (lookup_lt_is_Some_2 sl (Z.to_nat cls)) as [sc Hsc]; [lia|].
  destruct (lookup_lt_is_Some_2 F (Z.to_nat cls)) as [ps Hps]; [lia|].
  rewrite Hsc in Heq. simplify_eq/=. split; [done|]. split; [done|].
  exists (<[Z.to_nat cls := ptr :: ps]> F), (sc_head sc).
  destruct (H _ _ _ Hsc Hps) as [Hch Hbs]. pose proof (slab_class_size_pos cls Hc).
  assert (Hag : agree (h_bytes h) (mem_write (h_bytes h) ptr (le_encode 8 (sc_head sc))) (free_regions F)).
  { apply agree_write. eapply Forall_impl; [exact Hd|]. intros r Hr.
    eapply region_disj_sub; [exact Hr|]. rewrite length_le_encode.
    unfold region_sub; simpl. lia. }
  split; [|split; [|done]].
  - eapply slab_ok_update; [by eapply slab_ok_agree | done.. | |].
    + destruct Hb as [Hp Hp2]. simpl. split; [done|]. split; [lia|].
      replace (read64 _ _) with (sc_head sc).
      * apply (free_chain_agree (Z.to_nat cls) (h_bytes h)); [|lia|done].
        eapply agree_sub; [exact Hag | by apply class_regions_sub].
      * rewrite read64_write; [done|]. destruct ps as [|q ps]; simpl in Hch; [lia|].
        apply Forall_cons in Hbs as [[? ?] _].
        pose proof (slab_class_size_pos (Z.of_nat (Z.to_nat cls))). lia.
    + by constructor.
  - rewrite (free_regions_pop _ (Z.to_nat cls) ptr ps) by (apply list_lookup_insert_eq; lia).
    by rewrite list_insert_insert_eq, (list_insert_id F _ _ Hps), Z2Nat.id by lia.
Qed.

(** ** Initialisation *)

Definition class_blocks (arena bsz : Z) (k n : nat) : list Z :=
  (fun j => arena + Z.of_nat j * bsz) <$> seq k n.

(** Blocks in class [c] of an arena of [arena_bytes] bytes. *)
Definition class_count (arena_bytes c : Z) : nat :=
  Z.to_nat (arena_bytes / slab_class_size c).

Definition class_arena (arena_bytes c a : Z) : region :=
  (a, arena_bytes / slab_class_size c * slab_class_size c).

Lemma class_blocks_in arena bsz k n p :
  p ∈ class_blocks arena bsz k n <->
  exists j, p = arena + Z.of_nat j * bsz /\ (k <= j < k + n)%nat.
Proof.
  unfold class_blocks. rewrite list_elem_of_fmap. setoid_rewrite elem_of_seq. done.
Qed.

Lemma slab_link_spec arena bsz i n h prev :
  64 <= bsz -> 0 < arena -> arena + Z.of_nat (i + n) * bsz <= 2 ^ 64 ->
  free_chain (h_bytes h) prev (class_blocks arena bsz i n) ->
  let '(h', head) := slab_link i arena bsz h prev in
  free_chain (h_bytes h') head (class_blocks arena bsz 0 (i + n)) /\
  h_mallocs h' = h_mallocs h /\ h_maps h' = h_maps h /\ h_remnants h' = h_remnants h /\
  (forall rs, Forall (region_disj (arena, Z.of_nat i * bsz)) rs ->
     agree (h_bytes h) (h_bytes h') rs).
Proof.
  intros Hb Ha Hend. revert n h prev Hend. induction i as [|i IH]; intros n h prev Hend Hch; simpl.
  { repeat split; done. }
  assert (Hprev : 0 <= prev < 2 ^ 64).
  { destruct n; simpl in Hch; [lia|]. destruct Hch as (-> & _). nia. }
  set (node := arena + Z.of_nat i * bsz) in *.
  specialize (IH (S n) (write64 h node prev) node).
  replace (i + S n)%nat with (S i + n)%nat in IH by lia.
  destruct (slab_link i arena bsz (write64 h node prev) node) as [h' head].
  destruct IH as (Hc & H1 & H2 & H3 & Hag); [done| |].
  - change (class_blocks arena bsz i (S n)) with (node :: class_blocks arena bsz (S i) n).
    split; [done|]. split; [lia|]. cbn [write64 write with_bytes h_bytes].
    rewrite read64_write by done.
    apply (free_chain_agree 0 (h_bytes h)); [|lia|done].
    apply agree_write. apply Forall_forall. intros r Hr. unfold class_regions in Hr.
    apply list_elem_of_fmap in Hr as (p & -> & Hp).
    apply class_blocks_in in Hp as (j & -> & Hj). rewrite length_le_encode.
    unfold region_disj; cbn. left. nia.
  - split; [done|]. do 3 (split; [done|]). intros rs Hrs. eapply agree_trans.
    + apply (agree_write _ node (le_encode 8 prev)). eapply Forall_impl; [exact Hrs|].
      intros r Hr. eapply region_disj_sub; [exact Hr|]. rewrite length_le_encode.
      unfold region_sub; cbn. nia.
    + apply Hag. eapply Forall_impl; [exact Hrs|]. intros r Hr.
      eapply region_disj_sub; [exact Hr|]. unfold region_sub; cbn. nia.
Qed.

Lemma slab_init_class_spec arena_bytes a c h :
  0 <= c <= 15 -> 0 <= arena_bytes -> 0 < a ->
  a + (class_arena arena_bytes c a).2 <= 2 ^ 64 ->
  exists sc h', slab_init_class arena_bytes (Some a) c h = (Some sc, h') /\
    sc_arena sc = a /\ sc_arena_size sc = (class_arena arena_bytes c a).2 /\
    free_chain (h_bytes h') (sc_head sc)
      (class_blocks a (slab_class_size c) 0 (class_count arena_bytes c)) /\
    h_mallocs h' = h_mallocs h /\
    h_maps h' = <[a := (class_arena arena_bytes c a).2]> (h_maps h) /\
    (forall rs, Forall (region_disj (class_arena arena_bytes c a)) rs ->
       agree (h_bytes h) (h_bytes h') rs).
Proof.
  intros Hc Hb Ha Hend. pose proof (slab_class_size_pos c Hc) as Hsz.
  unfold slab_init_class, class_arena, class_count in *. simpl in *.
  set (q := arena_bytes / slab_class_size c) in *.
  assert (0 <= q) by (apply Z.div_pos; lia).
  rewrite Z.div_mul by lia.
  set (h0 := Heap _ _ _ _). pose proof (slab_link_spec a (slab_class_size c) (Z.to_nat q) 0 h0 0) as Hl.
  destruct (slab_link _ _ _ _ _) as [h' head].
  destruct Hl as (Hch & H1 & H2 & _ & Hag); [lia | lia | rewrite Nat.add_0_r; nia | done |].
  rewrite Nat.add_0_r in Hch. eexists _, h'. split; [done|]. simpl.
  split; [done|]. split; [done|]. split; [done|]. split; [done|]. split; [done|].
  intros rs Hrs. apply Hag. by rewrite Z2Nat.id by done.
Qed.

(** The free lists [slab_init] builds, class by class from [c]. *)
Definition init_free (arena_bytes : Z) (arenas : list Z) (c : nat) : list (list Z) :=
  imap (fun i a => class_blocks a (slab_class_size (Z.of_nat (c + i))) 0
                     (class_count arena_bytes (Z.of_nat (c + i)))) arenas.

Definition init_arenas (arena_bytes : Z) (arenas : list Z) (c : nat) : list region :=
  imap (fun i a => class_arena arena_bytes (Z.of_nat (c + i)) a) arenas.

Lemma init_arenas_cons arena_bytes a arenas c :
  init_arenas arena_bytes (a :: arenas) c =
  class_arena arena_bytes (Z.of_nat c) a :: init_arenas arena_bytes arenas (S c).
Proof.
  unfold init_arenas. rewrite imap_cons, Nat.add_0_r. f_equal. apply imap_ext.
  intros i x _. simpl. do 2 f_equal. lia.
Qed.

Lemma init_free_cons arena_bytes a arenas c :
  init_free arena_bytes (a :: arenas) c =
  class_blocks a (slab_class_size (Z.of_nat c)) 0 (class_count arena_bytes (Z.of_nat c)) ::
  init_free arena_bytes arenas (S c).
Proof.
  unfold init_free. rewrite imap_cons, Nat.add_0_r. f_equal. apply imap_ext.
  intros i x _. simpl. do 3 f_equal; lia.
Qed.

Definition arena_ok (arena_bytes : Z) (c : nat) (a : Z) : Prop :=
  0 < a /\ a + (class_arena arena_bytes (Z.of_nat c) a).2 <= 2 ^ 64.

Lemma class_blocks_sub arena_bytes a c r :
  (c <= 15)%nat -> 0 <= arena_bytes ->
  r ∈ class_regions c (class_blocks a (slab_class_size (Z.of_nat c)) 0
                         (class_count arena_bytes (Z.of_nat c))) ->
  region_sub r (class_arena arena_bytes (Z.of_nat c) a).
Proof.
  intros Hc Hb Hr. unfold class_regions in Hr. apply list_elem_of_fmap in Hr as (p & -> & Hp).
  apply class_blocks_in in Hp as (j & -> & Hj). unfold class_count in Hj.
  pose proof (slab_class_size_pos (Z.of_nat c)).
  unfold region_sub, class_arena; simpl.
  assert (0 <= arena_bytes / slab_class_size (Z.of_nat c)) by (apply Z.div_pos; lia). nia.
Qed.

Lemma class_blocks_ok arena_bytes a c :
  (c <= 15)%nat -> 0 <= arena_bytes -> arena_ok arena_bytes c a ->
  Forall (block_ok c) (class_blocks a (slab_class_size (Z.of_nat c)) 0
                         (class_count arena_bytes (Z.of_nat c))).
Proof.
  intros Hc Hb [Ha Hend]. apply Forall_forall. intros p Hp.
  destruct (class_blocks_sub arena_bytes a c (p, slab_class_size (Z.of_nat c)) Hc Hb) as [H1 H2].
  { unfold class_regions. by apply (list_elem_of_fmap_2 (fun p => (p, slab_class_size (Z.of_nat c)))). }
  unfold block_ok, class_arena in *; simpl in *. lia.
Qed.

Lemma class_blocks_disj a c k n :
  (c <= 15)%nat ->
  regions_disj (class_regions c (class_blocks a (slab_class_size (Z.of_nat c)) k n)).
Proof.
  intros Hc. pose proof (slab_class_size_pos (Z.of_nat c)).
  revert k. induction n as [|n IH]; intros k; [done|]. split; [|apply IH].
  apply Forall_forall. intros r Hr. fold class_regions in Hr.
  apply list_elem_of_fmap in Hr as (p & -> & Hp).
  apply class_blocks_in in Hp as (j & -> & Hj). unfold region_disj; simpl. left. nia.
Qed.

Lemma slab_init_loop_spec arena_bytes arenas c h :
  0 <= arena_bytes -> (c + length arenas <= 16)%nat ->
  (forall i a, arenas !! i = Some a -> arena_ok arena_bytes (c + i) a) ->
  regions_disj (init_arenas arena_bytes arenas c) ->
  exists sl h', slab_init_loop arena_bytes (Some <$> arenas) (Z.of_nat c) h = (VC_OK, sl, h') /\
    length sl = length arenas /\ h_mallocs h' = h_mallocs h /\
    (forall i sc ps, sl !! i = Some sc -> init_free arena_bytes arenas c !! i = Some ps ->
       free_chain (h_bytes h') (sc_head sc) ps /\ Forall (block_ok (c + i)) ps) /\
    (forall rs, (forall r r', r ∈ init_arenas arena_bytes arenas c -> r' ∈ rs -> region_disj r r') ->
       agree (h_bytes h) (h_bytes h') rs).
Proof.
  intros Hb. revert c h. induction arenas as [|a arenas IH]; intros c h Hlen Hok Hd.
  { exists [], h. repeat split; try done. }
  rewrite init_arenas_cons in Hd. destruct Hd as [Hd1 Hd2]. simpl in Hlen.
  destruct (Hok 0%nat a) as [Ha Hend]; [done|]. rewrite Nat.add_0_r in Hend.
  destruct (slab_init_class_spec arena_bytes a (Z.of_nat c) h)
    as (sc & h1 & E1 & _ & _ & Hch & Hm1 & _ & Hag1); [lia | done | done | done |].
  destruct (IH (S c) h1) as (sl & h2 & E2 & Hl & Hm2 & Hsl & Hag2); [lia | | done |].
  { intros i x Hx. replace (S c + i)%nat with (c + S i)%nat by lia. by apply Hok. }
  exists (sc :: sl), h2. rewrite fmap_cons. cbn [slab_init_loop]. rewrite E1.
  replace (Z.of_nat c + 1) with (Z.of_nat (S c)) by lia. rewrite E2.
  split; [done|]. split; [simpl; lia|]. split; [congruence|]. split.
  - rewrite init_free_cons. intros [|i] sc' ps Hsc Hps; simplify_eq/=.
    + rewrite Nat.add_0_r. split; [|by apply class_blocks_ok; [lia | done | split]].
      apply (free_chain_agree c (h_bytes h1)); [|lia|done].
      apply Hag2. intros r r' Hr Hr'. apply region_disj_sym.
      eapply region_disj_sub; [|by eapply class_blocks_sub; [|done|exact Hr']; lia].
      rewrite Forall_forall in Hd1. by apply Hd1.
    + destruct (Hsl i sc' ps Hsc Hps) as [H1 H2]. split; [done|].
      by replace (c + S i)%nat with (S c + i)%nat by lia.
  - intros rs Hrs. rewrite init_arenas_cons in Hrs. eapply agree_trans.
    + apply Hag1. apply Forall_forall. intros r' Hr'. apply Hrs; [left | done].
    + apply Hag2. intros r r' Hr Hr'. apply Hrs; [by right | done].
Qed.

Lemma init_free_disj arena_bytes arenas c :
  0 <= arena_bytes -> (c + length arenas <= 16)%nat ->
  regions_disj (init_arenas arena_bytes arenas c) ->
  regions_disj (concat (imap (fun i => class_regions (c + i)) (init_free arena_bytes arenas c))) /\
  (forall r, r ∈ concat (imap (fun i => class_regions (c + i)) (init_free arena_bytes arenas c)) ->
     exists r', r' ∈ init_arenas arena_bytes arenas c /\ region_sub r r').
Proof.
  intros Hb. revert c. induction arenas as [|a arenas IH]; intros c Hlen Hd.
  { split; [done|]. intros r Hr. by apply elem_of_nil in Hr. }
  rewrite init_arenas_cons in *. destruct Hd as [Hd1 Hd2]. simpl in Hlen.
  destruct (IH (S c)) as [IH1 IH2]; [lia | done |].
  rewrite init_free_cons, imap_cons. cbn [concat]. rewrite Nat.add_0_r.
  replace (imap ((fun i => class_regions (c + i)) ∘ S) (init_free arena_bytes arenas (S c)))
    with (imap (fun i => class_regions (S c + i)) (init_free arena_bytes arenas (S c)))
    by (apply imap_ext; intros; simpl; f_equal; lia).
  split.
  - apply regions_disj_app. split; [apply class_blocks_disj; lia|]. split; [done|].
    intros r1 r2 H1 H2. destruct (IH2 r2 H2) as (r' & Hr' & Hs).
    rewrite Forall_forall in Hd1.
    eapply region_disj_sub; [|eapply class_blocks_sub; [|exact Hb|exact H1]; lia].
    apply region_disj_sym. eapply region_disj_sub; [|exact Hs].
    apply region_disj_sym. by apply Hd1.
  - intros r Hr. apply elem_of_app in Hr as [Hr|Hr].
    + eexists. split; [left|]. eapply class_blocks_sub; [|exact Hb|exact Hr]; lia.
    + destruct (IH2 r Hr) as (r' & ? & ?). exists r'. split; [by right | done].
Qed.

(** [slab_init] over sixteen fresh, pairwise disjoint arenas succeeds and
    leaves every class with a free list of all its blocks, in address order,
    no two blocks overlapping. *)
Lemma slab_init_ok arena_bytes arenas h :
  0 <= arena_bytes -> length arenas = 16%nat ->
  (forall i a, arenas !! i = Some a -> arena_ok arena_bytes i a) ->
  regions_disj (init_arenas arena_bytes arenas 0) ->
  exists sl h', slab_init arena_bytes (Some <$> arenas) h = (VC_OK, sl, h') /\
    h_mallocs h' = h_mallocs h /\
    slab_ok (h_bytes h') sl (init_free arena_bytes arenas 0) /\
    regions_disj (free_regions (init_free arena_bytes arenas 0)).
Proof.
  intros Hb Hlen Hok Hd.
  destruct (slab_init_loop_spec arena_bytes arenas 0 h) as (sl & h' & E & Hl & Hm & Hsl & _);
    [done | lia | done | done |].
  exists sl, h'. unfold slab_init. rewrite take_ge by (rewrite length_fmap, Hlen; done).
  split; [exact E|]. split; [done|]. split.
  - split; [by rewrite Hl, Hlen|]. split; [by unfold init_free; rewrite length_imap|].
    intros c sc ps. apply Hsl.
  - apply (init_free_disj arena_bytes arenas 0); [done | lia | done].
Qed.
