(* ===== verification/Entry.v ===== *)
(** * Table entries

    [src/include/voidcache.h], lines 150-177, and [src/src/voidcache.c], lines
    291-344: the 64-byte entry, where its key and value are stored, expiry, and
    the release of what it owns.  The payload is kept as its 32 bytes, with the
    pointers of the slab and mmap tiers encoded in them. *)

From S2P Require Import Prelude Hash Slab.

(** ** Definitions *)

Definition VC_EFLAG_KEY_LONG : Z := 1.
Definition VC_EFLAG_VAL_SLAB : Z := 2.
Definition VC_EFLAG_VAL_MMAP : Z := 4.

Inductive slot_state : Type := EMPTY | BUSY | LIVE | DEAD.

#[export] Instance slot_state_eq_dec : EqDecision slot_state.
Proof. solve_decision. Defined.

Record vc_entry := Entry {
  e_state : slot_state;
  e_flags : Z;
  e_val_len : Z;
  e_key_len : Z;
  e_key_hash : Z;
  e_expire_ns : Z;
  e_clock_bit : Z;
  e_probe_dist : Z;
  e_payload : list Z
}.

(** A slot of a fresh anonymous mapping. *)
Definition zero_entry : vc_entry := Entry EMPTY 0 0 0 0 0 0 0 (replicate 32 0).

Definition with_state (st : slot_state) (e : vc_entry) : vc_entry :=
  Entry st (e_flags e) (e_val_len e) (e_key_len e) (e_key_hash e) (e_expire_ns e)
    (e_clock_bit e) (e_probe_dist e) (e_payload e).

Definition with_clock (b : Z) (e : vc_entry) : vc_entry :=
  Entry (e_state e) (e_flags e) (e_val_len e) (e_key_len e) (e_key_hash e) (e_expire_ns e)
    b (e_probe_dist e) (e_payload e).

Definition with_dist (d : Z) (e : vc_entry) : vc_entry :=
  Entry (e_state e) (e_flags e) (e_val_len e) (e_key_len e) (e_key_hash e) (e_expire_ns e)
    (e_clock_bit e) d (e_payload e).

(** [e->flags & f] *)
Definition flag (f : Z) (e : vc_entry) : bool := negb (Z.land (e_flags e) f =? 0).

(** [memcpy] of the eight bytes of the payload at [off] into a pointer. *)
Definition payload_ptr (e : vc_entry) (off : Z) : Z :=
  le_decode (take 8 (drop (Z.to_nat off) (e_payload e))).

(** A pointer that the entry helpers return: into the entry or outside it. *)
Inductive vref : Type :=
| InPayload (off : Z)
| AtAddr (a : Z).

Definition entry_key (e : vc_entry) : vref :=
  if flag VC_EFLAG_KEY_LONG e then AtAddr (payload_ptr e 0) else InPayload 0.

(** Offset of the value pointer in the payload. *)
Definition val_off (e : vc_entry) : Z :=
  if flag VC_EFLAG_KEY_LONG e then 8 else e_key_len e.

Definition entry_val (e : vc_entry) : vref :=
  if flag (Z.lor VC_EFLAG_VAL_SLAB VC_EFLAG_VAL_MMAP) e
  then AtAddr (payload_ptr e (val_off e))
  else InPayload (e_key_len e).

(** The [n] bytes behind a pointer. *)
Definition deref (m : bytemap) (e : vc_entry) (r : vref) (n : Z) : list Z :=
  match r with
  | InPayload off => take (Z.to_nat n) (drop (Z.to_nat off) (e_payload e))
  | AtAddr a => mem_read m a (Z.to_nat n)
  end.

Definition key_bytes (m : bytemap) (e : vc_entry) : list Z :=
  deref m e (entry_key e) (e_key_len e).

Definition val_bytes (m : bytemap) (e : vc_entry) : list Z :=
  deref m e (entry_val e) (e_val_len e).

(** [now] is what [mono_ns()] returns. *)
Definition entry_expired (now : Z) (e : vc_entry) : bool :=
  if e_expire_ns e =? 0 then false else e_expire_ns e <? s64 now.

Definition entry_free_resources (e : vc_entry) (h : heap) (sl : vc_slab)
    : option (heap * vc_slab) :=
  h ← (if flag VC_EFLAG_KEY_LONG e then free (payload_ptr e 0) h else Some h);
  if flag VC_EFLAG_VAL_SLAB e then
    let '(sl, h) := slab_free sl (payload_ptr e (val_off e)) (slab_class_for (e_val_len e)) h in
    Some (h, sl)
  else if flag VC_EFLAG_VAL_MMAP e then
    h ← munmap (payload_ptr e (val_off e)) (e_val_len e) h;
    Some (h, sl)
  else Some (h, sl).

(** ** Ownership *)

(** What identifies an entry, whatever slot it sits in. *)
Definition core (e : vc_entry) : vc_entry := with_dist 0 (with_clock 0 (with_state LIVE e)).

(** The memory an entry owns outside its slot. *)
Definition entry_regions (e : vc_entry) : list region :=
  (if flag VC_EFLAG_KEY_LONG e then [(payload_ptr e 0, e_key_len e)] else []) ++
  (if flag VC_EFLAG_VAL_SLAB e
   then [(payload_ptr e (val_off e), slab_class_size (slab_class_for (e_val_len e)))]
   else if flag VC_EFLAG_VAL_MMAP e
   then [(payload_ptr e (val_off e), e_val_len e)]
   else []).

(** The four storage shapes [vc_set] builds. *)
Definition entry_shape (e : vc_entry) : Prop :=
  (e_flags e = 0 /\ e_key_len e + e_val_len e <= 32) \/
  (e_flags e = VC_EFLAG_VAL_SLAB /\ e_key_len e <= 24) \/
  e_flags e = Z.lor VC_EFLAG_VAL_SLAB VC_EFLAG_KEY_LONG \/
  e_flags e = Z.lor VC_EFLAG_VAL_MMAP VC_EFLAG_KEY_LONG.

Record entry_wf (h : heap) (e : vc_entry) : Prop := {
  wf_key_len : 1 <= e_key_len e < 2 ^ 32;
  wf_val_len : 1 <= e_val_len e <= 65535;
  wf_payload : length (e_payload e) = 32%nat;
  wf_shape : entry_shape e;
  wf_hash : e_key_hash e = wyhash64 (key_bytes (h_bytes h) e) 0;
  wf_long : flag VC_EFLAG_KEY_LONG e = true ->
    h_mallocs h !! payload_ptr e 0 = Some (e_key_len e);
  wf_slab : flag VC_EFLAG_VAL_SLAB e = true ->
    block_ok (Z.to_nat (slab_class_for (e_val_len e))) (payload_ptr e (val_off e));
  wf_mmap : flag VC_EFLAG_VAL_MMAP e = true ->
    is_Some (h_maps h !! payload_ptr e (val_off e))
}.

(** The heap invariant: the entries of [L] are well formed, the free lists are
    intact, and everything any entry owns is disjoint from everything another
    entry owns and from every free block. *)
Definition mem_inv (h : heap) (L : list vc_entry) (sl : vc_slab) : Prop :=
  exists F, slab_ok (h_bytes h) sl F /\ Forall (entry_wf h) L /\
    regions_disj ((L ≫= entry_regions) ++ free_regions F).

(** ** Facts about cores *)

Lemma flag_core f e : flag f (core e) = flag f e.
Proof. done. Qed.
Lemma key_bytes_core m e : key_bytes m (core e) = key_bytes m e.
Proof. done. Qed.
Lemma val_bytes_core m e : val_bytes m (core e) = val_bytes m e.
Proof. done. Qed.
Lemma entry_regions_core e : entry_regions (core e) = entry_regions e.
Proof. done. Qed.
Lemma core_core e : core (core e) = core e.
Proof. done. Qed.

Lemma entry_wf_core h e : entry_wf h (core e) <-> entry_wf h e.
Proof. split; intros []; constructor; done. Qed.

(** Case analysis on the shape of a well-formed entry, with its flags decided. *)
Lemma shape_cases e :
  entry_shape e ->
  (flag VC_EFLAG_KEY_LONG e = false /\ flag VC_EFLAG_VAL_SLAB e = false /\
   flag VC_EFLAG_VAL_MMAP e = false /\ e_flags e = 0 /\ e_key_len e + e_val_len e <= 32) \/
  (flag VC_EFLAG_KEY_LONG e = false /\ flag VC_EFLAG_VAL_SLAB e = true /\
   flag VC_EFLAG_VAL_MMAP e = false /\ e_flags e = 2 /\ e_key_len e <= 24) \/
  (flag VC_EFLAG_KEY_LONG e = true /\ flag VC_EFLAG_VAL_SLAB e = true /\
   flag VC_EFLAG_VAL_MMAP e = false /\ e_flags e = 3) \/
  (flag VC_EFLAG_KEY_LONG e = true /\ flag VC_EFLAG_VAL_SLAB e = false /\
   flag VC_EFLAG_VAL_MMAP e = true /\ e_flags e = 5).
Proof.
  unfold entry_shape, flag. intros [[H ?]|[[H ?]|[H|H]]]; rewrite H; cbn; auto 10.
Qed.

Lemma flag_val e :
  flag (Z.lor VC_EFLAG_VAL_SLAB VC_EFLAG_VAL_MMAP) e =
  flag VC_EFLAG_VAL_SLAB e || flag VC_EFLAG_VAL_MMAP e.
Proof.
  unfold flag. rewrite <- negb_andb. f_equal. rewrite Z.land_lor_distr_r.
  apply eq_bool_prop_intro. rewrite andb_True, !Is_true_true, !Z.eqb_eq.
  by rewrite Z.lor_eq_0_iff.
Qed.

(** ** Frames: what leaves the owned memory alone keeps keys and values *)

Lemma key_bytes_agree h m' e :
  entry_wf h e -> agree (h_bytes h) m' (entry_regions e) ->
  key_bytes m' e = key_bytes (h_bytes h) e.
Proof.
  intros Hwf Ha. unfold key_bytes, entry_key, entry_regions in *.
  destruct (flag VC_EFLAG_KEY_LONG e); [|done]. simpl in *. symmetry.
  eapply agree_read; [exact Ha | left |]. unfold region_sub; simpl.
  pose proof (wf_key_len _ _ Hwf). lia.
Qed.

Lemma val_bytes_agree h m' e :
  entry_wf h e -> agree (h_bytes h) m' (entry_regions e) ->
  val_bytes m' e = val_bytes (h_bytes h) e.
Proof.
  intros Hwf Ha. unfold val_bytes, entry_val, entry_regions in *. rewrite flag_val.
  pose proof (wf_val_len _ _ Hwf) as Hv.
  destruct (flag VC_EFLAG_VAL_SLAB e); simpl.
  - symmetry. eapply agree_read; [exact Ha | apply elem_of_app; right; left |]. unfold region_sub; simpl.
    destruct (slab_class_for_fits (e_val_len e)) as (_ & ? & _); lia.
  - destruct (flag VC_EFLAG_VAL_MMAP e); [|done]. symmetry. simpl.
    eapply agree_read; [exact Ha | apply elem_of_app; right; left |]. unfold region_sub; simpl. lia.
Qed.

Lemma entry_wf_frame h h' e :
  entry_wf h e -> agree (h_bytes h) (h_bytes h') (entry_regions e) ->
  (flag VC_EFLAG_KEY_LONG e = true ->
   h_mallocs h' !! payload_ptr e 0 = h_mallocs h !! payload_ptr e 0) ->
  (flag VC_EFLAG_VAL_MMAP e = true ->
   h_maps h' !! payload_ptr e (val_off e) = h_maps h !! payload_ptr e (val_off e)) ->
  entry_wf h' e.
Proof.
  intros Hwf Ha Hk Hm. constructor; try apply Hwf.
  - rewrite (key_bytes_agree h) by done. apply Hwf.
  - intros Hf. rewrite Hk by done. by apply Hwf.
  - intros Hf. rewrite Hm by done. by apply Hwf.
Qed.

Lemma entry_regions_in L e : e ∈ L -> entry_regions e ⊆ L ≫= entry_regions.
Proof. intros He r Hr. apply list_elem_of_bind. eauto. Qed.

#[export] Instance mem_inv_perm h : Proper ((≡ₚ) ==> (=) ==> iff) (mem_inv h).
Proof.
  intros L L' HL sl ? <-. unfold mem_inv. setoid_rewrite HL. done.
Qed.

Lemma mem_inv_drop h e L sl : mem_inv h (e :: L) sl -> mem_inv h L sl.
Proof.
  intros (F & Hs & Hwf & Hd). exists F. split; [done|]. apply Forall_cons in Hwf as [_ Hwf].
  split; [done|]. rewrite bind_cons, <- app_assoc in Hd.
  by apply regions_disj_app in Hd as (_ & ? & _).
Qed.

Lemma mem_inv_wf h L sl e : mem_inv h L sl -> e ∈ L -> entry_wf h e.
Proof. intros (F & _ & Hwf & _) He. rewrite Forall_forall in Hwf. by apply Hwf. Qed.

(** Regions of two entries of the list, one at its head, are disjoint. *)
Lemma mem_inv_disj h e L sl e' r r' :
  mem_inv h (e :: L) sl -> e' ∈ L -> r ∈ entry_regions e -> r' ∈ entry_regions e' ->
  region_disj r r'.
Proof.
  intros (F & _ & _ & Hd) He' Hr Hr'. rewrite bind_cons, <- app_assoc in Hd.
  apply regions_disj_app in Hd as (_ & _ & H). apply H; [done|].
  apply elem_of_app. left. by eapply entry_regions_in.
Qed.

(** ** Releasing an entry *)

Lemma key_region_in e :
  flag VC_EFLAG_KEY_LONG e = true -> (payload_ptr e 0, e_key_len e) ∈ entry_regions e.
Proof. intros Hf. unfold entry_regions. rewrite Hf. left. Qed.

Lemma mmap_region_in e :
  entry_shape e -> flag VC_EFLAG_VAL_MMAP e = true ->
  (payload_ptr e (val_off e), e_val_len e) ∈ entry_regions e.
Proof.
  intros Hs Hf. unfold entry_regions. rewrite Hf. apply elem_of_app. right.
  destruct (shape_cases e Hs) as [H|[H|[H|H]]]; destr; try congruence.
  replace (flag VC_EFLAG_VAL_SLAB e) with false by congruence. left.
Qed.

Lemma regions_ne a n b k : region_disj (a, n) (b, k) -> 1 <= n -> 1 <= k -> a <> b.
Proof. unfold region_disj; simpl. lia. Qed.

Lemma free_key_spec h e L sl :
  mem_inv h (e :: L) sl ->
  exists h1, (if flag VC_EFLAG_KEY_LONG e then free (payload_ptr e 0) h else Some h) = Some h1 /\
    h_bytes h1 = h_bytes h /\ h_maps h1 = h_maps h /\ Forall (entry_wf h1) L.
Proof.
  intros Hinv. pose proof (mem_inv_wf _ _ _ e Hinv (list_elem_of_here _ _)) as He.
  destruct (flag VC_EFLAG_KEY_LONG e) eqn:Hf.
  - unfold free. rewrite (wf_long _ _ He Hf). eexists. split; [done|]. simpl.
    split; [done|]. split; [done|]. apply Forall_forall. intros e' He'.
    pose proof (mem_inv_wf _ _ _ e' Hinv (list_elem_of_further _ _ _ He')) as Hwf'.
    apply (entry_wf_frame h); [done | apply agree_refl | | done].
    intros Hf'. simpl. apply lookup_delete_ne.
    pose proof (wf_key_len _ _ He). pose proof (wf_key_len _ _ Hwf').
    eapply regions_ne; [|apply H|apply H0].
    eapply mem_inv_disj; eauto using key_region_in.
  - exists h. split; [done|]. split; [done|]. split; [done|].
    destruct Hinv as (F & _ & Hwf & _). by apply Forall_cons in Hwf as [_ ?].
Qed.

Lemma entry_free_spec h e L sl :
  mem_inv h (e :: L) sl ->
  exists h' sl', entry_free_resources e h sl = Some (h', sl') /\
    mem_inv h' L sl' /\ agree (h_bytes h) (h_bytes h') (L ≫= entry_regions).
Proof.
  intros Hinv. pose proof (mem_inv_wf _ _ _ e Hinv (list_elem_of_here _ _)) as He.
  destruct (free_key_spec _ _ _ _ Hinv) as (h1 & E1 & Hb1 & Hm1 & Hwf1).
  destruct (Hinv) as (F & Hs & _ & Hd).
  rewrite bind_cons, <- app_assoc in Hd. apply regions_disj_app in Hd as (_ & Hd & Hx).
  unfold entry_free_resources. rewrite E1. cbn [mbind option_bind]. clear E1.
  pose proof (wf_val_len _ _ He) as Hv.
  destruct (flag VC_EFLAG_VAL_SLAB e) eqn:Hsl.
  - set (p := payload_ptr e (val_off e)) in *. set (c := slab_class_for (e_val_len e)) in *.
    assert (Hin : (p, slab_class_size c) ∈ entry_regions e).
    { unfold entry_regions. rewrite Hsl. apply elem_of_app. right. left. }
    destruct (slab_class_for_fits (e_val_len e)) as (Hc & _); [lia|]. fold c in Hc.
    destruct (slab_free sl p c h1) as [sl' h2] eqn:E2.
    edestruct (slab_free_spec h1 sl F p c sl' h2) as (Hma & Hmm & F' & w & Hs' & HF' & Hb2);
      [by rewrite Hb1 | done | by apply He | | done |].
    { apply Forall_forall. intros r Hr. apply Hx; [done|]. apply elem_of_app. by right. }
    assert (Hag : agree (h_bytes h1) (h_bytes h2) (L ≫= entry_regions)).
    { rewrite Hb2. apply agree_write. apply Forall_forall. intros r Hr.
      eapply region_disj_sub; [apply (Hx _ r Hin); apply elem_of_app; by left|].
      rewrite length_le_encode. pose proof (slab_class_size_pos c Hc).
      unfold region_sub; simpl. lia. }
    exists h2, sl'. split; [done|]. split; [|by rewrite <- Hb1]. exists F'. split; [done|]. split.
    + rewrite Forall_forall in Hwf1 |- *. intros e' He'.
      apply (entry_wf_frame h1); [by apply Hwf1 | | by rewrite Hma | by rewrite Hmm].
      eapply agree_sub; [exact Hag | by apply entry_regions_in].
    + rewrite HF'. rewrite <- Permutation_middle. split; [|done].
      apply Forall_forall. intros r Hr. by apply Hx.
  - destruct (flag VC_EFLAG_VAL_MMAP e) eqn:Hmp.
    + unfold munmap. rewrite Hm1. destruct (wf_mmap _ _ He Hmp) as [n Hn]. rewrite Hn.
      cbn [mbind option_bind]. do 2 eexists. split; [done|]. simpl. rewrite Hb1.
      split; [|apply agree_refl]. exists F. split; [done|]. split; [|done].
      rewrite Forall_forall in Hwf1 |- *. intros e' He'.
      apply (entry_wf_frame h1); [by apply Hwf1 | by rewrite Hb1; apply agree_refl | done |].
      intros Hf'. simpl. rewrite Hm1. apply lookup_delete_ne.
      pose proof (Hwf1 e' He') as Hwf'. pose proof (wf_val_len _ _ Hwf').
      eapply regions_ne; [|apply Hv|apply H].
      eapply mem_inv_disj; eauto using mmap_region_in, wf_shape.
    + exists h1, sl. split; [done|]. rewrite Hb1. split; [|apply agree_refl].
      exists F. by rewrite Hb1.
Qed.
