(* ===== verification/Shard.v ===== *)
(** * Shards: the Robin Hood hash table, CLOCK eviction, locks

    [src/include/voidcache.h], lines 183-209, and [src/src/voidcache.c], lines
    152-195 and 346-497.  The table is a list of entries indexed by slot; the
    [for] loops over at most [cap] slots are recursions on that bound.  The
    operations here run without interference (under the shard's lock);
    [Seqlock.v] has the interleaved protocol. *)

From S2P Require Import Prelude Hash Slab Entry.

(** ** State *)

Record vc_shard := Shard {
  s_table : list vc_entry;
  s_cap : Z;
  s_count : Z;
  s_clock_hand : Z;
  s_seq : Z;
  s_wlock : Z;
  s_hits : Z;
  s_misses : Z;
  s_sets : Z;
  s_evictions : Z;
  s_expirations : Z
}.

Definition sh_table (t : list vc_entry) (s : vc_shard) : vc_shard :=
  Shard t (s_cap s) (s_count s) (s_clock_hand s) (s_seq s) (s_wlock s)
    (s_hits s) (s_misses s) (s_sets s) (s_evictions s) (s_expirations s).
Definition sh_count (n : Z) (s : vc_shard) : vc_shard :=
  Shard (s_table s) (s_cap s) n (s_clock_hand s) (s_seq s) (s_wlock s)
    (s_hits s) (s_misses s) (s_sets s) (s_evictions s) (s_expirations s).
Definition sh_hand (n : Z) (s : vc_shard) : vc_shard :=
  Shard (s_table s) (s_cap s) (s_count s) n (s_seq s) (s_wlock s)
    (s_hits s) (s_misses s) (s_sets s) (s_evictions s) (s_expirations s).
Definition sh_seq (n : Z) (s : vc_shard) : vc_shard :=
  Shard (s_table s) (s_cap s) (s_count s) (s_clock_hand s) n (s_wlock s)
    (s_hits s) (s_misses s) (s_sets s) (s_evictions s) (s_expirations s).
Definition sh_wlock (n : Z) (s : vc_shard) : vc_shard :=
  Shard (s_table s) (s_cap s) (s_count s) (s_clock_hand s) (s_seq s) n
    (s_hits s) (s_misses s) (s_sets s) (s_evictions s) (s_expirations s).
Definition sh_stats (dh dm ds de : Z) (s : vc_shard) : vc_shard :=
  Shard (s_table s) (s_cap s) (s_count s) (s_clock_hand s) (s_seq s) (s_wlock s)
    (u64 (s_hits s + dh)) (u64 (s_misses s + dm)) (u64 (s_sets s + ds))
    (u64 (s_evictions s + de)) (s_expirations s).

(** ** Locks, with no other thread: a lock that is taken spins for ever *)

Definition shard_lock (s : vc_shard) : option vc_shard :=
  if s_wlock s =? 0 then Some (sh_wlock 1 s) else None.
Definition shard_unlock (s : vc_shard) : vc_shard := sh_wlock 0 s.
Definition seq_read_begin (s : vc_shard) : option Z :=
  if Z.land (s_seq s) 1 =? 0 then Some (s_seq s) else None.
Definition seq_read_retry (s : vc_shard) (seq : Z) : bool := negb (s_seq s =? seq).
Definition seq_write_begin (s : vc_shard) : vc_shard := sh_seq (u64 (s_seq s + 1)) s.
Definition seq_write_end (s : vc_shard) : vc_shard := sh_seq (u64 (s_seq s + 1)) s.

(** ** Lookup *)

(** [slot = (slot + 1) & (cap - 1)] *)
Definition next_slot (cap slot : Z) : Z := Z.land (u32 (slot + 1)) (u32 (cap - 1)).

(** LIVE, same hash, same length, same bytes ([memcmp] over [klen] bytes). *)
Definition entry_matches (m : bytemap) (key : list Z) (klen hash : Z) (e : vc_entry) : bool :=
  bool_decide (e_state e = LIVE) && (e_key_hash e =? hash) && (e_key_len e =? klen) &&
  bool_decide (key_bytes m e = take (Z.to_nat klen) key).

(** [None] is the [UINT32_MAX] of the code. *)
Fixpoint find_loop (fuel : nat) (m : bytemap) (now : Z) (tbl : list vc_entry)
    (cap : Z) (key : list Z) (klen hash slot : Z) : option Z :=
  match fuel with
  | O => None
  | S fuel =>
      e ← tbl !! Z.to_nat slot;
      if bool_decide (e_state e = EMPTY) then None
      else if entry_matches m key klen hash e then
        if entry_expired now e then None else Some slot
      else find_loop fuel m now tbl cap key klen hash (next_slot cap slot)
  end.

Definition shard_find (m : bytemap) (now : Z) (s : vc_shard) (key : list Z) (klen hash : Z)
    : option Z :=
  find_loop (Z.to_nat (s_cap s)) m now (s_table s) (s_cap s) key klen hash
    (table_slot hash (s_cap s)).

(** ** CLOCK eviction *)

(** The sweep: clears the recently-used bits it passes and stops at the first
    LIVE entry without one. *)
Fixpoint evict_loop (fuel : nat) (tbl : list vc_entry) (cap h : Z)
    : list vc_entry * option Z :=
  match fuel with
  | O => (tbl, None)
  | S fuel =>
      let h := next_slot cap h in
      match tbl !! Z.to_nat h with
      | None => (tbl, None)
      | Some e =>
          if negb (bool_decide (e_state e = LIVE)) then evict_loop fuel tbl cap h
          else if negb (e_clock_bit e =? 0)
          then evict_loop fuel (<[Z.to_nat h := with_clock 0 e]> tbl) cap h
          else (tbl, Some h)
      end
  end.

Definition set_slot_state (st : slot_state) (i : Z) (tbl : list vc_entry) : list vc_entry :=
  match tbl !! Z.to_nat i with
  | Some e => <[Z.to_nat i := with_state st e]> tbl
  | None => tbl
  end.

Definition shard_evict_one (s : vc_shard) (h : heap) (sl : vc_slab)
    : option (option Z * vc_shard * heap * vc_slab) :=
  let '(tbl, victim) := evict_loop (Z.to_nat (s_cap s)) (s_table s) (s_cap s) (s_clock_hand s) in
  match victim with
  | None => Some (None, sh_table tbl s, h, sl)
  | Some v =>
      e ← tbl !! Z.to_nat v;
      let tbl := set_slot_state BUSY v tbl in
      '(h, sl) ← entry_free_resources e h sl;
      let tbl := set_slot_state DEAD v tbl in
      let s := sh_count (u32 (s_count s - 1)) (sh_table tbl s) in
      Some (Some v, sh_hand v (sh_stats 0 0 0 1 s), h, sl)
  end.

(** ** Robin Hood insertion *)

(** What a slot holds once the incoming entry has been copied into it (BUSY
    during the copy, then LIVE). *)
Definition place (inc : vc_entry) : vc_entry :=
  Entry LIVE (e_flags inc) (e_val_len inc) (e_key_len inc) (e_key_hash inc)
    (e_expire_ns inc) 1 (e_probe_dist inc) (e_payload inc).

(** [tmp]: every field of the displaced entry but [state] and [clock_bit],
    which the code leaves uninitialised and never reads. *)
Definition displace (inc e : vc_entry) : vc_entry :=
  Entry (e_state inc) (e_flags e) (e_val_len e) (e_key_len e) (e_key_hash e)
    (e_expire_ns e) (e_clock_bit inc) (e_probe_dist e) (e_payload e).

(** The second component is the entry still in hand when the loop ends without
    having found a slot; the code drops it. *)
Fixpoint insert_loop (fuel : nat) (tbl : list vc_entry) (cap slot : Z) (inc : vc_entry)
    : list vc_entry * option vc_entry :=
  match fuel with
  | O => (tbl, Some inc)
  | S fuel =>
      match tbl !! Z.to_nat slot with
      | None => (tbl, Some inc)
      | Some e =>
          if bool_decide (e_state e = EMPTY) || bool_decide (e_state e = DEAD)
          then (<[Z.to_nat slot := place inc]> tbl, None)
          else
            let '(tbl, inc) :=
              if bool_decide (e_state e = LIVE) && (e_probe_dist e <? e_probe_dist inc)
              then (<[Z.to_nat slot := place inc]> tbl, displace inc e)
              else (tbl, inc) in
            insert_loop fuel tbl cap (next_slot cap slot)
              (with_dist (u8 (e_probe_dist inc + 1)) inc)
      end
  end.

Definition shard_insert (s : vc_shard) (inc : vc_entry) : vc_shard * option vc_entry :=
  let inc := with_dist 0 inc in
  let '(tbl, in_hand) := insert_loop (Z.to_nat (s_cap s)) (s_table s) (s_cap s)
                        (table_slot (e_key_hash inc) (s_cap s)) inc in
  (sh_table tbl s, in_hand).

(** ** Abstraction and invariant *)

Definition is_live (e : vc_entry) : Prop := e_state e = LIVE.
#[export] Instance is_live_dec e : Decision (is_live e).
Proof. unfold is_live. apply _. Defined.

(** The LIVE entries of a table, without what depends on their slot. *)
Definition lives (tbl : list vc_entry) : list vc_entry := core <$> filter is_live tbl.

(** Slot [i] holds something: a probe that reaches it goes on. *)
Definition nonempty (tbl : list vc_entry) (i : nat) : Prop :=
  exists e, tbl !! i = Some e /\ e_state e <> EMPTY.

Section Table.
Context (k : Z).
Abbreviation cap := (2 ^ k).

(** The slot [j] steps after the ideal slot of hash [h]. *)
Definition slot_at (h j : Z) : Z := (h + j) mod 2 ^ k.

(** The first [n] slots of the probe sequence of [h] are not EMPTY. *)
Definition run (tbl : list vc_entry) (h n : Z) : Prop :=
  forall j, 0 <= j < n -> nonempty tbl (Z.to_nat (slot_at h j)).

(** Every LIVE entry is reachable from its ideal slot without crossing an EMPTY
    slot. *)
Definition chain_ok (tbl : list vc_entry) : Prop :=
  forall i e, tbl !! i = Some e -> e_state e = LIVE ->
    exists n, 0 <= n /\ Z.of_nat i = slot_at (e_key_hash e) n /\ run tbl (e_key_hash e) n.

Record table_ok (tbl : list vc_entry) : Prop := {
  tok_len : Z.of_nat (length tbl) = cap;
  tok_chain : chain_ok tbl;
  tok_busy : Forall (fun e => e_state e <> BUSY) tbl
}.
End Table.

(** ** Table facts *)

Section TableFacts.
Context (k : Z) (Hk : 0 <= k <= 31).
Abbreviation N := (2 ^ k).

Lemma cap_range : 0 < N <= 2 ^ 31.
Proof. split; [apply Z.pow_pos_nonneg | apply Z.pow_le_mono_r]; lia. Qed.

Lemma slot_at_range h j : 0 <= slot_at k h j < N.
Proof. apply Z.mod_pos_bound. apply cap_range. Qed.

Lemma slot_at_0 h : slot_at k h 0 = table_slot h N.
Proof. unfold slot_at. by rewrite Z.add_0_r, table_slot_mod. Qed.

Lemma slot_at_next h j : next_slot N (slot_at k h j) = slot_at k h (j + 1).
Proof.
  pose proof cap_range. pose proof (slot_at_range h j). unfold next_slot.
  rewrite (u32_id (N - 1)), land_mask, u32_id by lia.
  unfold slot_at. rewrite Zplus_mod_idemp_l. f_equal. lia.
Qed.

Lemma next_slot_at s : 0 <= s < N -> next_slot N s = slot_at k s 1.
Proof.
  intros Hs. replace s with (slot_at k s 0) at 1.
  - apply slot_at_next.
  - unfold slot_at. rewrite Z.add_0_r. by apply Z.mod_small.
Qed.

Lemma slot_at_mod h n : slot_at k h (n mod N) = slot_at k h n.
Proof. unfold slot_at. apply Zplus_mod_idemp_r. Qed.

(** Every slot is met within [cap] steps of any starting point. *)
Lemma slot_at_cover h i : 0 <= i < N -> exists j, 0 <= j < N /\ slot_at k h j = i.
Proof.
  intros Hi. exists ((i - h) mod N). split; [apply Z.mod_pos_bound, cap_range|].
  rewrite slot_at_mod. unfold slot_at. replace (h + (i - h)) with i by lia.
  by apply Z.mod_small.
Qed.

Lemma lookup_slot (tbl : list vc_entry) h j :
  Z.of_nat (length tbl) = N -> exists e, tbl !! Z.to_nat (slot_at k h j) = Some e.
Proof.
  intros Hl. pose proof (slot_at_range h j). apply lookup_lt_is_Some_2. lia.
Qed.

Lemma run_mono tbl h n n' : n' <= n -> run k tbl h n -> run k tbl h n'.
Proof. intros Hle H j Hj. apply H. lia. Qed.

Lemma run_sub tbl tbl' h n :
  (forall i, nonempty tbl i -> nonempty tbl' i) -> run k tbl h n -> run k tbl' h n.
Proof. intros Hs H j Hj. by apply Hs, H. Qed.

Lemma run_snoc tbl h n :
  run k tbl h n -> nonempty tbl (Z.to_nat (slot_at k h n)) -> run k tbl h (n + 1).
Proof.
  intros H Hn j Hj. destruct (Z.eq_dec j n) as [->|]; [done|]. apply H. lia.
Qed.

Lemma nonempty_insert tbl i e j :
  e_state e <> EMPTY -> nonempty tbl j -> nonempty (<[i := e]> tbl) j.
Proof.
  intros He (e0 & Hj & He0). destruct (decide (i = j)) as [->|Hne].
  - exists e. split; [|done]. apply list_lookup_insert_eq. by eapply lookup_lt_Some.
  - exists e0. by rewrite list_lookup_insert_ne.
Qed.

(** Storing a non-EMPTY entry at slot [i], reachable if LIVE, keeps the chains. *)
Lemma chain_ok_insert tbl i e :
  chain_ok k tbl -> e_state e <> EMPTY ->
  (e_state e = LIVE -> exists n, 0 <= n /\ Z.of_nat i = slot_at k (e_key_hash e) n /\
                                  run k tbl (e_key_hash e) n) ->
  chain_ok k (<[i := e]> tbl).
Proof.
  intros Hc He Hlive j x Hj Hx. apply list_lookup_insert_Some in Hj as [(<- & <- & _)|[_ Hj]].
  - destruct (Hlive Hx) as (n & Hn & Hi & Hr). exists n. split; [done|]. split; [done|].
    eapply run_sub; [|exact Hr]. intros. by apply nonempty_insert.
  - destruct (Hc j x Hj Hx) as (n & Hn & Hi & Hr). exists n. split; [done|]. split; [done|].
    eapply run_sub; [|exact Hr]. intros. by apply nonempty_insert.
Qed.

(** ** Live entries of an updated table *)

Definition live1 (e : vc_entry) : list vc_entry := if decide (is_live e) then [core e] else [].

Lemma lives_cons e tbl : lives (e :: tbl) = live1 e ++ lives tbl.
Proof. unfold lives, live1. rewrite filter_cons. by case_decide. Qed.

#[export] Instance lives_perm : Proper ((≡ₚ) ==> (≡ₚ)) lives.
Proof. intros l1 l2 H. unfold lives. by rewrite H. Qed.

Lemma lives_insert tbl i e e' :
  tbl !! i = Some e ->
  exists rest, lives tbl ≡ₚ live1 e ++ rest /\ lives (<[i := e']> tbl) ≡ₚ live1 e' ++ rest.
Proof.
  intros Hi. destruct (insert_perm tbl i e e' Hi) as (l & H1 & H2). exists (lives l).
  rewrite <- !lives_cons. split; [by rewrite H1 | by rewrite H2].
Qed.

Lemma lives_elem tbl i e : tbl !! i = Some e -> e_state e = LIVE -> core e ∈ lives tbl.
Proof.
  intros Hi He. apply list_elem_of_fmap. exists e. split; [done|].
  apply list_elem_of_filter. split; [done|]. by eapply list_elem_of_lookup_2.
Qed.

Lemma lives_elem_inv tbl x :
  x ∈ lives tbl -> exists i e, tbl !! i = Some e /\ e_state e = LIVE /\ x = core e.
Proof.
  intros Hx. apply list_elem_of_fmap in Hx as (e & -> & He).
  apply list_elem_of_filter in He as [Hl He]. apply list_elem_of_lookup in He as [i Hi]. eauto.
Qed.

(** ** Insertion *)

Definition free_slot (e : vc_entry) : Prop := e_state e = EMPTY \/ e_state e = DEAD.

(** One of the [n] slots from [slot] on is free. *)
Definition free_within (tbl : list vc_entry) (slot n : Z) : Prop :=
  exists j e, 0 <= j < n /\ tbl !! Z.to_nat (slot_at k slot j) = Some e /\ free_slot e.

Lemma slot_at_add h n j : slot_at k (slot_at k h n) j = slot_at k h (n + j).
Proof. unfold slot_at. rewrite Zplus_mod_idemp_l. f_equal. lia. Qed.

Lemma free_within_next (tbl : list vc_entry) slot n e :
  0 <= slot < N -> tbl !! Z.to_nat slot = Some e -> ~ free_slot e ->
  free_within tbl slot (n + 1) -> free_within tbl (slot_at k slot 1) n.
Proof.
  intros Hs He Hnf (j & x & Hj & Hx & Hf). destruct (Z.eq_dec j 0) as [->|].
  - unfold slot_at in Hx. rewrite Z.add_0_r, Z.mod_small in Hx by done. congruence.
  - exists (j - 1), x. split; [lia|]. rewrite slot_at_add.
    by replace (1 + (j - 1)) with j by lia.
Qed.

Lemma free_within_insert (tbl : list vc_entry) slot n i e e' :
  tbl !! i = Some e -> ~ free_slot e ->
  free_within tbl slot n -> free_within (<[i := e']> tbl) slot n.
Proof.
  intros Hi Hnf (j & x & Hj & Hx & Hf). exists j, x. split; [done|]. split; [|done].
  rewrite list_lookup_insert_ne; [done|]. intros ->. congruence.
Qed.

Lemma table_ok_place tbl i e inc n :
  table_ok k tbl -> tbl !! i = Some e -> 0 <= n -> Z.of_nat i = slot_at k (e_key_hash inc) n ->
  run k tbl (e_key_hash inc) n -> table_ok k (<[i := place inc]> tbl).
Proof.
  intros Hok Hi Hn Hs Hr. constructor.
  - rewrite length_insert. apply Hok.
  - apply chain_ok_insert; [apply Hok | done |]. intros _. eauto.
  - apply Forall_insert; [apply Hok | done].
Qed.

Lemma insert_loop_spec fuel tbl inc n tbl' r :
  table_ok k tbl -> 0 <= n -> run k tbl (e_key_hash inc) n ->
  insert_loop fuel tbl N (slot_at k (e_key_hash inc) n) inc = (tbl', r) ->
  table_ok k tbl' /\
  (match r with
   | None => lives tbl' ≡ₚ core inc :: lives tbl
   | Some d => core d :: lives tbl' ≡ₚ core inc :: lives tbl
   end) /\
  (free_within tbl (slot_at k (e_key_hash inc) n) (Z.of_nat fuel) -> r = None).
Proof.
  revert tbl inc n. induction fuel as [|fuel IH]; intros tbl inc n Hok Hn Hr E.
  { simpl in E. simplify_eq. split; [done|]. split; [done|]. intros (j & ? & ? & _). lia. }
  cbn [insert_loop] in E. set (slot := slot_at k (e_key_hash inc) n) in *.
  pose proof (slot_at_range (e_key_hash inc) n) as Hsr. fold slot in Hsr.
  destruct (lookup_slot tbl (e_key_hash inc) n (tok_len _ _ Hok)) as [e He]. fold slot in He.
  rewrite He in E. assert (Hi : Z.of_nat (Z.to_nat slot) = slot) by lia.
  destruct (decide (free_slot e)) as [Hf|Hnf].
  { replace (_ || _) with true in E
      by (destruct Hf as [-> | ->]; [by rewrite bool_decide_true | by rewrite orb_true_r]).
    injection E as <- <-. split; [by eapply table_ok_place|]. split; [|done].
    destruct (lives_insert tbl (Z.to_nat slot) e (place inc) He) as (rest & H1 & H2).
    rewrite H1, H2. unfold live1 at 2. rewrite decide_False; [done|].
    unfold is_live. by destruct Hf as [-> | ->]. }
  assert (Hst : e_state e = LIVE).
  { destruct (e_state e) eqn:Es; [| |done|]; exfalso; try (apply Hnf; unfold free_slot; tauto).
    pose proof (Forall_lookup_1 _ _ _ _ (tok_busy _ _ Hok) He). done. }
  rewrite Hst in E. simpl in E.
  replace (next_slot N slot) with (slot_at k (e_key_hash inc) (n + 1)) in E
    by (symmetry; apply slot_at_next).
  assert (Hnext : free_within tbl slot (Z.of_nat (S fuel)) ->
                  free_within tbl (slot_at k slot 1) (Z.of_nat fuel)).
  { intros H. apply (free_within_next _ _ _ e); [done..|].
    by replace (Z.of_nat fuel + 1) with (Z.of_nat (S fuel)) by lia. }
  unfold slot in Hnext at 2. rewrite slot_at_add in Hnext.
  assert (Hne : nonempty tbl (Z.to_nat slot)) by (exists e; rewrite Hst; done).
  destruct (e_probe_dist e <? e_probe_dist inc).
  - (* the resident is displaced *)
    destruct (tok_chain _ _ Hok _ _ He Hst) as (d & Hd & Hid & Hrd). rewrite Hi in Hid.
    set (tbl1 := <[Z.to_nat slot := place inc]> tbl) in *.
    assert (Hok1 : table_ok k tbl1) by (by apply (table_ok_place _ _ e _ n)).
    assert (Hne1 : nonempty tbl1 (Z.to_nat slot)) by (by apply nonempty_insert).
    replace (slot_at k (e_key_hash inc) (n + 1)) with (slot_at k (e_key_hash e) (d + 1)) in *
      by (rewrite <- !slot_at_add, <- Hid; done).
    specialize (IH tbl1 (with_dist (u8 (e_probe_dist (displace inc e) + 1)) (displace inc e)) (d + 1)).
    destruct IH as (H1 & H2 & H3); [done | lia | | done |].
    { simpl. apply run_snoc; [|by rewrite <- Hid].
      eapply run_sub; [|exact Hrd]. intros. by apply nonempty_insert. }
    split; [done|]. split.
    + destruct (lives_insert tbl (Z.to_nat slot) e (place inc) He) as (rest & L1 & L2).
      fold tbl1 in L2. unfold live1 in L1, L2.
      rewrite decide_True in L1 by done. rewrite decide_True in L2 by done.
      destruct r as [x|]; rewrite H2, L2, L1; apply Permutation_swap.
    + intros Hfree. apply H3. by eapply free_within_insert, Hnext.
  - destruct (IH tbl (with_dist (u8 (e_probe_dist inc + 1)) inc) (n + 1)) as (H1 & H2 & H3);
      [done | lia | by apply run_snoc | done |].
    split; [done|]. split; [done|]. intros Hfree. by apply H3, Hnext.
Qed.

(** ** Lookup *)

Lemma find_loop_sound m now tbl key klen hash fuel j s :
  find_loop fuel m now tbl N key klen hash (slot_at k hash j) = Some s ->
  0 <= s < N /\ exists e, tbl !! Z.to_nat s = Some e /\
    entry_matches m key klen hash e = true /\ entry_expired now e = false.
Proof.
  revert j. induction fuel as [|fuel IH]; intros j; [done|]. cbn [find_loop].
  destruct (tbl !! Z.to_nat (slot_at k hash j)) as [e|] eqn:He; cbn [mbind option_bind]; [|done].
  case_bool_decide; [done|]. destruct (entry_matches _ _ _ _ e) eqn:Hm.
  - destruct (entry_expired now e) eqn:Hx; [done|]. intros [= <-].
    split; [apply slot_at_range | eauto].
  - rewrite slot_at_next. apply IH.
Qed.

Lemma find_loop_hit m now tbl key klen hash fuel i j e :
  i <= j < i + Z.of_nat fuel -> tbl !! Z.to_nat (slot_at k hash j) = Some e ->
  entry_matches m key klen hash e = true ->
  (forall x, i <= x < j -> nonempty tbl (Z.to_nat (slot_at k hash x))) ->
  exists j' e', i <= j' <= j /\ tbl !! Z.to_nat (slot_at k hash j') = Some e' /\
    entry_matches m key klen hash e' = true /\
    find_loop fuel m now tbl N key klen hash (slot_at k hash i) =
      if entry_expired now e' then None else Some (slot_at k hash j').
Proof.
  revert i. induction fuel as [|fuel IH]; intros i Hij He Hm Hne; [lia|].
  cbn [find_loop]. assert (Hi : nonempty tbl (Z.to_nat (slot_at k hash i))).
  { destruct (Z.eq_dec i j) as [->|]; [|apply Hne; lia]. exists e. split; [done|].
    unfold entry_matches in Hm. zreflect. apply bool_decide_eq_true in H. congruence. }
  destruct Hi as (e0 & He0 & Hs0). rewrite He0. cbn [mbind option_bind].
  rewrite bool_decide_false by done. destruct (entry_matches m key klen hash e0) eqn:Hm0.
  - exists i, e0. split; [lia|]. split; [done|]. split; [done|]. by destruct entry_expired.
  - rewrite slot_at_next. assert (i <> j) by congruence.
    destruct (IH (i + 1)) as (j' & e' & Hj' & He' & Hm' & ->); [lia | done | done | |].
    + intros x Hx. apply Hne. lia.
    + exists j', e'. split; [lia|]. done.
Qed.

(** A LIVE matching entry anywhere in the table is met by the probe, unless
    another matching entry is met first. *)
Lemma find_complete m now s key klen hash i e :
  s_cap s = N -> table_ok k (s_table s) -> s_table s !! i = Some e ->
  entry_matches m key klen hash e = true ->
  exists i' e', s_table s !! Z.to_nat i' = Some e' /\ 0 <= i' < N /\
    entry_matches m key klen hash e' = true /\
    shard_find m now s key klen hash = if entry_expired now e' then None else Some i'.
Proof.
  intros Hcap Hok Hi Hm. unfold shard_find. rewrite Hcap.
  pose proof Hm as Hm'. unfold entry_matches in Hm'. zreflect. apply bool_decide_eq_true in H.
  destruct (tok_chain _ _ Hok i e Hi H) as (n & Hn & Hs & Hr).
  pose proof cap_range. rewrite <- slot_at_0. subst hash.
  edestruct (find_loop_hit m now (s_table s) key klen (e_key_hash e) (Z.to_nat N) 0 (n mod N) e)
    as (j' & e' & Hj & He' & Hm2 & ->).
  - pose proof (Z.mod_pos_bound n N). lia.
  - rewrite slot_at_mod, <- Hs, Nat2Z.id. done.
  - done.
  - intros x Hx. apply Hr. pose proof (Z.mod_le n N). lia.
  - exists (slot_at k (e_key_hash e) j'), e'. split; [done|].
    split; [apply slot_at_range|]. done.
Qed.

Lemma shard_find_sound m now s key klen hash i :
  s_cap s = N -> shard_find m now s key klen hash = Some i ->
  0 <= i < N /\ exists e, s_table s !! Z.to_nat i = Some e /\
    entry_matches m key klen hash e = true /\ entry_expired now e = false.
Proof.
  intros Hcap. unfold shard_find. rewrite Hcap, <- slot_at_0. apply find_loop_sound.
Qed.

(** ** Eviction sweep *)

(** The sweep leaves an entry alone or clears its bit. *)
Definition cleared (e e' : vc_entry) : Prop := e' = e \/ e' = with_clock 0 e.

#[local] Instance cleared_preorder : PreOrder cleared.
Proof.
  split; [by left|]. intros x y z [->| ->] [->| ->]; unfold cleared; auto.
Qed.

Lemma cleared_core e e' :
  cleared e e' -> core e' = core e /\ e_state e' = e_state e /\ e_key_hash e' = e_key_hash e.
Proof. by intros [->| ->]. Qed.

Lemma cleared_insert tbl i e :
  tbl !! i = Some e -> Forall2 cleared tbl (<[i := with_clock 0 e]> tbl).
Proof.
  intros Hi. rewrite <- (list_insert_id tbl i e Hi) at 1.
  apply Forall2_insert; [by apply Forall_Forall2_diag, Forall_forall | by right].
Qed.

Lemma lives_cleared tbl tbl' : Forall2 cleared tbl tbl' -> lives tbl' = lives tbl.
Proof.
  induction 1 as [|e e' tbl tbl' He _ IH]; [done|]. rewrite !lives_cons, IH. f_equal.
  apply cleared_core in He as (Hc & Hs & _). unfold live1. rewrite Hc.
  unfold is_live. repeat case_decide; congruence.
Qed.

Lemma table_ok_cleared tbl tbl' :
  Forall2 cleared tbl tbl' -> table_ok k tbl -> table_ok k tbl'.
Proof.
  intros HF Hok. assert (Hne : forall i, nonempty tbl i -> nonempty tbl' i).
  { intros i (e & He & Hs). destruct (Forall2_lookup_l _ _ _ _ _ HF He) as (e' & He' & Hs').
    apply cleared_core in Hs' as (_ & Hs' & _). exists e'. split; [done|]. congruence. }
  constructor.
  - rewrite <- (Forall2_length _ _ _ HF). apply Hok.
  - intros i e' He' Hl. destruct (Forall2_lookup_r _ _ _ _ _ HF He') as (e & He & Hc).
    apply cleared_core in Hc as (_ & Hs & Hh).
    destruct (tok_chain _ _ Hok i e He) as (n & Hn & Hi & Hr); [congruence|].
    exists n. rewrite Hh. split; [done|]. split; [done|]. by eapply run_sub.
  - apply Forall_lookup. intros i e' He'. destruct (Forall2_lookup_r _ _ _ _ _ HF He') as (e & He & Hc).
    apply cleared_core in Hc as (_ & -> & _).
    apply (Forall_lookup_1 _ _ _ _ (tok_busy _ _ Hok) He).
Qed.

(** LIVE entries of the slots [h + 1 .. h + n] have lost their clock bit. *)
Definition swept (tbl : list vc_entry) (h n : Z) : Prop :=
  forall j e, 1 <= j <= n -> tbl !! Z.to_nat (slot_at k h j) = Some e ->
    e_state e = LIVE -> e_clock_bit e = 0.

Lemma swept_step tbl h n :
  swept tbl (h + 1) n ->
  (forall x, tbl !! Z.to_nat (slot_at k h 1) = Some x -> e_state x = LIVE -> e_clock_bit x = 0) ->
  swept tbl h (n + 1).
Proof.
  intros Hsw H1 j x Hj Hx Hlx. destruct (Z.eq_dec j 1) as [->|]; [by eapply H1|].
  apply (Hsw (j - 1) x); [lia | | done].
  by replace (slot_at k (h + 1) (j - 1)) with (slot_at k h j) by (unfold slot_at; f_equal; lia).
Qed.

Lemma slot_at_distinct h i j : i < j < i + N -> slot_at k h i <> slot_at k h j.
Proof.
  intros Hij. unfold slot_at. intros Heq.
  assert (((h + j) - (h + i)) mod N = 0) by (rewrite Zminus_mod, Heq, Z.sub_diag; apply Z.mod_0_l; lia).
  replace (h + j - (h + i)) with (j - i) in H by lia.
  rewrite Z.mod_small in H; lia.
Qed.

Lemma evict_loop_spec fuel tbl h tbl' r :
  Z.of_nat (length tbl) = N -> Z.of_nat fuel <= N ->
  evict_loop fuel tbl N (slot_at k h 0) = (tbl', r) ->
  Forall2 cleared tbl tbl' /\
  match r with
  | Some v => exists j e, 1 <= j <= Z.of_nat fuel /\ v = slot_at k h j /\
      tbl' !! Z.to_nat v = Some e /\ tbl !! Z.to_nat v = Some e /\
      e_state e = LIVE /\ e_clock_bit e = 0
  | None => swept tbl' h (Z.of_nat fuel)
  end.
Proof.
  revert tbl h. induction fuel as [|fuel IH]; intros tbl h Hl Hf E.
  { simpl in E. simplify_eq. split; [by apply Forall_Forall2_diag, Forall_forall|].
    intros j e Hj. lia. }
  cbn [evict_loop] in E. rewrite slot_at_next in E. change (0 + 1) with 1 in E.
  destruct (lookup_slot tbl h 1 Hl) as [e He]. rewrite He in E.
  assert (Hsh : slot_at k h 1 = slot_at k (h + 1) 0) by (unfold slot_at; f_equal; lia).
  replace (Z.of_nat (S fuel)) with (Z.of_nat fuel + 1) in * by lia.
  case_bool_decide as Hlive; cbn [negb] in E;
    [destruct (Z.eqb_spec (e_clock_bit e) 0) as [Hc|Hc]; cbn [negb] in E|].
  - injection E as <- <-. split; [by apply Forall_Forall2_diag, Forall_forall|].
    exists 1, e. split; [lia|]. done.
  - rewrite Hsh in E. apply IH in E as [HF Hr]; [|by rewrite length_insert|lia].
    rewrite <- Hsh in HF, Hr. pose proof (cleared_insert tbl _ e He) as HF0.
    split; [by etrans|]. destruct r as [v|].
    + destruct Hr as (j & x & Hj & -> & Hx' & Hx & Hlx & Hcx). exists (j + 1), x.
      replace (slot_at k (h + 1) j) with (slot_at k h (j + 1)) in * by (unfold slot_at; f_equal; lia).
      rewrite list_lookup_insert_ne in Hx; [split; [lia|]; done|].
      pose proof (slot_at_distinct h 1 (j + 1)). pose proof (slot_at_range h 1).
      pose proof (slot_at_range h (j + 1)). lia.
    + apply swept_step; [done|]. intros x Hx Hlx.
      destruct (Forall2_lookup_r _ _ _ _ _ HF Hx) as (y & Hy & Hcy).
      rewrite list_lookup_insert_eq in Hy by (by eapply lookup_lt_Some).
      injection Hy as <-. by destruct Hcy as [->| ->].
  - rewrite Hsh in E. apply IH in E as [HF Hr]; [|done|lia]. split; [done|].
    destruct r as [v|].
    + destruct Hr as (j & x & Hj & -> & ?). exists (j + 1), x. split; [lia|].
      split; [unfold slot_at; f_equal; lia | done].
    + apply swept_step; [done|]. intros x Hx Hlx.
      destruct (Forall2_lookup_r _ _ _ _ _ HF Hx) as (y & Hy & Hcy).
      apply cleared_core in Hcy as (_ & Hs & _). simplify_eq. congruence.
Qed.

Lemma lives_all_empty n : lives (replicate n zero_entry) = [].
Proof. induction n; [done|]. simpl. by rewrite lives_cons. Qed.
End TableFacts.
