(* ===== verification/Wal.v ===== *)
(** * Write-ahead log

    [src/include/voidcache.h], lines 217-251, and [src/src/voidcache.c], lines
    499-577.  The ring is the byte map of the mapped file; offsets are relative
    to its start, so that a write at an offset outside [0, ring_size) is a write
    outside the mapping. *)

From S2P Require Import Prelude Hash Slab.

(** ** Definitions *)

Definition VC_WAL_SET : Z := 0x53.
Definition VC_WAL_DEL : Z := 0x44.
Definition WAL_MAGIC_V : Z := 0xC0CA1E01.
Definition VC_WAL_RING_SIZE : Z := 64 * 1024 * 1024.
Definition WAL_HDR_SIZE : Z := 64.

Record vc_wal_hdr := WalHdr {
  wh_magic : Z;
  wh_op : Z;
  wh_key_len : Z;
  wh_val_len : Z;
  wh_ttl_sec : Z;
  wh_crc32 : Z;
  wh_seq : Z;
  wh_ts_ns : Z
}.

(** The 64 bytes of the packed header. *)
Definition hdr_bytes (h : vc_wal_hdr) : list Z :=
  le_encode 4 (wh_magic h) ++ le_encode 1 (wh_op h) ++ replicate 3 0 ++
  le_encode 4 (wh_key_len h) ++ le_encode 4 (wh_val_len h) ++ le_encode 4 (wh_ttl_sec h) ++
  le_encode 4 (wh_crc32 h) ++ le_encode 8 (wh_seq h) ++ le_encode 8 (wh_ts_ns h) ++
  replicate 24 0.

Record vc_wal := Wal {
  w_ring : option bytemap;    (** NULL without a path *)
  w_ring_size : Z;
  w_write_pos : Z;
  w_wal_seq : Z;
  w_locked : bool
}.

(** The answers of [open], [ftruncate] and [mmap], with the bytes of the file. *)
Record wal_env := WalEnv {
  we_open_ok : bool;
  we_truncate_ok : bool;
  we_map : option bytemap
}.

(** [path] is [None] for a NULL path. *)
Definition wal_init (path : option (list Z)) (env : wal_env) : vc_err * vc_wal :=
  let w0 := Wal None 0 0 0 false in
  match path with
  | None => (VC_OK, w0)
  | Some _ =>
      if negb (we_open_ok env) then (VC_ERR_WAL, w0)
      else if negb (we_truncate_ok env) then (VC_ERR_WAL, w0)
      else match we_map env with
           | None => (VC_ERR_WAL, w0)
           | Some file => (VC_OK, Wal (Some file) VC_WAL_RING_SIZE 0 0 false)
           end
  end.

(** [total = (total + 7u) & ~7u]: [~7u] is a 32-bit mask. *)
Definition wal_total (kl vl : Z) : Z :=
  Z.land (u64 (WAL_HDR_SIZE + (kl + vl) + 7)) (2 ^ 32 - 8).

Definition wal_pos (w : vc_wal) (total : Z) : Z :=
  let pos := w_write_pos w mod w_ring_size w in
  if w_ring_size w <? u64 (pos + total) then 0 else pos.

Definition xxh32_val (data : list Z) (seed : Z) : Z := default 0 (xxh32 data seed).

Definition wal_crc (op : Z) (key val : list Z) : Z :=
  let crc := xxh32_val [op] 0 in
  let crc := xxh32_val key crc in
  if decide (val = []) then crc else xxh32_val val crc.

(** The [n] bytes from offset [pos] lie inside the mapping. *)
Definition in_ring (w : vc_wal) (pos n : Z) : bool := (0 <=? pos) && (pos + n <=? w_ring_size w).

(** [key] and [val] are the [kl] and [vl] bytes that are logged; [None]: the
    mutex is held for ever, or the record is copied past the end of the mapping.
    [wall] is what [wall_ns()] returns. *)
Definition wal_append (w : vc_wal) (op : Z) (key val : list Z) (ttl_sec wall : Z)
    : option vc_wal :=
  match w_ring w with
  | None => Some w
  | Some ring =>
      let kl := Z.of_nat (length key) in
      let vl := Z.of_nat (length val) in
      let total := wal_total kl vl in
      if w_locked w then None else
      let pos := wal_pos w total in
      if negb (in_ring w pos (WAL_HDR_SIZE + kl + vl)) then None else
      let hdr := WalHdr WAL_MAGIC_V op kl vl ttl_sec (wal_crc op key val) (w_wal_seq w) wall in
      let ring := mem_write ring pos (hdr_bytes hdr) in
      let ring := mem_write ring (pos + WAL_HDR_SIZE) key in
      let ring := if vl =? 0 then ring
                  else mem_write ring (pos + WAL_HDR_SIZE + kl) val in
      Some (Wal (Some ring) (w_ring_size w) (u64 (pos + total)) (u64 (w_wal_seq w + 1)) false)
  end.

(** [msync] and [munmap]: what the file holds when the log is closed; [None] without a log. *)
Definition wal_destroy (w : vc_wal) : option bytemap := w_ring w.

(** ** Reading the log back: what a record at an offset says *)

Record wal_rec := WalRec { wr_hdr : vc_wal_hdr; wr_key : list Z; wr_val : list Z }.

Definition field (ring : bytemap) (pos off : Z) (n : nat) : Z :=
  le_decode (mem_read ring (pos + off) n).

Definition parse_rec (ring : bytemap) (pos : Z) : option wal_rec :=
  let hdr := WalHdr (field ring pos 0 4) (field ring pos 4 1) (field ring pos 8 4)
               (field ring pos 12 4) (field ring pos 16 4) (field ring pos 20 4)
               (field ring pos 24 8) (field ring pos 32 8) in
  let key := mem_read ring (pos + 64) (Z.to_nat (wh_key_len hdr)) in
  let val := mem_read ring (pos + 64 + wh_key_len hdr) (Z.to_nat (wh_val_len hdr)) in
  if (wh_magic hdr =? WAL_MAGIC_V) && (wh_crc32 hdr =? wal_crc (wh_op hdr) key val)
  then Some (WalRec hdr key val) else None.

(** All records of [pos, stop), in order. *)
Fixpoint parse_log (fuel : nat) (ring : bytemap) (pos stop : Z) : option (list wal_rec) :=
  if stop <=? pos then Some [] else
  match fuel with
  | O => None
  | S fuel =>
      r ← parse_rec ring pos;
      rs ← parse_log fuel ring (pos + wal_total (wh_key_len (wr_hdr r)) (wh_val_len (wr_hdr r))) stop;
      Some (r :: rs)
  end.

(** ** Sizes *)

Lemma length_hdr_bytes h : length (hdr_bytes h) = 64%nat.
Proof. unfold hdr_bytes. rewrite !length_app, !length_le_encode, !length_replicate. done. Qed.

Lemma wal_total_spec kl vl :
  0 <= kl -> 0 <= vl -> kl + vl <= 2 ^ 32 - 128 ->
  64 + kl + vl <= wal_total kl vl < 64 + kl + vl + 8 /\ wal_total kl vl mod 8 = 0.
Proof.
  intros Hk Hv Hs. unfold wal_total, WAL_HDR_SIZE. set (x := 64 + (kl + vl) + 7).
  rewrite u64_id by lia.
  assert (E : Z.land x (2 ^ 32 - 8) = x / 8 * 8) by (apply (land_clear x 32 3); lia).
  rewrite E. split; [zdivlia|]. apply Z.mod_mul. lia.
Qed.

(** ** Appending *)

Lemma shiftr_range a n k : 0 <= k -> 0 <= a < 2 ^ n -> 0 <= Z.shiftr a k < 2 ^ n.
Proof.
  intros Hk Ha. rewrite Z.shiftr_div_pow2 by done. pose proof (Z.pow_pos_nonneg 2 k).
  split; [apply Z.div_pos; lia|]. apply Z.div_lt_upper_bound; nia.
Qed.

Lemma xxh32_val_range data seed : 0 <= xxh32_val data seed < 2 ^ 32.
Proof.
  unfold xxh32_val. rewrite xxh32_spec_ok. simpl. unfold xxh32_spec.
  destruct (if 16 <=? _ then _ else _) as [h rest]. unfold xxh_avalanche.
  apply lxor_range; [lia | apply u32_range | apply shiftr_range; [lia | apply u32_range]].
Qed.

Lemma wal_crc_range op key val : 0 <= wal_crc op key val < 2 ^ 32.
Proof. unfold wal_crc. case_decide; apply xxh32_val_range. Qed.

(** A record that the ring can hold, of the widths the callers pass. *)
Record rec_ok (op : Z) (key val : list Z) (ttl wall : Z) : Prop := {
  rok_op : is_byte op;
  rok_len : Z.of_nat (length key) + Z.of_nat (length val) <= 2 ^ 32 - 128;
  rok_ttl : 0 <= ttl < 2 ^ 32;
  rok_wall : 0 <= wall < 2 ^ 64
}.

Definition wal_wf (w : vc_wal) : Prop :=
  w_locked w = false /\ 0 <= w_wal_seq w < 2 ^ 64 /\
  (w_ring w = None \/ 0 < w_ring_size w <= 2 ^ 62 /\ 0 <= w_write_pos w <= w_ring_size w).

(** What [wal_append] stores: header, key, value, back to back. *)
Definition rec_bytes (seq op : Z) (key val : list Z) (ttl wall : Z) : list Z :=
  hdr_bytes (WalHdr WAL_MAGIC_V op (Z.of_nat (length key)) (Z.of_nat (length val)) ttl
               (wal_crc op key val) seq wall) ++ key ++ val.

Lemma length_rec_bytes seq op key val ttl wall :
  Z.of_nat (length (rec_bytes seq op key val ttl wall)) =
  64 + Z.of_nat (length key) + Z.of_nat (length val).
Proof. unfold rec_bytes. rewrite !length_app, length_hdr_bytes. lia. Qed.

Lemma wal_append_eq w ring op key val ttl wall :
  w_ring w = Some ring -> w_locked w = false ->
  in_ring w (wal_pos w (wal_total (Z.of_nat (length key)) (Z.of_nat (length val))))
    (WAL_HDR_SIZE + Z.of_nat (length key) + Z.of_nat (length val)) = true ->
  let total := wal_total (Z.of_nat (length key)) (Z.of_nat (length val)) in
  let pos := wal_pos w total in
  wal_append w op key val ttl wall =
  Some (Wal (Some (mem_write ring pos (rec_bytes (w_wal_seq w) op key val ttl wall)))
          (w_ring_size w) (u64 (pos + total)) (u64 (w_wal_seq w + 1)) false).
Proof.
  intros Hr Hl Hin. unfold wal_append. rewrite Hr, Hl, Hin. simpl. do 3 f_equal.
  unfold rec_bytes. rewrite !mem_write_app, length_hdr_bytes.
  change (Z.of_nat 64) with WAL_HDR_SIZE.
  destruct (Z.eqb_spec (Z.of_nat (length val)) 0); [|done].
  destruct val; [done|]. simpl in *. lia.
Qed.

Lemma wal_pos_in w total :
  0 < w_ring_size w <= 2 ^ 62 -> 0 <= total <= w_ring_size w ->
  0 <= wal_pos w total /\ wal_pos w total + total <= w_ring_size w.
Proof.
  intros Hs Ht. unfold wal_pos. pose proof (Z.mod_pos_bound (w_write_pos w) (w_ring_size w)).
  rewrite u64_id by lia. zcase; lia.
Qed.

(** A record whose padded size the ring has is copied inside it. *)
Lemma wal_fits w kl vl :
  0 < w_ring_size w <= 2 ^ 62 -> 0 <= kl -> 0 <= vl -> kl + vl <= 2 ^ 32 - 128 ->
  wal_total kl vl <= w_ring_size w -> in_ring w (wal_pos w (wal_total kl vl)) (WAL_HDR_SIZE + kl + vl) = true.
Proof.
  intros Hs Hk Hv Hm Ht. destruct (wal_total_spec kl vl Hk Hv Hm) as [Hl _].
  destruct (wal_pos_in w (wal_total kl vl) Hs) as [Hp1 Hp2]; [lia|].
  unfold in_ring, WAL_HDR_SIZE. apply andb_true_iff. rewrite !Z.leb_le. lia.
Qed.

(** ** What the cache keeps of its log *)

(** The state of the log between two operations: the ring of [wal_init], or none. *)
Definition log_wf (w : vc_wal) : Prop :=
  wal_wf w /\ (w_ring w = None \/ w_ring_size w = VC_WAL_RING_SIZE).

(** A record of [n] bytes of key and value can be logged. *)
Definition log_room (w : vc_wal) (n : Z) : Prop := w_ring w = None \/ n <= VC_WAL_RING_SIZE - 71.

Lemma log_room_le w m n : m <= n -> log_room w n -> log_room w m.
Proof. intros Hm [H|H]; [by left | right; lia]. Qed.

Lemma wal_init_wf path env w : wal_init path env = (VC_OK, w) -> log_wf w.
Proof.
  unfold wal_init. destruct path as [path|]; [|intros [= <-]; split; [|by left]; split; [done|]; split; [done | by left]].
  destruct (we_open_ok env), (we_truncate_ok env); cbn [negb]; try done. destruct (we_map env) as [m|]; [|done].
  intros [= <-]. split; [|by right]. split; [done|]. split; [done|]. right. cbn. unfold VC_WAL_RING_SIZE. lia.
Qed.

(** An append leaves the log ready, and with the room it had. *)
Lemma wal_append_total w op ky val ttl wall :
  log_wf w -> log_room w (Z.of_nat (length ky) + Z.of_nat (length val)) ->
  exists w', wal_append w op ky val ttl wall = Some w' /\ log_wf w' /\ (w_ring w' = None <-> w_ring w = None).
Proof.
  intros [(Hl & Hseq & Hw) Hsz] Hroom. destruct (w_ring w) as [ring|] eqn:Hr.
  2: { exists w. unfold wal_append. rewrite Hr. split; [done|]. split; [|done]. by split; [split; [|split; [|left]] | left]. }
  destruct Hw as [|[Hw1 Hw2]]; [done|]. destruct Hsz as [|Hsz]; [done|]. destruct Hroom as [|Hroom]; [congruence|].
  pose proof Hsz as Hv. unfold VC_WAL_RING_SIZE in Hv, Hroom.
  destruct (wal_total_spec (Z.of_nat (length ky)) (Z.of_nat (length val))) as [Ht _]; [lia..|].
  destruct (wal_pos_in w (wal_total (Z.of_nat (length ky)) (Z.of_nat (length val))) Hw1) as [Hp1 Hp2]; [lia|].
  eexists. split; [apply wal_append_eq; [done..|]; apply wal_fits; lia|].
  split; [|done]. split; [|by right]. split; [done|]. split; [apply u64_range|]. right. cbn. rewrite u64_id; lia.
Qed.

(** ** Reading back *)

Lemma field_at ring pos l1 l2 n z :
  mem_read ring pos (length (l1 ++ le_encode n z ++ l2)) = l1 ++ le_encode n z ++ l2 ->
  0 <= z < 256 ^ Z.of_nat n ->
  field ring pos (Z.of_nat (length l1)) n = z.
Proof.
  intros Hl Hz. unfold field. rewrite (mem_read_slice _ _ _ _ _ Hl).
  - rewrite drop_app_exact by done. rewrite take_app_exact by apply length_le_encode.
    rewrite le_decode_encode. by apply Z.mod_small.
  - rewrite !length_app, length_le_encode. lia.
Qed.

Lemma parse_rec_bytes ring pos seq op key val ttl wall :
  rec_ok op key val ttl wall -> 0 <= seq < 2 ^ 64 ->
  let l := rec_bytes seq op key val ttl wall in
  mem_read ring pos (length l) = l ->
  parse_rec ring pos =
  Some (WalRec (WalHdr WAL_MAGIC_V op (Z.of_nat (length key)) (Z.of_nat (length val)) ttl
                  (wal_crc op key val) seq wall) key val).
Proof.
  intros [Hop Hlen Httl Hwall] Hseq l Hl. pose proof (wal_crc_range op key val) as Hcrc.
  unfold is_byte in Hop.
  set (m := le_encode 4 WAL_MAGIC_V). set (o := le_encode 1 op).
  set (kl := le_encode 4 (Z.of_nat (length key))). set (vl := le_encode 4 (Z.of_nat (length val))).
  set (tl := le_encode 4 ttl). set (cr := le_encode 4 (wal_crc op key val)).
  set (sq := le_encode 8 seq). set (ts := le_encode 8 wall).
  set (z3 := replicate 3 0). set (rest := replicate 24 0 ++ key ++ val).
  assert (E : l = m ++ o ++ z3 ++ kl ++ vl ++ tl ++ cr ++ sq ++ ts ++ rest).
  { unfold l, rec_bytes, hdr_bytes. by rewrite <- !app_assoc. }
  assert (F : forall off l1 l2 n z, l = l1 ++ le_encode n z ++ l2 -> off = Z.of_nat (length l1) ->
            0 <= z < 256 ^ Z.of_nat n -> field ring pos off n = z).
  { intros off l1 l2 n z El -> Hz. apply (field_at ring pos l1 l2); [|done]. by rewrite <- El. }
  assert (Hs : forall off n, (off + n <= length l)%nat ->
             mem_read ring (pos + Z.of_nat off) n = take n (drop off l)).
  { intros. by apply mem_read_slice. }
  pose proof (length_rec_bytes seq op key val ttl wall) as Hll. fold l in Hll.
  unfold parse_rec.
  rewrite (F 0 ([]) (o ++ z3 ++ kl ++ vl ++ tl ++ cr ++ sq ++ ts ++ rest) 4%nat WAL_MAGIC_V)
    by first [by rewrite E, <- ?app_assoc | done | lia].
  rewrite (F 4 (m) (z3 ++ kl ++ vl ++ tl ++ cr ++ sq ++ ts ++ rest) 1%nat op)
    by first [by rewrite E, <- ?app_assoc | done | lia].
  rewrite (F 8 (m ++ o ++ z3) (vl ++ tl ++ cr ++ sq ++ ts ++ rest) 4%nat (Z.of_nat (length key)))
    by first [by rewrite E, <- ?app_assoc | done | lia].
  rewrite (F 12 (m ++ o ++ z3 ++ kl) (tl ++ cr ++ sq ++ ts ++ rest) 4%nat (Z.of_nat (length val)))
    by first [by rewrite E, <- ?app_assoc | done | lia].
  rewrite (F 16 (m ++ o ++ z3 ++ kl ++ vl) (cr ++ sq ++ ts ++ rest) 4%nat ttl)
    by first [by rewrite E, <- ?app_assoc | done | lia].
  rewrite (F 20 (m ++ o ++ z3 ++ kl ++ vl ++ tl) (sq ++ ts ++ rest) 4%nat (wal_crc op key val))
    by first [by rewrite E, <- ?app_assoc | done | lia].
  rewrite (F 24 (m ++ o ++ z3 ++ kl ++ vl ++ tl ++ cr) (ts ++ rest) 8%nat seq)
    by first [by rewrite E, <- ?app_assoc | done | lia].
  rewrite (F 32 (m ++ o ++ z3 ++ kl ++ vl ++ tl ++ cr ++ sq) (rest) 8%nat wall)
    by first [by rewrite E, <- ?app_assoc | done | lia].
  cbn [wh_key_len wh_val_len wh_magic wh_crc32 wh_op]. rewrite !Nat2Z.id.
  change 64 with (Z.of_nat 64). rewrite (Hs 64%nat) by lia.
  rewrite <- Z.add_assoc, <- Nat2Z.inj_add, Hs by lia.
  unfold l, rec_bytes. rewrite drop_app_exact by apply length_hdr_bytes.
  rewrite take_app_exact by done.
  rewrite app_assoc, drop_app_exact by (rewrite length_app, length_hdr_bytes; done).
  rewrite take_ge by done. by rewrite !Z.eqb_refl.
Qed.

(** ** A log of several records *)

Record log_op := LogOp { lo_op : Z; lo_key : list Z; lo_val : list Z; lo_ttl : Z; lo_wall : Z }.

Definition lo_ok (o : log_op) : Prop := rec_ok (lo_op o) (lo_key o) (lo_val o) (lo_ttl o) (lo_wall o).

Definition lo_total (o : log_op) : Z :=
  wal_total (Z.of_nat (length (lo_key o))) (Z.of_nat (length (lo_val o))).

Definition lo_append (w : vc_wal) (o : log_op) : option vc_wal :=
  wal_append w (lo_op o) (lo_key o) (lo_val o) (lo_ttl o) (lo_wall o).

Definition lo_bytes (seq : Z) (o : log_op) : list Z :=
  rec_bytes seq (lo_op o) (lo_key o) (lo_val o) (lo_ttl o) (lo_wall o).

#[global] Arguments lo_bytes : simpl never.

Definition lo_rec (seq : Z) (o : log_op) : wal_rec :=
  WalRec (WalHdr WAL_MAGIC_V (lo_op o) (Z.of_nat (length (lo_key o)))
            (Z.of_nat (length (lo_val o))) (lo_ttl o)
            (wal_crc (lo_op o) (lo_key o) (lo_val o)) seq (lo_wall o)) (lo_key o) (lo_val o).

Fixpoint append_all (w : vc_wal) (ops : list log_op) : option vc_wal :=
  match ops with
  | [] => Some w
  | o :: ops => w ← lo_append w o; append_all w ops
  end.

Definition log_size (ops : list log_op) : Z := foldr (fun o n => lo_total o + n) 0 ops.

(** The bytes of the records of [ops] lie back to back from [pos] to [stop]. *)
Fixpoint log_at (ring : bytemap) (pos seq : Z) (ops : list log_op) (stop : Z) : Prop :=
  match ops with
  | [] => pos = stop
  | o :: ops =>
      lo_ok o /\ mem_read ring pos (length (lo_bytes seq o)) = lo_bytes seq o /\
      log_at ring (pos + lo_total o) (seq + 1) ops stop
  end.

Lemma lo_total_fits o seq :
  lo_ok o -> Z.of_nat (length (lo_bytes seq o)) <= lo_total o /\ 64 <= lo_total o.
Proof.
  intros Ho. pose proof (rok_len _ _ _ _ _ Ho). unfold lo_bytes. rewrite length_rec_bytes.
  destruct (wal_total_spec (Z.of_nat (length (lo_key o))) (Z.of_nat (length (lo_val o))));
    unfold lo_total; lia.
Qed.

Lemma log_at_stop ring pos seq ops stop : log_at ring pos seq ops stop -> pos + log_size ops = stop.
Proof.
  revert pos seq. induction ops as [|o ops IH]; intros pos seq; simpl; [lia|].
  intros (_ & _ & H). apply IH in H. unfold log_size in *. lia.
Qed.

Lemma log_size_nonneg ops : Forall lo_ok ops -> 0 <= log_size ops.
Proof.
  induction 1 as [|o ops Ho _ IH]; simpl; [lia|]. pose proof (lo_total_fits o 0 Ho). lia.
Qed.

Lemma log_at_ok ring pos seq ops stop : log_at ring pos seq ops stop -> Forall lo_ok ops.
Proof.
  revert pos seq. induction ops as [|o ops IH]; intros pos seq; simpl; [by constructor|].
  intros (Ho & _ & H). constructor; [done|]. by eapply IH.
Qed.

(** A write at or after the end of the log leaves it as it is. *)
Lemma log_at_write ring pos seq ops stop a bs' :
  log_at ring pos seq ops stop -> stop <= a -> log_at (mem_write ring a bs') pos seq ops stop.
Proof.
  revert pos seq. induction ops as [|o ops IH]; intros pos seq; [done|].
  intros (Ho & Hm & H) Ha. split; [done|]. split; [|by apply IH].
  rewrite mem_read_write_disj; [done|]. right. cbn [fst snd].
  pose proof (log_at_stop _ _ _ _ _ H). pose proof (log_size_nonneg _ (log_at_ok _ _ _ _ _ H)).
  pose proof (lo_total_fits o seq Ho). lia.
Qed.

Lemma log_at_snoc ring pos seq ops stop o :
  log_at ring pos seq ops stop -> lo_ok o ->
  log_at (mem_write ring stop (lo_bytes (seq + Z.of_nat (length ops)) o)) pos seq (ops ++ [o])
    (stop + lo_total o).
Proof.
  intros H Ho. assert (Hle : stop <= stop) by lia.
  pose proof (log_at_write _ _ _ _ _ stop (lo_bytes (seq + Z.of_nat (length ops)) o) H Hle) as H'.
  clear H Hle. remember (mem_write _ _ _) as r eqn:Hr. revert pos seq Hr H'.
  induction ops as [|x ops IH]; intros pos seq Hr; simpl.
  - intros <-. subst r. rewrite Z.add_0_r in *. split; [done|]. split; [|done].
    apply mem_read_write_same.
  - intros (Hx & Hm & H). split; [done|]. split; [done|]. apply IH; [|done].
    rewrite Hr. cbn [length]. do 2 f_equal. lia.
Qed.

Lemma log_at_parse ring pos seq ops stop :
  log_at ring pos seq ops stop -> 0 <= seq -> seq + Z.of_nat (length ops) <= 2 ^ 64 ->
  parse_log (length ops) ring pos stop =
  Some (imap (fun i o => lo_rec (seq + Z.of_nat i) o) ops).
Proof.
  revert pos seq. induction ops as [|o ops IH]; intros pos seq H Hseq Hmax.
  { simpl in *. subst. by rewrite Z.leb_refl. }
  pose proof (log_at_stop _ _ _ _ _ H) as Hst. pose proof (log_at_ok _ _ _ _ _ H) as Hok.
  simpl in Hst. destruct H as (Ho & Hm & H).
  apply Forall_cons in Hok as [_ Hok]. pose proof (log_size_nonneg _ Hok).
  pose proof (lo_total_fits o seq Ho). cbn [length parse_log].
  simpl in Hmax. unfold log_size in *. destruct (Z.leb_spec stop pos); [lia|].
  rewrite (parse_rec_bytes ring pos seq _ _ _ _ _ Ho) by first [lia | exact Hm].
  cbn [mbind option_bind wr_hdr wh_key_len wh_val_len]. fold (lo_total o).
  rewrite (IH _ (seq + 1)) by first [done | lia].
  cbn [mbind option_bind imap]. rewrite Z.add_0_r. do 2 f_equal.
  apply imap_ext. intros i x _. simpl. f_equal. lia.
Qed.

Lemma append_all_log w ring ops done :
  w_ring w = Some ring -> w_locked w = false -> 0 < w_ring_size w <= 2 ^ 62 ->
  w_wal_seq w = Z.of_nat (length done) -> Z.of_nat (length (done ++ ops)) < 2 ^ 64 ->
  log_at ring 0 0 done (w_write_pos w) -> Forall lo_ok ops ->
  log_size (done ++ ops) <= w_ring_size w ->
  exists w' ring', append_all w ops = Some w' /\ w_ring w' = Some ring' /\
    w_ring_size w' = w_ring_size w /\ w_wal_seq w' = Z.of_nat (length (done ++ ops)) /\
    log_at ring' 0 0 (done ++ ops) (w_write_pos w').
Proof.
  revert w ring done. induction ops as [|o ops IH]; intros w ring done Hr Hl Hsz Hseq Hmax Hat Hok Hfit.
  { rewrite app_nil_r in *. exists w, ring. auto. }
  apply Forall_cons in Hok as [Ho Hok]. pose proof (log_at_ok _ _ _ _ _ Hat) as Hd.
  pose proof (log_size_nonneg _ Hok). pose proof (log_size_nonneg _ Hd).
  pose proof (log_at_stop _ _ _ _ _ Hat) as Hst. pose proof (lo_total_fits o 0 Ho) as [_ Ht].
  assert (Hsum : log_size (done ++ o :: ops) = log_size done + (lo_total o + log_size ops)).
  { unfold log_size. clear. induction done; simpl; [done | rewrite IHdone; lia]. }
  rewrite length_app in Hmax. simpl in Hmax.
  assert (Hpos : wal_pos w (lo_total o) = w_write_pos w).
  { unfold wal_pos. rewrite Z.mod_small by lia. rewrite u64_id by lia. zcase; lia. }
  cbn [append_all]. unfold lo_append. rewrite (wal_append_eq w ring);
    [|done..| apply wal_fits; try lia; [apply (rok_len _ _ _ _ _ Ho) | fold (lo_total o); lia]].
  fold (lo_total o). rewrite Hpos, !u64_id by lia. cbn [mbind option_bind].
  rewrite cons_middle, app_assoc in Hfit |- *.
  match goal with |- context [append_all ?x ops] => set (w1 := x) end.
  change (w_ring_size w) with (w_ring_size w1).
  eapply (IH w1 _ (done ++ [o])); unfold w1; cbn; try done; [| |].
  - rewrite length_app, Hseq. simpl. lia.
  - rewrite !length_app. simpl. lia.
  - rewrite Hseq. exact (log_at_snoc _ _ _ _ _ o Hat Ho).
Qed.

(** ** Theorems *)

(** An append that the ring can hold never leaves the mapping: the record
    lies inside [0, ring_size), nothing outside its bytes changes, the log stays
    well formed with the next sequence number, and reading at the record's offset
    gives back the operation, key, value, TTL, time stamp and sequence number,
    with a checksum that verifies. *)
Theorem wal_append_ok w ring op key val ttl wall :
  let total := wal_total (Z.of_nat (length key)) (Z.of_nat (length val)) in
  let pos := wal_pos w total in
  let len := 64 + Z.of_nat (length key) + Z.of_nat (length val) in
  wal_wf w -> w_ring w = Some ring -> rec_ok op key val ttl wall -> total <= w_ring_size w ->
  exists w' ring', wal_append w op key val ttl wall = Some w' /\ w_ring w' = Some ring' /\
    wal_wf w' /\ w_wal_seq w' = u64 (w_wal_seq w + 1) /\
    region_sub (pos, len) (0, w_ring_size w) /\
    (forall x, x < pos \/ pos + len <= x -> mem_get ring' x = mem_get ring x) /\
    parse_rec ring' pos =
      Some (WalRec (WalHdr WAL_MAGIC_V op (Z.of_nat (length key)) (Z.of_nat (length val)) ttl
                      (wal_crc op key val) (w_wal_seq w) wall) key val).
Proof.
  intros total pos len (Hl & Hseq & [Hn|[Hsz Hwp]]) Hr Hok Htot; [congruence|].
  pose proof (rok_len _ _ _ _ _ Hok) as Hlen.
  destruct (wal_total_spec (Z.of_nat (length key)) (Z.of_nat (length val))) as [Ht _]; [lia..|].
  fold total in Ht. destruct (wal_pos_in w total Hsz) as [Hp1 Hp2]; [lia|]. fold pos in Hp1, Hp2.
  pose proof (length_rec_bytes (w_wal_seq w) op key val ttl wall) as Hrb.
  eexists _, _. split; [apply wal_append_eq; [done..|]; by apply wal_fits; [done | lia..|]|]. fold total pos. split; [done|].
  split; [|split; [done|split; [|split]]].
  - split; [done|]. split; [apply u64_range|]. right. cbn. rewrite u64_id; lia.
  - unfold region_sub; cbn. lia.
  - intros x Hx. apply mem_get_write_out. lia.
  - apply parse_rec_bytes; [done..|]. apply mem_read_write_same.
Qed.

Lemma wal_append_witness :
  exists w' ring', wal_append (Wal (Some ∅) 256 200 7 false) VC_WAL_SET (bs "k") (bs "v1") 5 99 = Some w' /\
    w_ring w' = Some ring' /\
    parse_rec ring' 0 =
      Some (WalRec (WalHdr WAL_MAGIC_V VC_WAL_SET 1 2 5 (wal_crc VC_WAL_SET (bs "k") (bs "v1")) 7 99)
              (bs "k") (bs "v1")).
Proof.
  destruct (wal_append_ok (Wal (Some ∅) 256 200 7 false) ∅ VC_WAL_SET (bs "k") (bs "v1") 5 99)
    as (w' & ring' & E & Hr & _ & _ & _ & _ & Hp).
  - split; [done|]. split; [cbn; lia|]. right. cbn. lia.
  - done.
  - constructor; cbn; unfold is_byte, VC_WAL_SET; lia.
  - vm_compute. discriminate.
  - exists w', ring'. split; [exact E|]. split; [exact Hr|]. exact Hp.
Defined.

(** C22: a log that starts on a fresh ring and has not wrapped is a faithful
    history: when it is closed, reading the file from offset 0 to the write position gives
    back every appended operation, in order, with sequence numbers 0, 1, 2, ... *)
Theorem wal_log_roundtrip path env file w ops :
  wal_init (Some path) env = (VC_OK, w) -> we_map env = Some file ->
  Forall lo_ok ops -> log_size ops <= VC_WAL_RING_SIZE -> Z.of_nat (length ops) < 2 ^ 64 ->
  exists w' ring', append_all w ops = Some w' /\ wal_destroy w' = Some ring' /\
    parse_log (length ops) ring' 0 (w_write_pos w') =
      Some (imap (fun i o => lo_rec (Z.of_nat i) o) ops).
Proof.
  intros Hi Hm Hok Hsz Hlen. unfold wal_init in Hi. rewrite Hm in Hi.
  destruct (we_open_ok env), (we_truncate_ok env); simplify_eq/=.
  destruct (append_all_log (Wal (Some file) VC_WAL_RING_SIZE 0 0 false) file ops [])
    as (w' & ring' & E & Hr & _ & _ & Hat); try done.
  exists w', ring'. split; [done|]. split; [done|].
  exact (log_at_parse _ _ _ _ _ Hat ltac:(lia) ltac:(simpl; lia)).
Qed.

Lemma wal_log_witness :
  let w := Wal (Some ∅) VC_WAL_RING_SIZE 0 0 false in
  let ops := [LogOp VC_WAL_SET (bs "a") (bs "1") 0 10; LogOp VC_WAL_DEL (bs "a") [] 0 11] in
  wal_init (Some (bs "x.wal")) (WalEnv true true (Some ∅)) = (VC_OK, w) /\
  exists w' ring', append_all w ops = Some w' /\ w_ring w' = Some ring' /\
    parse_log 2 ring' 0 (w_write_pos w') =
      Some (imap (fun i o => lo_rec (Z.of_nat i) o) ops).
Proof.
  split; [done|].
  apply (wal_log_roundtrip (bs "x.wal") (WalEnv true true (Some ∅)) ∅); [done..| | |].
  - repeat constructor; cbn; unfold is_byte, VC_WAL_SET, VC_WAL_DEL; lia.
  - vm_compute. discriminate.
  - cbn. lia.
Defined.

(** A record larger than the ring is copied past the end of the mapping: the code
    checks only for the wrap-around. *)
Theorem wal_append_overrun w ring op key val ttl wall :
  let len := 64 + Z.of_nat (length key) + Z.of_nat (length val) in
  w_ring w = Some ring -> 0 < w_ring_size w < len ->
  wal_append w op key val ttl wall = None.
Proof.
  intros len Hr Hlen. unfold wal_append. rewrite Hr. cbv zeta. destruct (w_locked w); [done|].
  set (pos := wal_pos _ _). assert (Hp : in_ring w pos (WAL_HDR_SIZE + Z.of_nat (length key) + Z.of_nat (length val)) = false); [|by rewrite Hp].
  assert (0 <= pos). { unfold pos, wal_pos. pose proof (Z.mod_pos_bound (w_write_pos w) (w_ring_size w)). zcase; lia. }
  unfold in_ring, WAL_HDR_SIZE. apply andb_false_iff. right. apply Z.leb_gt. unfold len in Hlen. lia.
Qed.

Lemma wal_overrun_witness :
  let w := Wal (Some ∅) VC_WAL_RING_SIZE 0 0 false in
  let val := replicate (Z.to_nat VC_WAL_RING_SIZE) 7 in
  wal_append w VC_WAL_SET (bs "k") val 0 1 = None.
Proof.
  intros w val. assert (Hv : Z.of_nat (length val) = 2 ^ 26).
  { unfold val. rewrite length_replicate, Z2Nat.id; [done | unfold VC_WAL_RING_SIZE; lia]. }
  apply (wal_append_overrun w ∅ VC_WAL_SET (bs "k") val 0 1); [done|].
  rewrite Hv. cbn. unfold VC_WAL_RING_SIZE. lia.
Defined.
