(* ===== verification/Cache.v ===== *)
(** * The cache: public operations

    [src/src/voidcache.c], lines 579-913: [vc_create], [vc_destroy], [vc_set],
    [vc_get], [vc_del], [vc_flush], [vc_stats] over the shards, the slab, the
    heap and the log.  An operation returns [None] when the C code has undefined
    behaviour or waits for ever; the theorems show that it does not.  Pointers
    passed by callers are not NULL.  What the clocks, [malloc] and [mmap] answer
    is the argument [env]. *)

From S2P Require Import Prelude Hash Slab Entry Shard Wal.

(** ** State *)

Record vc_cache := Cache {
  c_shards : list vc_shard;
  c_slab : vc_slab;
  c_wal : vc_wal;
  c_max_memory : Z;
  c_total_memory : Z;
  c_heap : heap;
  c_tables : list Z;    (** where the table of each shard is mapped *)
  c_self : Z            (** the block of the [vc_cache_t] itself *)
}.

(** Two successive readings of [mono_ns()], one of [wall_ns()], one answer of
    [malloc] and one of [mmap]. *)
Record env := Env {
  ev_mono : Z;
  ev_mono2 : Z;
  ev_wall : Z;
  ev_malloc : option Z;
  ev_mmap : option Z
}.

Definition with_mem (h : heap) (sl : vc_slab) (c : vc_cache) : vc_cache :=
  Cache (c_shards c) sl (c_wal c) (c_max_memory c) (c_total_memory c) h (c_tables c) (c_self c).
Definition with_wal (w : vc_wal) (c : vc_cache) : vc_cache :=
  Cache (c_shards c) (c_slab c) w (c_max_memory c) (c_total_memory c) (c_heap c) (c_tables c) (c_self c).
Definition with_shards (l : list vc_shard) (c : vc_cache) : vc_cache :=
  Cache l (c_slab c) (c_wal c) (c_max_memory c) (c_total_memory c) (c_heap c) (c_tables c) (c_self c).
Definition add_memory (n : Z) (c : vc_cache) : vc_cache :=
  Cache (c_shards c) (c_slab c) (c_wal c) (c_max_memory c) (u64 (c_total_memory c + n)) (c_heap c)
    (c_tables c) (c_self c).

(** ** Creation *)

Definition ENTRY_SIZE : Z := 64.

(** What [vc_create] gets from the system: the [aligned_alloc] of the cache and the
    size of the [struct], the [mmap] of each slab class, the log's calls, the [mmap]
    of each table. *)
Record create_env := CreateEnv {
  ce_cache : option Z;
  ce_sizeof : Z;
  ce_arenas : list (option Z);
  ce_wal : wal_env;
  ce_tables : list (option Z)
}.

Definition new_shard (cap : Z) : vc_shard :=
  Shard (replicate (Z.to_nat cap) zero_entry) cap 0 0 0 0 0 0 0 0 0.

(** The [mmap] of one table after the other up to the first that fails: whether all
    succeeded, the tables that are mapped, the heap. *)
Fixpoint map_tables (answers : list (option Z)) (table_bytes : Z) (h : heap) : bool * list Z * heap :=
  match answers with
  | [] => (true, [], h)
  | ans :: answers =>
      match mmap_anon ans table_bytes h with
      | (None, h) => (false, [], h)
      | (Some t, h) => let '(ok, ts, h) := map_tables answers table_bytes h in (ok, t :: ts, h)
      end
  end.

Fixpoint unmap_tables (ts : list Z) (table_bytes : Z) (h : heap) : option heap :=
  match ts with
  | [] => Some h
  | t :: ts => h ← munmap t table_bytes h; unmap_tables ts table_bytes h
  end.

(** The result is NULL ([None]) or the cache, with the heap that is left; the
    second [option] is for undefined behaviour on the clean-up path. *)
Definition vc_create (arena_bytes : Z) (ce : create_env) (max_mem : Z)
    (wal_path : option (list Z)) (shard_slots : Z) (h : heap)
    : option (option vc_cache * heap) :=
  match malloc (ce_cache ce) (ce_sizeof ce) h with
  | (None, h) => Some (None, h)
  | (Some self, h) =>
      match slab_init arena_bytes (ce_arenas ce) h with
      | (VC_OK, sl, h) =>
          match wal_init wal_path (ce_wal ce) with
          | (VC_OK, w) =>
              let cap := next_pow2_32 (if shard_slots =? 0 then 1024 else shard_slots) in
              let table_bytes := cap * ENTRY_SIZE in
              match map_tables (take (Z.to_nat VC_NUM_SHARDS) (ce_tables ce)) table_bytes h with
              | (true, ts, h) =>
                  Some (Some (Cache (replicate (Z.to_nat VC_NUM_SHARDS) (new_shard cap))
                                sl w max_mem 0 h ts self), h)
              | (false, ts, h) =>
                  h ← unmap_tables ts table_bytes h;
                  h ← slab_destroy sl h;
                  h ← free self h; Some (None, h)
              end
          | (_, _) => h ← slab_destroy sl h; h ← free self h; Some (None, h)
          end
      | (_, _, h) => h ← free self h; Some (None, h)
      end
  end.

(** ** Building the entry of a [vc_set] *)

(** [memcpy(payload + off, l, length l)] *)
Definition payload_put (off : Z) (l p : list Z) : list Z :=
  take (Z.to_nat off) p ++ l ++ drop (Z.to_nat off + length l) p.

Definition expire_at (now ttl_sec : Z) : Z :=
  if ttl_sec =? 0 then 0 else s64 (u64 (now + ttl_sec * 1000000000)).

Definition stored_len (val : list Z) : Z :=
  let vl := Z.of_nat (length val) in if 65535 <? vl then 65535 else vl.

Definition new_entry (flags hash : Z) (key val : list Z) (expire : Z) (payload : list Z) : vc_entry :=
  Entry EMPTY flags (stored_len val) (Z.of_nat (length key)) hash expire 0 0 payload.

Definition zero_payload : list Z := replicate 32 0.

(** The three storage tiers.  [inr]: the entry, with the heap, the slab and the
    growth of [total_memory]; [inl]: an allocation failed, with the heap and the
    slab that the error path leaves. *)
Definition build_entry (ev : env) (key val : list Z) (ttl_sec hash : Z) (h : heap) (sl : vc_slab)
    : option (heap * vc_slab + vc_entry * heap * vc_slab * Z) :=
  let kl := Z.of_nat (length key) in
  let vl := Z.of_nat (length val) in
  let expire := expire_at (ev_mono ev) ttl_sec in
  if (kl + vl <=? 32) && negb (32 <? kl) then
    let p := payload_put kl val (payload_put 0 key zero_payload) in
    Some (inr (new_entry 0 hash key val expire p, h, sl, 0))
  else if vl <=? slab_class_size (Z.of_nat VC_SLAB_CLASSES - 1) then
    let '(vbuf, cls, sl) := slab_alloc sl vl h in
    match vbuf with
    | None => Some (inl (h, sl))
    | Some vbuf =>
        let h := write h vbuf val in
        if kl <=? 32 - 8 then
          let p := payload_put kl (le_encode 8 vbuf) (payload_put 0 key zero_payload) in
          Some (inr (new_entry VC_EFLAG_VAL_SLAB hash key val expire p, h, sl, vl))
        else
          match malloc (ev_malloc ev) kl h with
          | (None, h) => let '(sl, h) := slab_free sl vbuf cls h in Some (inl (h, sl))
          | (Some kbuf, h) =>
              let h := write h kbuf key in
              let p := payload_put 8 (le_encode 8 vbuf)
                         (payload_put 0 (le_encode 8 kbuf) zero_payload) in
              Some (inr (new_entry (Z.lor VC_EFLAG_VAL_SLAB VC_EFLAG_KEY_LONG) hash key val expire p,
                         h, sl, vl))
          end
    end
  else
    match mmap_anon (ev_mmap ev) vl h with
    | (None, h) => Some (inl (h, sl))
    | (Some vbuf, h) =>
        let h := write h vbuf val in
        match malloc (ev_malloc ev) kl h with
        | (None, h) => h ← munmap vbuf vl h; Some (inl (h, sl))
        | (Some kbuf, h) =>
            let h := write h kbuf key in
            let p := payload_put 8 (le_encode 8 vbuf)
                       (payload_put 0 (le_encode 8 kbuf) zero_payload) in
            Some (inr (new_entry (Z.lor VC_EFLAG_VAL_MMAP VC_EFLAG_KEY_LONG) hash key val expire p,
                       h, sl, vl))
        end
    end.

(** ** Operations *)

(** [(uint32_t)key_len] *)
Definition klen32 (key : list Z) : Z := u32 (Z.of_nat (length key)).

(** Release of the entry at a slot: resources, DEAD mark, count. *)
Definition kill_slot (i : Z) (s : vc_shard) (h : heap) (sl : vc_slab)
    : option (vc_shard * heap * vc_slab) :=
  e ← s_table s !! Z.to_nat i;
  '(h, sl) ← entry_free_resources e h sl;
  Some (sh_count (u32 (s_count s - 1)) (sh_table (set_slot_state DEAD i (s_table s)) s), h, sl).

(** Table 85 % full. *)
Definition must_evict (s : vc_shard) : bool := 85 <=? u32 (s_count s * 100) / s_cap s.

(** The critical section of [vc_set]: replace, evict, insert. *)
Definition set_locked (now : Z) (key : list Z) (ne : vc_entry) (s : vc_shard) (h : heap) (sl : vc_slab)
    : option (vc_shard * heap * vc_slab) :=
  s ← shard_lock s;
  let s := seq_write_begin s in
  '(s, h, sl) ← (match shard_find (h_bytes h) now s key (klen32 key) (e_key_hash ne) with
                 | Some old_slot => kill_slot old_slot s h sl
                 | None => Some (s, h, sl)
                 end);
  if s_cap s =? 0 then None else
  '(s, h, sl) ← (if must_evict s
                 then '(_, s, h, sl) ← shard_evict_one s h sl; Some (s, h, sl)
                 else Some (s, h, sl));
  let '(s, _) := shard_insert s ne in
  let s := sh_stats 0 0 1 0 (sh_count (u32 (s_count s + 1)) s) in
  Some (shard_unlock (seq_write_end s), h, sl).

Definition vc_set (ev : env) (c : vc_cache) (key val : list Z) (ttl_sec : Z)
    : option (vc_err * vc_cache) :=
  if bool_decide (key = []) || bool_decide (val = []) || (UINT32_MAX <? Z.of_nat (length key))
  then Some (VC_ERR_INVAL, c) else
  let hash := wyhash64 key 0 in
  let si := Z.to_nat (shard_idx hash) in
  w ← wal_append (c_wal c) VC_WAL_SET key (take (Z.to_nat (u32 (Z.of_nat (length val)))) val)
        ttl_sec (ev_wall ev);
  let c := with_wal w c in
  r ← build_entry ev key val ttl_sec hash (c_heap c) (c_slab c);
  match r with
  | inl (h, sl) => Some (VC_ERR_OOM, with_mem h sl c)
  | inr (ne, h, sl, grow) =>
      s ← c_shards c !! si;
      '(s, h, sl) ← set_locked (ev_mono2 ev) key ne s h sl;
      Some (VC_OK, with_shards (<[si := s]> (c_shards c)) (with_mem h sl (add_memory grow c)))
  end.

(** The shard with the clock bit of slot [i] set. *)
Definition touch (i : Z) (s : vc_shard) : vc_shard :=
  match s_table s !! Z.to_nat i with
  | Some e => sh_table (<[Z.to_nat i := with_clock 1 e]> (s_table s)) s
  | None => s
  end.

(** What [vc_get] stores through [out_val] and [out_len]: the entry the pointer
    may point into, the pointer, the length. *)
Record get_out := GetOut { go_entry : vc_entry; go_val : vref; go_len : Z }.

(** The bytes the caller reads through the result. *)
Definition out_bytes (h : heap) (o : get_out) : list Z :=
  deref (h_bytes h) (go_entry o) (go_val o) (go_len o).

(** Outcome of the fast path: an answer, or fall through to the locked path. *)
Inductive fast_result := FastMiss | FastHit (slot : Z) (o : get_out) | FastLock.

Definition VC_SEQLOCK_RETRY : nat := 8.

(** The retry loop.  With no other thread the sequence read at the start of an
    iteration is still the shard's at its end. *)
Fixpoint get_fast (retry : nat) (h : heap) (now : Z) (s : vc_shard) (key : list Z) (hash : Z)
    : option fast_result :=
  match retry with
  | O => Some FastLock
  | S retry =>
      seq ← seq_read_begin s;
      match shard_find (h_bytes h) now s key (klen32 key) hash with
      | None => if seq_read_retry s seq then get_fast retry h now s key hash else Some FastMiss
      | Some slot =>
          e ← s_table s !! Z.to_nat slot;
          if flag (Z.lor VC_EFLAG_VAL_SLAB VC_EFLAG_VAL_MMAP) e then
            if seq_read_retry s seq then get_fast retry h now s key hash
            else Some (FastHit slot (GetOut e (entry_val e) (e_val_len e)))
          else Some FastLock
      end
  end.

Definition get_locked (h : heap) (now : Z) (s : vc_shard) (key : list Z) (hash : Z)
    : option (option get_out * vc_shard) :=
  s ← shard_lock s;
  match shard_find (h_bytes h) now s key (klen32 key) hash with
  | None => Some (None, sh_stats 0 1 0 0 (shard_unlock s))
  | Some slot =>
      e ← s_table s !! Z.to_nat slot;
      Some (Some (GetOut e (entry_val e) (e_val_len e)),
            sh_stats 1 0 0 0 (shard_unlock (touch slot s)))
  end.

Definition vc_get (ev : env) (c : vc_cache) (key : list Z)
    : option (vc_err * option get_out * vc_cache) :=
  let hash := wyhash64 key 0 in
  let si := Z.to_nat (shard_idx hash) in
  s ← c_shards c !! si;
  r ← get_fast VC_SEQLOCK_RETRY (c_heap c) (ev_mono ev) s key hash;
  match r with
  | FastMiss =>
      Some (VC_ERR_NOTFND, None, with_shards (<[si := sh_stats 0 1 0 0 s]> (c_shards c)) c)
  | FastHit slot o =>
      Some (VC_OK, Some o,
            with_shards (<[si := sh_stats 1 0 0 0 (touch slot s)]> (c_shards c)) c)
  | FastLock =>
      '(o, s) ← get_locked (c_heap c) (ev_mono2 ev) s key hash;
      Some (match o with Some _ => VC_OK | None => VC_ERR_NOTFND end, o,
            with_shards (<[si := s]> (c_shards c)) c)
  end.

Definition vc_del (ev : env) (c : vc_cache) (key : list Z) : option (vc_err * vc_cache) :=
  let hash := wyhash64 key 0 in
  let si := Z.to_nat (shard_idx hash) in
  w ← wal_append (c_wal c) VC_WAL_DEL (take (Z.to_nat (klen32 key)) key) []
        0 (ev_wall ev);
  let c := with_wal w c in
  s ← c_shards c !! si;
  s ← shard_lock s;
  let s := seq_write_begin s in
  match shard_find (h_bytes (c_heap c)) (ev_mono ev) s key (klen32 key) hash with
  | None =>
      let s := shard_unlock (seq_write_end s) in
      Some (VC_ERR_NOTFND, with_shards (<[si := s]> (c_shards c)) c)
  | Some slot =>
      '(s, h, sl) ← kill_slot slot s (c_heap c) (c_slab c);
      let s := shard_unlock (seq_write_end s) in
      Some (VC_OK, with_shards (<[si := s]> (c_shards c)) (with_mem h sl c))
  end.

(** One pass of the inner loop of [vc_flush] over [n] slots, up to slot [n - 1];
    the order of the releases is the one of the code. *)
Fixpoint flush_slots (j : nat) (n : nat) (tbl : list vc_entry) (h : heap) (sl : vc_slab)
    : option (list vc_entry * heap * vc_slab) :=
  match n with
  | O => Some (tbl, h, sl)
  | S n =>
      e ← tbl !! j;
      if bool_decide (e_state e = LIVE) then
        '(h, sl) ← entry_free_resources e h sl;
        flush_slots (S j) n (<[j := with_state DEAD e]> tbl) h sl
      else flush_slots (S j) n tbl h sl
  end.

Definition flush_shard (s : vc_shard) (h : heap) (sl : vc_slab)
    : option (vc_shard * heap * vc_slab) :=
  s ← shard_lock s;
  let s := seq_write_begin s in
  '(tbl, h, sl) ← flush_slots 0 (Z.to_nat (s_cap s)) (s_table s) h sl;
  Some (shard_unlock (seq_write_end (sh_count 0 (sh_table tbl s))), h, sl).

Fixpoint flush_shards (l : list vc_shard) (h : heap) (sl : vc_slab)
    : option (list vc_shard * heap * vc_slab) :=
  match l with
  | [] => Some ([], h, sl)
  | s :: l =>
      '(s, h, sl) ← flush_shard s h sl;
      '(l, h, sl) ← flush_shards l h sl;
      Some (s :: l, h, sl)
  end.

Definition vc_flush (c : vc_cache) : option vc_cache :=
  '(l, h, sl) ← flush_shards (c_shards c) (c_heap c) (c_slab c);
  Some (with_shards l (with_mem h sl c)).

Record vc_global_stats := Stats {
  st_hits : Z; st_misses : Z; st_sets : Z; st_evictions : Z; st_expirations : Z;
  st_total_keys : Z; st_memory_bytes : Z
}.

Fixpoint stats_loop (l : list vc_shard) (o : vc_global_stats) : vc_global_stats :=
  match l with
  | [] => o
  | s :: l =>
      stats_loop l (Stats (u64 (st_hits o + s_hits s)) (u64 (st_misses o + s_misses s))
        (u64 (st_sets o + s_sets s)) (u64 (st_evictions o + s_evictions s))
        (u64 (st_expirations o + s_expirations s)) (u64 (st_total_keys o + s_count s))
        (st_memory_bytes o))
  end.

Definition vc_stats (c : vc_cache) : vc_global_stats :=
  let o := stats_loop (c_shards c) (Stats 0 0 0 0 0 0 0) in
  Stats (st_hits o) (st_misses o) (st_sets o) (st_evictions o) (st_expirations o)
    (st_total_keys o) (c_total_memory c).

(** The inner loop of [vc_destroy] releases what every LIVE entry owns. *)
Fixpoint destroy_slots (tbl : list vc_entry) (h : heap) (sl : vc_slab) : option (heap * vc_slab) :=
  match tbl with
  | [] => Some (h, sl)
  | e :: tbl =>
      if bool_decide (e_state e = LIVE)
      then '(h, sl) ← entry_free_resources e h sl; destroy_slots tbl h sl
      else destroy_slots tbl h sl
  end.

(** Each shard: its entries, then its table. *)
Fixpoint destroy_shards (table_bytes : Z) (l : list vc_shard) (ts : list Z) (h : heap) (sl : vc_slab)
    : option (heap * vc_slab) :=
  match l, ts with
  | s :: l, t :: ts =>
      '(h, sl) ← destroy_slots (s_table s) h sl;
      h ← munmap t table_bytes h;
      destroy_shards table_bytes l ts h sl
  | [], [] => Some (h, sl)
  | _, _ => None
  end.

(** The heap that is left, and what the file of the log holds ([None]: no log). *)
Definition vc_destroy (c : vc_cache) : option (heap * option bytemap) :=
  s0 ← c_shards c !! 0%nat;
  let table_bytes := s_cap s0 * ENTRY_SIZE in
  '(h, sl) ← destroy_shards table_bytes (c_shards c) (c_tables c) (c_heap c) (c_slab c);
  h ← slab_destroy sl h;
  let file := wal_destroy (c_wal c) in
  h ← free (c_self c) h;
  Some (h, file).
