(* ===== verification/CacheInv.v ===== *)
(** * The cache: memory safety and the structural invariant

    [cache_wf] says that every table is well formed, that every LIVE entry is in
    the shard of its hash, that no shard is locked, and that everything the
    entries own is live, pairwise disjoint and disjoint from the slab's free
    blocks.  Each operation of [Cache.v] is defined from such a state (it neither
    spins nor releases what it does not own) and gives such a state back. *)

From S2P Require Import Prelude Hash Slab Entry Shard Wal Cache.

(** ** Memory with regions in hand

    [mem_res h rs L sl F]: as [mem_inv], with [rs] allocated and not yet owned by
    an entry, and the free lists [F] explicit. *)

Definition mem_res (h : heap) (rs : list region) (L : list vc_entry) (sl : vc_slab)
    (F : list (list Z)) : Prop :=
  slab_ok (h_bytes h) sl F /\ Forall (entry_wf h) L /\
  regions_disj (rs ++ (L ≫= entry_regions) ++ free_regions F).

Lemma mem_inv_res h L sl : mem_inv h L sl <-> exists F, mem_res h [] L sl F.
Proof. done. Qed.

Lemma res_slab_alloc h rs L sl F sz p cls sl' :
  mem_res h rs L sl F -> 0 <= sz <= 2 ^ 21 -> slab_alloc sl sz h = (Some p, cls, sl') ->
  cls = slab_class_for sz /\ block_ok (Z.to_nat cls) p /\
  exists F', mem_res h ((p, slab_class_size cls) :: rs) L sl' F' /\
    free_regions F ≡ₚ (p, slab_class_size cls) :: free_regions F'.
Proof.
  intros (Hs & Hwf & Hd) Hsz E.
  destruct (slab_alloc_spec h sl F sz _ cls sl' Hs Hsz E) as (Hc & ps & HF & Hs' & Hb & Hp).
  split; [done|]. split; [done|]. exists (<[Z.to_nat cls:=ps]> F). split; [|done].
  split; [done|]. split; [done|]. rewrite Hp in Hd. simpl.
  rewrite app_assoc, <- Permutation_middle, <- app_assoc in Hd. exact Hd.
Qed.

Lemma res_slab_none h rs L sl F sz cls sl' :
  mem_res h rs L sl F -> 0 <= sz <= 2 ^ 21 -> slab_alloc sl sz h = (None, cls, sl') ->
  sl' = sl.
Proof.
  intros (Hs & _) Hsz E. by destruct (slab_alloc_spec h sl F sz _ cls sl' Hs Hsz E) as (_ & -> & _).
Qed.

(** Bytes written inside a region in hand. *)
Lemma res_write h r rs L sl F a l :
  mem_res h (r :: rs) L sl F -> region_sub (a, Z.of_nat (length l)) r ->
  mem_res (write h a l) (r :: rs) L sl F /\
  agree (h_bytes h) (h_bytes (write h a l)) (rs ++ L ≫= entry_regions).
Proof.
  intros (Hs & Hwf & Hd) Hsub. pose proof Hd as [Hr _].
  assert (Hag : forall X, X ⊆ rs ++ (L ≫= entry_regions) ++ free_regions F ->
            agree (h_bytes h) (h_bytes (write h a l)) X).
  { intros X HX. apply agree_write. apply Forall_forall. intros x Hx.
    eapply region_disj_sub; [|exact Hsub]. rewrite Forall_forall in Hr. by apply Hr, HX. }
  split; [split; [|split]|].
  - eapply slab_ok_agree; [|done]. apply Hag. set_solver.
  - rewrite Forall_forall in Hwf |- *. intros e He.
    apply (entry_wf_frame h); [by apply Hwf | | done..].
    apply Hag. pose proof (entry_regions_in L e He). set_solver.
  - exact Hd.
  - apply Hag. set_solver.
Qed.

(** A region that overlaps nothing owned and nothing free. *)
Definition fresh (L : list vc_entry) (F : list (list Z)) (r : region) : Prop :=
  0 < r.1 /\ 1 <= r.2 /\ r.1 + r.2 <= 2 ^ 64 /\
  Forall (region_disj r) ((L ≫= entry_regions) ++ free_regions F).

Lemma res_malloc h rs L sl F a n :
  mem_res h rs L sl F -> fresh L F (a, n) -> Forall (region_disj (a, n)) rs ->
  mem_res (malloc (Some a) n h).2 ((a, n) :: rs) L sl F.
Proof.
  intros (Hs & Hwf & Hd) (Ha & Hn & _ & Hf) Hrs. simpl in *. split; [done|]. split.
  - rewrite Forall_forall in Hwf |- *. intros e He. pose proof (Hwf e He) as Hwe.
    apply (entry_wf_frame h); [done | apply agree_refl | | done].
    intros Hfl. simpl. apply lookup_insert_ne. apply Forall_app in Hf as [Hf _].
    rewrite Forall_forall in Hf. pose proof (wf_key_len _ _ Hwe).
    eapply regions_ne; [|exact Hn|exact (proj1 H)].
    apply Hf. eapply entry_regions_in; [done|]. by apply key_region_in.
  - simpl. split; [|done]. by apply Forall_app.
Qed.

Lemma res_mmap h rs L sl F a n :
  mem_res h rs L sl F -> fresh L F (a, n) -> Forall (region_disj (a, n)) rs ->
  mem_res (mmap_anon (Some a) n h).2 ((a, n) :: rs) L sl F.
Proof.
  intros (Hs & Hwf & Hd) (Ha & Hn & _ & Hf) Hrs. simpl in *. split; [done|]. split.
  - rewrite Forall_forall in Hwf |- *. intros e He. pose proof (Hwf e He) as Hwe.
    apply (entry_wf_frame h); [done | apply agree_refl | done |].
    intros Hfl. simpl. apply lookup_insert_ne. apply Forall_app in Hf as [Hf _].
    rewrite Forall_forall in Hf. pose proof (wf_val_len _ _ Hwe).
    eapply regions_ne; [|exact Hn|exact (proj1 H)].
    apply Hf. eapply entry_regions_in; [done|]. by apply mmap_region_in; [apply Hwe|].
  - simpl. split; [|done]. by apply Forall_app.
Qed.

(** Giving a slab block in hand back. *)
Lemma res_slab_free h rs L sl F p cls :
  mem_res h ((p, slab_class_size cls) :: rs) L sl F -> 0 <= cls <= 15 ->
  block_ok (Z.to_nat cls) p ->
  exists sl' h' F', slab_free sl p cls h = (sl', h') /\ mem_res h' rs L sl' F' /\
    agree (h_bytes h) (h_bytes h') (L ≫= entry_regions).
Proof.
  intros (Hs & Hwf & Hd) Hc Hb. destruct (slab_free sl p cls h) as [sl' h'] eqn:E.
  destruct Hd as [Hd1 Hd2]. pose proof Hd1 as Hd1'.
  rewrite app_assoc in Hd1'. apply Forall_app in Hd1' as [Ho Hf].
  destruct (slab_free_spec h sl F p cls sl' h' Hs Hc Hb Hf E)
    as (Hma & Hmm & F' & w & Hs' & HF' & Hb').
  assert (Hag : agree (h_bytes h) (h_bytes h') (L ≫= entry_regions)).
  { rewrite Hb'. apply agree_write. apply Forall_app in Ho as [_ Ho].
    eapply Forall_impl; [exact Ho|]. intros r Hr. eapply region_disj_sub; [exact Hr|].
    rewrite length_le_encode. pose proof (slab_class_size_pos cls Hc).
    unfold region_sub; simpl. lia. }
  exists sl', h', F'. split; [done|]. split; [|done]. split; [done|]. split.
  - rewrite Forall_forall in Hwf |- *. intros e He.
    apply (entry_wf_frame h); [by apply Hwf | | by rewrite Hma | by rewrite Hmm].
    eapply agree_sub; [exact Hag | by apply entry_regions_in].
  - rewrite HF', (app_assoc rs), <- Permutation_middle, <- app_assoc. split; [|done].
    done.
Qed.

Lemma regions_shrink rs rs' X :
  Forall2 region_sub rs' rs -> regions_disj (rs ++ X) -> regions_disj (rs' ++ X).
Proof.
  induction 1 as [|r' r rs' rs Hr Hrs IH]; simpl; [done|]. intros [H1 H2]. split; [|by apply IH].
  apply Forall_app in H1 as [H1 HX]. apply Forall_app. split.
  - clear IH H2. induction Hrs as [|x' x rs' rs Hx _ IH]; [constructor|].
    apply Forall_cons in H1 as [Hrx H1]. constructor; [|by apply IH].
    eapply region_disj_sub; [|exact Hr]. apply region_disj_sym.
    eapply region_disj_sub; [|exact Hx]. by apply region_disj_sym.
  - eapply Forall_impl; [exact HX|]. intros x Hx. by eapply region_disj_sub.
Qed.

(** Handing the regions over to a new entry. *)
Lemma res_commit h rs L sl F e :
  mem_res h rs L sl F -> entry_wf h e -> Forall2 region_sub (entry_regions e) rs ->
  mem_inv h (e :: L) sl.
Proof.
  intros (Hs & Hwf & Hd) He Hsub. exists F. split; [done|]. split; [by constructor|].
  rewrite bind_cons, <- app_assoc. by eapply regions_shrink.
Qed.

(** ** The entries [vc_set] builds *)

Lemma payload_put2 a b :
  (length a + length b <= 32)%nat ->
  payload_put (Z.of_nat (length a)) b (payload_put 0 a zero_payload) =
  a ++ b ++ replicate (32 - length a - length b) 0.
Proof.
  intros Hl. unfold payload_put, zero_payload.
  change (Z.to_nat 0) with 0%nat. rewrite take_0, app_nil_l, Nat.add_0_l, Nat2Z.id.
  rewrite take_app_length. f_equal. f_equal.
  rewrite drop_app, drop_ge, app_nil_l by lia.
  rewrite drop_drop, drop_replicate. f_equal. lia.
Qed.

Lemma stored_len_spec val :
  val <> [] ->
  1 <= stored_len val <= 65535 /\ stored_len val <= Z.of_nat (length val) /\
  take (Z.to_nat (stored_len val)) val = take (Z.to_nat 65535) val.
Proof.
  intros Hv. unfold stored_len. assert (1 <= Z.of_nat (length val)) by (destruct val; simpl; [done | lia]).
  destruct (Z.ltb_spec 65535 (Z.of_nat (length val))); split; try lia; split; try lia; [done|].
  rewrite !take_ge by lia. done.
Qed.

Lemma key_len_pos (key : list Z) : key <> [] -> 1 <= Z.of_nat (length key).
Proof. destruct key; simpl; [done | lia]. Qed.

(** What a built entry must satisfy. *)
Record built (h : heap) (key val : list Z) (expire : Z) (e : vc_entry) : Prop := {
  bu_wf : entry_wf h e;
  bu_hash : e_key_hash e = wyhash64 key 0;
  bu_klen : e_key_len e = Z.of_nat (length key);
  bu_key : key_bytes (h_bytes h) e = key;
  bu_val : val_bytes (h_bytes h) e = take (Z.to_nat 65535) val;
  bu_expire : e_expire_ns e = expire
}.

Section Tiers.
Context (h : heap) (key val : list Z) (expire : Z).
Context (Hkey : key <> []) (Hval : val <> []) (Hmax : Z.of_nat (length key) < 2 ^ 32).

Lemma inline_entry :
  Z.of_nat (length key) + Z.of_nat (length val) <= 32 ->
  let e := new_entry 0 (wyhash64 key 0) key val expire
             (payload_put (Z.of_nat (length key)) val (payload_put 0 key zero_payload)) in
  built h key val expire e /\ entry_regions e = [].
Proof.
  intros Hl e. pose proof (key_len_pos key Hkey). pose proof (stored_len_spec val Hval) as (H1 & H2 & H3).
  assert (Hp : e_payload e = key ++ val ++ replicate (32 - length key - length val) 0)
    by (apply payload_put2; lia).
  assert (Hk : key_bytes (h_bytes h) e = key).
  { unfold key_bytes. change (entry_key e) with (InPayload 0). cbn [deref]. rewrite Hp. simpl.
    rewrite Nat2Z.id. by apply take_app_exact. }
  split; [|done]. constructor; try done; [constructor; try done|].
  - rewrite Hp, !length_app, length_replicate. lia.
  - left. split; [done|]. simpl. lia.
  - by rewrite Hk.
  - unfold val_bytes. change (entry_val e) with (InPayload (Z.of_nat (length key))).
    cbn [deref]. rewrite Hp. simpl.
    rewrite Nat2Z.id, drop_app_exact by done. rewrite take_app_le by lia. done.
Qed.

Lemma block_ok_smaller vbuf :
  Z.of_nat (length val) <= 2 ^ 21 ->
  block_ok (Z.to_nat (slab_class_for (Z.of_nat (length val)))) vbuf ->
  block_ok (Z.to_nat (slab_class_for (stored_len val))) vbuf /\
  region_sub (vbuf, slab_class_size (slab_class_for (stored_len val)))
             (vbuf, slab_class_size (slab_class_for (Z.of_nat (length val)))).
Proof using Hval.
  clear -Hval. intros Hl [Hb1 Hb2]. destruct (stored_len_spec val Hval) as (H1 & H2 & _).
  destruct (slab_class_for_fits (stored_len val)) as (Hc1 & _); [lia|].
  destruct (slab_class_for_fits (Z.of_nat (length val))) as (Hc2 & _); [lia|].
  pose proof (slab_class_for_mono (stored_len val) (Z.of_nat (length val))).
  pose proof (slab_class_size_mono (slab_class_for (stored_len val)) (slab_class_for (Z.of_nat (length val)))).
  unfold block_ok, region_sub in *. rewrite !Z2Nat.id in * by lia. simpl. lia.
Qed.

Lemma read_val vbuf :
  mem_read (h_bytes h) vbuf (length val) = val ->
  mem_read (h_bytes h) vbuf (Z.to_nat (stored_len val)) = take (Z.to_nat 65535) val.
Proof using h Hval.
  clear -Hval. intros Hr. destruct (stored_len_spec val Hval) as (H1 & H2 & <-).
  rewrite (mem_read_take _ _ (length val)) by lia. by rewrite Hr.
Qed.

Lemma slab_entry vbuf :
  Z.of_nat (length key) <= 24 -> Z.of_nat (length val) <= 2 ^ 21 ->
  block_ok (Z.to_nat (slab_class_for (Z.of_nat (length val)))) vbuf ->
  mem_read (h_bytes h) vbuf (length val) = val ->
  let e := new_entry VC_EFLAG_VAL_SLAB (wyhash64 key 0) key val expire
             (payload_put (Z.of_nat (length key)) (le_encode 8 vbuf) (payload_put 0 key zero_payload)) in
  built h key val expire e /\
  entry_regions e = [(vbuf, slab_class_size (slab_class_for (stored_len val)))].
Proof.
  intros Hk24 Hv21 Hb Hr e. pose proof (key_len_pos key Hkey).
  pose proof (stored_len_spec val Hval) as (H1 & H2 & H3).
  destruct (block_ok_smaller vbuf Hv21 Hb) as [Hb' _].
  assert (Hp : e_payload e = key ++ le_encode 8 vbuf ++ replicate (32 - length key - 8) 0).
  { unfold e. cbn [e_payload new_entry]. rewrite payload_put2, length_le_encode; [done|].
    rewrite length_le_encode. lia. }
  assert (Hk : key_bytes (h_bytes h) e = key).
  { unfold key_bytes. change (entry_key e) with (InPayload 0). cbn [deref]. rewrite Hp. simpl.
    rewrite Nat2Z.id. by apply take_app_exact. }
  assert (Hvp : payload_ptr e (val_off e) = vbuf).
  { change (val_off e) with (Z.of_nat (length key)). unfold payload_ptr.
    rewrite Hp, Nat2Z.id, drop_app_exact by done.
    rewrite take_app_exact by apply length_le_encode. apply le8_roundtrip.
    unfold block_ok in Hb. pose proof (slab_class_for_fits (Z.of_nat (length val))) as [Hc _]; [lia|].
    pose proof (slab_class_size_pos (slab_class_for (Z.of_nat (length val))) Hc).
    rewrite Z2Nat.id in Hb by lia. lia. }
  split; [|by unfold entry_regions; rewrite Hvp].
  constructor; try done; [constructor; try done|].
  - rewrite Hp, !length_app, length_replicate, length_le_encode. lia.
  - right. left. split; [done|]. simpl. lia.
  - by rewrite Hk.
  - by rewrite Hvp.
  - unfold val_bytes. change (entry_val e) with (AtAddr (payload_ptr e (val_off e))).
    rewrite Hvp. by apply read_val.
Qed.

(** Both long shapes: the key and the value are behind pointers. *)
Lemma long_entry f kbuf vbuf :
  f = Z.lor VC_EFLAG_VAL_SLAB VC_EFLAG_KEY_LONG \/ f = Z.lor VC_EFLAG_VAL_MMAP VC_EFLAG_KEY_LONG ->
  0 <= kbuf < 2 ^ 64 -> 0 <= vbuf < 2 ^ 64 ->
  h_mallocs h !! kbuf = Some (Z.of_nat (length key)) ->
  mem_read (h_bytes h) kbuf (length key) = key ->
  mem_read (h_bytes h) vbuf (length val) = val ->
  (f = Z.lor VC_EFLAG_VAL_SLAB VC_EFLAG_KEY_LONG ->
     block_ok (Z.to_nat (slab_class_for (stored_len val))) vbuf) ->
  (f = Z.lor VC_EFLAG_VAL_MMAP VC_EFLAG_KEY_LONG -> is_Some (h_maps h !! vbuf)) ->
  let e := new_entry f (wyhash64 key 0) key val expire
             (payload_put 8 (le_encode 8 vbuf) (payload_put 0 (le_encode 8 kbuf) zero_payload)) in
  built h key val expire e /\
  entry_regions e = [(kbuf, Z.of_nat (length key));
    (vbuf, if f =? 3 then slab_class_size (slab_class_for (stored_len val)) else stored_len val)].
Proof.
  intros Hf Hkb Hvb Hm Hrk Hrv Hslab Hmap e. pose proof (key_len_pos key Hkey).
  pose proof (stored_len_spec val Hval) as (H1 & H2 & H3).
  assert (Hp : e_payload e = le_encode 8 kbuf ++ le_encode 8 vbuf ++ replicate 16 0).
  { unfold e. cbn [e_payload new_entry]. change 8 with (Z.of_nat (length (le_encode 8 kbuf))).
    rewrite payload_put2, !length_le_encode; [done|]. rewrite !length_le_encode. lia. }
  assert (Hlong : flag VC_EFLAG_KEY_LONG e = true) by (unfold flag; destruct Hf as [->| ->]; done).
  assert (Hkp : payload_ptr e 0 = kbuf).
  { unfold payload_ptr. rewrite Hp, drop_0, take_app_exact by apply length_le_encode.
    by apply le8_roundtrip. }
  assert (Hvp : payload_ptr e (val_off e) = vbuf).
  { unfold val_off. rewrite Hlong. unfold payload_ptr. change (Z.to_nat 8) with 8%nat.
    rewrite Hp, drop_app_exact, take_app_exact by apply length_le_encode. by apply le8_roundtrip. }
  assert (Hk : key_bytes (h_bytes h) e = key).
  { unfold key_bytes, entry_key. rewrite Hlong, Hkp. cbn [deref]. simpl. by rewrite Nat2Z.id. }
  split.
  - constructor; try done; [constructor; try done|].
    + right. right. exact Hf.
    + by rewrite Hk.
    + intros _. by rewrite Hkp.
    + intros Hfs. rewrite Hvp. apply Hslab. by destruct Hf as [->| ->].
    + intros Hfs. rewrite Hvp. apply Hmap. by destruct Hf as [->| ->].
    + unfold val_bytes, entry_val. rewrite flag_val, Hvp.
      replace (_ || _) with true by (unfold flag; destruct Hf as [->| ->]; done).
      by apply read_val.
  - unfold entry_regions. rewrite Hlong, Hkp, Hvp.
    destruct Hf as [->| ->]; done.
Qed.
End Tiers.

(** The addresses that [malloc] and [mmap] return are fresh. *)
Record env_ok (L : list vc_entry) (F : list (list Z)) (ev : env) (key val : list Z) : Prop := {
  eo_malloc : forall a, ev_malloc ev = Some a -> fresh L F (a, Z.of_nat (length key));
  eo_mmap : forall a, ev_mmap ev = Some a -> fresh L F (a, Z.of_nat (length val));
  eo_both : forall a b, ev_malloc ev = Some a -> ev_mmap ev = Some b ->
    region_disj (a, Z.of_nat (length key)) (b, Z.of_nat (length val))
}.

(** What [build_entry] leaves: the entry built and owned, or the memory as it
    was; what other entries own is untouched either way. *)
Definition build_ok (h : heap) (L : list vc_entry) (key val : list Z) (expire : Z)
    (r : heap * vc_slab + vc_entry * heap * vc_slab * Z) : Prop :=
  match r with
  | inl (h', sl') => mem_inv h' L sl' /\ agree (h_bytes h) (h_bytes h') (L ≫= entry_regions)
  | inr (ne, h', sl', _) => built h' key val expire ne /\ mem_inv h' (ne :: L) sl' /\
      agree (h_bytes h) (h_bytes h') (L ≫= entry_regions)
  end.

Lemma block_addr c p : 0 <= c <= 15 -> block_ok (Z.to_nat c) p -> 0 <= p < 2 ^ 64.
Proof.
  intros Hc [H1 H2]. pose proof (slab_class_size_pos c Hc). rewrite Z2Nat.id in H2 by lia. lia.
Qed.

Lemma read_after_write h a l : mem_read (h_bytes (write h a l)) a (length l) = l.
Proof. apply mem_read_write_same. Qed.

(** Writing the key buffer leaves the value buffer as it was. *)
Lemma read_other h kbuf key vbuf val n :
  region_disj (kbuf, Z.of_nat (length key)) (vbuf, n) -> Z.of_nat (length val) <= n ->
  mem_read (h_bytes h) vbuf (length val) = val ->
  mem_read (h_bytes (write h kbuf key)) vbuf (length val) = val.
Proof.
  intros Hd Hn Hr. simpl. rewrite mem_read_write_disj; [done|].
  unfold region_disj in *; simpl in *. lia.
Qed.

Section Build.
Context (ev : env) (key val : list Z) (ttl : Z) (h : heap) (sl : vc_slab).
Context (L : list vc_entry) (F : list (list Z)).
Context (Hkey : key <> []) (Hval : val <> []) (Hmax : Z.of_nat (length key) < 2 ^ 32).
Context (Hres : mem_res h [] L sl F) (Henv : env_ok L F ev key val).
Abbreviation kl := (Z.of_nat (length key)).
Abbreviation vl := (Z.of_nat (length val)).
Abbreviation expire := (expire_at (ev_mono ev) ttl).

Lemma build_slab_long vbuf cls sl1 F1 :
  vl <= 2 ^ 21 -> cls = slab_class_for vl -> block_ok (Z.to_nat cls) vbuf ->
  mem_res h [(vbuf, slab_class_size cls)] L sl1 F1 ->
  free_regions F ≡ₚ (vbuf, slab_class_size cls) :: free_regions F1 ->
  let h1 := write h vbuf val in
  exists r, match malloc (ev_malloc ev) kl h1 with
    | (None, h) => let '(sl, h) := slab_free sl1 vbuf cls h in Some (inl (h, sl))
    | (Some kbuf, h) =>
        let h := write h kbuf key in
        let p := payload_put 8 (le_encode 8 vbuf) (payload_put 0 (le_encode 8 kbuf) zero_payload) in
        Some (inr (new_entry (Z.lor VC_EFLAG_VAL_SLAB VC_EFLAG_KEY_LONG) (wyhash64 key 0) key val expire p,
                   h, sl1, vl))
    end = Some r /\ build_ok h L key val expire r.
Proof.
  intros Hv Hcls Hb Hr1 HF h1. destruct (slab_class_for_fits vl) as (Hc & Hfit & _); [lia|].
  rewrite <- Hcls in Hc, Hfit.
  destruct (res_write h _ _ _ _ _ vbuf val Hr1) as [Hr2 Ha2]; [unfold region_sub; simpl; lia|].
  fold h1 in Hr2, Ha2. simpl in Ha2.
  destruct (ev_malloc ev) as [kbuf|] eqn:Em; cbn [malloc].
  - pose proof (eo_malloc _ _ _ _ _ Henv kbuf Em) as Hfr. destruct (Hfr) as (Hk1 & Hk2 & Hk3 & Hk4).
    simpl in Hk1, Hk2, Hk3. rewrite HF in Hk4.
    rewrite <- Permutation_middle in Hk4. apply Forall_cons in Hk4 as [Hkv Hk4].
    pose proof (res_malloc _ _ _ _ _ kbuf kl Hr2) as Hr3. cbn [malloc snd] in Hr3.
    specialize (Hr3 (conj Hk1 (conj Hk2 (conj Hk3 Hk4)))).
    specialize (Hr3 ltac:(by apply Forall_singleton)).
    destruct (res_write _ _ _ _ _ _ kbuf key Hr3) as [Hr4 Ha4]; [unfold region_sub; simpl; lia|].
    eexists. split; [done|]. cbn [build_ok].
    destruct (block_ok_smaller val Hval vbuf Hv) as [Hb' Hsub]; [by rewrite <- Hcls|].
    set (h3 := Heap _ _ _ _) in *.
    destruct (long_entry (write h3 kbuf key) key val expire Hkey Hval Hmax
                (Z.lor VC_EFLAG_VAL_SLAB VC_EFLAG_KEY_LONG) kbuf vbuf) as [Hbu Hreg].
    + by left.
    + lia.
    + by apply (block_addr cls).
    + simpl. apply lookup_insert_eq.
    + apply read_after_write.
    + eapply read_other; [exact Hkv | lia | apply read_after_write].
    + done.
    + done.
    + split; [done|]. split.
      * eapply res_commit; [exact Hr4 | apply Hbu |]. rewrite Hreg.
        constructor; [unfold region_sub; cbn; lia|]. constructor; [|constructor].
        rewrite Hcls. exact Hsub.
      * eapply agree_trans; [exact Ha2|]. eapply agree_sub; [exact Ha4|]. set_solver.
  - destruct (res_slab_free _ _ _ _ _ _ _ Hr2 Hc Hb) as (sl2 & h2 & F2 & -> & Hr3 & Ha3).
    eexists. split; [done|]. cbn [build_ok]. split; [by exists F2|].
    by eapply agree_trans.
Qed.

Lemma res_munmap h0 rs a n :
  mem_res h0 ((a, n) :: rs) L sl F -> 1 <= n -> h_maps h0 !! a = Some n ->
  exists h', munmap a n h0 = Some h' /\ mem_res h' rs L sl F /\ h_bytes h' = h_bytes h0.
Proof.
  intros (Hs & Hwf & [Hd1 Hd2]) Hn Hm. unfold munmap. rewrite Hm. eexists. split; [done|].
  split; [|done]. split; [done|]. split; [|done].
  rewrite Forall_forall in Hwf |- *. intros e He. pose proof (Hwf e He) as Hwe.
  apply (entry_wf_frame h0); [done | apply agree_refl | done |].
  intros Hf. simpl. apply lookup_delete_ne. rewrite Forall_forall in Hd1.
  pose proof (wf_val_len _ _ Hwe) as [Hv _]. eapply regions_ne; [|exact Hn|exact Hv].
  apply Hd1. apply elem_of_app. right. apply elem_of_app. left.
  eapply entry_regions_in; [done|]. by apply mmap_region_in; [apply Hwe|].
Qed.

Lemma build_mmap :
  exists r, match mmap_anon (ev_mmap ev) vl h with
    | (None, h) => Some (inl (h, sl))
    | (Some vbuf, h) =>
        let h := write h vbuf val in
        match malloc (ev_malloc ev) kl h with
        | (None, h) => h ← munmap vbuf vl h; Some (inl (h, sl))
        | (Some kbuf, h) =>
            let h := write h kbuf key in
            let p := payload_put 8 (le_encode 8 vbuf)
                       (payload_put 0 (le_encode 8 kbuf) zero_payload) in
            Some (inr (new_entry (Z.lor VC_EFLAG_VAL_MMAP VC_EFLAG_KEY_LONG) (wyhash64 key 0) key val expire p,
                       h, sl, vl))
        end
    end = Some r /\ build_ok h L key val expire r.
Proof.
  destruct (ev_mmap ev) as [vbuf|] eqn:Emm; cbn [mmap_anon].
  2: { eexists. split; [done|]. split; [by exists F | apply agree_refl]. }
  pose proof (eo_mmap _ _ _ _ _ Henv vbuf Emm) as Hfv. pose proof (Hfv) as (Hv1 & Hv2 & Hv3 & _).
  simpl in Hv1, Hv2, Hv3.
  pose proof (res_mmap _ _ _ _ _ vbuf vl Hres Hfv ltac:(constructor)) as Hr1. cbn [mmap_anon snd] in Hr1.
  destruct (res_write _ _ _ _ _ _ vbuf val Hr1) as [Hr2 Ha2]; [unfold region_sub; simpl; lia|].
  simpl in Ha2. set (h1 := Heap _ _ _ _) in *.
  destruct (ev_malloc ev) as [kbuf|] eqn:Em; cbn [malloc].
  - pose proof (eo_malloc _ _ _ _ _ Henv kbuf Em) as Hfr. pose proof Hfr as (Hk1 & Hk2 & Hk3 & _).
    simpl in Hk1, Hk2, Hk3. pose proof (eo_both _ _ _ _ _ Henv kbuf vbuf Em Emm) as Hkv.
    pose proof (res_malloc _ _ _ _ _ kbuf kl Hr2 Hfr ltac:(by apply Forall_singleton)) as Hr3.
    cbn [malloc snd] in Hr3.
    destruct (res_write _ _ _ _ _ _ kbuf key Hr3) as [Hr4 Ha4]; [unfold region_sub; simpl; lia|].
    eexists. split; [done|]. cbn [build_ok].
    match goal with |- context [write ?x kbuf key] => set (h3 := x) in * end.
    pose proof (stored_len_spec val Hval) as (Hs1 & Hs2 & _).
    destruct (long_entry (write h3 kbuf key) key val expire Hkey Hval Hmax
                (Z.lor VC_EFLAG_VAL_MMAP VC_EFLAG_KEY_LONG) kbuf vbuf) as [Hbu Hreg];
      [by right | lia | lia | simpl; apply lookup_insert_eq | apply read_after_write | | done | |].
    + eapply read_other; [exact Hkv | lia | apply read_after_write].
    + intros _. simpl. rewrite lookup_insert_eq. by eexists.
    + split; [done|]. split.
      * eapply res_commit; [exact Hr4 | apply Hbu |]. rewrite Hreg.
        constructor; [unfold region_sub; cbn; lia|]. constructor; [|constructor].
        change (region_sub (vbuf, stored_len val) (vbuf, vl)). unfold region_sub; simpl. lia.
      * eapply agree_trans; [exact Ha2|]. eapply agree_sub; [exact Ha4|]. set_solver.
  - destruct (res_munmap _ _ _ _ Hr2 Hv2) as (h2 & -> & Hr3 & Hb3); [simpl; apply lookup_insert_eq|].
    eexists. split; [done|]. cbn [build_ok]. split; [by exists F|]. by rewrite Hb3.
Qed.

Lemma build_entry_spec :
  exists r, build_entry ev key val ttl (wyhash64 key 0) h sl = Some r /\
    build_ok h L key val expire r.
Proof.
  unfold build_entry. destruct (_ && _) eqn:Ei.
  - zreflect. eexists. split; [done|]. cbn [build_ok].
    destruct (inline_entry h key val expire Hkey Hval Hmax ltac:(lia)) as [Hb Hr].
    split; [done|]. split; [|apply agree_refl].
    eapply res_commit; [exact Hres | apply Hb |]. by rewrite Hr.
  - change (slab_class_size _) with (2 ^ 21). destruct (Z.leb_spec vl (2 ^ 21)) as [Hv|Hv]; [|apply build_mmap].
    destruct (slab_alloc sl vl h) as [[[vbuf|] cls] sl1] eqn:Ea.
    2: { apply (res_slab_none _ _ _ _ _ _ _ _ Hres) in Ea as ->; [|lia].
         eexists. split; [done|]. split; [by exists F | apply agree_refl]. }
    destruct (res_slab_alloc _ _ _ _ _ _ _ _ _ Hres (conj (Nat2Z.is_nonneg _) Hv) Ea)
      as (Hcls & Hb & F1 & Hr1 & HF).
    change (32 - 8) with 24.
    destruct (Z.leb_spec kl 24) as [Hk|Hk]; [|by apply (build_slab_long vbuf cls sl1 F1)].
    destruct (slab_class_for_fits vl) as (Hc & Hfit & _); [lia|]. rewrite <- Hcls in Hc, Hfit.
    destruct (res_write h _ _ _ _ _ vbuf val Hr1) as [Hr2 Ha2]; [unfold region_sub; simpl; lia|].
    eexists. split; [done|]. cbn [build_ok].
    destruct (slab_entry (write h vbuf val) key val expire Hkey Hval Hmax vbuf Hk Hv) as [Hbu Hreg];
      [by rewrite <- Hcls | apply read_after_write |].
    split; [done|]. split; [|done]. eapply res_commit; [exact Hr2 | apply Hbu |].
    rewrite Hreg. constructor; [|constructor]. rewrite Hcls.
    apply block_ok_smaller; [done..|]. by rewrite <- Hcls.
Qed.
End Build.
