(* ===== verification/CacheSafe.v ===== *)
(** * The cache: one shard under its lock, and the whole cache

    The critical sections of [Cache.v], one shard at a time: what the release of
    a slot, the eviction, the insertion, the lookup and the sweep of [vc_flush] do
    to the LIVE entries of the shard and to the heap; then the operations. *)

From S2P Require Import Prelude Hash Slab Entry Shard Wal Cache CacheInv.

(** ** Invariants *)

(** A shard, whatever its lock and its sequence counter. *)
Record core_ok (k : Z) (i : nat) (s : vc_shard) : Prop := {
  cok_cap : s_cap s = 2 ^ k;
  cok_table : table_ok k (s_table s);
  cok_count : 0 <= s_count s < 2 ^ 32;
  cok_hand : 0 <= s_clock_hand s < 2 ^ k;
  cok_home : forall e, e ∈ lives (s_table s) -> Z.to_nat (shard_idx (e_key_hash e)) = i
}.

(** A shard that nobody is writing. *)
Definition quiet (s : vc_shard) : Prop :=
  s_wlock s = 0 /\ 0 <= s_seq s < 2 ^ 64 /\ s_seq s mod 2 = 0.

Definition shard_ok (k : Z) (i : nat) (s : vc_shard) : Prop := core_ok k i s /\ quiet s.

Definition all_lives (l : list vc_shard) : list vc_entry := l ≫= (fun s => lives (s_table s)).

Record cache_wf (k : Z) (c : vc_cache) : Prop := {
  cwf_k : 0 <= k <= 31;
  cwf_len : length (c_shards c) = Z.to_nat VC_NUM_SHARDS;
  cwf_shards : forall i s, c_shards c !! i = Some s -> shard_ok k i s;
  cwf_mem : mem_inv (c_heap c) (all_lives (c_shards c)) (c_slab c);
  cwf_wal : log_wf (c_wal c)
}.

(** The same, without the order of the shards in the list of entries. *)
Lemma all_lives_insert l i s :
  l !! i = Some s ->
  exists R, all_lives l ≡ₚ lives (s_table s) ++ R /\
    forall s', all_lives (<[i := s']> l) ≡ₚ lives (s_table s') ++ R.
Proof.
  intros Hi. pose proof (lookup_lt_Some _ _ _ Hi) as Hlt.
  exists (all_lives (take i l) ++ all_lives (drop (S i) l)). split.
  - rewrite <- (take_drop_middle l i s Hi) at 1. unfold all_lives.
    rewrite bind_app, bind_cons. rewrite !app_assoc. f_equiv. apply Permutation_app_comm.
  - intros s'. rewrite insert_take_drop by done. unfold all_lives.
    rewrite bind_app, bind_cons. rewrite !app_assoc. f_equiv. apply Permutation_app_comm.
Qed.

(** Agreement on all that a list of entries owns. *)
Definition keeps (h h' : heap) (L : list vc_entry) : Prop :=
  agree (h_bytes h) (h_bytes h') (L ≫= entry_regions).

Lemma keeps_trans h1 h2 h3 L : keeps h1 h2 L -> keeps h2 h3 L -> keeps h1 h3 L.
Proof. apply agree_trans. Qed.

Lemma keeps_sub h h' L L' : keeps h h' L -> (forall e, e ∈ L' -> e ∈ L) -> keeps h h' L'.
Proof.
  intros H Hs. eapply agree_sub; [exact H|]. intros r Hr.
  apply list_elem_of_bind in Hr as (e & Hr & He). apply list_elem_of_bind. eauto.
Qed.

Lemma keeps_perm h h' L L' : L ≡ₚ L' -> keeps h h' L -> keeps h h' L'.
Proof. intros Hp H. eapply keeps_sub; [exact H|]. intros e. by rewrite Hp. Qed.

Lemma keeps_refl h L : keeps h h L.
Proof. apply agree_refl. Qed.

Lemma mem_inv_core h e L sl : mem_inv h (e :: L) sl <-> mem_inv h (core e :: L) sl.
Proof.
  unfold mem_inv. setoid_rewrite Forall_cons. setoid_rewrite bind_cons.
  rewrite entry_regions_core. setoid_rewrite entry_wf_core. done.
Qed.

Section Shard.
Context (k : Z) (Hk : 0 <= k <= 31) (i : nat).

(** ** Tables *)

Lemma mark_dead tbl j e :
  table_ok k tbl -> tbl !! j = Some e -> e_state e = LIVE ->
  table_ok k (<[j := with_state DEAD e]> tbl) /\
  lives tbl ≡ₚ core e :: lives (<[j := with_state DEAD e]> tbl).
Proof.
  intros Hok Hj Hl. split.
  - constructor; [rewrite length_insert; apply Hok | | by apply Forall_insert; [apply Hok|]].
    apply (chain_ok_insert k); [apply Hok | done | done].
  - destruct (lives_insert tbl j e (with_state DEAD e) Hj) as (R & -> & ->).
    unfold live1. rewrite decide_True by done. by rewrite decide_False.
Qed.

Lemma set_slot_state_eq st j tbl e :
  tbl !! Z.to_nat j = Some e -> set_slot_state st j tbl = <[Z.to_nat j := with_state st e]> tbl.
Proof. intros H. unfold set_slot_state. by rewrite H. Qed.

Lemma lives_all tbl : Forall is_live tbl -> length (lives tbl) = length tbl.
Proof.
  induction 1 as [|e tbl He _ IH]; [done|]. rewrite lives_cons, length_app, IH.
  unfold live1. by rewrite decide_True.
Qed.

(** Fewer LIVE entries than slots: some slot is free. *)
Lemma room_free tbl h :
  table_ok k tbl -> Z.of_nat (length (lives tbl)) < 2 ^ k ->
  free_within k tbl (slot_at k h 0) (2 ^ k).
Proof.
  intros Hok Hr. assert (exists j e, tbl !! j = Some e /\ e_state e <> LIVE) as (j & e & Hj & Hs).
  { destruct (decide (Forall is_live tbl)) as [Ha|Hn].
    - rewrite lives_all in Hr by done. pose proof (tok_len _ _ Hok). lia.
    - apply not_Forall_Exists in Hn; [|apply _]. apply Exists_exists in Hn as (e & He & Hs).
      apply list_elem_of_lookup in He as [j Hj]. eauto. }
  pose proof (lookup_lt_Some _ _ _ Hj). pose proof (tok_len _ _ Hok).
  destruct (slot_at_cover k Hk (slot_at k h 0) (Z.of_nat j)) as (d & Hd & Heq); [lia|].
  exists d, e. split; [done|]. rewrite Heq, Nat2Z.id. split; [done|].
  pose proof (Forall_lookup_1 _ _ _ _ (tok_busy _ _ Hok) Hj) as Hbz. simpl in Hbz. unfold free_slot.
  destruct (e_state e); [by left | done | done | by right].
Qed.

(** ** Releasing a slot *)

Lemma kill_slot_spec s h sl R j e :
  core_ok k i s -> mem_inv h (lives (s_table s) ++ R) sl ->
  s_table s !! Z.to_nat j = Some e -> e_state e = LIVE ->
  exists s' h' sl', kill_slot j s h sl = Some (s', h', sl') /\ core_ok k i s' /\
    s_wlock s' = s_wlock s /\ s_seq s' = s_seq s /\ s_count s' = u32 (s_count s - 1) /\
    lives (s_table s) ≡ₚ core e :: lives (s_table s') /\
    mem_inv h' (lives (s_table s') ++ R) sl' /\ keeps h h' (lives (s_table s') ++ R).
Proof.
  intros Hok Hm Hj Hl. destruct (mark_dead _ _ _ (cok_table _ _ _ Hok) Hj Hl) as [Ht Hp].
  rewrite Hp in Hm. simpl in Hm. destruct (entry_free_spec _ _ _ _ Hm) as (h' & sl' & E & Hm' & Ha).
  change (entry_free_resources (core e) h sl) with (entry_free_resources e h sl) in E.
  unfold kill_slot. rewrite Hj. cbn [mbind option_bind]. rewrite E. cbn [mbind option_bind].
  rewrite (set_slot_state_eq _ _ _ _ Hj). eexists _, _, _. split; [done|].
  split; [|do 3 (split; [done|]); split; [done|]; done]. constructor; simpl; try apply Hok; try done.
  - apply u32_range.
  - intros x Hx. apply (cok_home _ _ _ Hok). rewrite Hp. by right.
Qed.

(** ** Eviction *)

Lemma evict_spec s h sl R :
  core_ok k i s -> mem_inv h (lives (s_table s) ++ R) sl ->
  exists v s' h' sl' gone, shard_evict_one s h sl = Some (v, s', h', sl') /\ core_ok k i s' /\
    s_wlock s' = s_wlock s /\ s_seq s' = s_seq s /\
    s_count s' = u32 (s_count s - Z.of_nat (length gone)) /\ (length gone <= 1)%nat /\
    lives (s_table s) ≡ₚ gone ++ lives (s_table s') /\
    mem_inv h' (lives (s_table s') ++ R) sl' /\ keeps h h' (lives (s_table s') ++ R).
Proof.
  intros Hok Hm. unfold shard_evict_one. pose proof (cok_table _ _ _ Hok) as Ht.
  rewrite (cok_cap _ _ _ Hok).
  assert (Hh : s_clock_hand s = slot_at k (s_clock_hand s) 0).
  { unfold slot_at. rewrite Z.add_0_r, Z.mod_small; [done | apply Hok]. }
  destruct (evict_loop _ (s_table s) (2 ^ k) (s_clock_hand s)) as [tbl v] eqn:E. rewrite Hh in E.
  pose proof (cap_range k Hk).
  apply (evict_loop_spec k Hk) in E as [HF Hv]; [|apply Ht|lia].
  pose proof (lives_cleared _ _ HF) as Hlv. pose proof (table_ok_cleared k _ _ HF Ht) as Ht'.
  destruct v as [v|].
  - destruct Hv as (j & e & Hj & -> & He & _ & Hl & _). rewrite He. cbn [mbind option_bind].
    set (v := slot_at k (s_clock_hand s) j) in *.
    destruct (kill_slot_spec (sh_table tbl s) h sl R v e) as (s' & h' & sl' & Ek & Hc' & Hw & Hq & Hn & Hp & Hm' & Ha).
    + constructor; simpl; try apply Hok; [done|]. rewrite Hlv. apply Hok.
    + simpl. by rewrite Hlv.
    + done.
    + done.
    + unfold kill_slot in Ek. cbn [s_table sh_table] in Ek. rewrite He in Ek. cbn [mbind option_bind] in Ek.
      destruct (entry_free_resources e h sl) as [[h1 sl1]|]; [|done]. cbn [mbind option_bind] in Ek |- *.
      rewrite (set_slot_state_eq BUSY _ _ _ He).
      rewrite (set_slot_state_eq DEAD _ _ (with_state BUSY e))
        by (apply list_lookup_insert_eq; by eapply lookup_lt_Some).
      rewrite list_insert_insert_eq. rewrite (set_slot_state_eq _ _ _ _ He) in Ek.
      injection Ek as <- <- <-. eexists _, _, h1, sl1, [core e]. split; [done|].
      split; [|split; [done|]; split; [done|]; split; [done|]; split; [done|];
               split; [by rewrite <- Hlv | done]].
      constructor; try apply Hc'. simpl. apply slot_at_range. lia.
  - eexists _, _, h, sl, []. split; [done|]. split; [|split; [done|]; split; [done|]; split].
    + constructor; simpl; try apply Hok; [done|]. rewrite Hlv. apply Hok.
    + simpl. rewrite Z.sub_0_r, u32_id; [done | apply Hok].
    + split; [simpl; lia|]. simpl. rewrite Hlv. split; [done|]. split; [done | apply keeps_refl].
Qed.

(** ** Insertion *)

Lemma insert_spec s ne s' r :
  core_ok k i s -> Z.to_nat (shard_idx (e_key_hash ne)) = i -> shard_insert s ne = (s', r) ->
  core_ok k i s' /\ s_wlock s' = s_wlock s /\ s_seq s' = s_seq s /\ s_count s' = s_count s /\
  core ne :: lives (s_table s) ≡ₚ option_list (core <$> r) ++ lives (s_table s') /\
  (Z.of_nat (length (lives (s_table s))) < 2 ^ k -> r = None).
Proof.
  intros Hok Hhome E. unfold shard_insert in E.
  destruct (insert_loop _ _ _ _ _) as [tbl r'] eqn:El. injection E as <- <-.
  rewrite (cok_cap _ _ _ Hok), <- (slot_at_0 k Hk) in El. pose proof (cap_range k Hk).
  change (e_key_hash (with_dist 0 ne)) with (e_key_hash (with_dist 0 ne)) in El.
  destruct (insert_loop_spec k Hk _ _ (with_dist 0 ne) 0 _ _ (cok_table _ _ _ Hok) ltac:(lia)
              ltac:(intros j Hj; lia) El) as (Ht & Hp & Hfree).
  assert (Hp' : core ne :: lives (s_table s) ≡ₚ option_list (core <$> r') ++ lives tbl).
  { destruct r' as [d|]; simpl; [by rewrite Hp|]. by rewrite Hp. }
  split; [|split; [done|]; split; [done|]; split; [done|]; split; [done|]].
  - constructor; simpl; try apply Hok; [done|]. intros e He.
    assert (He' : e ∈ core ne :: lives (s_table s)) by (rewrite Hp'; apply elem_of_app; by right).
    apply elem_of_cons in He' as [->|He']; [done|]. by apply Hok.
  - intros Hroom. apply Hfree. rewrite Z2Nat.id by lia. apply room_free; [apply Hok | done].
Qed.

(** ** Locks *)

Lemma lock_quiet s : quiet s -> shard_lock s = Some (sh_wlock 1 s).
Proof. intros (Hw & _). unfold shard_lock. by rewrite Hw. Qed.

Lemma write_quiet n : 0 <= n < 2 ^ 64 -> n mod 2 = 0 ->
  0 <= u64 (u64 (n + 1) + 1) < 2 ^ 64 /\ u64 (u64 (n + 1) + 1) mod 2 = 0.
Proof.
  intros Hn He. split; [apply u64_range|]. unfold u64. rewrite Zplus_mod_idemp_l.
  change (2 ^ 64) with (2 * 2 ^ 63). rewrite Z.rem_mul_r by lia. zdivlia.
Qed.

Lemma core_ok_seq n s : core_ok k i s -> core_ok k i (sh_seq n s).
Proof. intros H. constructor; apply H. Qed.
Lemma core_ok_wlock n s : core_ok k i s -> core_ok k i (sh_wlock n s).
Proof. intros H. constructor; apply H. Qed.
Lemma core_ok_stats a b c d s : core_ok k i s -> core_ok k i (sh_stats a b c d s).
Proof. intros H. constructor; apply H. Qed.
Lemma core_ok_count n s : core_ok k i s -> 0 <= n < 2 ^ 32 -> core_ok k i (sh_count n s).
Proof. intros H Hn. constructor; try apply H. done. Qed.

Lemma find_live m now s key klen hash j :
  core_ok k i s -> shard_find m now s key klen hash = Some j ->
  exists e, s_table s !! Z.to_nat j = Some e /\ e_state e = LIVE /\
    entry_matches m key klen hash e = true /\ entry_expired now e = false.
Proof.
  intros Hok E. apply (shard_find_sound k Hk) in E as (Hj & e & He & Hm & Hx); [|apply Hok].
  exists e. split; [done|]. split; [|done]. unfold entry_matches in Hm. zreflect.
  by apply bool_decide_eq_true in H.
Qed.

(** ** The critical section of [vc_set] *)

(** The old entry of the key is released. *)
Lemma replace_spec now key hash s s0 h sl R :
  core_ok k i s -> core_ok k i s0 -> s_table s0 = s_table s -> s_count s0 = s_count s -> mem_inv h (lives (s_table s) ++ R) sl ->
  exists s1 h1 sl1 old,
    match shard_find (h_bytes h) now s key (klen32 key) hash with
    | Some old_slot => kill_slot old_slot s0 h sl | None => Some (s0, h, sl) end = Some (s1, h1, sl1) /\
    core_ok k i s1 /\ s_seq s1 = s_seq s0 /\ s_count s1 = u32 (s_count s - Z.of_nat (length old)) /\
    lives (s_table s) ≡ₚ old ++ lives (s_table s1) /\
    mem_inv h1 (lives (s_table s1) ++ R) sl1 /\ keeps h h1 (lives (s_table s1) ++ R) /\
    match shard_find (h_bytes h) now s key (klen32 key) hash with
    | Some j => exists e, s_table s !! Z.to_nat j = Some e /\ old = [core e]
    | None => old = []
    end.
Proof.
  intros Hok Hok0 Ht Hc Hm. rewrite <- Ht, <- Hc in *. destruct (shard_find _ _ _ _ _ _) as [j|] eqn:Ef.
  - destruct (find_live _ _ _ _ _ _ _ Hok Ef) as (e & He & Hl & _). rewrite <- Ht in He.
    destruct (kill_slot_spec s0 h sl R j e Hok0 Hm He Hl) as (s1 & h1 & sl1 & E & H1 & _ & H2 & H3 & H4 & H5 & H6).
    exists s1, h1, sl1, [core e]. repeat (split; [done|]). eauto.
  - exists s0, h, sl, []. split; [done|]. split; [done|]. split; [done|].
    split; [simpl; rewrite Z.sub_0_r, u32_id; [done | apply Hok0]|]. split; [done|].
    split; [done|]. split; [apply keeps_refl | done].
Qed.

(** At most one entry is evicted. *)
Lemma make_room_spec s1 h1 sl1 R :
  core_ok k i s1 -> mem_inv h1 (lives (s_table s1) ++ R) sl1 ->
  exists s2 h2 sl2 gone,
    (if must_evict s1 then '(_, s, h, sl) ← shard_evict_one s1 h1 sl1; Some (s, h, sl)
     else Some (s1, h1, sl1)) = Some (s2, h2, sl2) /\
    core_ok k i s2 /\ s_seq s2 = s_seq s1 /\ s_count s2 = u32 (s_count s1 - Z.of_nat (length gone)) /\
    lives (s_table s1) ≡ₚ gone ++ lives (s_table s2) /\ (length gone <= 1)%nat /\
    (gone <> [] -> must_evict s1 = true) /\
    mem_inv h2 (lives (s_table s2) ++ R) sl2 /\ keeps h1 h2 (lives (s_table s2) ++ R).
Proof.
  intros Hok1 Hm1. destruct (must_evict s1).
  - destruct (evict_spec s1 h1 sl1 _ Hok1 Hm1)
      as (v & s2 & h2 & sl2 & gone & -> & H1 & _ & H3 & H4 & H5 & H6 & H7 & H8).
    exists s2, h2, sl2, gone. repeat (split; [done|]). done.
  - exists s1, h1, sl1, []. split; [done|]. split; [done|]. split; [done|].
    split; [simpl; rewrite Z.sub_0_r, u32_id; [done | apply Hok1]|]. split; [done|].
    split; [simpl; lia|]. split; [done|]. split; [done | apply keeps_refl].
Qed.

Lemma set_locked_spec now key ne s h sl R :
  shard_ok k i s -> mem_inv h (core ne :: lives (s_table s) ++ R) sl ->
  Z.to_nat (shard_idx (e_key_hash ne)) = i ->
  exists s' h' sl' old L1 gone L2 dropped,
    set_locked now key ne s h sl = Some (s', h', sl') /\ shard_ok k i s' /\
    lives (s_table s) ≡ₚ old ++ L1 /\ L1 ≡ₚ gone ++ L2 /\
    core ne :: L2 ≡ₚ dropped ++ lives (s_table s') /\
    mem_inv h' (lives (s_table s') ++ R) sl' /\ keeps h h' (lives (s_table s') ++ R) /\
    match shard_find (h_bytes h) now s key (klen32 key) (e_key_hash ne) with
    | Some j => exists e, s_table s !! Z.to_nat j = Some e /\ old = [core e]
    | None => old = []
    end /\
    (length gone <= 1)%nat /\
    (gone <> [] -> 85 <= u32 (u32 (s_count s - Z.of_nat (length old)) * 100) / 2 ^ k) /\
    (length dropped <= 1)%nat /\
    (Z.of_nat (length L2) < 2 ^ k -> dropped = []) /\
    s_count s' = u32 (u32 (u32 (s_count s - Z.of_nat (length old)) - Z.of_nat (length gone)) + 1).
Proof.
  intros [Hok Hq] Hm Hhome. unfold set_locked. rewrite (lock_quiet _ Hq). cbn [mbind option_bind].
  set (s0 := seq_write_begin (sh_wlock 1 s)).
  assert (Hok0 : core_ok k i s0) by (by apply core_ok_seq, core_ok_wlock).
  rewrite (Permutation_middle (lives (s_table s)) R (core ne)) in Hm.
  change (shard_find (h_bytes h) now s0) with (shard_find (h_bytes h) now s).
  destruct (replace_spec now key (e_key_hash ne) s s0 h sl (core ne :: R) Hok Hok0 eq_refl eq_refl Hm)
    as (s1 & h1 & sl1 & old & -> & Hok1 & Hq1 & Hc1 & Hp1 & Hm1 & Ha1 & Hold).
  cbn [mbind option_bind]. pose proof (cap_range k Hk).
  replace (s_cap s1 =? 0) with false by (rewrite (cok_cap _ _ _ Hok1); lia).
  destruct (make_room_spec s1 h1 sl1 (core ne :: R) Hok1 Hm1)
    as (s2 & h2 & sl2 & gone & -> & Hok2 & Hq2 & Hc2 & Hp2 & Hg2 & Hg3 & Hm2 & Ha2).
  cbn [mbind option_bind]. destruct (shard_insert s2 ne) as [s3 r] eqn:Ei.
  destruct (insert_spec s2 ne s3 r Hok2 Hhome Ei) as (Hok3 & _ & Hq3 & Hc3 & Hp3 & Hroom).
  rewrite <- Permutation_middle in Hm2.
  assert (Hperm : core ne :: lives (s_table s2) ++ R ≡ₚ option_list (core <$> r) ++ lives (s_table s3) ++ R).
  { by rewrite app_comm_cons, Hp3, app_assoc. }
  eexists _, h2, sl2, old, (lives (s_table s1)), gone, (lives (s_table s2)), (option_list (core <$> r)).
  split; [done|]. split; [|split; [done|]; split; [done|]; split; [done|]; split; [|split; [|split; [done|]; split; [done|]; split; [|split; [|split]]]]].
  - split.
    + apply core_ok_wlock, core_ok_seq, core_ok_stats, core_ok_count; [done | apply u32_range].
    + split; [done|]. simpl. rewrite Hq3, Hq2, Hq1. simpl. destruct Hq as (_ & ? & ?). by apply write_quiet.
  - simpl. rewrite Hperm in Hm2. destruct r; [by apply mem_inv_drop in Hm2 | done].
  - simpl. eapply keeps_trans.
    + eapply keeps_sub; [exact Ha1|]. intros e He.
      assert (He' : e ∈ core ne :: lives (s_table s2) ++ R) by (rewrite Hperm; apply elem_of_app; by right).
      rewrite Hp2. set_solver.
    + eapply keeps_sub; [exact Ha2|]. intros e He.
      assert (He' : e ∈ core ne :: lives (s_table s2) ++ R) by (rewrite Hperm; apply elem_of_app; by right).
      set_solver.
  - intros Hg. apply Hg3 in Hg. unfold must_evict in Hg. zreflect.
    by rewrite Hc1, (cok_cap _ _ _ Hok1) in Hg.
  - destruct r; simpl; lia.
  - intros Hr. by rewrite (Hroom Hr).
  - simpl. by rewrite Hc3, Hc2, Hc1.
Qed.

(** ** Reading *)

Lemma touch_spec j s :
  core_ok k i s -> core_ok k i (touch j s) /\ lives (s_table (touch j s)) ≡ₚ lives (s_table s) /\
  s_count (touch j s) = s_count s /\ s_wlock (touch j s) = s_wlock s /\ s_seq (touch j s) = s_seq s.
Proof.
  intros Hok. unfold touch. destruct (s_table s !! Z.to_nat j) as [e|] eqn:He; [|done].
  pose proof (cok_table _ _ _ Hok) as Ht.
  assert (Hp : lives (<[Z.to_nat j := with_clock 1 e]> (s_table s)) ≡ₚ lives (s_table s)).
  { destruct (lives_insert _ _ _ (with_clock 1 e) He) as (R & -> & ->). done. }
  split; [|done]. constructor; simpl; try apply Hok.
  - constructor; [rewrite length_insert; apply Ht | |].
    + destruct (decide (e_state e = EMPTY)) as [Hs|Hs].
      * intros x y Hx Hy. apply list_lookup_insert_Some in Hx as [(<- & <- & _)|[Hne Hx]]; [by simpl in Hy; congruence|].
        destruct (tok_chain _ _ Ht x y Hx Hy) as (n & Hn & Heq & Hr). exists n. split; [done|]. split; [done|].
        eapply run_sub; [|exact Hr]. intros z (e0 & Hz & Hz'). exists e0. split; [|done].
        rewrite list_lookup_insert_ne; [done|]. intros <-. congruence.
      * apply (chain_ok_insert k); [apply Ht | done |]. intros Hl.
        exact (tok_chain _ _ Ht _ _ He Hl).
    + apply Forall_insert; [apply Ht|]. exact (Forall_lookup_1 _ _ _ _ (tok_busy _ _ Ht) He).
  - intros x Hx. rewrite Hp in Hx. by apply Hok.
Qed.

Lemma shard_ok_stats a b c d s : shard_ok k i s -> shard_ok k i (sh_stats a b c d s).
Proof. intros [H Hq]. split; [by apply core_ok_stats | done]. Qed.

Lemma shard_ok_touch j s : shard_ok k i s -> shard_ok k i (touch j s).
Proof.
  intros [H Hq]. destruct (touch_spec j s H) as (H1 & _ & _ & H4 & H5). split; [done|].
  unfold quiet. by rewrite H4, H5.
Qed.

Lemma get_fast_eq retry h now s key hash :
  quiet s ->
  get_fast (S retry) h now s key hash =
  match shard_find (h_bytes h) now s key (klen32 key) hash with
  | None => Some FastMiss
  | Some slot =>
      e ← s_table s !! Z.to_nat slot;
      if flag (Z.lor VC_EFLAG_VAL_SLAB VC_EFLAG_VAL_MMAP) e
      then Some (FastHit slot (GetOut e (entry_val e) (e_val_len e))) else Some FastLock
  end.
Proof.
  intros (_ & Hr & He). cbn [get_fast]. unfold seq_read_begin.
  replace (Z.land (s_seq s) 1) with (s_seq s mod 2) by (symmetry; apply (land_mask _ 1); lia).
  rewrite He. cbn [Z.eqb mbind option_bind].
  unfold seq_read_retry. rewrite Z.eqb_refl. done.
Qed.

(** ** Flushing *)

Lemma flush_slots_spec n j tbl h sl R :
  table_ok k tbl -> (j + n = length tbl)%nat -> mem_inv h (lives tbl ++ R) sl ->
  (forall x e, (x < j)%nat -> tbl !! x = Some e -> e_state e <> LIVE) ->
  exists tbl' h' sl', flush_slots j n tbl h sl = Some (tbl', h', sl') /\ table_ok k tbl' /\
    lives tbl' = [] /\ mem_inv h' R sl' /\ keeps h h' R.
Proof.
  revert j tbl h sl. induction n as [|n IH]; intros j tbl h sl Hok Hl Hm Hdead.
  { exists tbl, h, sl. split; [done|]. split; [done|].
    assert (lives tbl = []) as E.
    { destruct (lives tbl) as [|x l] eqn:E; [done|].
      destruct (lives_elem_inv tbl x) as (y & e & Hy & He & _); [rewrite E; left|].
      exfalso. apply (Hdead y e); [|done|done]. apply lookup_lt_Some in Hy. lia. }
    rewrite E in Hm. split; [done|]. split; [done | apply keeps_refl]. }
  cbn [flush_slots]. destruct (lookup_lt_is_Some_2 tbl j) as [e He]; [lia|]. rewrite He.
  cbn [mbind option_bind]. case_bool_decide as Hs.
  - destruct (mark_dead _ _ _ Hok He Hs) as [Hok' Hp]. rewrite Hp in Hm. simpl in Hm.
    destruct (entry_free_spec _ _ _ _ Hm) as (h' & sl' & E & Hm' & Ha).
    change (entry_free_resources (core e) h sl) with (entry_free_resources e h sl) in E.
    rewrite E. cbn [mbind option_bind].
    destruct (IH (S j) (<[j := with_state DEAD e]> tbl) h' sl') as (t2 & h2 & sl2 & E2 & H1 & H2 & H3 & H4);
      [done | rewrite length_insert; lia | done | |].
    + intros x y Hx Hy. apply list_lookup_insert_Some in Hy as [(<- & <- & _)|[Hne Hy]]; [done|].
      apply (Hdead x y); [lia | done].
    + exists t2, h2, sl2. split; [done|]. split; [done|]. split; [done|]. split; [done|].
      eapply keeps_trans; [|exact H4]. eapply keeps_sub; [exact Ha|]. intros x Hx. apply elem_of_app. by right.
  - apply IH; [done | lia | done |]. intros x y Hx Hy. destruct (decide (x = j)) as [->|]; [congruence|].
    apply (Hdead x y); [lia | done].
Qed.

Lemma flush_shard_spec s h sl R :
  shard_ok k i s -> mem_inv h (lives (s_table s) ++ R) sl ->
  exists s' h' sl', flush_shard s h sl = Some (s', h', sl') /\ shard_ok k i s' /\
    lives (s_table s') = [] /\ s_count s' = 0 /\ mem_inv h' R sl' /\ keeps h h' R.
Proof.
  intros [Hok Hq] Hm. unfold flush_shard. rewrite (lock_quiet _ Hq). cbn [mbind option_bind].
  cbn [s_cap s_table sh_seq seq_write_begin sh_wlock]. pose proof (cok_table _ _ _ Hok) as Ht.
  pose proof (tok_len _ _ Ht) as Hl. rewrite (cok_cap _ _ _ Hok).
  destruct (flush_slots_spec (Z.to_nat (2 ^ k)) 0 (s_table s) h sl R)
    as (t & h' & sl' & -> & H1 & H2 & H3 & H4); [done | lia | done | intros; lia |].
  cbn [mbind option_bind]. eexists _, h', sl'. split; [done|]. split; [|done]. split.
  - constructor; simpl; try apply Hok; [done | lia |]. rewrite H2. intros e He. by apply elem_of_nil in He.
  - split; [done|]. simpl. destruct Hq as (_ & ? & ?). by apply write_quiet.
Qed.
End Shard.

(** ** Destroying *)

Lemma destroy_slots_spec tbl h sl R :
  mem_inv h (lives tbl ++ R) sl ->
  exists h' sl', destroy_slots tbl h sl = Some (h', sl') /\ mem_inv h' R sl'.
Proof.
  revert h sl. induction tbl as [|e tbl IH]; intros h sl Hm; simpl.
  { by exists h, sl. }
  rewrite lives_cons in Hm. unfold live1 in Hm. case_bool_decide as Hs.
  - rewrite decide_True in Hm by done. simpl in Hm.
    destruct (entry_free_spec _ _ _ _ Hm) as (h' & sl' & E & Hm' & _).
    change (entry_free_resources (core e) h sl) with (entry_free_resources e h sl) in E.
    rewrite E. cbn [mbind option_bind]. by apply IH.
  - rewrite decide_False in Hm by done. by apply IH.
Qed.
