(* ===== verification/CacheSpec.v ===== *)
(** * The cache: refinement of a finite map

    What the cache promises to its clients is a finite map from keys to values
    with expiry times.  [abs] reads that map off the tables and the heap; the
    theorems say what each operation does to it. *)

From S2P Require Import Prelude Hash Slab Entry Shard Wal Cache CacheInv CacheSafe.

(** ** The abstract map *)

Abbreviation key := (list Z).

Definition kv (h : heap) (e : vc_entry) : key * (list Z * Z) :=
  (key_bytes (h_bytes h) e, (val_bytes (h_bytes h) e, e_expire_ns e)).

Definition contents (h : heap) (l : list vc_shard) : list (key * (list Z * Z)) :=
  kv h <$> all_lives l.

Definition abs (c : vc_cache) : gmap key (list Z * Z) :=
  list_to_map (contents (c_heap c) (c_shards c)).

Definition expired_at (now expire : Z) : bool :=
  if expire =? 0 then false else expire <? s64 now.

(** No key is stored twice, and the counters are exact. *)
Record cache_ok (k : Z) (c : vc_cache) : Prop := {
  cok_wf : cache_wf k c;
  cok_nodup : NoDup (contents (c_heap c) (c_shards c)).*1;
  cok_counts : forall i s, c_shards c !! i = Some s ->
    s_count s = Z.of_nat (length (lives (s_table s)))
}.

(** The shard of a key. *)
Definition home (ky : key) : nat := Z.to_nat (shard_idx (wyhash64 ky 0)).

(** [malloc] and [mmap] return memory that nothing else uses. *)
Definition env_fresh (c : vc_cache) (ev : env) (ky val : list Z) : Prop :=
  forall F, slab_ok (h_bytes (c_heap c)) (c_slab c) F -> env_ok (all_lives (c_shards c)) F ev ky val.

(** The bytes of a SET record: the value's length is cut to 32 bits. *)
Definition set_logged (ky val : list Z) : Z := Z.of_nat (length ky) + u32 (Z.of_nat (length val)).

(** There is a log after an operation exactly when there was one before. *)
Definition same_log (c c' : vc_cache) : Prop := w_ring (c_wal c') = None <-> w_ring (c_wal c) = None.

Lemma same_log_room c c' n : same_log c c' -> log_room (c_wal c) n -> log_room (c_wal c') n.
Proof. unfold same_log, log_room. tauto. Qed.

(** The allocators refuse the memory that a [vc_set] asks for: a pair of at most 32 bytes
    asks for none; a value of up to 2 MB asks for a block of its slab class, and for a
    [malloc] of the key when that has more than 24 bytes; a larger one for a mapping and a
    [malloc] of the key. *)
Definition refused (ev : env) (sl : vc_slab) (ky val : list Z) : bool :=
  let kl := Z.of_nat (length ky) in
  let vl := Z.of_nat (length val) in
  if kl + vl <=? 32 then false
  else if vl <=? 2 ^ 21 then
    match sl !! Z.to_nat (slab_class_for vl) with
    | Some sc => (sc_head sc =? 0) || ((24 <? kl) && negb (bool_decide (is_Some (ev_malloc ev))))
    | None => true
    end
  else negb (bool_decide (is_Some (ev_mmap ev))) || negb (bool_decide (is_Some (ev_malloc ev))).

(** An entry is built exactly when the memory is granted. *)
Lemma build_refused ev ky val ttl hash h sl r :
  build_entry ev ky val ttl hash h sl = Some r ->
  match r with inl _ => refused ev sl ky val = true | inr _ => refused ev sl ky val = false end.
Proof.
  unfold build_entry, refused. cbv zeta. change (slab_class_size _) with (2 ^ 21). change (32 - 8) with 24.
  destruct (Z.leb_spec (Z.of_nat (length ky) + Z.of_nat (length val)) 32) as [Hi|Hi]; cbn [andb].
  { destruct (Z.ltb_spec 32 (Z.of_nat (length ky))); cbn [negb]; [lia|]. by intros [= <-]. }
  destruct (_ <=? 2 ^ 21).
  - unfold slab_alloc. destruct (sl !! _) as [sc|]; [|by intros [= <-]].
    destruct (sc_head sc =? 0); cbn [orb]; [by intros [= <-]|].
    destruct (Z.leb_spec (Z.of_nat (length ky)) 24), (Z.ltb_spec 24 (Z.of_nat (length ky))); cbn [andb]; try lia; [by intros [= <-]|].
    unfold malloc. destruct (ev_malloc ev); [by intros [= <-]|]. destruct (slab_free _ _ _ _). by intros [= <-].
  - unfold mmap_anon, malloc. destruct (ev_mmap ev); cbn [negb orb]; [|by intros [= <-]].
    destruct (ev_malloc ev); [by intros [= <-]|]. destruct (munmap _ _ _); [by intros [= <-] | done].
Qed.

(** ** Frames *)

Lemma kv_keeps h h' L sl e : mem_inv h L sl -> keeps h h' L -> e ∈ L -> kv h' e = kv h e.
Proof.
  intros Hm Ha He. pose proof (mem_inv_wf _ _ _ _ Hm He) as Hwf.
  assert (Hag : agree (h_bytes h) (h_bytes h') (entry_regions e)).
  { eapply agree_sub; [exact Ha | by apply entry_regions_in]. }
  unfold kv. by rewrite (key_bytes_agree h), (val_bytes_agree h).
Qed.

Lemma kv_keeps_list h h' L sl L' :
  mem_inv h L sl -> keeps h h' L' -> (forall e, e ∈ L' -> e ∈ L) -> kv h' <$> L' = kv h <$> L'.
Proof.
  intros Hm Ha Hs. apply list_fmap_ext. intros i e He. apply list_elem_of_lookup_2 in He.
  pose proof (mem_inv_wf _ _ _ _ Hm (Hs e He)) as Hwf.
  assert (Hag : agree (h_bytes h) (h_bytes h') (entry_regions e)).
  { eapply agree_sub; [exact Ha | by apply entry_regions_in]. }
  unfold kv. by rewrite (key_bytes_agree h), (val_bytes_agree h).
Qed.

Lemma contents_perm h l l' : all_lives l ≡ₚ all_lives l' -> contents h l ≡ₚ contents h l'.
Proof. intros H. unfold contents. by rewrite H. Qed.

Lemma home_lt ky : (home ky < Z.to_nat VC_NUM_SHARDS)%nat.
Proof.
  unfold home. pose proof (shard_idx_range (wyhash64 ky 0) (wyhash64_range ky 0)).
  unfold VC_NUM_SHARDS in *. lia.
Qed.

Lemma shards_insert_ok k (l : list vc_shard) i s' :
  (forall j s, l !! j = Some s -> shard_ok k j s) -> shard_ok k i s' ->
  forall j s, <[i := s']> l !! j = Some s -> shard_ok k j s.
Proof.
  intros H Hs j s Hj. apply list_lookup_insert_Some in Hj as [(<- & <- & _)|[_ Hj]]; [done | by apply H].
Qed.

(** ** Lookups against the map *)

Section Find.
Context (k : Z) (Hk : 0 <= k <= 31) (l : list vc_shard) (h : heap) (sl : vc_slab).
Context (Hsh : forall i s, l !! i = Some s -> shard_ok k i s).
Context (Hm : mem_inv h (all_lives l) sl) (Hnd : NoDup (contents h l).*1).

(** A stored key is in the table of its home shard. *)
Lemma stored_home x :
  x ∈ all_lives l -> forall s, l !! home (key_bytes (h_bytes h) x) = Some s ->
  exists j e, s_table s !! j = Some e /\ e_state e = LIVE /\ x = core e.
Proof.
  intros Hx s Hs. pose proof (mem_inv_wf _ _ _ _ Hm Hx) as Hwf.
  apply list_elem_of_bind in Hx as (s0 & Hx & Hs0). apply list_elem_of_lookup in Hs0 as [i Hi].
  destruct (Hsh i s0 Hi) as [Hc _]. pose proof (cok_home _ _ _ Hc x Hx) as Hhome.
  rewrite (wf_hash _ _ Hwf) in Hhome. unfold home in Hs. rewrite Hhome in Hs.
  assert (s0 = s) as -> by congruence. by apply lives_elem_inv.
Qed.

Lemma all_lives_elem i s x : l !! i = Some s -> x ∈ lives (s_table s) -> x ∈ all_lives l.
Proof.
  intros Hi Hx. apply list_elem_of_bind. exists s. split; [done|]. by eapply list_elem_of_lookup_2.
Qed.

(** Matching is equality of keys. *)
Lemma matches_key ky e i s j :
  l !! i = Some s -> s_table s !! j = Some e -> e_state e = LIVE -> Z.of_nat (length ky) < 2 ^ 32 ->
  entry_matches (h_bytes h) ky (klen32 ky) (wyhash64 ky 0) e = true <-> key_bytes (h_bytes h) e = ky.
Proof.
  intros Hi Hj Hl Hmax. assert (He : core e ∈ all_lives l).
  { apply (all_lives_elem i s); [done|]. by eapply lives_elem. }
  pose proof (mem_inv_wf _ _ _ _ Hm He) as Hwf. apply (proj1 (entry_wf_core _ _)) in Hwf.
  unfold klen32. rewrite u32_id by lia. unfold entry_matches. rewrite Nat2Z.id, firstn_all. split.
  - intros H. zreflect. by apply bool_decide_eq_true in H0.
  - intros <-. rewrite !bool_decide_true by done. rewrite <- (wf_hash _ _ Hwf), Z.eqb_refl. simpl.
    rewrite andb_true_r. apply Z.eqb_eq. unfold key_bytes. pose proof (wf_key_len _ _ Hwf).
    destruct (entry_key e) as [off|a] eqn:Ek; simpl.
    + unfold entry_key in Ek. destruct (flag VC_EFLAG_KEY_LONG e) eqn:Hf; [done|].
      injection Ek as <-. simpl. rewrite length_take, drop_0, (wf_payload _ _ Hwf).
      pose proof (wf_val_len _ _ Hwf). assert (e_key_len e <= 32); [|lia].
      destruct (shape_cases e (wf_shape _ _ Hwf)) as [Hs|[Hs|[Hs|Hs]]];
        destruct Hs as (Hf' & _ & _ & Hs); [lia | lia | by rewrite Hf in Hf'..].
    + rewrite length_mem_read. lia.
Qed.

(** What a lookup of a key returns, from the map. *)
Lemma find_abs now ky s :
  l !! home ky = Some s -> Z.of_nat (length ky) < 2 ^ 32 ->
  let r := shard_find (h_bytes h) now s ky (klen32 ky) (wyhash64 ky 0) in
  match (list_to_map (contents h l) : gmap key (list Z * Z)) !! ky with
  | None => r = None
  | Some (v, exp) =>
      if expired_at now exp then r = None
      else exists j e, r = Some j /\ s_table s !! Z.to_nat j = Some e /\ e_state e = LIVE /\
             kv h e = (ky, (v, exp))
  end.
Proof.
  intros Hs Hmax r. destruct (Hsh _ _ Hs) as [Hc _].
  destruct (list_to_map (contents h l) !! ky) as [[v exp]|] eqn:Em.
  - apply elem_of_list_to_map_2 in Em. apply list_elem_of_fmap in Em as (x & Hx & Hin).
    injection Hx as Hkx Hvx Hex. rewrite Hkx in Hs.
    destruct (stored_home x Hin s Hs) as (j & e & Hj & Hl & ->). rewrite <- Hkx in Hs.
    assert (Hmt : entry_matches (h_bytes h) ky (klen32 ky) (wyhash64 ky 0) e = true)
      by (by eapply matches_key).
    destruct (find_complete k Hk (h_bytes h) now s ky (klen32 ky) (wyhash64 ky 0) j e)
      as (j' & e' & Hj' & _ & Hm' & Hr); [apply Hc | apply Hc | done | done |].
    assert (Hl' : e_state e' = LIVE).
    { unfold entry_matches in Hm'. zreflect. by apply bool_decide_eq_true in H. }
    assert (Hkv : kv h e' = kv h e).
    { apply (matches_key _ _ _ _ _ Hs Hj' Hl' Hmax) in Hm'.
      assert (H1 : kv h (core e') ∈ contents h l).
      { apply list_elem_of_fmap_2. eapply all_lives_elem; [done|]. by eapply lives_elem. }
      assert (H2 : kv h (core e) ∈ contents h l) by (by apply list_elem_of_fmap_2).
      destruct (kv h (core e')) as [k1 x1] eqn:E1. destruct (kv h (core e)) as [k2 x2] eqn:E2.
      change (kv h (core e')) with (kv h e') in E1. change (kv h (core e)) with (kv h e) in E2.
      assert (k1 = ky) by (unfold kv in E1; congruence).
      assert (k2 = ky) by (unfold kv in E2; rewrite key_bytes_core in Hkx; congruence). subst k1 k2.
      rewrite E1, E2. apply (elem_of_list_to_map_1 (M := gmap key)) in H1, H2; [|done..]. congruence. }
    assert (Hexp : entry_expired now e' = expired_at now exp).
    { unfold kv in Hkv. injection Hkv as _ _ He. unfold entry_expired, expired_at.
      rewrite He. by rewrite Hex. }
    unfold r. rewrite Hr, Hexp. destruct (expired_at now exp); [done|].
    exists j', e'. split; [done|]. split; [done|]. split; [done|]. rewrite Hkv.
    unfold kv. rewrite Hkx, Hvx, Hex. reflexivity.
  - unfold r. destruct (shard_find _ _ _ _ _ _) as [j|] eqn:Ef; [|done]. exfalso.
    destruct (find_live k Hk (home ky) _ _ _ _ _ _ _ Hc Ef) as (e & He & Hl & Hmt & _).
    apply (matches_key _ _ _ _ _ Hs He Hl Hmax) in Hmt.
    apply not_elem_of_list_to_map_2 in Em. apply Em. apply list_elem_of_fmap.
    exists (kv h (core e)). split; [by rewrite <- Hmt|]. apply list_elem_of_fmap_2.
    eapply all_lives_elem; [done|]. by eapply lives_elem.
Qed.
End Find.

(** ** [vc_set] *)

(** A successful [vc_set]: the entry [ne] built in [h1], then in the home shard
    [s] the old entry, at most one victim and at most one displaced entry gone. *)
Record set_step (k : Z) (c : vc_cache) (ev : env) (ky val : list Z) (ttl : Z) (c' : vc_cache)
    (h1 : heap) (sl1 : vc_slab) (ne : vc_entry) (s s' : vc_shard)
    (R old L1 gone L2 dropped : list vc_entry) : Prop := {
  ss_built : built h1 ky val (expire_at (ev_mono ev) ttl) ne;
  ss_mem : mem_inv h1 (ne :: all_lives (c_shards c)) sl1;
  ss_keep : keeps (c_heap c) h1 (all_lives (c_shards c));
  ss_s : c_shards c !! home ky = Some s;
  ss_s' : c_shards c' = <[home ky := s']> (c_shards c);
  ss_R : all_lives (c_shards c) ≡ₚ lives (s_table s) ++ R;
  ss_R' : all_lives (c_shards c') ≡ₚ lives (s_table s') ++ R;
  ss_old : lives (s_table s) ≡ₚ old ++ L1;
  ss_gone : L1 ≡ₚ gone ++ L2;
  ss_dropped : core ne :: L2 ≡ₚ dropped ++ lives (s_table s');
  ss_keep' : keeps h1 (c_heap c') (lives (s_table s') ++ R);
  ss_find : match shard_find (h_bytes h1) (ev_mono2 ev) s ky (klen32 ky) (wyhash64 ky 0) with
            | Some j => exists e, s_table s !! Z.to_nat j = Some e /\ old = [core e]
            | None => old = []
            end;
  ss_one : (length gone <= 1)%nat;
  ss_full : gone <> [] -> 85 <= u32 (u32 (s_count s - Z.of_nat (length old)) * 100) / 2 ^ k;
  ss_drop1 : (length dropped <= 1)%nat;
  ss_room : Z.of_nat (length L2) < 2 ^ k -> dropped = [];
  ss_count : s_count s' = u32 (u32 (u32 (s_count s - Z.of_nat (length old)) - Z.of_nat (length gone)) + 1)
}.

Arguments ss_built {_ _ _ _ _ _ _ _ _ _ _ _ _ _ _ _ _ _} _.
Arguments ss_mem {_ _ _ _ _ _ _ _ _ _ _ _ _ _ _ _ _ _} _.
Arguments ss_keep {_ _ _ _ _ _ _ _ _ _ _ _ _ _ _ _ _ _} _.
Arguments ss_s {_ _ _ _ _ _ _ _ _ _ _ _ _ _ _ _ _ _} _.
Arguments ss_s' {_ _ _ _ _ _ _ _ _ _ _ _ _ _ _ _ _ _} _.
Arguments ss_R {_ _ _ _ _ _ _ _ _ _ _ _ _ _ _ _ _ _} _.
Arguments ss_R' {_ _ _ _ _ _ _ _ _ _ _ _ _ _ _ _ _ _} _.
Arguments ss_old {_ _ _ _ _ _ _ _ _ _ _ _ _ _ _ _ _ _} _.
Arguments ss_gone {_ _ _ _ _ _ _ _ _ _ _ _ _ _ _ _ _ _} _.
Arguments ss_dropped {_ _ _ _ _ _ _ _ _ _ _ _ _ _ _ _ _ _} _.
Arguments ss_keep' {_ _ _ _ _ _ _ _ _ _ _ _ _ _ _ _ _ _} _.
Arguments ss_find {_ _ _ _ _ _ _ _ _ _ _ _ _ _ _ _ _ _} _.
Arguments ss_one {_ _ _ _ _ _ _ _ _ _ _ _ _ _ _ _ _ _} _.
Arguments ss_full {_ _ _ _ _ _ _ _ _ _ _ _ _ _ _ _ _ _} _.
Arguments ss_drop1 {_ _ _ _ _ _ _ _ _ _ _ _ _ _ _ _ _ _} _.
Arguments ss_room {_ _ _ _ _ _ _ _ _ _ _ _ _ _ _ _ _ _} _.
Arguments ss_count {_ _ _ _ _ _ _ _ _ _ _ _ _ _ _ _ _ _} _.

Definition set_effect (k : Z) (c : vc_cache) (ev : env) (ky val : list Z) (ttl : Z)
    (err : vc_err) (c' : vc_cache) : Prop :=
  (err = VC_ERR_OOM /\ refused ev (c_slab c) ky val = true /\ c_shards c' = c_shards c /\
   keeps (c_heap c) (c_heap c') (all_lives (c_shards c))) \/
  (err = VC_OK /\ refused ev (c_slab c) ky val = false /\ exists h1 sl1 ne s s' R old L1 gone L2 dropped,
     set_step k c ev ky val ttl c' h1 sl1 ne s s' R old L1 gone L2 dropped).

Lemma vc_set_spec k c ev ky val ttl :
  cache_wf k c -> env_fresh c ev ky val -> ky <> [] -> val <> [] ->
  Z.of_nat (length ky) < 2 ^ 32 -> log_room (c_wal c) (set_logged ky val) ->
  exists err c', vc_set ev c ky val ttl = Some (err, c') /\ cache_wf k c' /\ same_log c c' /\
    set_effect k c ev ky val ttl err c'.
Proof.
  intros Hwf Hfresh Hky Hval Hmax Hroom. unfold vc_set.
  replace (_ || _ || _) with false
    by (rewrite !bool_decide_false by done; unfold UINT32_MAX; simpl; lia).
  destruct (wal_append_total (c_wal c) VC_WAL_SET ky
              (take (Z.to_nat (u32 (Z.of_nat (length val)))) val) ttl (ev_wall ev))
    as (w & -> & Hw & Hsame); [apply Hwf | |].
  { eapply log_room_le; [|exact Hroom]. unfold set_logged. rewrite length_take.
    pose proof (u32_range (Z.of_nat (length val))). lia. }
  cbn [mbind option_bind].
  pose proof (cwf_mem _ _ Hwf) as (F & Hres). pose proof (Hfresh F (proj1 Hres)) as Henv.
  destruct (build_entry_spec ev ky val ttl (c_heap c) (c_slab c) _ F Hky Hval Hmax Hres Henv)
    as (r & Hb & Hbo). cbn [c_heap with_wal c_slab]. rewrite Hb. cbn [mbind option_bind].
  apply build_refused in Hb.
  destruct r as [[h1 sl1]|[[[ne h1] sl1] grow]]; cbn [build_ok] in Hbo.
  { destruct Hbo as [Hm1 Ha1]. eexists _, _. split; [done|]. split; [|split; [exact Hsame | by left]].
    constructor; try apply Hwf; done. }
  destruct Hbo as (Hbu & Hm1 & Ha1). cbn [c_shards with_wal].
  destruct (lookup_lt_is_Some_2 (c_shards c) (home ky)) as [s Hs].
  { rewrite (cwf_len _ _ Hwf). apply home_lt. }
  fold (home ky). rewrite Hs. cbn [mbind option_bind].
  destruct (all_lives_insert _ _ _ Hs) as (R & HR & HR').
  assert (Hhome : Z.to_nat (shard_idx (e_key_hash ne)) = home ky) by (by rewrite (bu_hash _ _ _ _ _ Hbu)).
  pose proof Hm1 as Hm2. rewrite mem_inv_core, HR in Hm2.
  destruct (set_locked_spec k (cwf_k _ _ Hwf) (home ky) (ev_mono2 ev) ky ne s h1 sl1 R
              (cwf_shards _ _ Hwf _ _ Hs) Hm2 Hhome)
    as (s' & h' & sl' & old & L1 & gone & L2 & dropped & -> & Hs' & H1 & H2 & H3 & H4 & H5 & H6 & H7 & H8 & H9 & H10 & H11).
  cbn [mbind option_bind]. eexists _, _. split; [done|]. split.
  - constructor; cbn; try apply Hwf; [by rewrite length_insert; apply Hwf | | | done].
    + apply shards_insert_ok; [apply Hwf | done].
    + by rewrite HR'.
  - split; [exact Hsame|]. right. split; [done|]. split; [done|]. exists h1, sl1, ne, s, s', R, old, L1, gone, L2, dropped.
    constructor; try done; [apply HR' | by rewrite (bu_hash _ _ _ _ _ Hbu) in H6].
Qed.

(** ** Maps of permuted contents *)

Lemma map_perm (l1 l2 : list (key * (list Z * Z))) :
  l1 ≡ₚ l2 -> NoDup l1.*1 ->
  (list_to_map l1 : gmap key (list Z * Z)) = list_to_map l2.
Proof. intros Hp Hn. by apply list_to_map_proper. Qed.

Definition remove_key (v : option key) (m : gmap key (list Z * Z)) : gmap key (list Z * Z) :=
  match v with Some x => delete x m | None => m end.

(** The shape of a replacement: [old] and [gone] leave, one binding arrives. *)
Lemma map_replace ky x (old gone rest before after : list (key * (list Z * Z))) :
  NoDup before.*1 -> before ≡ₚ old ++ gone ++ rest -> after ≡ₚ (ky, x) :: rest ->
  (length gone <= 1)%nat ->
  match old with [] => ky ∉ before.*1 | [o] => o.1 = ky | _ => False end ->
  NoDup after.*1 /\
  exists v, (list_to_map after : gmap key (list Z * Z)) = <[ky := x]> (remove_key v (list_to_map before)) /\
    (v <> None -> gone <> []) /\ v <> Some ky.
Proof.
  intros Hn Hb Ha Hg Hold. pose proof Hn as Hn'. rewrite Hb in Hn'.
  assert (Hnew : NoDup ((ky, x) :: rest).*1).
  { rewrite fmap_cons. apply NoDup_cons. rewrite !fmap_app in Hn'.
    destruct old as [|o [|]]; [| |done].
    - rewrite Hb, !fmap_app in Hold. simpl in Hn', Hold.
      apply NoDup_app in Hn' as (_ & _ & Hr). set_solver.
    - rewrite fmap_cons in Hn'. simpl in Hn'. apply NoDup_cons in Hn' as [Hno Hn'].
      apply NoDup_app in Hn' as (_ & _ & Hr). rewrite Hold in Hno. set_solver. }
  split; [by rewrite Ha|].
  rewrite (map_perm _ _ Hb Hn), (map_perm after _ Ha) by (by rewrite Ha).
  destruct gone as [|g [|]]; simpl in Hg; [| |lia].
  - exists None. split; [|done]. destruct old as [|[o1 o2] [|]]; [done | | done].
    simpl in *. subst o1. by rewrite insert_insert_eq.
  - exists (Some g.1). destruct g as [g1 g2]. destruct old as [|[o1 o2] [|]]; [| |done]; simpl in *.
    + rewrite Hb in Hold. apply NoDup_cons in Hn' as [Hg1 _].
      split; [|split; [done|]; intros [= ->]; simpl in Hold; set_solver].
      rewrite delete_insert_eq, delete_id; [done|]. by apply not_elem_of_list_to_map_1.
    + subst o1. apply NoDup_cons in Hn' as [Hk1 Hn']. apply NoDup_cons in Hn' as [Hg1 _].
      assert (ky <> g1) by set_solver. split; [|split; [done | congruence]].
      rewrite delete_insert_ne, insert_insert_eq by done.
      rewrite delete_insert_eq, delete_id; [done|]. by apply not_elem_of_list_to_map_1.
Qed.

Lemma wf_contents_keeps k c h' :
  cache_wf k c -> keeps (c_heap c) h' (all_lives (c_shards c)) ->
  contents h' (c_shards c) = contents (c_heap c) (c_shards c).
Proof. intros Hwf Ha. by eapply kv_keeps_list; [apply Hwf | exact Ha | done]. Qed.

Section SetStep.
Context k c ev ky val ttl c' h1 sl1 ne s s' R old L1 gone L2 dropped
  (St : set_step k c ev ky val ttl c' h1 sl1 ne s s' R old L1 gone L2 dropped)
  (Hok : cache_ok k c) (Hmax : Z.of_nat (length ky) < 2 ^ 32)
  (Hroom : s_count s < s_cap s)
  (Hstale : forall v exp, abs c !! ky = Some (v, exp) -> expired_at (ev_mono2 ev) exp = false).

Lemma step_sizes :
  (length (lives (s_table s)) = length old + length gone + length L2)%nat /\
  Z.of_nat (length (lives (s_table s))) = s_count s /\ s_count s < 2 ^ k <= 2 ^ 31.
Proof.
  pose proof (cok_wf _ _ Hok) as Hwf. destruct (cwf_shards _ _ Hwf _ _ (ss_s St)) as [Hc _].
  rewrite (cok_cap _ _ _ Hc) in Hroom. pose proof (cap_range k (cwf_k _ _ Hwf)).
  rewrite (cok_counts _ _ Hok _ _ (ss_s St)) in *.
  pose proof (Permutation_length (ss_old St)) as E1.
  pose proof (Permutation_length (ss_gone St)) as E2.
  rewrite length_app in E1, E2. lia.
Qed.

Lemma step_dropped : dropped = [].
Proof. destruct step_sizes as (H1 & H2 & H3). apply (ss_room St). lia. Qed.

Lemma step_contents1 : contents h1 (c_shards c) = contents (c_heap c) (c_shards c).
Proof. eapply wf_contents_keeps; [apply Hok | apply St]. Qed.

Lemma step_before :
  contents (c_heap c) (c_shards c) ≡ₚ (kv h1 <$> old) ++ (kv h1 <$> gone) ++ (kv h1 <$> (L2 ++ R)).
Proof.
  rewrite <- step_contents1. unfold contents.
  rewrite (ss_R St), (ss_old St),
    (ss_gone St).
  rewrite !fmap_app, <- !app_assoc. done.
Qed.

Lemma step_after :
  contents (c_heap c') (c_shards c') ≡ₚ
  (ky, (take (Z.to_nat 65535) val, expire_at (ev_mono ev) ttl)) :: (kv h1 <$> (L2 ++ R)).
Proof.
  pose proof (ss_dropped St) as Hd. rewrite step_dropped in Hd. simpl in Hd.
  unfold contents. rewrite (ss_R' St).
  rewrite (kv_keeps_list h1 (c_heap c') (core ne :: all_lives (c_shards c)) sl1).
  - rewrite <- Hd, <- app_comm_cons, fmap_cons. f_equiv.
    pose proof (ss_built St) as [_ _ _ Hbk Hbv Hbe]. unfold kv.
    rewrite key_bytes_core, val_bytes_core, Hbk, Hbv. simpl. by rewrite Hbe.
  - apply (proj1 (mem_inv_core _ _ _ _)), St.
  - apply St.
  - intros e. rewrite <- Hd, (ss_R St), (ss_old St),
      (ss_gone St). set_solver.
Qed.

Lemma step_old :
  match kv h1 <$> old with
  | [] => ky ∉ (contents (c_heap c) (c_shards c)).*1
  | [o] => o.1 = ky
  | _ => False
  end.
Proof.
  pose proof (cok_wf _ _ Hok) as Hwf.
  pose proof (mem_inv_drop _ _ _ _ (ss_mem St)) as Hm1.
  pose proof (ss_find St) as Hf.
  pose proof (find_abs k (cwf_k _ _ Hwf) (c_shards c) h1 sl1 (cwf_shards _ _ Hwf) Hm1) as Ha.
  rewrite step_contents1 in Ha. specialize (Ha (cok_nodup _ _ Hok) (ev_mono2 ev) ky s).
  specialize (Ha (ss_s St) Hmax). cbn zeta in Ha.
  change (list_to_map (contents (c_heap c) (c_shards c))) with (abs c) in Ha.
  destruct (abs c !! ky) as [[v exp]|] eqn:Em.
  - rewrite (Hstale v exp eq_refl) in Ha. destruct Ha as (j & e & Er & He & _ & Hkv).
    rewrite Er in Hf. destruct Hf as (e' & He' & ->). simplify_eq.
    change ((kv h1 e').1 = ky). by rewrite Hkv.
  - rewrite Ha in Hf. subst old. by apply (not_elem_of_list_to_map_2 (M := gmap key)).
Qed.

Lemma step_refines :
  cache_wf k c' ->
  cache_ok k c' /\
  exists v, abs c' = <[ky := (take (Z.to_nat 65535) val, expire_at (ev_mono ev) ttl)]> (remove_key v (abs c)) /\
    v <> Some ky /\ (v <> None -> 85 * s_cap s <= 100 * s_count s).
Proof.
  intros Hwf'. pose proof step_sizes as (Hs1 & Hs2 & Hs3).
  destruct (map_replace ky (take (Z.to_nat 65535) val, expire_at (ev_mono ev) ttl)
    (kv h1 <$> old) (kv h1 <$> gone) (kv h1 <$> (L2 ++ R))
    (contents (c_heap c) (c_shards c)) (contents (c_heap c') (c_shards c')))
    as (Hnd & v & Hv & Hv1 & Hv2);
    [apply Hok | exact step_before | exact step_after | rewrite length_fmap; apply St | exact step_old |].
  split.
  - constructor; [done | done |]. intros j x Hj. rewrite (ss_s' St) in Hj.
    apply list_lookup_insert_Some in Hj as [(_ & <- & _)|[_ Hj]]; [|by apply (cok_counts _ _ Hok j)].
    pose proof (Permutation_length (ss_dropped St)) as E.
    rewrite step_dropped in E. simpl in E.
    rewrite (ss_count St), (u32_id (s_count s - _)) by lia.
    rewrite (u32_id (_ - _)), u32_id by lia. lia.
  - exists v. split; [done|]. split; [done|]. intros Hn. apply Hv1 in Hn.
    assert (Hg : gone <> []) by (intros ->; done).
    apply (ss_full St) in Hg.
    pose proof (cok_wf _ _ Hok) as Hwf.
    destruct (cwf_shards _ _ Hwf _ _ (ss_s St)) as [Hc _].
    rewrite (cok_cap _ _ _ Hc). rewrite (u32_id (s_count s - _)) in Hg by lia.
    set (a := s_count s - Z.of_nat (length old)) in *.
    assert (u32 (a * 100) <= a * 100) by (apply Z.mod_le; lia).
    pose proof (Z.mul_div_le (u32 (a * 100)) (2 ^ k)). nia.
Qed.
End SetStep.

(** ** Updates of one shard that keep its LIVE entries *)

Lemma update_wf k c i s s' :
  cache_wf k c -> c_shards c !! i = Some s -> shard_ok k i s' ->
  lives (s_table s') ≡ₚ lives (s_table s) ->
  let c' := with_shards (<[i := s']> (c_shards c)) c in
  cache_wf k c' /\ all_lives (c_shards c') ≡ₚ all_lives (c_shards c).
Proof.
  intros Hwf Hi Hs' Hl c'. destruct (all_lives_insert _ _ _ Hi) as (R & HR & HR').
  assert (Hp : all_lives (<[i := s']> (c_shards c)) ≡ₚ all_lives (c_shards c)) by (by rewrite HR, HR', Hl).
  split; [|done]. constructor; cbn; try apply Hwf.
  - rewrite length_insert. apply Hwf.
  - apply shards_insert_ok; [apply Hwf | done].
  - rewrite Hp. apply Hwf.
Qed.

Lemma update_ok k c i s s' :
  cache_ok k c -> c_shards c !! i = Some s -> shard_ok k i s' ->
  lives (s_table s') ≡ₚ lives (s_table s) -> s_count s' = s_count s ->
  let c' := with_shards (<[i := s']> (c_shards c)) c in
  cache_ok k c' /\ abs c' = abs c.
Proof.
  intros Hok Hi Hs' Hl Hc c'. destruct (update_wf k c i s s' (cok_wf _ _ Hok) Hi Hs' Hl) as [Hwf Hp].
  assert (Hp' : contents (c_heap c) (c_shards c') ≡ₚ contents (c_heap c) (c_shards c))
    by (by apply contents_perm).
  assert (Hnd : NoDup (contents (c_heap c) (c_shards c')).*1) by (rewrite Hp'; apply Hok).
  split; [|by apply map_perm]. constructor; [done | done|]. intros j x Hj. cbn in Hj.
  apply list_lookup_insert_Some in Hj as [(<- & <- & _)|[_ Hj]]; [|by apply (cok_counts _ _ Hok j)].
  by rewrite Hc, (cok_counts _ _ Hok _ _ Hi), Hl.
Qed.

(** ** [vc_get] *)

(** What the two paths answer, and the shard they leave. *)
Definition get_answer (c : vc_cache) (ev : env) (ky : key) (s : vc_shard) : option (option get_out * vc_shard) :=
  match shard_find (h_bytes (c_heap c)) (ev_mono ev) s ky (klen32 ky) (wyhash64 ky 0) with
  | None => Some (None, sh_stats 0 1 0 0 s)
  | Some j =>
      e ← s_table s !! Z.to_nat j;
      if flag (Z.lor VC_EFLAG_VAL_SLAB VC_EFLAG_VAL_MMAP) e
      then Some (Some (GetOut e (entry_val e) (e_val_len e)), sh_stats 1 0 0 0 (touch j s))
      else get_locked (c_heap c) (ev_mono2 ev) s ky (wyhash64 ky 0)
  end.

Definition get_err (o : option get_out) : vc_err :=
  match o with Some _ => VC_OK | None => VC_ERR_NOTFND end.

Lemma vc_get_eq k c ev ky s :
  cache_wf k c -> c_shards c !! home ky = Some s ->
  vc_get ev c ky =
  '(o, s') ← get_answer c ev ky s;
  Some (get_err o, o, with_shards (<[home ky := s']> (c_shards c)) c).
Proof.
  intros Hwf Hs. destruct (cwf_shards _ _ Hwf _ _ Hs) as [Hc Hq]. unfold vc_get.
  fold (home ky). rewrite Hs. cbn [mbind option_bind]. unfold VC_SEQLOCK_RETRY.
  rewrite get_fast_eq by done. unfold get_answer.
  destruct (shard_find _ (ev_mono ev) _ _ _ _) as [j|]; [|done].
  destruct (s_table s !! Z.to_nat j) as [e|]; cbn [mbind option_bind]; [|done].
  destruct (flag _ e); [done|]. cbn [mbind option_bind].
  by destruct (get_locked _ _ _ _ _) as [[[o|] s']|].
Qed.

(** The locked path. *)
Lemma get_locked_spec k i h now s ky hash :
  0 <= k <= 31 -> shard_ok k i s ->
  exists o s', get_locked h now s ky hash = Some (o, s') /\ shard_ok k i s' /\
    lives (s_table s') ≡ₚ lives (s_table s) /\ s_count s' = s_count s /\
    match shard_find (h_bytes h) now s ky (klen32 ky) hash with
    | None => o = None
    | Some j => exists e, s_table s !! Z.to_nat j = Some e /\ o = Some (GetOut e (entry_val e) (e_val_len e))
    end.
Proof.
  intros Hk [Hc Hq]. unfold get_locked. rewrite (lock_quiet _ Hq). cbn [mbind option_bind].
  change (shard_find (h_bytes h) now (sh_wlock 1 s)) with (shard_find (h_bytes h) now s).
  assert (Hq' : forall n, quiet (sh_stats 1 0 0 0 (shard_unlock (sh_wlock n s)))).
  { intros n. split; [done|]. apply Hq. }
  destruct (shard_find (h_bytes h) now s ky (klen32 ky) hash) as [j|] eqn:Ef.
  - destruct (find_live k Hk i _ _ _ _ _ _ _ Hc Ef) as (e & He & _). cbn [s_table sh_wlock].
    rewrite He. cbn [mbind option_bind].
    pose proof (core_ok_wlock k i 1 s Hc) as Hc1.
    destruct (touch_spec k i j (sh_wlock 1 s) Hc1) as (H1 & H2 & H3 & H4 & H5).
    eexists _, _. split; [done|]. split; [|split; [done|]; split; [done|]; eauto].
    split; [by apply core_ok_stats, core_ok_wlock|]. split; [done|]. simpl. rewrite H5. apply Hq.
  - eexists _, _. split; [done|]. split; [|done].
    split; [by apply core_ok_stats, core_ok_wlock, core_ok_wlock|]. split; [done|]. apply Hq.
Qed.

Lemma get_answer_spec k c ev ky s :
  cache_wf k c -> c_shards c !! home ky = Some s ->
  exists o s', get_answer c ev ky s = Some (o, s') /\ shard_ok k (home ky) s' /\
    lives (s_table s') ≡ₚ lives (s_table s) /\ s_count s' = s_count s.
Proof.
  intros Hwf Hs. pose proof (cwf_shards _ _ Hwf _ _ Hs) as Hsk. destruct (Hsk) as [Hc Hq].
  unfold get_answer. destruct (shard_find _ (ev_mono ev) _ _ _ _) as [j|] eqn:Ef.
  - destruct (find_live k (cwf_k _ _ Hwf) _ _ _ _ _ _ _ _ Hc Ef) as (e & He & _). rewrite He.
    cbn [mbind option_bind]. destruct (flag _ e).
    + destruct (touch_spec k (home ky) j s Hc) as (H1 & H2 & H3 & _).
      eexists _, _. split; [done|]. split; [by apply shard_ok_stats, shard_ok_touch|]. done.
    + destruct (get_locked_spec k (home ky) (c_heap c) (ev_mono2 ev) s ky (wyhash64 ky 0) (cwf_k _ _ Hwf) Hsk)
        as (o & s' & E & H1 & H2 & H3 & _). eauto 10.
  - eexists _, _. split; [done|]. split; [by apply shard_ok_stats|]. done.
Qed.

(** Against the map: a hit returns the stored bytes. *)
Lemma get_answer_abs k c ev ky s :
  cache_ok k c -> c_shards c !! home ky = Some s -> Z.of_nat (length ky) < 2 ^ 32 ->
  exists o s', get_answer c ev ky s = Some (o, s') /\
    match abs c !! ky with
    | None => o = None
    | Some (v, exp) =>
        (expired_at (ev_mono ev) exp = true -> o = None) /\
        (expired_at (ev_mono ev) exp = false -> expired_at (ev_mono2 ev) exp = false ->
         exists r, o = Some r /\ out_bytes (c_heap c) r = v)
    end.
Proof.
  intros Hok Hs Hmax. pose proof (cok_wf _ _ Hok) as Hwf.
  pose proof (cwf_shards _ _ Hwf _ _ Hs) as Hsk.
  destruct (get_answer_spec k c ev ky s Hwf Hs) as (o & s' & E & _).
  exists o, s'. split; [done|].
  pose proof (find_abs k (cwf_k _ _ Hwf) _ _ _ (cwf_shards _ _ Hwf) (cwf_mem _ _ Hwf) (cok_nodup _ _ Hok)) as Ha.
  pose proof (Ha (ev_mono ev) ky s Hs Hmax) as H1. pose proof (Ha (ev_mono2 ev) ky s Hs Hmax) as H2.
  cbn zeta in H1, H2. clear Ha. change (list_to_map _) with (abs c) in H1, H2. unfold get_answer in E.
  destruct (abs c !! ky) as [[v exp]|]; [|rewrite H1 in E; congruence].
  split; intros Hx; rewrite Hx in H1; [rewrite H1 in E; congruence|].
  intros Hy. rewrite Hy in H2. destruct H1 as (j & e & Hj & He & _ & Hkv).
  destruct H2 as (j2 & e2 & Hj2 & He2 & _ & Hkv2).
  rewrite Hj, He in E. cbn [mbind option_bind] in E. unfold kv in Hkv, Hkv2.
  destruct (flag _ e).
  - injection E as <- _. eexists. split; [done|]. change (val_bytes (h_bytes (c_heap c)) e = v). congruence.
  - destruct (get_locked_spec k (home ky) (c_heap c) (ev_mono2 ev) s ky (wyhash64 ky 0) (cwf_k _ _ Hwf) Hsk)
      as (o' & s'' & E' & _ & _ & _ & Hf). rewrite E in E'. injection E' as <- _. rewrite Hj2 in Hf.
    destruct Hf as (x & Hx' & ->). assert (x = e2) as -> by congruence. eexists. split; [done|].
    change (val_bytes (h_bytes (c_heap c)) e2 = v). congruence.
Qed.

(** ** [vc_del] *)

Lemma vc_del_spec k c ev ky :
  cache_wf k c -> log_room (c_wal c) (klen32 ky) ->
  exists err c' s s', vc_del ev c ky = Some (err, c') /\ cache_wf k c' /\ same_log c c' /\
    c_shards c !! home ky = Some s /\ c_shards c' = <[home ky := s']> (c_shards c) /\
    keeps (c_heap c) (c_heap c') (all_lives (c_shards c')) /\
    match shard_find (h_bytes (c_heap c)) (ev_mono ev) s ky (klen32 ky) (wyhash64 ky 0) with
    | None => err = VC_ERR_NOTFND /\ c_heap c' = c_heap c /\ s_count s' = s_count s /\
        lives (s_table s') = lives (s_table s) /\
        all_lives (c_shards c') ≡ₚ all_lives (c_shards c)
    | Some j => exists e, err = VC_OK /\ s_table s !! Z.to_nat j = Some e /\
        s_count s' = u32 (s_count s - 1) /\ lives (s_table s) ≡ₚ core e :: lives (s_table s') /\
        all_lives (c_shards c) ≡ₚ core e :: all_lives (c_shards c')
    end.
Proof.
  intros Hwf Hroom. unfold vc_del.
  destruct (wal_append_total (c_wal c) VC_WAL_DEL (take (Z.to_nat (klen32 ky)) ky) [] 0 (ev_wall ev))
    as (w & -> & Hw & Hsame); [apply Hwf | |].
  { eapply log_room_le; [|exact Hroom]. cbn [length]. rewrite length_take. pose proof (u32_range (Z.of_nat (length ky))). unfold klen32. lia. }
  cbn [mbind option_bind c_shards c_heap c_slab with_wal].
  destruct (lookup_lt_is_Some_2 (c_shards c) (home ky)) as [s Hs].
  { rewrite (cwf_len _ _ Hwf). apply home_lt. }
  fold (home ky). rewrite Hs. cbn [mbind option_bind].
  destruct (cwf_shards _ _ Hwf _ _ Hs) as [Hc Hq]. rewrite (lock_quiet _ Hq). cbn [mbind option_bind].
  set (s0 := seq_write_begin (sh_wlock 1 s)).
  assert (Hc0 : core_ok k (home ky) s0) by (by apply core_ok_seq, core_ok_wlock).
  change (shard_find (h_bytes (c_heap c)) (ev_mono ev) s0) with (shard_find (h_bytes (c_heap c)) (ev_mono ev) s).
  pose proof (cwf_mem _ _ Hwf) as Hm. destruct (all_lives_insert _ _ _ Hs) as (R & HR & HR').
  destruct (shard_find _ _ _ _ _ _) as [j|] eqn:Ef.
  - destruct (find_live k (cwf_k _ _ Hwf) _ _ _ _ _ _ _ _ Hc Ef) as (e & He & Hl & _).
    rewrite HR in Hm.
    destruct (kill_slot_spec k (home ky) s0 (c_heap c) (c_slab c) R j e Hc0 Hm He Hl)
      as (s' & h' & sl' & -> & H1 & H2 & H3 & H4 & H5 & H6 & H7).
    cbn [mbind option_bind]. change (s_table s0) with (s_table s) in H5.
    eexists VC_OK, _, s, _. split; [done|]. rewrite Ef. cbn [c_shards c_heap with_shards with_mem].
    split; [|split; [exact Hsame|]; split; [done|]; split; [done|]; split; [|exists e]].
    + constructor; cbn; try apply Hwf; [by rewrite length_insert; apply Hwf | | | done].
      * apply shards_insert_ok; [apply Hwf|]. split; [by apply core_ok_wlock, core_ok_seq|].
        split; [done|]. simpl. rewrite H3. destruct Hq as (_ & ? & ?). by apply write_quiet.
      * by rewrite HR'.
    + eapply keeps_sub; [exact H7|]. intros x. by rewrite HR'.
    + split; [done|]. split; [done|]. split; [done|]. split; [done|].
      rewrite HR', HR, H5. done.
  - destruct (update_wf k (with_wal w c) (home ky) s (shard_unlock (seq_write_end s0))) as [H1 H2].
    + constructor; cbn; try apply Hwf. done.
    + done.
    + split; [by apply core_ok_wlock, core_ok_seq|]. split; [done|].
      destruct Hq as (_ & ? & ?). by apply write_quiet.
    + done.
    + eexists VC_ERR_NOTFND, _, s, _. split; [done|]. rewrite Ef. cbn [c_shards c_heap with_shards with_wal].
      split; [done|]. split; [exact Hsame|]. split; [done|]. split; [done|]. split; [apply keeps_refl|]. done.
Qed.

Lemma vc_del_abs k c ev ky :
  cache_ok k c -> Z.of_nat (length ky) < 2 ^ 32 -> log_room (c_wal c) (Z.of_nat (length ky)) ->
  exists err c', vc_del ev c ky = Some (err, c') /\ cache_ok k c' /\ same_log c c' /\
    match abs c !! ky with
    | Some (_, exp) =>
        if expired_at (ev_mono ev) exp then err = VC_ERR_NOTFND /\ abs c' = abs c
        else err = VC_OK /\ abs c' = delete ky (abs c)
    | None => err = VC_ERR_NOTFND /\ abs c' = abs c
    end.
Proof.
  intros Hok Hmax Hroom. pose proof (cok_wf _ _ Hok) as Hwf.
  destruct (vc_del_spec k c ev ky Hwf) as (err & c' & s & s' & E & Hwf' & Hsame & Hs & Hs' & Ha & Hr);
    [unfold klen32; by rewrite u32_id by lia|].
  exists err, c'. split; [done|].
  enough (Hgoal : cache_ok k c' /\
    match abs c !! ky with
    | Some (_, exp) =>
        if expired_at (ev_mono ev) exp then err = VC_ERR_NOTFND /\ abs c' = abs c
        else err = VC_OK /\ abs c' = delete ky (abs c)
    | None => err = VC_ERR_NOTFND /\ abs c' = abs c
    end) by tauto.
  pose proof (find_abs k (cwf_k _ _ Hwf) _ _ _ (cwf_shards _ _ Hwf) (cwf_mem _ _ Hwf) (cok_nodup _ _ Hok)
    (ev_mono ev) ky s Hs Hmax) as Hf. cbn zeta in Hf. change (list_to_map _) with (abs c) in Hf.
  assert (Hnone : shard_find (h_bytes (c_heap c)) (ev_mono ev) s ky (klen32 ky) (wyhash64 ky 0) = None ->
    cache_ok k c' /\ err = VC_ERR_NOTFND /\ abs c' = abs c).
  { intros En. rewrite En in Hr. destruct Hr as (-> & Hh & Hcn & Hls & Hp).
    assert (Hp' : contents (c_heap c') (c_shards c') ≡ₚ contents (c_heap c) (c_shards c))
      by (rewrite Hh; by apply contents_perm).
    assert (Hnd : NoDup (contents (c_heap c') (c_shards c')).*1) by (rewrite Hp'; apply Hok).
    split; [|split; [done|]; by apply map_perm]. constructor; [done | done|].
    intros j x Hj. rewrite Hs' in Hj.
    apply list_lookup_insert_Some in Hj as [(<- & <- & _)|[_ Hj]]; [|by apply (cok_counts _ _ Hok j)].
    by rewrite Hcn, (cok_counts _ _ Hok _ _ Hs), Hls. }
  destruct (abs c !! ky) as [[v exp]|]; [|by apply Hnone].
  destruct (expired_at (ev_mono ev) exp); [by apply Hnone|].
  destruct Hf as (j & e & Ej & He & Hl & Hkv). rewrite Ej in Hr.
  destruct Hr as (e' & -> & He' & Hcn & Hls & Hp). assert (e' = e) as -> by congruence.
  assert (Hc1 : contents (c_heap c) (c_shards c) ≡ₚ (ky, (v, exp)) :: contents (c_heap c') (c_shards c')).
  { unfold contents. rewrite Hp, fmap_cons. change (kv (c_heap c) (core e)) with (kv (c_heap c) e).
    rewrite Hkv. f_equiv. erewrite (kv_keeps_list (c_heap c) (c_heap c')); [done | apply Hwf | exact Ha |].
    intros x Hx. rewrite Hp. by right. }
  pose proof (cok_nodup _ _ Hok) as Hnd. rewrite Hc1 in Hnd. apply NoDup_cons in Hnd as [Hn1 Hn2].
  split; [|split; [done|]].
  - constructor; [done | done|]. intros i x Hi. rewrite Hs' in Hi.
    apply list_lookup_insert_Some in Hi as [(<- & <- & _)|[_ Hi]]; [|by apply (cok_counts _ _ Hok i)].
    pose proof (cok_counts _ _ Hok _ _ Hs) as Hcs. apply Permutation_length in Hls. simpl in Hls.
    destruct (cwf_shards _ _ Hwf _ _ Hs) as [Hc _]. pose proof (cok_count _ _ _ Hc).
    rewrite Hcn, u32_id; lia.
  - unfold abs. rewrite (map_perm _ _ Hc1) by (apply Hok). simpl.
    rewrite delete_insert_eq, delete_id; [done|]. by apply not_elem_of_list_to_map_1.
Qed.

(** ** [vc_flush] *)

Lemma flush_shards_spec k l i h sl :
  0 <= k <= 31 -> (forall j s, l !! j = Some s -> shard_ok k (i + j) s) ->
  mem_inv h (all_lives l) sl ->
  exists l' h' sl', flush_shards l h sl = Some (l', h', sl') /\ length l' = length l /\
    (forall j s, l' !! j = Some s -> shard_ok k (i + j) s /\ s_count s = 0) /\
    all_lives l' = [] /\ mem_inv h' [] sl'.
Proof.
  intros Hk. revert i h sl. induction l as [|s l IH]; intros i h sl Hs Hm; simpl.
  { exists [], h, sl. repeat split; try done. }
  pose proof (Hs 0%nat s eq_refl) as Hs0. rewrite Nat.add_0_r in Hs0.
  destruct (flush_shard_spec k Hk i s h sl (all_lives l) Hs0 Hm)
    as (s' & h1 & sl1 & -> & H1 & H2 & H3 & H4 & _). cbn [mbind option_bind].
  destruct (IH (S i) h1 sl1) as (l' & h' & sl' & -> & E1 & E2 & E3 & E4); [|done|].
  { intros j x Hj. replace (S i + j)%nat with (i + S j)%nat by lia. by apply Hs. }
  cbn [mbind option_bind]. eexists _, h', sl'. split; [done|]. split; [simpl; lia|].
  split; [|split; [|done]].
  - intros [|j] x Hj; simplify_eq/=; [by rewrite Nat.add_0_r|].
    replace (i + S j)%nat with (S i + j)%nat by lia. by apply E2.
  - unfold all_lives. rewrite bind_cons, H2. exact E3.
Qed.

Lemma vc_flush_spec k c :
  cache_wf k c -> exists c', vc_flush c = Some c' /\ cache_ok k c' /\ abs c' = ∅ /\ same_log c c'.
Proof.
  intros Hwf. unfold vc_flush.
  destruct (flush_shards_spec k (c_shards c) 0 (c_heap c) (c_slab c))
    as (l' & h' & sl' & -> & H1 & H2 & H3 & H4); [apply Hwf | apply Hwf | apply Hwf |].
  cbn [mbind option_bind]. eexists. split; [done|].
  assert (Hct : contents h' l' = []) by (unfold contents; by rewrite H3).
  split; [|split; [unfold abs; cbn [c_heap c_shards with_shards with_mem]; by rewrite Hct | done]].
  constructor; cbn [c_heap c_shards with_shards with_mem].
  - constructor; cbn [c_heap c_slab c_shards c_wal with_shards with_mem]; try apply Hwf.
    + by rewrite H1; apply Hwf.
    + intros i s Hi. by apply H2.
    + by rewrite H3.
  - rewrite Hct. constructor.
  - intros i s Hi. destruct (H2 i s Hi) as [_ ->].
    destruct (lives (s_table s)) as [|x r] eqn:El; [done|]. exfalso.
    assert (x ∈ all_lives l').
    { apply list_elem_of_bind. exists s. split; [rewrite El; left | by eapply list_elem_of_lookup_2]. }
    rewrite H3 in H. by apply elem_of_nil in H.
Qed.
