(* ===== verification/CacheThm.v ===== *)
(** * The cache: theorems

    Creation, memory safety of every history of operations, and the refinement
    of a finite map by [vc_set], [vc_get], [vc_del] and [vc_flush], with the
    history of a key that expired. *)

From S2P Require Import Prelude Hash Slab Entry Shard Wal Cache CacheInv CacheSafe CacheSpec.

(** ** Creation *)

(** The system gives [vc_create] everything it asks for, the arenas disjoint. *)
Record create_env_ok (arena_bytes : Z) (ce : create_env) (arenas : list Z) : Prop := {
  ceo_cache : is_Some (ce_cache ce);
  ceo_bytes : 0 <= arena_bytes;
  ceo_arenas : ce_arenas ce = Some <$> arenas;
  ceo_len : length arenas = 16%nat;
  ceo_ok : forall i a, arenas !! i = Some a -> arena_ok arena_bytes i a;
  ceo_disj : regions_disj (init_arenas arena_bytes arenas 0);
  ceo_tables : Forall is_Some (take 64 (ce_tables ce))
}.

(** Mapping the tables leaves the bytes alone. *)
Lemma map_tables_all answers n h :
  Forall is_Some answers ->
  exists h', map_tables answers n h = (true, default 0 <$> answers, h') /\ h_bytes h' = h_bytes h.
Proof.
  intros Hs. revert h. induction Hs as [|? answers [a ->] _ IH]; intros h; cbn [map_tables]; [by eexists|].
  unfold mmap_anon. edestruct IH as (h' & -> & Hb). cbn. eexists. split; [done|]. by rewrite Hb.
Qed.

Lemma new_shard_ok k i : 0 <= k <= 31 -> shard_ok k i (new_shard (2 ^ k)) /\ lives (s_table (new_shard (2 ^ k))) = [].
Proof.
  intros Hk. pose proof (cap_range k Hk). split; [|apply lives_all_empty]. split; [|done].
  constructor; simpl; [done | | lia | lia |].
  - constructor.
    + rewrite length_replicate. lia.
    + intros j e Hj He. apply lookup_replicate in Hj as [-> _]. done.
    + by apply Forall_replicate.
  - rewrite lives_all_empty. intros e He. by apply elem_of_nil in He.
Qed.

Lemma all_lives_new n k : all_lives (replicate n (new_shard (2 ^ k))) = [].
Proof.
  induction n as [|n IH]; [done|]. unfold all_lives in *.
  rewrite replicate_S, bind_cons, IH, app_nil_r. apply lives_all_empty.
Qed.

(** With or without a log. *)
Lemma create_logged arena_bytes ce arenas max_mem path slots h :
  create_env_ok arena_bytes ce arenas -> 0 <= slots <= 2 ^ 31 -> (wal_init path (ce_wal ce)).1 = VC_OK ->
  exists c h' k, vc_create arena_bytes ce max_mem path slots h = Some (Some c, h') /\
    cache_ok k c /\ abs c = ∅ /\ slots <= 2 ^ k /\ c_wal c = (wal_init path (ce_wal ce)).2.
Proof.
  intros [[self E1] E2 E3 E4 E5 E6 E7] Hsl Hwal. unfold vc_create. rewrite E1, E3. cbn [malloc].
  set (h0 := Heap _ _ _ _). destruct (slab_init_ok arena_bytes arenas h0 E2 E4 E5 E6) as (sl & h1 & -> & _ & Hs & Hd).
  destruct (wal_init path (ce_wal ce)) as [err w] eqn:Ew. cbn [fst] in Hwal. subst err. apply wal_init_wf in Ew.
  change (Z.to_nat VC_NUM_SHARDS) with 64%nat. cbv zeta.
  destruct (next_pow2_32_cases (if slots =? 0 then 1024 else slots)) as [H1 _].
  { zcase; lia. }
  destruct H1 as (k & Hk & -> & Hle & _); [zcase; lia|].
  destruct (map_tables_all (take 64 (ce_tables ce)) (2 ^ k * ENTRY_SIZE) h1 E7) as (h' & -> & Hb).
  eexists _, h', k. split; [done|].
  assert (Hct : forall hh, contents hh (replicate 64 (new_shard (2 ^ k))) = [])
    by (intros; unfold contents; by rewrite all_lives_new).
  split; [|split; [unfold abs; cbn [c_heap c_shards]; by rewrite Hct|]; split; [|done]].
  - constructor; cbn [c_heap c_shards].
    + constructor; cbn [c_heap c_shards c_slab c_wal]; [done | by rewrite length_replicate | | | done].
      * intros i s Hi. apply lookup_replicate in Hi as [-> _]. by apply new_shard_ok.
      * rewrite all_lives_new. exists (init_free arena_bytes arenas 0). rewrite Hb. split; [done|]. split; [constructor|]. done.
    + rewrite Hct. constructor.
    + intros i s Hi. apply lookup_replicate in Hi as [-> _]. simpl. by rewrite lives_all_empty.
  - destruct (Z.eqb_spec slots 0); lia.
Qed.

Lemma create_ok arena_bytes ce arenas max_mem slots h :
  create_env_ok arena_bytes ce arenas -> 0 <= slots <= 2 ^ 31 ->
  exists c h' k, vc_create arena_bytes ce max_mem None slots h = Some (Some c, h') /\
    cache_ok k c /\ abs c = ∅ /\ slots <= 2 ^ k.
Proof.
  intros He Hs. destruct (create_logged arena_bytes ce arenas max_mem None slots h He Hs eq_refl)
    as (c & h' & k & E & H1 & H2 & H3 & _). by exists c, h', k.
Qed.

(** ** A small cache for the examples: four slots per shard, arenas of 64 bytes *)

Definition mini_arenas : list Z := (fun i => 4096 * (Z.of_nat i + 1)) <$> seq 0 16.

Definition mini_tables : list Z := (fun i => 2 ^ 30 + 4096 * Z.of_nat i) <$> seq 0 64.

Definition mini_env : create_env :=
  CreateEnv (Some 64) 12288 (Some <$> mini_arenas) (WalEnv true true None) (Some <$> mini_tables).

Definition empty_heap : heap := Heap ∅ ∅ ∅ [].

Definition mini : vc_cache :=
  match vc_create 64 mini_env (2 ^ 20) None 4 empty_heap with
  | Some (Some c, _) => c
  | _ => Cache [] [] (Wal None 0 0 0 false) 0 0 empty_heap [] 0
  end.

(** No allocation is granted; the clocks stand at [now]. *)
Definition clock (now : Z) : env := Env now now 0 None None.

Lemma mini_env_ok : create_env_ok 64 mini_env mini_arenas.
Proof.
  constructor; [by eexists | done | done | done | | |].
  - intros i a Hi. unfold mini_arenas in Hi. apply list_lookup_fmap_Some in Hi as (j & -> & Hj).
    apply lookup_seq in Hj as [-> Hj]. unfold arena_ok, class_arena. simpl.
    pose proof (slab_class_size_pos (Z.of_nat i)).
    pose proof (Z.mul_div_le 64 (slab_class_size (Z.of_nat i))). nia.
  - apply (bool_decide_unpack _). vm_compute. done.
  - apply (bool_decide_unpack _). vm_compute. done.
Qed.

Lemma mini_ok : exists k, cache_ok k mini /\ abs mini = ∅.
Proof.
  unfold mini. destruct (create_ok 64 mini_env mini_arenas (2 ^ 20) 4 empty_heap mini_env_ok)
    as (c & h' & k & -> & Hok & Ha & _); [lia|]. eauto.
Qed.

Lemma lookup_abs_mini ky : abs mini !! ky = None.
Proof. destruct mini_ok as (k & _ & ->). apply lookup_empty. Qed.

Lemma clock_fresh c now ky val : env_fresh c (clock now) ky val.
Proof. intros F HF. constructor; done. Qed.

(** ** Histories *)

Inductive op : Type :=
| OSet (ky val : list Z) (ttl : Z)
| OGet (ky : list Z)
| ODel (ky : list Z)
| OFlush.

Definition exec (ev : env) (o : op) (c : vc_cache) : option vc_cache :=
  match o with
  | OSet ky val ttl => r ← vc_set ev c ky val ttl; Some r.2
  | OGet ky => r ← vc_get ev c ky; Some r.2
  | ODel ky => r ← vc_del ev c ky; Some r.2
  | OFlush => vc_flush c
  end.

Fixpoint run_ops (ops : list (env * op)) (c : vc_cache) : option vc_cache :=
  match ops with
  | [] => Some c
  | (ev, o) :: ops => c ← exec ev o c; run_ops ops c
  end.

(** The record of the operation, if any, fits the log, if any. *)
Definition op_logged (w : vc_wal) (o : op) : Prop :=
  match o with
  | OSet ky val _ => log_room w (set_logged ky val)
  | ODel ky => log_room w (klen32 ky)
  | _ => True
  end.

Lemma op_logged_same c c' o : same_log c c' -> op_logged (c_wal c) o -> op_logged (c_wal c') o.
Proof. intros Hs. destruct o; cbn [op_logged]; try done; by apply same_log_room. Qed.

Lemma unlogged w o : w_ring w = None -> op_logged w o.
Proof. intros Hw. destruct o; cbn [op_logged]; try done; by left. Qed.

(** At every step the allocator answers with fresh memory. *)
Fixpoint run_fresh (ops : list (env * op)) (c : vc_cache) : Prop :=
  match ops with
  | [] => True
  | (ev, o) :: ops =>
      (forall ky val ttl, o = OSet ky val ttl -> env_fresh c ev ky val) /\
      (forall c', exec ev o c = Some c' -> run_fresh ops c')
  end.

Lemma vc_set_guard ev c ky val ttl :
  ky = [] \/ val = [] \/ UINT32_MAX < Z.of_nat (length ky) ->
  vc_set ev c ky val ttl = Some (VC_ERR_INVAL, c).
Proof.
  intros H. unfold vc_set. replace (_ || _ || _) with true; [done|].
  destruct H as [->|[->|H]]; [done | |].
  - rewrite (bool_decide_true ([] = [])) by done. by rewrite orb_true_r.
  - apply Z.ltb_lt in H. by rewrite H, !orb_true_r.
Qed.

Lemma exec_safe k ev o c :
  cache_wf k c -> (forall ky val ttl, o = OSet ky val ttl -> env_fresh c ev ky val) -> op_logged (c_wal c) o ->
  exists c', exec ev o c = Some c' /\ cache_wf k c' /\ same_log c c'.
Proof.
  intros Hwf Hf Hlog. assert (Hsame : same_log c c) by done. destruct o as [ky val ttl|ky|ky|]; cbn [exec].
  - destruct (decide (ky = [])) as [->|Hky]; [rewrite vc_set_guard by auto; cbn [mbind option_bind snd]; eauto|].
    destruct (decide (val = [])) as [->|Hval]; [rewrite vc_set_guard by auto; cbn [mbind option_bind snd]; eauto|].
    destruct (Z.lt_ge_cases (Z.of_nat (length ky)) (2 ^ 32)) as [Hl|Hl].
    + destruct (vc_set_spec k c ev ky val ttl Hwf (Hf _ _ _ eq_refl) Hky Hval Hl Hlog)
        as (err & c' & -> & Hwf' & Hs & _). cbn [mbind option_bind snd]. eauto.
    + rewrite vc_set_guard; [cbn [mbind option_bind snd]; eauto|]. right. right. unfold UINT32_MAX. lia.
  - destruct (lookup_lt_is_Some_2 (c_shards c) (home ky)) as [s Hs].
    { rewrite (cwf_len _ _ Hwf). apply home_lt. }
    rewrite (vc_get_eq k c ev ky s Hwf Hs).
    destruct (get_answer_spec k c ev ky s Hwf Hs) as (o & s' & -> & H1 & H2 & _). cbn [mbind option_bind snd].
    eexists. split; [done|]. split; [by eapply update_wf | done].
  - destruct (vc_del_spec k c ev ky Hwf Hlog) as (err & c' & s & s' & -> & Hwf' & Hs & _). cbn [mbind option_bind snd]. eauto.
  - destruct (vc_flush_spec k c Hwf) as (c' & -> & Hok & _ & Hs). eauto using cok_wf.
Qed.

Lemma run_safe k ops c :
  cache_wf k c -> Forall (op_logged (c_wal c)) ops.*2 -> run_fresh ops c ->
  exists c', run_ops ops c = Some c' /\ cache_wf k c' /\ same_log c c'.
Proof.
  revert c. induction ops as [|[ev o] ops IH]; intros c Hwf Hl Hf; simpl; [by exists c|].
  destruct Hf as [Hf1 Hf2]. apply Forall_cons in Hl as [Hl1 Hl]. destruct (exec_safe k ev o c Hwf Hf1 Hl1) as (c1 & E & Hwf1 & Hs1).
  rewrite E. cbn [mbind option_bind]. destruct (IH c1) as (c' & E' & Hwf' & Hs); [done | | by apply Hf2 |].
  - eapply Forall_impl; [exact Hl|]. intros x. by apply op_logged_same.
  - exists c'. split; [done|]. split; [done|]. unfold same_log in *. tauto.
Qed.

(** C1: memory safety of every history of one thread.  From a well-formed cache, whatever
    the operations and the clock readings, and whether the allocators refuse or return
    unused memory: as long as the record of each operation fits the log when there is one
    (at most 64 MB less 71 bytes of key and value), no operation spins, releases memory the
    cache does not own, leaves a table or writes past the log, and the cache stays well
    formed: tables reachable, entries in the shard of their hash, locks released, owned
    memory disjoint, the log's write position inside its ring. *)
Theorem cache_history_safe k ops c :
  cache_wf k c -> Forall (op_logged (c_wal c)) ops.*2 -> run_fresh ops c ->
  exists c', run_ops ops c = Some c' /\ cache_wf k c'.
Proof. intros Hwf Hl Hf. destruct (run_safe k ops c Hwf Hl Hf) as (c' & E & Hwf' & _). eauto. Qed.

Lemma cache_history_witness :
  exists k c', run_ops [(clock 5, OSet (bs "k") (bs "v") 1); (clock 6, OGet (bs "k"));
                        (clock 7, ODel (bs "k")); (clock 8, OFlush)] mini = Some c' /\ cache_wf k c'.
Proof.
  destruct mini_ok as (k & Hok & _). exists k.
  apply (cache_history_safe k); [by apply cok_wf | repeat constructor; by left |].
  repeat (split; [intros; apply clock_fresh | intros ? _]). exact I.
Defined.

(** C20: [vc_create], when its memory is granted and a log, if one is asked for, can be
    opened, gives an empty cache with every invariant, whose tables have at least the
    requested number of slots, up to 2^31. *)
Theorem vc_create_ok arena_bytes ce arenas max_mem path slots h :
  create_env_ok arena_bytes ce arenas -> 0 <= slots <= 2 ^ 31 -> (wal_init path (ce_wal ce)).1 = VC_OK ->
  exists c h' k, vc_create arena_bytes ce max_mem path slots h = Some (Some c, h') /\
    cache_ok k c /\ abs c = ∅ /\ slots <= 2 ^ k /\ c_wal c = (wal_init path (ce_wal ce)).2.
Proof. apply create_logged. Qed.

Lemma vc_create_witness :
  exists c h' k, vc_create 64 mini_env (2 ^ 20) None 4 empty_heap = Some (Some c, h') /\
    cache_ok k c /\ abs c = ∅ /\ 4 <= 2 ^ k /\ c_wal c = Wal None 0 0 0 false.
Proof. apply (vc_create_ok 64 mini_env mini_arenas); [apply mini_env_ok | lia | done]. Defined.

(** ** Refinement of a map *)

Lemma some_pair {X Y} (a a' : X) (b b' : Y) : Some (a, b) = Some (a', b') -> a = a' /\ b = b'.
Proof. by intros [= -> ->]. Qed.

Lemma vc_set_abs k c ev ky val ttl s :
  cache_ok k c -> env_fresh c ev ky val -> ky <> [] -> val <> [] ->
  Z.of_nat (length ky) < 2 ^ 32 -> log_room (c_wal c) (set_logged ky val) ->
  c_shards c !! home ky = Some s -> s_count s < s_cap s ->
  (forall v exp, abs c !! ky = Some (v, exp) -> expired_at (ev_mono2 ev) exp = false) ->
  exists c', vc_set ev c ky val ttl = Some (if refused ev (c_slab c) ky val then VC_ERR_OOM else VC_OK, c') /\
    cache_ok k c' /\ same_log c c' /\
    if refused ev (c_slab c) ky val then abs c' = abs c
    else exists v,
        abs c' = <[ky := (take (Z.to_nat 65535) val, expire_at (ev_mono ev) ttl)]> (remove_key v (abs c)) /\
        v <> Some ky /\ (v <> None -> 85 * s_cap s <= 100 * s_count s).
Proof.
  intros Hok Hf Hky Hval Hmax Hlog Hs Hroom Hstale.
  destruct (vc_set_spec k c ev ky val ttl (cok_wf _ _ Hok) Hf Hky Hval Hmax Hlog)
    as (err & c' & E & Hwf' & Hsame & [(-> & -> & Hsh & Ha)|(-> & -> & h1 & sl1 & ne & s0 & s' & R & old & L1 & gone & L2 & dr & St)]);
    exists c'; (split; [done|]).
  - assert (Hct : contents (c_heap c') (c_shards c') = contents (c_heap c) (c_shards c)).
    { rewrite Hsh. eapply wf_contents_keeps; [apply Hok | done]. }
    split; [|split; [done|]; unfold abs; by rewrite Hct].
    constructor; [done | rewrite Hct; apply Hok |]. rewrite Hsh. apply Hok.
  - assert (s0 = s) as ->.
    { pose proof (ss_s St) as H. rewrite Hs in H. by injection H. }
    destruct (step_refines _ _ _ _ _ _ _ _ _ _ _ _ _ _ _ _ _ _ St Hok Hmax Hroom Hstale Hwf') as [Hok' Hv].
    split; [done|]. by split.
Qed.

(** C2: [vc_set] on a consistent cache (no key stored twice, exact counters), for a key and
    a value that are not empty, of a record that fits the log when there is one, on a shard
    that is not full, and when the old entry of the key, if any, has not expired.  It fails
    with [VC_ERR_OOM] exactly when an allocator refuses the memory it asks for: never for
    at most 32 bytes; when the slab class of the value has no free block, or [malloc] of a
    key over 24 bytes fails; for a value over 2 MB when [mmap] or [malloc] fails.  Then the
    map is unchanged; otherwise the key is bound to the first 65535 bytes of the value
    with its expiry time, and of the other keys at most one, only when the shard is at
    least 85 % full, is gone. *)
Theorem vc_set_refines k c ev ky val ttl s :
  cache_ok k c -> env_fresh c ev ky val -> ky <> [] -> val <> [] ->
  Z.of_nat (length ky) < 2 ^ 32 -> log_room (c_wal c) (set_logged ky val) ->
  c_shards c !! home ky = Some s -> s_count s < s_cap s ->
  (forall v exp, abs c !! ky = Some (v, exp) -> expired_at (ev_mono2 ev) exp = false) ->
  exists c', vc_set ev c ky val ttl = Some (if refused ev (c_slab c) ky val then VC_ERR_OOM else VC_OK, c') /\
    cache_ok k c' /\
    if refused ev (c_slab c) ky val then abs c' = abs c
    else exists v,
        abs c' = <[ky := (take (Z.to_nat 65535) val, expire_at (ev_mono ev) ttl)]> (remove_key v (abs c)) /\
        v <> Some ky /\ (v <> None -> 85 * s_cap s <= 100 * s_count s).
Proof.
  intros H1 H2 H3 H4 H5 H6 H7 H8 H9.
  destruct (vc_set_abs k c ev ky val ttl s H1 H2 H3 H4 H5 H6 H7 H8 H9) as (c' & E & Hok & _ & Hr). by exists c'.
Qed.

Lemma vc_set_witness :
  exists k c', vc_set (clock 0) mini (bs "k") (bs "v") 0 = Some (VC_OK, c') /\ cache_ok k c' /\
     exists v,
        abs c' = <[bs "k" := (take (Z.to_nat 65535) (bs "v"), 0)]> (remove_key v (abs mini)) /\
        v <> Some (bs "k") /\ (v <> None -> 85 * 4 <= 100 * 0).
Proof.
  destruct mini_ok as (k & Hok & Ha). exists k.
  apply (vc_set_refines k mini (clock 0) (bs "k") (bs "v") 0 (new_shard 4));
    [done | apply clock_fresh | done | done | done | by left | vm_compute; done | done |].
  intros v exp. rewrite lookup_abs_mini. done.
Defined.

Lemma vc_get_abs k c ev ky :
  cache_ok k c -> Z.of_nat (length ky) < 2 ^ 32 ->
  exists err o c', vc_get ev c ky = Some (err, o, c') /\ cache_ok k c' /\ abs c' = abs c /\
    match abs c !! ky with
    | None => err = VC_ERR_NOTFND /\ o = None
    | Some (v, exp) =>
        (expired_at (ev_mono ev) exp = true -> err = VC_ERR_NOTFND /\ o = None) /\
        (expired_at (ev_mono ev) exp = false -> expired_at (ev_mono2 ev) exp = false ->
         err = VC_OK /\ exists r, o = Some r /\ out_bytes (c_heap c') r = v)
    end.
Proof.
  intros Hok Hmax. pose proof (cok_wf _ _ Hok) as Hwf.
  destruct (lookup_lt_is_Some_2 (c_shards c) (home ky)) as [s Hs].
  { rewrite (cwf_len _ _ Hwf). apply home_lt. }
  destruct (get_answer_spec k c ev ky s Hwf Hs) as (o & s' & E & H1 & H2 & H3).
  destruct (get_answer_abs k c ev ky s Hok Hs Hmax) as (o' & s'' & E' & Hab).
  rewrite E in E'. injection E' as <- <-.
  destruct (update_ok k c (home ky) s s' Hok Hs H1 H2 H3) as [Hok' Habs].
  rewrite (vc_get_eq k c ev ky s Hwf Hs), E. cbn [mbind option_bind].
  eexists _, o, _. split; [done|]. split; [done|]. split; [done|].
  destruct (abs c !! ky) as [[v exp]|]; [|by rewrite Hab].
  destruct Hab as [Ha1 Ha2]. split; [intros Hx; by rewrite Ha1|].
  intros Hx Hy. destruct (Ha2 Hx Hy) as (r & -> & Hr). split; [done|]. by exists r.
Qed.

(** C3: [vc_get] on a consistent cache never changes the map; it misses a key that
    is absent or expired, and for a key that has not expired it succeeds and the
    caller reads exactly the stored bytes through the pointer it gets. *)
Theorem vc_get_refines k c ev ky :
  cache_ok k c -> Z.of_nat (length ky) < 2 ^ 32 ->
  exists err o c', vc_get ev c ky = Some (err, o, c') /\ cache_ok k c' /\ abs c' = abs c /\
    match abs c !! ky with
    | None => err = VC_ERR_NOTFND /\ o = None
    | Some (v, exp) =>
        (expired_at (ev_mono ev) exp = true -> err = VC_ERR_NOTFND /\ o = None) /\
        (expired_at (ev_mono ev) exp = false -> expired_at (ev_mono2 ev) exp = false ->
         err = VC_OK /\ exists r, o = Some r /\ out_bytes (c_heap c') r = v)
    end.
Proof. apply vc_get_abs. Qed.

Lemma vc_get_witness :
  exists k err o c', vc_get (clock 0) mini (bs "k") = Some (err, o, c') /\ cache_ok k c' /\
    abs c' = abs mini /\ err = VC_ERR_NOTFND /\ o = None.
Proof.
  destruct mini_ok as (k & Hok & Ha). exists k.
  destruct (vc_get_refines k mini (clock 0) (bs "k") Hok) as (err & o & c' & E & H1 & H2 & H3); [done|].
  rewrite lookup_abs_mini in H3. exists err, o, c'.
  exact (conj E (conj H1 (conj H2 H3))).
Defined.

(** C4: [vc_del] on a consistent cache, of a key whose record fits the log when there is
    one, removes exactly the key when it is present and has not expired, and otherwise
    reports it missing and changes nothing. *)
Theorem vc_del_refines k c ev ky :
  cache_ok k c -> Z.of_nat (length ky) < 2 ^ 32 -> log_room (c_wal c) (Z.of_nat (length ky)) ->
  exists err c', vc_del ev c ky = Some (err, c') /\ cache_ok k c' /\
    match abs c !! ky with
    | Some (_, exp) =>
        if expired_at (ev_mono ev) exp then err = VC_ERR_NOTFND /\ abs c' = abs c
        else err = VC_OK /\ abs c' = delete ky (abs c)
    | None => err = VC_ERR_NOTFND /\ abs c' = abs c
    end.
Proof.
  intros H1 H2 H3. destruct (vc_del_abs k c ev ky H1 H2 H3) as (err & c' & E & Hok & _ & Hr). by exists err, c'.
Qed.

Lemma vc_del_witness :
  exists k err c', vc_del (clock 0) mini (bs "k") = Some (err, c') /\ cache_ok k c' /\
    err = VC_ERR_NOTFND /\ abs c' = abs mini.
Proof.
  destruct mini_ok as (k & Hok & Ha). exists k.
  destruct (vc_del_refines k mini (clock 0) (bs "k") Hok) as (err & c' & E & H1 & H3); [done | by left |].
  rewrite lookup_abs_mini in H3. exists err, c'.
  exact (conj E (conj H1 H3)).
Defined.

(** [vc_flush] of any well-formed cache, also one with stale duplicates or with
    a wrong count, leaves the empty map and makes the cache consistent again. *)
Theorem vc_flush_refines k c :
  cache_wf k c -> exists c', vc_flush c = Some c' /\ cache_ok k c' /\ abs c' = ∅.
Proof. intros Hwf. destruct (vc_flush_spec k c Hwf) as (c' & E & H1 & H2 & _). by exists c'. Qed.

Lemma vc_flush_witness : exists k c', vc_flush mini = Some c' /\ cache_ok k c' /\ abs c' = ∅.
Proof.
  destruct mini_ok as (k & Hok & _). exists k. apply (vc_flush_refines k mini). by apply cok_wf.
Defined.

(** C15: a value survives the round trip.  On a consistent cache, when the shard of the
    key is not full, the key's old entry, if any, has not expired and the record fits the
    log when there is one: after a [vc_set] that returned [VC_OK], a [vc_get] of the key
    before its expiry returns the first 65535 bytes of the value. *)
Theorem set_get_roundtrip k c ev ky val ttl s c' ev' :
  cache_ok k c -> env_fresh c ev ky val -> ky <> [] -> val <> [] ->
  Z.of_nat (length ky) < 2 ^ 32 -> log_room (c_wal c) (set_logged ky val) ->
  c_shards c !! home ky = Some s -> s_count s < s_cap s ->
  (forall v exp, abs c !! ky = Some (v, exp) -> expired_at (ev_mono2 ev) exp = false) ->
  vc_set ev c ky val ttl = Some (VC_OK, c') ->
  expired_at (ev_mono ev') (expire_at (ev_mono ev) ttl) = false ->
  expired_at (ev_mono2 ev') (expire_at (ev_mono ev) ttl) = false ->
  exists r c'', vc_get ev' c' ky = Some (VC_OK, Some r, c'') /\
    out_bytes (c_heap c'') r = take (Z.to_nat 65535) val.
Proof.
  intros Hok Hf Hky Hval Hmax Hlog Hs Hroom Hstale Hset Hx Hy.
  destruct (vc_set_spec k c ev ky val ttl (cok_wf _ _ Hok) Hf Hky Hval Hmax Hlog)
    as (err & c1 & E & Hwf' & _ & Heff). rewrite Hset in E. injection E as <- <-.
  destruct Heff as [(? & _)|(_ & _ & h1 & sl1 & ne & s0 & s' & R & old & L1 & gone & L2 & dr & St)]; [done|].
  assert (s0 = s) as -> by (pose proof (ss_s St) as H; rewrite Hs in H; by injection H).
  destruct (step_refines _ _ _ _ _ _ _ _ _ _ _ _ _ _ _ _ _ _ St Hok Hmax Hroom Hstale Hwf')
    as [Hok' (v & Hab & _)].
  destruct (lookup_lt_is_Some_2 (c_shards c') (home ky)) as [s2 Hs2].
  { rewrite (cwf_len _ _ Hwf'). apply home_lt. }
  destruct (get_answer_abs k c' ev' ky s2 Hok' Hs2 Hmax) as (o & s3 & Ea & Hr).
  rewrite Hab, lookup_insert_eq in Hr. destruct Hr as [_ Hr].
  destruct (Hr Hx Hy) as (r & -> & Hb).
  rewrite (vc_get_eq k c' ev' ky s2 Hwf' Hs2), Ea. cbn [mbind option_bind]. eauto.
Qed.

Lemma set_get_witness :
  exists c' r c'', vc_set (clock 0) mini (bs "k") (bs "v") 9 = Some (VC_OK, c') /\
    vc_get (clock 1000000000) c' (bs "k") = Some (VC_OK, Some r, c'') /\
    out_bytes (c_heap c'') r = bs "v".
Proof.
  destruct mini_ok as (k & Hok & Ha).
  assert (exists c', vc_set (clock 0) mini (bs "k") (bs "v") 9 = Some (VC_OK, c')) as [c' E]
    by (eexists; vm_compute; reflexivity).
  destruct (set_get_roundtrip k mini (clock 0) (bs "k") (bs "v") 9 (new_shard 4) c' (clock 1000000000))
    as (r & c'' & E2 & Hb);
    [done | apply clock_fresh | done | done | done | by left | vm_compute; done | done | intros v exp; rewrite lookup_abs_mini; done | exact E | done | done |].
  exists c', r, c''. exact (conj E (conj E2 Hb)).
Defined.

(** ** A key that expired *)

(** An entry at the ideal slot of its hash is the first that a lookup of its key meets. *)
Lemma find_first m now s key klen hash e :
  s_table s !! Z.to_nat (table_slot hash (s_cap s)) = Some e -> 0 < s_cap s ->
  entry_matches m key klen hash e = true -> entry_expired now e = true ->
  shard_find m now s key klen hash = None.
Proof.
  intros He Hc Hm Hx. unfold shard_find. destruct (Z.to_nat (s_cap s)) as [|n] eqn:En; [lia|].
  cbn [find_loop]. rewrite He. cbn [mbind option_bind]. rewrite Hm, Hx.
  case_bool_decide as Hs; [done|]. done.
Qed.

(** The insertion loop comes to every slot once: it does not return to the first. *)
Lemma insert_loop_keeps k h fuel j tbl inc :
  0 <= k <= 31 -> 1 <= j -> j + Z.of_nat fuel <= 2 ^ k ->
  (insert_loop fuel tbl (2 ^ k) (slot_at k h j) inc).1 !! Z.to_nat (slot_at k h 0) = tbl !! Z.to_nat (slot_at k h 0).
Proof.
  intros Hk. revert j tbl inc. induction fuel as [|fuel IH]; intros j tbl inc Hj Hf; [done|]. cbn [insert_loop].
  assert (Hne : Z.to_nat (slot_at k h j) <> Z.to_nat (slot_at k h 0)).
  { pose proof (slot_at_range k Hk h j). pose proof (slot_at_range k Hk h 0). intros E. apply Z2Nat.inj in E; [|lia..].
    unfold slot_at in E. rewrite Z.add_0_r in E. pose proof (cap_range k Hk).
    assert (Hd : j = 2 ^ k * ((h + j) / 2 ^ k - h / 2 ^ k)).
    { pose proof (Z.div_mod (h + j) (2 ^ k)). pose proof (Z.div_mod h (2 ^ k)). lia. }
    destruct (Z.le_gt_cases ((h + j) / 2 ^ k - h / 2 ^ k) 0); nia. }
  destruct (tbl !! Z.to_nat (slot_at k h j)) as [x|]; [|done].
  case_match; [cbn [fst]; by rewrite list_lookup_insert_ne|].
  rewrite slot_at_next by done. destruct (_ && _); (rewrite IH by lia); [by rewrite list_lookup_insert_ne | done].
Qed.

(** A LIVE entry at the ideal slot of the incoming hash is not displaced. *)
Lemma shard_insert_first k s ne e :
  0 <= k <= 31 -> s_cap s = 2 ^ k ->
  s_table s !! Z.to_nat (table_slot (e_key_hash ne) (s_cap s)) = Some e -> e_state e = LIVE -> 0 <= e_probe_dist e ->
  s_table (shard_insert s ne).1 !! Z.to_nat (table_slot (e_key_hash ne) (s_cap s)) = Some e.
Proof.
  intros Hk Hc He Hl Hd. unfold shard_insert. cbv zeta. change (e_key_hash (with_dist 0 ne)) with (e_key_hash ne).
  pose proof (cap_range k Hk). rewrite Hc in He |- *. destruct (Z.to_nat (2 ^ k)) as [|n] eqn:En; [lia|].
  cbn [insert_loop]. rewrite He, Hl. rewrite !bool_decide_false by done. cbn [orb].
  rewrite bool_decide_true by done. cbn [andb e_probe_dist with_dist].
  destruct (Z.ltb_spec (e_probe_dist e) 0); [lia|]. rewrite <- slot_at_0 in He |- * by done. rewrite slot_at_next by done.
  pose proof (insert_loop_keeps k (e_key_hash ne) n (0 + 1) (s_table s) (with_dist (u8 (0 + 1)) (with_dist 0 ne)) Hk) as H1.
  destruct (insert_loop _ _ _ _ _) as [tbl x]. cbn [fst s_table sh_table] in *. by rewrite H1 by lia.
Qed.

(** [vc_set] of a key whose entry at its ideal slot has expired leaves that entry there. *)
Lemma set_keeps_first k c ev ky val ttl s e c' :
  cache_wf k c -> env_fresh c ev ky val -> Z.of_nat (length ky) < 2 ^ 32 ->
  c_shards c !! home ky = Some s -> must_evict s = false ->
  s_table s !! Z.to_nat (table_slot (wyhash64 ky 0) (s_cap s)) = Some e -> e_state e = LIVE ->
  key_bytes (h_bytes (c_heap c)) e = ky -> 0 <= e_probe_dist e -> entry_expired (ev_mono2 ev) e = true ->
  vc_set ev c ky val ttl = Some (VC_OK, c') ->
  exists s', c_shards c' !! home ky = Some s' /\
    s_table s' !! Z.to_nat (table_slot (wyhash64 ky 0) (s_cap s')) = Some e.
Proof.
  intros Hwf Hf Hmax Hs Hev He Hl Hk Hd Hx E. unfold vc_set in E. destruct (_ || _) eqn:Eg; [done|].
  apply orb_false_iff in Eg as [Eg _]. apply orb_false_iff in Eg as [Hky%bool_decide_eq_false_1 Hval%bool_decide_eq_false_1]. cbv zeta in E.
  destruct (wal_append _ _ _ _ _ _) as [w|]; [|done]. cbn [mbind option_bind c_heap with_wal c_slab c_shards] in E.
  pose proof (cwf_mem _ _ Hwf) as (F & Hres).
  destruct (build_entry_spec ev ky val ttl (c_heap c) (c_slab c) _ F Hky Hval Hmax Hres (Hf F (proj1 Hres))) as (r & Hb & Hbo).
  rewrite Hb in E. cbn [mbind option_bind] in E. destruct r as [[h1 sl1]|[[[ne h1] sl1] grow]]; [done|].
  cbn [build_ok] in Hbo. destruct Hbo as (Hbu & Hm1 & Ha1). fold (home ky) in E. rewrite Hs in E. cbn [mbind option_bind] in E.
  destruct (cwf_shards _ _ Hwf _ _ Hs) as [Hc Hq]. pose proof (cok_cap _ _ _ Hc) as Hcap. pose proof (cap_range k (cwf_k _ _ Hwf)).
  assert (Hin : core e ∈ all_lives (c_shards c)) by (eapply all_lives_elem; [exact Hs | by eapply lives_elem]).
  assert (Hmt : entry_matches (h_bytes h1) ky (klen32 ky) (wyhash64 ky 0) e = true).
  { assert (Hm0 : mem_inv h1 (all_lives (c_shards c)) sl1) by (by eapply mem_inv_drop).
    eapply (matches_key _ _ _ Hm0 ky e _ s _ Hs He Hl Hmax).
    pose proof (kv_keeps (c_heap c) h1 _ _ (core e) (cwf_mem _ _ Hwf) Ha1 Hin) as Hkv. unfold kv in Hkv. rewrite !key_bytes_core in Hkv. congruence. }
  unfold set_locked in E. rewrite (lock_quiet _ Hq) in E. cbn [mbind option_bind] in E. cbv zeta in E.
  rewrite (bu_hash _ _ _ _ _ Hbu) in E. rewrite (find_first _ _ (seq_write_begin (sh_wlock 1 s)) _ _ _ e) in E; [|done | cbn; lia | done | done].
  cbn [mbind option_bind] in E. destruct (Z.eqb_spec (s_cap (seq_write_begin (sh_wlock 1 s))) 0) as [H0|_]; [cbn in H0; lia|].
  change (must_evict (seq_write_begin (sh_wlock 1 s))) with (must_evict s) in E. rewrite Hev in E. cbn [mbind option_bind] in E.
  pose proof (shard_insert_first k (seq_write_begin (sh_wlock 1 s)) ne e (cwf_k _ _ Hwf) Hcap) as Hi.
  rewrite (bu_hash _ _ _ _ _ Hbu) in Hi. specialize (Hi He Hl Hd).
  assert (Hcap' : s_cap (shard_insert (seq_write_begin (sh_wlock 1 s)) ne).1 = s_cap s)
    by (unfold shard_insert; cbv zeta; by destruct (insert_loop _ _ _ _ _)).
  destruct (shard_insert _ ne) as [s5 drop]. cbn [fst] in *. cbn [mbind option_bind] in E. apply Some_inj in E. apply (f_equal (fun p => c_shards p.2)) in E.
  cbn [snd c_shards with_shards with_mem add_memory with_wal] in E. rewrite <- E.
  eexists. split; [apply list_lookup_insert_eq; by eapply lookup_lt_Some|]. cbn. by rewrite Hcap'.
Qed.

(** C35: a key that is set again after it expired cannot be read.  On any consistent cache,
    when the entry of a key lies in the first slot of the key's probe sequence and has
    expired, and the shard is less than 85 % full, then after a [vc_set] of the key that
    returned [VC_OK] every [vc_get] of it misses: the lookup stops at the expired entry, so
    [vc_set] keeps it and stores the new one behind it, and [vc_get] stops at the expired one
    again. *)
Theorem set_after_expiry_lost k c ev ev' ky val ttl s e c' :
  cache_ok k c -> env_fresh c ev ky val -> Z.of_nat (length ky) < 2 ^ 32 -> log_room (c_wal c) (set_logged ky val) ->
  c_shards c !! home ky = Some s -> must_evict s = false ->
  s_table s !! Z.to_nat (table_slot (wyhash64 ky 0) (s_cap s)) = Some e -> e_state e = LIVE ->
  key_bytes (h_bytes (c_heap c)) e = ky -> 0 <= e_probe_dist e ->
  entry_expired (ev_mono2 ev) e = true -> entry_expired (ev_mono ev') e = true ->
  vc_set ev c ky val ttl = Some (VC_OK, c') ->
  exists c'', vc_get ev' c' ky = Some (VC_ERR_NOTFND, None, c'').
Proof.
  intros Hok Hf Hmax Hlog Hs Hev He Hl Hk Hd Hx Hx' E. pose proof (cok_wf _ _ Hok) as Hwf.
  destruct (set_keeps_first k c ev ky val ttl s e c' Hwf Hf Hmax Hs Hev He Hl Hk Hd Hx E) as (s' & Hs' & He').
  assert (Hg : ky <> [] /\ val <> []).
  { split; intros ->; rewrite vc_set_guard in E by auto; done. }
  destruct (vc_set_spec k c ev ky val ttl Hwf Hf (proj1 Hg) (proj2 Hg) Hmax Hlog) as (err & c1 & E1 & Hwf' & _ & Heff).
  rewrite E in E1. apply some_pair in E1 as [<- <-].
  destruct Heff as [(? & _)|(_ & _ & h1 & sl1 & ne & s0 & s1 & R & old & L1 & gone & L2 & dr & St)]; [done|].
  assert (Hin : core e ∈ all_lives (c_shards c)) by (eapply all_lives_elem; [exact Hs | by eapply lives_elem]).
  assert (Hin' : core e ∈ all_lives (c_shards c')) by (eapply all_lives_elem; [exact Hs' | by eapply lives_elem]).
  pose proof (kv_keeps _ _ _ _ _ (cwf_mem _ _ Hwf) (ss_keep St) Hin) as Hk1.
  assert (Hk2 : kv (c_heap c') (core e) = kv h1 (core e)).
  { pose proof (kv_keeps_list h1 (c_heap c') _ _ [core e] (ss_mem St)) as Hl1. cbn [fmap list_fmap] in Hl1.
    enough (Hq : [kv (c_heap c') (core e)] = [kv h1 (core e)]) by congruence. apply Hl1.
    - eapply keeps_sub; [exact (ss_keep' St)|]. intros x ->%list_elem_of_singleton. by rewrite <- (ss_R' St).
    - intros x ->%list_elem_of_singleton. by right. }
  rewrite (vc_get_eq k c' ev' ky s' Hwf' Hs'). unfold get_answer.
  rewrite (find_first _ _ s' _ _ _ e He'); [| | | done].
  - cbn [mbind option_bind]. by eexists.
  - destruct (cwf_shards _ _ Hwf' _ _ Hs') as [Hc _]. rewrite (cok_cap _ _ _ Hc). by apply cap_range, Hwf'.
  - eapply (matches_key _ _ _ (cwf_mem _ _ Hwf') ky e _ s' _ Hs' He' Hl Hmax).
    unfold kv in Hk1, Hk2. rewrite !key_bytes_core in Hk1, Hk2. congruence.
Qed.

(** The small cache after the key "k" was set for one second; two seconds later it is set
    again. *)
Definition stale : vc_cache :=
  match vc_set (clock 0) mini (bs "k") (bs "old") 1 with Some (_, c) => c | None => mini end.
Definition stale_shard : vc_shard := default (new_shard 4) (c_shards stale !! home (bs "k")).
Definition stale_entry : vc_entry :=
  default zero_entry (s_table stale_shard !! Z.to_nat (table_slot (wyhash64 (bs "k") 0) (s_cap stale_shard))).

Lemma stale_ok : vc_set (clock 0) mini (bs "k") (bs "old") 1 = Some (VC_OK, stale) /\ exists k, cache_ok k stale.
Proof.
  destruct mini_ok as (k & Hok & _).
  destruct (vc_set_abs k mini (clock 0) (bs "k") (bs "old") 1 (new_shard 4)) as (c & E & Hok1 & _);
    [done | apply clock_fresh | done | done | done | by left | vm_compute; done | done | intros v exp; rewrite lookup_abs_mini; done |].
  assert (Ec : stale = c) by (unfold stale; by rewrite E). rewrite Ec. split; [exact E | by exists k].
Qed.

Lemma stale_again : exists c', vc_set (clock 2000000000) stale (bs "k") (bs "new") 0 = Some (VC_OK, c').
Proof.
  assert (H : match vc_set (clock 2000000000) stale (bs "k") (bs "new") 0 with Some (e, _) => e | None => VC_ERR_INVAL end = VC_OK)
    by (vm_compute; reflexivity).
  destruct (vc_set _ _ _ _ _) as [[e c']|]; [|done]. exists c'. by rewrite H.
Qed.

Lemma set_after_expiry_witness :
  exists c' c'', vc_set (clock 2000000000) stale (bs "k") (bs "new") 0 = Some (VC_OK, c') /\
    vc_get (clock 2000000001) c' (bs "k") = Some (VC_ERR_NOTFND, None, c'').
Proof.
  destruct stale_ok as (_ & k & Hok). destruct stale_again as [c' E].
  destruct (set_after_expiry_lost k stale (clock 2000000000) (clock 2000000001) (bs "k") (bs "new") 0 stale_shard stale_entry c') as (c'' & E'');
    [exact Hok | apply clock_fresh | vm_compute; reflexivity | left; vm_compute; reflexivity | vm_compute; reflexivity
    | vm_compute; reflexivity | vm_compute; reflexivity | vm_compute; reflexivity | vm_compute; reflexivity | vm_compute; discriminate
    | vm_compute; reflexivity | vm_compute; reflexivity | exact E |].
  exists c', c''. exact (conj E E'').
Defined.

(** With every recently-used bit set the CLOCK sweep evicts nothing, and on a
    full table the insertion then loses an entry while [vc_set] reports success: a
    shard of one slot counts two keys and holds one. *)
Theorem set_full_drops :
  home (bs "k") = home (bs "n") /\
  ('(e1, c) ← vc_set (clock 0) (with_shards (replicate 64 (new_shard 1)) mini) (bs "k") (bs "1") 0;
   '(e2, c) ← vc_set (clock 0) c (bs "n") (bs "2") 0;
   Some (e1, e2, st_total_keys (vc_stats c), length (all_lives (c_shards c)))) =
  Some (VC_OK, VC_OK, 2, 1%nat).
Proof. vm_compute. split; reflexivity. Qed.
