(* ===== verification/CacheLife.v ===== *)
(** * The life of a cache

    From [vc_create] to [vc_destroy]: the arenas of the slab allocator and the tables stay
    mapped and the block of the cache stays allocated whatever the operations do, since
    nothing releases them but the end, so that a cache that was used in any way can be
    destroyed. *)

From S2P Require Import Prelude Hash Slab Entry Shard Wal Cache CacheInv CacheSafe CacheSpec CacheThm.

(** ** A fresh cache can be destroyed *)

Lemma slab_link_maps n arena bsz h prev : h_maps (slab_link n arena bsz h prev).1 = h_maps h.
Proof. revert h prev. induction n as [|n IH]; intros h prev; [done|]. cbn [slab_link]. by rewrite IH. Qed.

Lemma slab_link_mallocs n arena bsz h prev : h_mallocs (slab_link n arena bsz h prev).1 = h_mallocs h.
Proof. revert h prev. induction n as [|n IH]; intros h prev; [done|]. cbn [slab_link]. by rewrite IH. Qed.

Lemma slab_init_maps arena_bytes arenas c h err sl h' :
  slab_init_loop arena_bytes (Some <$> arenas) c h = (err, sl, h') ->
  sc_arena <$> sl = arenas /\ (forall a, is_Some (h_maps h !! a) \/ a ∈ arenas -> is_Some (h_maps h' !! a)) /\
  h_mallocs h' = h_mallocs h.
Proof.
  revert c h err sl h'. induction arenas as [|a arenas IH]; intros c h err sl h' E; cbn [fmap list_fmap slab_init_loop] in E.
  { injection E as <- <- <-. split; [done|]. split; [|done]. intros x [?|Hx]; [done|]. by apply elem_of_nil in Hx. }
  unfold slab_init_class, mmap_anon in E. destruct (slab_link _ _ _ _ _) as [h1 prev] eqn:El.
  destruct (slab_init_loop arena_bytes (Some <$> arenas) (c + 1) h1) as [[err1 sl1] h2] eqn:E1. injection E as <- <- <-.
  destruct (IH _ _ _ _ _ E1) as (Ha & Hm & Hk). split; [cbn; by rewrite Ha|].
  split; [|rewrite Hk; pose proof (slab_link_mallocs (Z.to_nat (arena_bytes / slab_class_size c * slab_class_size c / slab_class_size c)) a (slab_class_size c)) as Hlm;
    pose proof (f_equal (fun p => h_mallocs p.1) El) as Hl; cbn beta in Hl; rewrite Hlm in Hl; exact (eq_sym Hl)].
  intros x Hx. apply Hm.
  pose proof (f_equal (fun p => h_maps p.1) El) as Hl. cbn beta in Hl. rewrite slab_link_maps in Hl. cbn in Hl.
  rewrite elem_of_cons in Hx. destruct Hx as [Hx|[->|Hx]]; [left|left|by right]; rewrite <- Hl.
  - destruct (decide (x = a)) as [->|]; [rewrite lookup_insert_eq; by eexists | by rewrite lookup_insert_ne].
  - rewrite lookup_insert_eq. by eexists.
Qed.

Lemma slab_destroy_some sl h :
  NoDup (sc_arena <$> sl) -> Forall (fun a => is_Some (h_maps h !! a)) (sc_arena <$> sl) -> is_Some (slab_destroy sl h).
Proof.
  revert h. induction sl as [|sc sl IH]; intros h Hnd Hm; cbn [slab_destroy fmap list_fmap] in *; [by eexists|].
  apply NoDup_cons in Hnd as [Hn Hnd]. apply Forall_cons in Hm as [[n Hn1] Hm].
  destruct (sc_arena sc =? 0); [by apply IH|]. unfold munmap. rewrite Hn1. cbn [mbind option_bind]. apply IH; [done|].
  rewrite Forall_forall in *. intros a Ha. cbn [h_maps]. rewrite lookup_delete_ne; [by apply Hm|]. by intros <-.
Qed.

Lemma unmap_rest a n h h' : munmap a n h = Some h' ->
  h_mallocs h' = h_mallocs h /\ h_maps h' = delete a (h_maps h) /\ h_bytes h' = h_bytes h.
Proof. unfold munmap. destruct (h_maps h !! a); [|done]. by intros [= <-]. Qed.

(** Unmapping the arenas leaves none of them, and maps nothing. *)
Lemma slab_destroy_gone sl h h' :
  Forall (fun a => a <> 0) (sc_arena <$> sl) -> slab_destroy sl h = Some h' ->
  h_mallocs h' = h_mallocs h /\ (forall a, h_maps h !! a = None \/ a ∈ sc_arena <$> sl -> h_maps h' !! a = None).
Proof.
  revert h. induction sl as [|sc sl IH]; intros h Hz E; cbn [slab_destroy fmap list_fmap] in *.
  { injection E as <-. split; [done|]. intros a [?|Ha]; [done|]. by apply elem_of_nil in Ha. }
  apply Forall_cons in Hz as [Hz1 Hz]. rewrite (proj2 (Z.eqb_neq _ _) Hz1) in E.
  destruct (munmap _ _ h) as [h1|] eqn:E1; [|done]. apply unmap_rest in E1 as (Em & Ep & _).
  destruct (IH h1 Hz E) as [H1 H2]. split; [congruence|]. intros a Ha. apply H2. rewrite Ep, elem_of_cons in *.
  destruct (decide (a = sc_arena sc)) as [->|Hne]; [left; apply lookup_delete_eq|].
  destruct Ha as [Ha|[->|Ha]]; [left; by rewrite lookup_delete_ne | done | by right].
Qed.

Lemma map_tables_maps ts n h :
  let r := map_tables (Some <$> ts) n h in
  r.1 = (true, ts) /\ h_mallocs r.2 = h_mallocs h /\
  (forall a, is_Some (h_maps h !! a) \/ a ∈ ts -> is_Some (h_maps r.2 !! a)).
Proof.
  cbv zeta. revert h. induction ts as [|t ts IH]; intros h; cbn [fmap list_fmap map_tables mmap_anon].
  { split; [done|]. split; [done|]. intros a [?|Ha]; [done|]. by apply elem_of_nil in Ha. }
  set (h1 := Heap _ _ _ _). destruct (IH h1) as (H1 & H2 & H3).
  destruct (map_tables _ n h1) as [[ok l] h']. cbn [fst snd] in *. injection H1 as -> ->. split; [done|]. split; [done|].
  intros a Ha. apply H3. cbn [h1 h_maps]. rewrite elem_of_cons in Ha. destruct (decide (a = t)) as [->|].
  - left. rewrite lookup_insert_eq. by eexists.
  - rewrite lookup_insert_ne by done. destruct Ha as [Ha|[?|Ha]]; [by left | done | by right].
Qed.

(** ** The arenas and the tables stay mapped *)

(** The arenas, the tables, the block of the cache. *)
Record base := Base { ba_arenas : list Z; ba_tables : list Z; ba_self : Z }.

Section Life.
Context (B : base).
Abbreviation A := (ba_arenas B ++ ba_tables B).

(** The slab has the arenas, they and the tables are mapped, and the block of the cache is
    allocated. *)
Definition arenas_held (sl : vc_slab) (h : heap) : Prop :=
  sc_arena <$> sl = ba_arenas B /\ Forall (fun a => is_Some (h_maps h !! a)) A /\ is_Some (h_mallocs h !! ba_self B).

(** The value of the entry is not mapped at an arena or a table, and its key is not the
    block of the cache. *)
Definition clear_of (e : vc_entry) : Prop :=
  (flag VC_EFLAG_VAL_MMAP e = true -> payload_ptr e (val_off e) ∉ A) /\
  (flag VC_EFLAG_KEY_LONG e = true -> payload_ptr e 0 <> ba_self B).

Definition clear_shard (s : vc_shard) : Prop := Forall clear_of (s_table s).

Definition alive (c : vc_cache) : Prop :=
  arenas_held (c_slab c) (c_heap c) /\ Forall clear_shard (c_shards c) /\
  c_tables c = ba_tables B /\ c_self c = ba_self B.

(** [mmap] returns neither an arena nor a table, and [malloc] not the block of the cache. *)
Definition apart (ev : env) : Prop :=
  (forall a, ev_mmap ev = Some a -> 0 <= a < 2 ^ 64 /\ a ∉ A) /\
  (forall a, ev_malloc ev = Some a -> 0 <= a < 2 ^ 64 /\ a <> ba_self B).

Lemma class_arena_kept (sl : vc_slab) i sc head da df :
  sl !! i = Some sc -> sc_arena <$> <[i := sc_with_head sc head da df]> sl = sc_arena <$> sl.
Proof.
  intros Hi. rewrite list_fmap_insert. apply list_insert_id. by rewrite list_lookup_fmap, Hi.
Qed.

Lemma slab_alloc_held sl sz h h' p cls sl' : slab_alloc sl sz h = (p, cls, sl') -> arenas_held sl h' -> arenas_held sl' h'.
Proof.
  unfold slab_alloc. intros E [Ha Hm]. destruct (sl !! _) as [sc|] eqn:Ei; [|by injection E as <- <- <-].
  destruct (sc_head sc =? 0); injection E as <- <- <-; [done|]. by split; [rewrite class_arena_kept|].
Qed.

Lemma slab_free_held sl p cls h sl' h' : slab_free sl p cls h = (sl', h') -> arenas_held sl h -> arenas_held sl' h'.
Proof.
  unfold slab_free. intros E [Ha Hm]. destruct (sl !! _) as [sc|] eqn:Ei; injection E as <- <-; [|done].
  by split; [rewrite class_arena_kept|].
Qed.

Lemma munmap_held sl a n h h' : a ∉ A -> munmap a n h = Some h' -> arenas_held sl h -> arenas_held sl h'.
Proof.
  intros Ha E (Hs & Hm & Hb). apply unmap_rest in E as (E1 & E2 & _). split; [done|]. split; [|by rewrite E1].
  rewrite Forall_forall in *. intros x Hx. rewrite E2, lookup_delete_ne; [by apply Hm|]. by intros <-.
Qed.

Lemma same_maps_held sl h h' :
  h_maps h' = h_maps h -> h_mallocs h' = h_mallocs h -> arenas_held sl h -> arenas_held sl h'.
Proof. intros E1 E2 (Hs & Hm & Hb). split; [done|]. by rewrite E1, E2. Qed.

Lemma free_held sl a h h' : a <> ba_self B -> free a h = Some h' -> arenas_held sl h -> arenas_held sl h'.
Proof.
  unfold free. intros Ha. destruct (_ !! a); [|done]. intros [= <-] (Hs & Hm & Hb). split; [done|]. split; [done|].
  cbn [h_mallocs]. by rewrite lookup_delete_ne.
Qed.

Lemma mmap_held sl a n h : arenas_held sl h -> arenas_held sl (mmap_anon (Some a) n h).2.
Proof.
  intros (Hs & Hm & Hb). split; [done|]. split; [|done]. rewrite Forall_forall in *. intros x Hx. cbn.
  destruct (decide (x = a)) as [->|]; [rewrite lookup_insert_eq; by eexists | rewrite lookup_insert_ne by done; by apply Hm].
Qed.

Lemma malloc_held sl a n h : arenas_held sl h -> arenas_held sl (malloc (Some a) n h).2.
Proof.
  intros (Hs & Hm & Hb). split; [done|]. split; [done|]. cbn.
  destruct (decide (ba_self B = a)) as [->|]; [rewrite lookup_insert_eq; by eexists | by rewrite lookup_insert_ne].
Qed.

Lemma write_held sl a l h : arenas_held sl h -> arenas_held sl (write h a l).
Proof. by apply same_maps_held. Qed.

Lemma free_resources_held e h sl h' sl' :
  clear_of e -> entry_free_resources e h sl = Some (h', sl') -> arenas_held sl h -> arenas_held sl' h'.
Proof.
  intros [Hc Hk] E Hh. unfold entry_free_resources in E.
  destruct (if flag VC_EFLAG_KEY_LONG e then free (payload_ptr e 0) h else Some h) as [h1|] eqn:E1; [|done].
  assert (H1 : arenas_held sl h1).
  { destruct (flag VC_EFLAG_KEY_LONG e); [eapply free_held; [by apply Hk | exact E1 | done] | by injection E1 as <-]. }
  cbn [mbind option_bind] in E. destruct (flag VC_EFLAG_VAL_SLAB e).
  - destruct (slab_free _ _ _ h1) as [sl2 h2] eqn:E2. injection E as <- <-. by eapply slab_free_held.
  - destruct (flag VC_EFLAG_VAL_MMAP e) eqn:Ef; [|by injection E as <- <-].
    destruct (munmap _ _ h1) as [h2|] eqn:E2; [|done]. injection E as <- <-. eapply munmap_held; [by apply Hc | exact E2 | done].
Qed.

(** ** The entry that is built *)

(** The two pointers of an entry with a long key. *)
Lemma long_ptrs fl hash key val x kb vb :
  Z.land fl VC_EFLAG_KEY_LONG <> 0 ->
  let e := new_entry fl hash key val x (payload_put 8 (le_encode 8 vb) (payload_put 0 (le_encode 8 kb) zero_payload)) in
  (0 <= kb < 2 ^ 64 -> payload_ptr e 0 = kb) /\ (0 <= vb < 2 ^ 64 -> payload_ptr e (val_off e) = vb).
Proof.
  intros Hf e. assert (Hlong : flag VC_EFLAG_KEY_LONG e = true).
  { unfold flag. cbn [e_flags e new_entry]. by rewrite (proj2 (Z.eqb_neq _ 0)). }
  unfold val_off. rewrite Hlong. unfold payload_ptr. cbn [e_payload e new_entry].
  pose proof (payload_put2 (le_encode 8 kb) (le_encode 8 vb)) as Hp. rewrite length_le_encode in Hp. change (Z.of_nat 8) with 8 in Hp.
  rewrite Hp by (rewrite !length_le_encode; lia). change (Z.to_nat 8) with 8%nat. change (Z.to_nat 0) with 0%nat. split; intros Hr.
  - rewrite drop_0, take_app_le by (rewrite length_le_encode; lia). rewrite take_ge by (rewrite length_le_encode; lia).
    rewrite le_decode_encode. apply Z.mod_small. lia.
  - rewrite drop_app_ge by (rewrite length_le_encode; lia). rewrite length_le_encode, Nat.sub_diag, drop_0.
    rewrite take_app_le by (rewrite length_le_encode; lia). rewrite take_ge by (rewrite length_le_encode; lia).
    rewrite le_decode_encode. apply Z.mod_small. lia.
Qed.

Lemma long_ptr fl hash key val x kb vb :
  0 <= vb < 2 ^ 64 -> Z.land fl VC_EFLAG_KEY_LONG <> 0 ->
  let e := new_entry fl hash key val x (payload_put 8 (le_encode 8 vb) (payload_put 0 (le_encode 8 kb) zero_payload)) in
  payload_ptr e (val_off e) = vb.
Proof. intros Hv Hf. by apply long_ptrs. Qed.

Lemma long_clear fl hash key val x kb vb :
  Z.land fl VC_EFLAG_KEY_LONG <> 0 -> 0 <= kb < 2 ^ 64 -> kb <> ba_self B ->
  (Z.land fl VC_EFLAG_VAL_MMAP <> 0 -> 0 <= vb < 2 ^ 64 /\ vb ∉ A) ->
  clear_of (new_entry fl hash key val x (payload_put 8 (le_encode 8 vb) (payload_put 0 (le_encode 8 kb) zero_payload))).
Proof.
  intros H1 H2 H3 H4. destruct (long_ptrs fl hash key val x kb vb H1) as [P1 P2]. split; [|by rewrite P1].
  intros Hf. destruct H4 as [H4 H5]; [|by rewrite P2].
  unfold flag in Hf. cbn [e_flags new_entry] in Hf. by destruct (Z.eqb_spec (Z.land fl VC_EFLAG_VAL_MMAP) 0).
Qed.

Lemma build_held ev key val ttl hash h sl r :
  apart ev -> arenas_held sl h -> build_entry ev key val ttl hash h sl = Some r ->
  match r with
  | inl (h', sl') => arenas_held sl' h'
  | inr (ne, h', sl', _) => arenas_held sl' h' /\ clear_of ne
  end.
Proof.
  intros [Hap Hap'] Hh E. unfold build_entry in E. cbv zeta in E. destruct (_ && _); [injection E as <-; by split|].
  destruct (_ <=? slab_class_size _).
  - destruct (slab_alloc sl _ h) as [[vb cls] sl1] eqn:E1. pose proof (slab_alloc_held _ _ _ h _ _ _ E1 Hh) as H1.
    destruct vb as [vb|]; [|by injection E as <-]. destruct (_ <=? 32 - 8); [injection E as <-; by split; [apply write_held|]|].
    pose proof (malloc_held sl1) as Hm. unfold malloc in E, Hm. destruct (ev_malloc ev) as [kb|].
    + injection E as <-. destruct (Hap' kb eq_refl) as [Hr Hn]. split; [by apply write_held, (Hm kb _ (write h vb val)), write_held|].
      by apply long_clear.
    + destruct (slab_free _ _ _ _) as [sl2 h2] eqn:E2. injection E as <-. eapply slab_free_held; [exact E2|]. by apply write_held.
  - pose proof (mmap_held sl) as Hm. unfold mmap_anon in E, Hm. destruct (ev_mmap ev) as [vb|] eqn:Ev; [|by injection E as <-].
    destruct (Hap vb eq_refl) as [Hr Hn]. specialize (Hm vb (Z.of_nat (length val)) h Hh). cbn [snd] in Hm.
    pose proof (malloc_held sl) as Hk. unfold malloc in E, Hk. destruct (ev_malloc ev) as [kb|].
    + injection E as <-. destruct (Hap' kb eq_refl) as [Hr' Hn']. split; [exact (write_held _ kb key _ (Hk kb (Z.of_nat (length key)) _ (write_held _ vb val _ Hm)))|]. by apply long_clear.
    + destruct (munmap vb _ _) as [h3|] eqn:E3; [|done]. injection E as <-. eapply munmap_held; [exact Hn | exact E3|]. by apply write_held.
Qed.

(** ** Tables *)

Lemma clear_insert (tbl : list vc_entry) i e : Forall clear_of tbl -> clear_of e -> Forall clear_of (<[i := e]> tbl).
Proof. intros. by apply Forall_insert. Qed.

Lemma clear_lookup (tbl : list vc_entry) i e : Forall clear_of tbl -> tbl !! i = Some e -> clear_of e.
Proof. intros H E. exact (Forall_lookup_1 _ _ _ _ H E). Qed.

Lemma clear_set_state st i tbl : Forall clear_of tbl -> Forall clear_of (set_slot_state st i tbl).
Proof.
  intros H. unfold set_slot_state. destruct (tbl !! _) as [e|] eqn:E; [|done]. apply clear_insert; [done|].
  by eapply clear_lookup in E.
Qed.

Lemma kill_held i s h sl s' h' sl' :
  kill_slot i s h sl = Some (s', h', sl') -> arenas_held sl h -> clear_shard s -> arenas_held sl' h' /\ clear_shard s'.
Proof.
  intros E Hh Hc. unfold kill_slot in E. destruct (s_table s !! _) as [e|] eqn:He; [|done]. cbn [mbind option_bind] in E.
  destruct (entry_free_resources e h sl) as [[h1 sl1]|] eqn:Ef; [|done]. injection E as <- <- <-.
  split; [eapply free_resources_held; [by eapply clear_lookup | exact Ef | done]|]. by apply clear_set_state.
Qed.

Lemma evict_loop_clear fuel tbl cap h : Forall clear_of tbl -> Forall clear_of (evict_loop fuel tbl cap h).1.
Proof.
  revert tbl h. induction fuel as [|fuel IH]; intros tbl h Hc; cbn [evict_loop]; [done|]. cbv zeta.
  destruct (tbl !! _) as [e|] eqn:He; [|done]. repeat case_match; try done; apply IH; [done|].
  apply clear_insert; [done|]. by eapply clear_lookup in He.
Qed.

Lemma evict_held s h sl v s' h' sl' :
  shard_evict_one s h sl = Some (v, s', h', sl') -> arenas_held sl h -> clear_shard s -> arenas_held sl' h' /\ clear_shard s'.
Proof.
  intros E Hh Hc. unfold shard_evict_one in E.
  pose proof (evict_loop_clear (Z.to_nat (s_cap s)) (s_table s) (s_cap s) (s_clock_hand s) Hc) as Ht.
  destruct (evict_loop _ _ _ _) as [tbl [w|]]; cbn [fst] in Ht; [|by injection E as <- <- <- <-].
  destruct (tbl !! Z.to_nat w) as [e|] eqn:He; [|done]. cbn [mbind option_bind] in E.
  destruct (entry_free_resources e h sl) as [[h1 sl1]|] eqn:Ef; [|done]. injection E as <- <- <- <-.
  split; [eapply free_resources_held; [by eapply clear_lookup | exact Ef | done]|].
  change (Forall clear_of (set_slot_state DEAD w (set_slot_state BUSY w tbl))). by do 2 apply clear_set_state.
Qed.

Lemma insert_loop_clear fuel tbl cap slot inc :
  Forall clear_of tbl -> clear_of inc -> Forall clear_of (insert_loop fuel tbl cap slot inc).1.
Proof.
  revert tbl slot inc. induction fuel as [|fuel IH]; intros tbl slot inc Hc Hi; cbn [insert_loop]; [done|].
  destruct (tbl !! _) as [e|] eqn:He; [|done]. case_match; [by apply clear_insert|].
  destruct (bool_decide (e_state e = LIVE) && _); apply IH; try done; [by apply clear_insert|].
  by eapply clear_lookup in He.
Qed.

Lemma shard_insert_clear s ne : clear_shard s -> clear_of ne -> clear_shard (shard_insert s ne).1.
Proof.
  intros Hs Hn. unfold shard_insert. cbv zeta.
  pose proof (insert_loop_clear (Z.to_nat (s_cap s)) (s_table s) (s_cap s) (table_slot (e_key_hash (with_dist 0 ne)) (s_cap s)) (with_dist 0 ne) Hs Hn) as H.
  by destruct (insert_loop _ _ _ _ _).
Qed.

(** ** Operations *)

Lemma lock_table s s' : shard_lock s = Some s' -> s_table s' = s_table s.
Proof. unfold shard_lock. case_match; [|done]. by intros [= <-]. Qed.

Lemma set_locked_held now key ne s h sl s' h' sl' :
  set_locked now key ne s h sl = Some (s', h', sl') -> arenas_held sl h -> clear_shard s -> clear_of ne -> arenas_held sl' h' /\ clear_shard s'.
Proof.
  intros E Hh Hc Hn. unfold set_locked in E. destruct (shard_lock s) as [s1|] eqn:El; [|done]. cbn [mbind option_bind] in E. cbv zeta in E.
  assert (Hc1 : clear_shard (seq_write_begin s1)) by (unfold clear_shard; cbn; by rewrite (lock_table _ _ El)).
  destruct (match shard_find _ _ _ _ _ _ with Some _ => _ | None => _ end) as [[[s2 h2] sl2]|] eqn:E2; [|done].
  assert (H2 : arenas_held sl2 h2 /\ clear_shard s2).
  { destruct (shard_find _ _ _ _ _ _); [by eapply kill_held|]. by injection E2 as <- <- <-. }
  cbn [mbind option_bind] in E. destruct (s_cap s2 =? 0); [done|].
  destruct (if must_evict s2 then _ else _) as [[[s3 h3] sl3]|] eqn:E3; [|done].
  assert (H3 : arenas_held sl3 h3 /\ clear_shard s3).
  { destruct (must_evict s2); [|by injection E3 as <- <- <-].
    destruct (shard_evict_one s2 h2 sl2) as [[[[v s4] h4] sl4]|] eqn:Ee; [|done]. cbn [mbind option_bind] in E3. injection E3 as <- <- <-.
    by eapply evict_held; [exact Ee | apply H2 | apply H2]. }
  cbn [mbind option_bind] in E. pose proof (shard_insert_clear s3 ne (proj2 H3) Hn) as H4.
  destruct (shard_insert s3 ne) as [s5 drop]. injection E as <- <- <-. by split; [apply H3|].
Qed.

Lemma alive_insert c i s h sl : alive c -> arenas_held sl h -> clear_shard s ->
  alive (with_shards (<[i := s]> (c_shards c)) (with_mem h sl c)).
Proof. intros (_ & Hc & Hb) Hh Hs. split; [done|]. split; [by apply Forall_insert | done]. Qed.

Lemma vc_set_alive ev c ky val ttl err c' : apart ev -> vc_set ev c ky val ttl = Some (err, c') -> alive c -> alive c'.
Proof.
  intros Hap E Ha. unfold vc_set in E. destruct (_ || _); [by injection E as <- <-|]. cbv zeta in E.
  destruct (wal_append _ _ _ _ _ _) as [w|]; [|done]. cbn [mbind option_bind] in E.
  destruct (build_entry _ _ _ _ _ _ _) as [r|] eqn:Eb; [|done]. apply build_held in Eb; [|exact Hap | exact (proj1 Ha)]. cbn [mbind option_bind] in E.
  destruct r as [[h1 sl1]|[[[ne h1] sl1] grow]]; [apply some_pair in E as [<- <-]; exact (conj Eb (proj2 Ha))|].
  destruct Eb as [Hh Hn]. destruct (c_shards (with_wal w c) !! _) as [s|] eqn:Es; [|done]. cbn [mbind option_bind] in E.
  assert (Hs : clear_shard s) by exact (Forall_lookup_1 _ _ _ _ (proj1 (proj2 Ha)) Es).
  destruct (set_locked _ _ _ _ _ _) as [[[s2 h2] sl2]|] eqn:El; [|done]. apply some_pair in E as [<- <-].
  destruct (set_locked_held _ _ _ _ _ _ _ _ _ El Hh Hs Hn) as [H1 H2].
  split; [exact H1|]. split; [|exact (proj2 (proj2 Ha))]. apply Forall_insert; [exact (proj1 (proj2 Ha)) | exact H2].
Qed.

Lemma touch_clear j s : clear_shard s -> clear_shard (touch j s).
Proof.
  intros Hs. unfold touch. destruct (s_table s !! _) as [e|] eqn:He; [|done]. apply clear_insert; [done|].
  by eapply clear_lookup in He.
Qed.

Lemma get_locked_clear h now s key hash o s' : get_locked h now s key hash = Some (o, s') -> clear_shard s -> clear_shard s'.
Proof.
  intros E Hs. unfold get_locked in E. destruct (shard_lock s) as [s1|] eqn:El; [|done]. cbn [mbind option_bind] in E.
  assert (H1 : clear_shard s1) by (unfold clear_shard; by rewrite (lock_table _ _ El)).
  destruct (shard_find _ _ _ _ _ _) as [j|]; [|by injection E as <- <-].
  destruct (s_table s1 !! _); [|done]. injection E as <- <-. exact (touch_clear j s1 H1).
Qed.

Lemma vc_get_alive ev c ky err o c' : vc_get ev c ky = Some (err, o, c') -> alive c -> alive c'.
Proof.
  intros E (Hh & Hc & Hb). unfold vc_get in E. cbv zeta in E. destruct (c_shards c !! _) as [s|] eqn:Es; [|done]. cbn [mbind option_bind] in E.
  assert (Hs : clear_shard s) by exact (Forall_lookup_1 _ _ _ _ Hc Es).
  assert (Hput : forall i s', clear_shard s' -> alive (with_shards (<[i := s']> (c_shards c)) c)).
  { intros i s' Hs'. split; [done|]. split; [by apply Forall_insert | done]. }
  destruct (get_fast _ _ _ _ _ _) as [[|j r|]|]; [|..|done]; cbn [mbind option_bind] in E.
  - apply some_pair in E as [E <-]. by apply Hput.
  - apply some_pair in E as [E <-]. apply Hput. exact (touch_clear j s Hs).
  - destruct (get_locked _ _ _ _ _) as [[o' s']|] eqn:El; [|done]. apply some_pair in E as [E <-]. apply Hput.
    by eapply get_locked_clear.
Qed.

Lemma vc_del_alive ev c ky err c' : vc_del ev c ky = Some (err, c') -> alive c -> alive c'.
Proof.
  intros E (Hh & Hc & Hb). unfold vc_del in E. cbv zeta in E. destruct (wal_append _ _ _ _ _ _) as [w|]; [|done]. cbn [mbind option_bind] in E.
  destruct (c_shards (with_wal w c) !! _) as [s|] eqn:Es; [|done]. cbn [mbind option_bind] in E.
  assert (Hs : clear_shard s) by exact (Forall_lookup_1 _ _ _ _ Hc Es).
  destruct (shard_lock s) as [s1|] eqn:El; [|done]. cbn [mbind option_bind] in E.
  assert (H1 : clear_shard (seq_write_begin s1)) by (unfold clear_shard; cbn; by rewrite (lock_table _ _ El)).
  destruct (shard_find _ _ _ _ _ _) as [j|].
  - destruct (kill_slot _ _ _ _) as [[[s2 h2] sl2]|] eqn:Ek; [|done]. apply some_pair in E as [<- <-].
    destruct (kill_held _ _ _ _ _ _ _ Ek Hh H1) as [H2 H3]. split; [done|]. by split; [apply Forall_insert|].
  - apply some_pair in E as [<- <-]. split; [done|]. by split; [apply Forall_insert|].
Qed.

Lemma flush_slots_held n : forall j tbl h sl tbl' h' sl',
  flush_slots j n tbl h sl = Some (tbl', h', sl') -> arenas_held sl h -> Forall clear_of tbl -> arenas_held sl' h' /\ Forall clear_of tbl'.
Proof.
  induction n as [|n IH]; intros j tbl h sl tbl' h' sl' E Hh Hc; cbn [flush_slots] in E; [by injection E as <- <- <-|].
  destruct (tbl !! j) as [e|] eqn:He; [|done]. cbn [mbind option_bind] in E. pose proof (clear_lookup _ _ _ Hc He) as Hce.
  case_bool_decide; [|by eapply IH]. destruct (entry_free_resources e h sl) as [[h1 sl1]|] eqn:Ef; [|done]. cbn [mbind option_bind] in E.
  eapply IH; [exact E | by eapply free_resources_held|]. by apply clear_insert.
Qed.

Lemma flush_shards_held l : forall h sl l' h' sl',
  flush_shards l h sl = Some (l', h', sl') -> arenas_held sl h -> Forall clear_shard l -> arenas_held sl' h' /\ Forall clear_shard l'.
Proof.
  induction l as [|s l IH]; intros h sl l' h' sl' E Hh Hc; cbn [flush_shards] in E; [by injection E as <- <- <-|].
  apply Forall_cons in Hc as [Hs Hl]. unfold flush_shard in E. destruct (shard_lock s) as [s1|] eqn:El; [|done]. cbn [mbind option_bind] in E. cbv zeta in E.
  destruct (flush_slots _ _ _ h sl) as [[[tbl h1] sl1]|] eqn:Ef; [|done]. cbn [mbind option_bind] in E.
  destruct (flush_shards l h1 sl1) as [[[l1 h2] sl2]|] eqn:E1; [|done]. injection E as <- <- <-.
  apply flush_slots_held in Ef as [H1 H2]; [|done | cbn; by rewrite (lock_table _ _ El)].
  destruct (IH _ _ _ _ _ E1 H1 Hl) as [H3 H4]. by split; [|constructor].
Qed.

Lemma vc_flush_alive c c' : vc_flush c = Some c' -> alive c -> alive c'.
Proof.
  intros E (Hh & Hc & Hb). unfold vc_flush in E. destruct (flush_shards _ _ _) as [[[l h] sl]|] eqn:Ef; [|done]. injection E as <-.
  destruct (flush_shards_held _ _ _ _ _ _ Ef Hh Hc) as [H1 H2]. by split.
Qed.

Lemma exec_alive ev o c c' : apart ev -> exec ev o c = Some c' -> alive c -> alive c'.
Proof.
  intros Hap E Ha. destruct o as [ky val ttl|ky|ky|]; cbn [exec] in E.
  - destruct (vc_set _ _ _ _ _) as [[err x]|] eqn:Es; [|done]. injection E as <-. by eapply vc_set_alive.
  - destruct (vc_get _ _ _) as [[[err out] x]|] eqn:Es; [|done]. injection E as <-. by eapply vc_get_alive.
  - destruct (vc_del _ _ _) as [[err x]|] eqn:Es; [|done]. injection E as <-. by eapply vc_del_alive.
  - by eapply vc_flush_alive.
Qed.

(** ** Destruction *)

Lemma destroy_slots_held tbl : forall h sl h' sl',
  destroy_slots tbl h sl = Some (h', sl') -> arenas_held sl h -> Forall clear_of tbl -> arenas_held sl' h'.
Proof.
  induction tbl as [|e tbl IH]; intros h sl h' sl' E Hh Hc; cbn [destroy_slots] in E; [by injection E as <- <-|].
  apply Forall_cons in Hc as [He Hc]. case_bool_decide; [|by eapply IH].
  destruct (entry_free_resources e h sl) as [[h1 sl1]|] eqn:Ef; [|done]. eapply IH; [exact E | by eapply free_resources_held | done].
Qed.

End Life.

(** Releasing entries maps nothing. *)
Lemma free_resources_maps e h sl h' sl' a :
  entry_free_resources e h sl = Some (h', sl') -> h_maps h !! a = None -> h_maps h' !! a = None.
Proof.
  unfold entry_free_resources. intros E Ha.
  destruct (if flag VC_EFLAG_KEY_LONG e then free (payload_ptr e 0) h else Some h) as [h1|] eqn:E1; [|done].
  assert (H1 : h_maps h1 !! a = None).
  { destruct (flag VC_EFLAG_KEY_LONG e); [|by injection E1 as <-]. unfold free in E1. destruct (_ !! _); [|done]. by injection E1 as <-. }
  cbn [mbind option_bind] in E. destruct (flag VC_EFLAG_VAL_SLAB e).
  - unfold slab_free in E. destruct (sl !! _); by injection E as <- <-.
  - destruct (flag VC_EFLAG_VAL_MMAP e); [|by injection E as <- <-].
    destruct (munmap _ _ h1) as [h2|] eqn:E2; [|done]. injection E as <- <-. apply unmap_rest in E2 as (_ & -> & _).
    by rewrite lookup_delete_None; right.
Qed.

Lemma destroy_slots_maps tbl : forall h sl h' sl' a,
  destroy_slots tbl h sl = Some (h', sl') -> h_maps h !! a = None -> h_maps h' !! a = None.
Proof.
  induction tbl as [|e tbl IH]; intros h sl h' sl' a E Ha; cbn [destroy_slots] in E; [by injection E as <- <-|].
  case_bool_decide; [|by eapply IH]. destruct (entry_free_resources e h sl) as [[h1 sl1]|] eqn:Ef; [|done].
  eapply IH; [exact E | by eapply free_resources_maps].
Qed.

(** Unmapping something else leaves the entries as they are. *)
Lemma mem_inv_unmap t n h h' L sl :
  munmap t n h = Some h' -> Forall (fun e => flag VC_EFLAG_VAL_MMAP e = true -> payload_ptr e (val_off e) <> t) L ->
  mem_inv h L sl -> mem_inv h' L sl.
Proof.
  intros E Hc (F & Hs & Hw & Hd). apply unmap_rest in E as (Em & Ep & Eb). exists F. rewrite Eb. split; [done|]. split; [|done].
  rewrite Forall_forall in *. intros e He. destruct (Hw e He) as [W1 W2 W3 W4 W5 W6 W7 W8].
  constructor; rewrite ?Eb, ?Em, ?Ep; try done. intros Hf. rewrite lookup_delete_ne; [by apply W8|]. intros ->. by apply (Hc e He Hf).
Qed.

(** The entries of a shard that is clear of some regions. *)
Lemma lives_clear B l :
  Forall (clear_shard B) l -> Forall (fun e => flag VC_EFLAG_VAL_MMAP e = true -> payload_ptr e (val_off e) ∉ ba_arenas B ++ ba_tables B) (all_lives l).
Proof.
  intros H. apply Forall_forall. intros x Hx. apply list_elem_of_bind in Hx as (s & Hx & Hs).
  rewrite Forall_forall in H. specialize (H s Hs). apply lives_elem_inv in Hx as (j & e & Hj & _ & ->).
  by apply (clear_lookup B _ _ _ H Hj).
Qed.

Lemma clear_fewer As t ts self s : clear_shard (Base As (t :: ts) self) s -> clear_shard (Base As ts self) s.
Proof.
  intros H. eapply Forall_impl; [exact H|]. intros e [H1 H2]. split; [|done]. intros Hf Hin. apply H1; [done|].
  cbn [ba_arenas ba_tables] in *. rewrite elem_of_app in *. rewrite elem_of_cons. tauto.
Qed.

(** All shards: each table is unmapped once, the arenas and the block of the cache stay. *)
Lemma destroy_shards_total As self tb l : forall ts h sl,
  length ts = length l -> NoDup (As ++ ts) -> mem_inv h (all_lives l) sl ->
  arenas_held (Base As ts self) sl h -> Forall (clear_shard (Base As ts self)) l ->
  exists h' sl', destroy_shards tb l ts h sl = Some (h', sl') /\ arenas_held (Base As [] self) sl' h' /\
    (forall a, a ∈ ts \/ h_maps h !! a = None -> h_maps h' !! a = None).
Proof.
  induction l as [|s l IH]; intros [|t ts] h sl Hlen Hnd Hm Hh Hc; try done; cbn [destroy_shards].
  { exists h, sl. split; [done|]. split; [done|]. intros a [Ha|Ha]; [by apply elem_of_nil in Ha | done]. }
  pose proof Hc as Hcl. apply Forall_cons in Hc as [Hs Hc]. unfold all_lives in Hm. rewrite bind_cons in Hm. fold (all_lives l) in Hm.
  destruct (destroy_slots_spec _ _ _ _ Hm) as (h1 & sl1 & E1 & Hm1). rewrite E1. cbn [mbind option_bind].
  pose proof (destroy_slots_held _ _ _ _ _ _ E1 Hh Hs) as (Ha1 & Hf1 & Hb1).
  assert (Ht : is_Some (h_maps h1 !! t)).
  { rewrite Forall_forall in Hf1. apply Hf1. cbn. apply elem_of_app. right. left. }
  destruct Ht as [nt Ht]. assert (E2 : exists h2, munmap t tb h1 = Some h2) by (unfold munmap; rewrite Ht; by eexists).
  destruct E2 as [h2 E2]. rewrite E2. cbn [mbind option_bind].
  assert (Hm2 : mem_inv h2 (all_lives l) sl1).
  { eapply mem_inv_unmap; [exact E2 | | exact Hm1]. eapply Forall_impl; [exact (lives_clear _ _ Hc)|].
    intros e He Hf Heq. apply (He Hf). rewrite Heq. cbn [ba_arenas ba_tables]. apply elem_of_app. right. left. }
  pose proof (unmap_rest _ _ _ _ E2) as (Em & Ep & _).
  destruct (IH ts h2 sl1) as (h' & sl' & E' & Hh' & Hg); [cbn in Hlen; lia | | done | | |].
  - apply NoDup_app in Hnd as (N1 & N2 & N3). apply NoDup_cons in N3 as [N3 N4]. apply NoDup_app. split; [done|]. split; [|done].
    intros x Hx Hx'. apply (N2 x Hx). by right.
  - split; [done|]. split; [|by rewrite Em]. apply Forall_forall. intros x Hx. rewrite Ep, lookup_delete_ne.
    + rewrite Forall_forall in Hf1. apply Hf1. cbn in *. rewrite elem_of_app, elem_of_cons in *. tauto.
    + intros ->. apply NoDup_app in Hnd as (_ & N2 & N3). apply NoDup_cons in N3 as [N3 _]. cbn in Hx. apply elem_of_app in Hx as [Hx|Hx]; [|done].
      apply (N2 _ Hx). left.
  - eapply Forall_impl; [exact Hc|]. intros. by eapply clear_fewer.
  - exists h', sl'. split; [exact E'|]. split; [done|]. intros a Ha. apply Hg. rewrite elem_of_cons in Ha.
    rewrite Ep. destruct Ha as [[->|Ha]|Ha]; [right; apply lookup_delete_eq | by left |].
    right. rewrite lookup_delete_None. right. by eapply destroy_slots_maps.
Qed.

(** What is left of the memory of [vc_create]: nothing. *)
Definition all_released (B : base) (h : heap) : Prop :=
  Forall (fun a => h_maps h !! a = None) (ba_arenas B ++ ba_tables B) /\ h_mallocs h !! ba_self B = None.

(** Arenas and tables at different addresses, none of them NULL. *)
Definition base_ok (B : base) : Prop :=
  NoDup (ba_arenas B ++ ba_tables B) /\ Forall (fun a => a <> 0) (ba_arenas B) /\ length (ba_tables B) = 64%nat.

Lemma alive_destroyed B k c : base_ok B -> cache_wf k c -> alive B c ->
  exists h, vc_destroy c = Some (h, wal_destroy (c_wal c)) /\ all_released B h.
Proof.
  destruct B as [As ts self]. intros (Hnd & Hz & Hlen) Hwf (Hh & Hc & Et & Es). cbn in Hz, Hlen, Et, Es. unfold vc_destroy.
  destruct (lookup_lt_is_Some_2 (c_shards c) 0) as [s0 ->]; [rewrite (cwf_len _ _ Hwf); apply Nat.ltb_lt; reflexivity|].
  cbn [mbind option_bind]. cbv zeta. rewrite Et, Es.
  destruct (destroy_shards_total As self (s_cap s0 * ENTRY_SIZE) (c_shards c) ts (c_heap c) (c_slab c)) as (h & sl & -> & (Ha & Hm & Hb) & Hg);
    [by rewrite (cwf_len _ _ Hwf), Hlen | done | apply Hwf | done | done |].
  cbn [mbind option_bind ba_arenas ba_tables ba_self] in *. rewrite app_nil_r in Hm.
  destruct (slab_destroy_some sl h) as [h2 E2]; [rewrite Ha; by apply NoDup_app in Hnd as [? _] | by rewrite Ha |].
  rewrite E2. cbn [mbind option_bind]. destruct (slab_destroy_gone sl h h2) as [Em Hgone]; [by rewrite Ha | done|].
  unfold free. rewrite Em. destruct Hb as [nb Hb]. rewrite Hb. cbn [mbind option_bind]. eexists. split; [done|].
  split; cbn [h_maps h_mallocs ba_arenas ba_tables ba_self]; [|rewrite <- Em; apply lookup_delete_eq].
  apply Forall_app. split; apply Forall_forall; intros a Hin; apply Hgone; [right; by rewrite Ha | left; apply Hg; by left].
Qed.

(** ** From creation to destruction *)

(** The system grants the memory of [vc_create], at the addresses of [B]. *)
Record granted (arena_bytes : Z) (ce : create_env) (B : base) : Prop := {
  gr_env : create_env_ok arena_bytes ce (ba_arenas B);
  gr_self : ce_cache ce = Some (ba_self B);
  gr_tables : ce_tables ce = Some <$> ba_tables B;
  gr_base : base_ok B
}.

Lemma create_alive arena_bytes ce B max_mem path slots h c h' :
  granted arena_bytes ce B -> vc_create arena_bytes ce max_mem path slots h = Some (Some c, h') -> alive B c.
Proof.
  intros [[_ _ Ea Hl _ _ _] Eself Et Hb] E. unfold vc_create in E. rewrite Eself in E. cbn [malloc] in E.
  set (h0 := Heap _ _ _ _) in E. destruct (slab_init arena_bytes (ce_arenas ce) h0) as [[err sl] h1] eqn:Es.
  destruct err; try by (destruct (free _ h1); done). destruct (wal_init path (ce_wal ce)) as [err w]. cbv zeta in E.
  destruct err; try by (destruct (slab_destroy sl h1) as [h2|]; [|done]; cbn [mbind option_bind] in E; destruct (free _ h2); done).
  rewrite Et, take_ge in E by (rewrite length_fmap, (proj2 (proj2 Hb)); done).
  match type of E with context [map_tables _ ?n h1] => pose proof (map_tables_maps (ba_tables B) n h1) as Hmt end.
  destruct (map_tables _ _ h1) as [[ok ts] h2]. cbn [fst snd] in Hmt. destruct Hmt as (Eq & Em & Hmaps). injection Eq as -> ->.
  match type of E with Some (Some ?x, _) = _ => assert (c = x) as -> by congruence end.
  unfold slab_init in Es. rewrite Ea, take_ge in Es by (rewrite length_fmap, Hl; done).
  destruct (slab_init_maps _ _ _ _ _ _ _ Es) as (Harena & Hmaps1 & Hmal). split; [|split; [|done]].
  - split; [exact Harena|]. cbn [c_heap]. split; [|rewrite Em, Hmal; cbn; rewrite lookup_insert_eq; by eexists].
    apply Forall_forall. intros a Ha. apply Hmaps. apply elem_of_app in Ha as [Ha|Ha]; [left; apply Hmaps1; by right | by right].
  - apply Forall_replicate. by apply Forall_replicate.
Qed.

Lemma run_alive B k ops c c' :
  Forall (fun x => apart B x.1) ops -> run_ops ops c = Some c' -> alive B c -> cache_wf k c ->
  Forall (op_logged (c_wal c)) ops.*2 -> run_fresh ops c -> alive B c' /\ cache_wf k c'.
Proof.
  revert c. induction ops as [|[ev o] ops IH]; intros c Hap E Ha Hwf Hl Hf; cbn [run_ops] in E; [by injection E as <-|].
  apply Forall_cons in Hap as [Hap1 Hap]. apply Forall_cons in Hl as [Hl1 Hl]. destruct Hf as [Hf1 Hf2].
  destruct (exec_safe k ev o c Hwf Hf1 Hl1) as (c1 & E1 & Hwf1 & Hs1). rewrite E1 in E. cbn [mbind option_bind] in E.
  apply (IH c1); [done | exact E | by eapply exec_alive | done | | by apply Hf2].
  eapply Forall_impl; [exact Hl|]. intros x. by apply op_logged_same.
Qed.


Definition mini_base : base := Base mini_arenas mini_tables 64.

Lemma mini_granted : granted 64 mini_env mini_base.
Proof.
  constructor; [apply mini_env_ok | done | done|]. repeat split; apply (bool_decide_unpack _); vm_compute; exact I.
Qed.

