(* ===== verification/Capacity.v ===== *)
(** * The capacity of the slab

    Every block that a class has free or an entry uses was cut from the arena of the class
    at creation, as long as no value is longer than the 16-bit length of an entry.  A cache
    therefore never holds more values of a class than its arena has blocks, whatever the
    number of slots. *)

From S2P Require Import Prelude Hash Slab Entry Shard Wal Cache CacheInv CacheSafe CacheSpec CacheThm CacheLife.

(** ** The free lists are determined by the memory *)

Lemma free_chain_unique m head l l' : free_chain m head l -> free_chain m head l' -> l = l'.
Proof.
  revert head l'. induction l as [|p l IH]; intros head [|q l'] H H'; [done | | |]; cbn in H, H'.
  - destruct H' as (-> & Hq & _). done.
  - destruct H as (-> & Hp & _). done.
  - destruct H as (-> & _ & H), H' as (-> & _ & H'). f_equal. by eapply IH.
Qed.

Lemma slab_ok_unique m sl F F' : slab_ok m sl F -> slab_ok m sl F' -> F = F'.
Proof.
  intros (Hl & HF & H) (_ & HF' & H'). apply list_eq_same_length with (n := VC_SLAB_CLASSES); [done | done|].
  intros c ps ps' Hc Hp Hp'. destruct (lookup_lt_is_Some_2 sl c) as [sc Hsc]; [lia|].
  eapply free_chain_unique; [apply (H c sc ps Hsc Hp) | apply (H' c sc ps' Hsc Hp')].
Qed.

(** ** What [vc_set] does, with the entry it builds *)

Lemma vc_set_cases k c ev ky val ttl err c' :
  cache_wf k c -> env_fresh c ev ky val -> vc_set ev c ky val ttl = Some (err, c') ->
  (c_heap c' = c_heap c /\ c_slab c' = c_slab c /\ c_shards c' = c_shards c) \/
  (ky <> [] /\ val <> [] /\ Z.of_nat (length ky) < 2 ^ 32 /\
   exists r, build_entry ev ky val ttl (wyhash64 ky 0) (c_heap c) (c_slab c) = Some r /\
   match r with
   | inl (h1, sl1) => c_heap c' = h1 /\ c_slab c' = sl1 /\ c_shards c' = c_shards c
   | inr (ne, h1, sl1, _) => exists s s2 L gone,
       c_shards c !! home ky = Some s /\ all_lives (c_shards c) ≡ₚ lives (s_table s) ++ L /\
       all_lives (c_shards c') ≡ₚ lives (s_table s2) ++ L /\ mem_inv h1 (core ne :: lives (s_table s) ++ L) sl1 /\
       Z.to_nat (shard_idx (e_key_hash ne)) = home ky /\
       set_locked (ev_mono2 ev) ky ne s h1 sl1 = Some (s2, c_heap c', c_slab c') /\
       core ne :: lives (s_table s) ≡ₚ gone ++ lives (s_table s2)
   end).
Proof.
  intros Hwf Hfresh E.
  destruct (decide (ky = [] \/ val = [] \/ UINT32_MAX < Z.of_nat (length ky))) as [Hg|Hg].
  { rewrite vc_set_guard in E by exact Hg. apply some_pair in E as [_ <-]. by left. }
  right. assert (ky <> [] /\ val <> [] /\ Z.of_nat (length ky) < 2 ^ 32) as (Hky & Hval & Hmax32).
  { unfold UINT32_MAX in Hg. split; [tauto|]. split; [tauto | lia]. }
  split; [done|]. split; [done|]. split; [done|].
  unfold vc_set in E. replace (_ || _ || _) with false in E by (rewrite !bool_decide_false by done; unfold UINT32_MAX; simpl; lia).
  cbv zeta in E. destruct (wal_append _ _ _ _ _ _) as [w|]; [|done]. cbn [mbind option_bind c_heap c_slab c_shards with_wal] in E.
  pose proof (cwf_mem _ _ Hwf) as (F & Hres).
  destruct (build_entry_spec ev ky val ttl (c_heap c) (c_slab c) _ F Hky Hval Hmax32 Hres (Hfresh F (proj1 Hres))) as (r & Eb & Hbo).
  rewrite Eb in E. cbn [mbind option_bind] in E. exists r. split; [exact Eb|].
  destruct r as [[h1 sl1]|[[[ne h1] sl1] grow]]; [by apply some_pair in E as [_ <-]|].
  destruct Hbo as (Hbu & Hm1 & _). destruct (c_shards c !! _) as [s|] eqn:Es; [|done]. cbn [mbind option_bind] in E.
  destruct (all_lives_insert _ _ _ Es) as (L & HL & HL'). rewrite mem_inv_core, HL in Hm1.
  assert (Hhome : Z.to_nat (shard_idx (e_key_hash ne)) = home ky) by (by rewrite (bu_hash _ _ _ _ _ Hbu)).
  destruct (set_locked_spec k (cwf_k _ _ Hwf) (home ky) (ev_mono2 ev) ky ne s h1 sl1 L (cwf_shards _ _ Hwf _ _ Es) Hm1 Hhome)
    as (s2 & h2 & sl2 & old & L1 & gone & L2 & dropped & El & _ & P1 & P2 & P3 & _).
  rewrite El in E. cbn [mbind option_bind] in E. apply some_pair in E as [_ <-].
  exists s, s2, L, (old ++ gone ++ dropped). split; [reflexivity|]. split; [exact HL|]. split; [exact (HL' s2)|]. split; [exact Hm1|].
  split; [exact Hhome|]. split; [exact El|].
  transitivity (old ++ gone ++ core ne :: L2); [|by rewrite P3, !app_assoc]. rewrite P1, P2, (app_assoc old gone (core ne :: L2)), app_assoc.
  apply Permutation_middle.
Qed.

Section Blocks.
(** The blocks cut at creation. *)
Context (R : list region).

Definition slab_region (e : vc_entry) : region :=
  (payload_ptr e (val_off e), slab_class_size (slab_class_for (e_val_len e))).

Definition lists_in (h : heap) (sl : vc_slab) : Prop := forall F, slab_ok (h_bytes h) sl F -> free_regions F ⊆ R.

Definition slab_in (e : vc_entry) : Prop := flag VC_EFLAG_VAL_SLAB e = true -> slab_region e ∈ R.

Lemma lists_in_of h sl F : slab_ok (h_bytes h) sl F -> free_regions F ⊆ R -> lists_in h sl.
Proof. intros Hs HF F' Hs'. by rewrite (slab_ok_unique _ _ _ _ Hs' Hs). Qed.

Lemma slab_in_core e : slab_in (core e) <-> slab_in e.
Proof. done. Qed.

(** ** Releasing an entry *)

Lemma slab_region_in e : flag VC_EFLAG_VAL_SLAB e = true -> slab_region e ∈ entry_regions e.
Proof. intros Hf. unfold entry_regions. rewrite Hf. apply elem_of_app. right. left. Qed.

Lemma release_lists e h sl L h' sl' :
  mem_inv h (e :: L) sl -> lists_in h sl -> slab_in e ->
  entry_free_resources e h sl = Some (h', sl') -> lists_in h' sl'.
Proof.
  intros Hinv HJ He E. pose proof (mem_inv_wf _ _ _ e Hinv (list_elem_of_here _ _)) as Hwf.
  destruct (free_key_spec _ _ _ _ Hinv) as (h1 & E1 & Hb1 & _ & _). destruct Hinv as (F & Hs & _ & Hd).
  rewrite bind_cons, <- app_assoc in Hd. apply regions_disj_app in Hd as (_ & _ & Hx).
  unfold entry_free_resources in E. rewrite E1 in E. cbn [mbind option_bind] in E. pose proof (HJ F Hs) as HF. rewrite <- Hb1 in Hs.
  destruct (flag VC_EFLAG_VAL_SLAB e) eqn:Ef.
  - destruct (slab_free sl _ _ h1) as [sl2 h2] eqn:E2. injection E as <- <-.
    destruct (slab_class_for_fits (e_val_len e)) as (Hc & _); [pose proof (wf_val_len _ _ Hwf); lia|].
    edestruct (slab_free_spec h1 sl F) as (_ & _ & F' & w & Hs' & HF' & _); [exact Hs | exact Hc | apply Hwf; exact Ef | | exact E2 |].
    { apply Forall_forall. intros r Hr. apply Hx; [by apply slab_region_in | apply elem_of_app; by right]. }
    apply (lists_in_of _ _ F' Hs'). intros r Hr. rewrite HF' in Hr. apply elem_of_cons in Hr as [->|Hr]; [by apply He | by apply HF].
  - destruct (flag VC_EFLAG_VAL_MMAP e).
    + destruct (munmap _ _ h1) as [h2|] eqn:E2; [|done]. injection E as <- <-. apply (lists_in_of _ _ F); [|exact HF].
      unfold munmap in E2. destruct (h_maps h1 !! _); [|done]. injection E2 as <-. exact Hs.
    + injection E as <- <-. exact (lists_in_of _ _ F Hs HF).
Qed.

(** ** Building an entry *)

Lemma build_lists ev key val ttl h sl L r :
  key <> [] -> val <> [] -> Z.of_nat (length key) < 2 ^ 32 -> Z.of_nat (length val) <= 65535 ->
  mem_inv h L sl -> (forall F, slab_ok (h_bytes h) sl F -> env_ok L F ev key val) -> lists_in h sl ->
  build_entry ev key val ttl (wyhash64 key 0) h sl = Some r ->
  match r with
  | inl (h', sl') => lists_in h' sl'
  | inr (ne, h', sl', _) => lists_in h' sl' /\ slab_in ne
  end.
Proof.
  intros Hkey Hval Hmax Hlen (F & Hres) Henv HJ E. change (mem_res h [] L sl F) in Hres. pose proof (Henv F (proj1 Hres)) as Hfr. pose proof (HJ F (proj1 Hres)) as HF.
  unfold build_entry in E. cbv zeta in E. destruct (_ && _); [injection E as <-; by split|].
  change (slab_class_size (Z.of_nat VC_SLAB_CLASSES - 1)) with (2 ^ 21) in E. rewrite (proj2 (Z.leb_le _ (2 ^ 21))) in E by lia.
  assert (Hv21 : Z.of_nat (length val) <= 2 ^ 21) by lia. destruct (slab_alloc sl _ h) as [[[vbuf|] cls] sl1] eqn:Ea.
  2: { injection E as <-. apply (res_slab_none _ _ _ _ _ _ _ _ Hres) in Ea as ->; [exact HJ | lia]. }
  destruct (res_slab_alloc _ _ _ _ _ _ _ _ _ Hres (conj (Nat2Z.is_nonneg _) Hv21) Ea) as (Hcls & Hb & F1 & Hr1 & HP).
  assert (HF1 : free_regions F1 ⊆ R) by (intros x Hx; apply HF; rewrite HP; by right).
  assert (Hin : (vbuf, slab_class_size cls) ∈ R) by (apply HF; rewrite HP; left).
  destruct (slab_class_for_fits (Z.of_nat (length val))) as (Hc & Hfit & _); [lia|]. rewrite <- Hcls in Hc, Hfit.
  assert (Hst : stored_len val = Z.of_nat (length val)) by (unfold stored_len; by rewrite (proj2 (Z.ltb_ge _ _))).
  destruct (res_write h _ _ _ _ _ vbuf val Hr1) as [Hr2 _]; [unfold region_sub; simpl; lia|].
  change (32 - 8) with 24 in E. destruct (Z.leb_spec (Z.of_nat (length key)) 24) as [Hk|Hk].
  - injection E as <-. split; [exact (lists_in_of _ _ F1 (proj1 Hr2) HF1)|]. intros _.
    destruct (slab_entry (write h vbuf val) key val (expire_at (ev_mono ev) ttl) Hkey Hval Hmax vbuf Hk) as [_ Hreg];
      [lia | by rewrite <- Hcls | apply read_after_write |].
    pose proof (slab_region_in (new_entry VC_EFLAG_VAL_SLAB (wyhash64 key 0) key val (expire_at (ev_mono ev) ttl)
      (payload_put (Z.of_nat (length key)) (le_encode 8 vbuf) (payload_put 0 key zero_payload))) eq_refl) as Hsr.
    rewrite Hreg in Hsr. apply list_elem_of_singleton in Hsr. rewrite Hsr. rewrite Hst, <- Hcls. exact Hin.
  - unfold malloc in E. destruct (ev_malloc ev) as [kbuf|] eqn:Em.
    + injection E as <-. pose proof (eo_malloc _ _ _ _ _ Hfr kbuf Em) as (Hk1 & Hk2 & Hk3 & Hk4). simpl in Hk1, Hk2, Hk3.
      rewrite HP in Hk4. rewrite <- Permutation_middle in Hk4. apply Forall_cons in Hk4 as [Hkv Hk4].
      pose proof (res_malloc _ _ _ _ _ kbuf (Z.of_nat (length key)) Hr2 (conj Hk1 (conj Hk2 (conj Hk3 Hk4))) ltac:(by apply Forall_singleton)) as Hr3.
      cbn [malloc snd] in Hr3. destruct (res_write _ _ _ _ _ _ kbuf key Hr3) as [Hr4 _]; [unfold region_sub; simpl; lia|].
      split; [exact (lists_in_of _ _ F1 (proj1 Hr4) HF1)|]. intros _. unfold slab_region. rewrite long_ptr; [|by apply (block_addr cls) | done].
      change (e_val_len _) with (stored_len val). rewrite Hst, <- Hcls. exact Hin.
    + destruct (slab_free sl1 vbuf cls _) as [sl2 h2] eqn:E2. injection E as <-. destruct Hr2 as (Hs2 & _ & [Hd2 _]).
      edestruct (slab_free_spec (write h vbuf val) sl1 F1) as (_ & _ & F' & w & Hs' & HF' & _); [exact Hs2 | exact Hc | exact Hb | | exact E2 |].
      { cbn [app] in Hd2. by apply Forall_app in Hd2 as [_ Hd2]. }
      apply (lists_in_of _ _ F' Hs'). intros x Hx. rewrite HF' in Hx. apply elem_of_cons in Hx as [->|Hx]; [exact Hin | by apply HF1].
Qed.

(** ** Shards *)

Section Shards.
Context (k : Z) (Hk : 0 <= k <= 31) (i : nat).

Lemma kill_lists s h sl L j e s' h' sl' :
  core_ok k i s -> mem_inv h (lives (s_table s) ++ L) sl -> s_table s !! Z.to_nat j = Some e -> e_state e = LIVE ->
  lists_in h sl -> Forall slab_in (lives (s_table s)) -> kill_slot j s h sl = Some (s', h', sl') -> lists_in h' sl'.
Proof.
  intros Hok Hm Hj Hl HJ Hall E. destruct (mark_dead _ _ _ _ (cok_table _ _ _ Hok) Hj Hl) as [_ Hp]. rewrite Hp in Hm.
  unfold kill_slot in E. rewrite Hj in E. cbn [mbind option_bind] in E.
  destruct (entry_free_resources e h sl) as [[h1 sl1]|] eqn:Ef; [|done]. injection E as _ <- <-.
  eapply (release_lists (core e)); [exact Hm | exact HJ | | exact Ef]. rewrite Hp in Hall. by apply Forall_cons in Hall as [? _].
Qed.

Lemma evict_lists s h sl L v s' h' sl' :
  core_ok k i s -> mem_inv h (lives (s_table s) ++ L) sl -> lists_in h sl -> Forall slab_in (lives (s_table s)) ->
  shard_evict_one s h sl = Some (v, s', h', sl') -> lists_in h' sl'.
Proof.
  intros Hok Hm HJ Hall E. unfold shard_evict_one in E. pose proof (cok_table _ _ _ Hok) as Ht. rewrite (cok_cap _ _ _ Hok) in E.
  destruct (evict_loop _ (s_table s) (2 ^ k) (s_clock_hand s)) as [tbl r] eqn:El.
  assert (Hh : s_clock_hand s = slot_at k (s_clock_hand s) 0).
  { unfold slot_at. rewrite Z.add_0_r, Z.mod_small; [done | apply Hok]. }
  rewrite Hh in El. pose proof (cap_range k Hk). apply (evict_loop_spec k Hk) in El as [HF Hv]; [|apply Ht | lia].
  pose proof (lives_cleared _ _ HF) as Hlv. pose proof (table_ok_cleared k _ _ HF Ht) as Ht'.
  destruct r as [x|]; [|by injection E as _ _ <- <-].
  destruct Hv as (j & e & _ & -> & He & _ & Hl & _). rewrite He in E. cbn [mbind option_bind] in E.
  destruct (mark_dead _ _ _ _ Ht' He Hl) as [_ Hp]. rewrite <- Hlv, Hp in Hm, Hall.
  destruct (entry_free_resources e h sl) as [[h1 sl1]|] eqn:Ef; [|done]. injection E as _ _ <- <-.
  eapply (release_lists (core e)); [exact Hm | exact HJ | by apply Forall_cons in Hall as [? _] | exact Ef].
Qed.

Lemma sublist_in (L L1 L2 : list vc_entry) : L ≡ₚ L1 ++ L2 -> Forall slab_in L -> Forall slab_in L2.
Proof. intros Hp H. rewrite Hp in H. by apply Forall_app in H as [_ H]. Qed.

Lemma set_locked_lists now key ne s h sl L s' h' sl' :
  shard_ok k i s -> mem_inv h (core ne :: lives (s_table s) ++ L) sl -> Z.to_nat (shard_idx (e_key_hash ne)) = i ->
  lists_in h sl -> Forall slab_in (lives (s_table s)) ->
  set_locked now key ne s h sl = Some (s', h', sl') -> lists_in h' sl'.
Proof.
  intros [Hok Hq] Hm Hhome HJ Hall E. unfold set_locked in E. rewrite (lock_quiet _ Hq) in E. cbn [mbind option_bind] in E. cbv zeta in E.
  set (s0 := seq_write_begin (sh_wlock 1 s)) in E. assert (Hok0 : core_ok k i s0) by (by apply core_ok_seq, core_ok_wlock).
  rewrite (Permutation_middle (lives (s_table s)) L (core ne)) in Hm.
  change (shard_find (h_bytes h) now s0) with (shard_find (h_bytes h) now s) in E.
  destruct (replace_spec k Hk i now key (e_key_hash ne) s s0 h sl (core ne :: L) Hok Hok0 eq_refl eq_refl Hm)
    as (s1 & h1 & sl1 & old & E1 & Hok1 & _ & _ & Hp1 & Hm1 & _). rewrite E1 in E. cbn [mbind option_bind] in E.
  assert (HJ1 : lists_in h1 sl1).
  { destruct (shard_find _ _ _ _ _ _) as [j|] eqn:Ef; [|by injection E1 as _ <- <-].
    destruct (find_live k Hk i _ _ _ _ _ _ _ Hok Ef) as (e & He & Hl & _). exact (kill_lists s0 _ _ _ _ _ _ _ _ Hok0 Hm He Hl HJ Hall E1). }
  pose proof (sublist_in _ _ _ Hp1 Hall) as Hall1. pose proof (cap_range k Hk).
  replace (s_cap s1 =? 0) with false in E by (rewrite (cok_cap _ _ _ Hok1); lia).
  destruct (if must_evict s1 then _ else _) as [[[s2 h2] sl2]|] eqn:E2; [|done]. cbn [mbind option_bind] in E.
  destruct (shard_insert s2 ne) as [s3 r]. injection E as _ <- <-. destruct (must_evict s1); [|by injection E2 as _ <- <-].
  destruct (shard_evict_one s1 h1 sl1) as [[[[v s4] h4] sl4]|] eqn:Ee; [|done]. injection E2 as _ <- <-.
  by eapply evict_lists.
Qed.

Lemma flush_slots_lists n : forall j tbl h sl L tbl' h' sl',
  table_ok k tbl -> mem_inv h (lives tbl ++ L) sl -> lists_in h sl -> Forall slab_in (lives tbl) ->
  flush_slots j n tbl h sl = Some (tbl', h', sl') -> lists_in h' sl'.
Proof.
  induction n as [|n IH]; intros j tbl h sl L tbl' h' sl' Hok Hm HJ Hall E; cbn [flush_slots] in E; [by injection E as _ <- <-|].
  destruct (tbl !! j) as [e|] eqn:He; [|done]. cbn [mbind option_bind] in E. case_bool_decide as Hs; [|by eapply IH].
  destruct (mark_dead _ _ _ _ Hok He Hs) as [Hok' Hp]. rewrite Hp in Hm, Hall. apply Forall_cons in Hall as [Hce Hall].
  destruct (entry_free_resources e h sl) as [[h1 sl1]|] eqn:Ef; [|done]. cbn [mbind option_bind] in E.
  destruct (entry_free_spec _ _ _ _ Hm) as (h2 & sl2 & Ef' & Hm' & _).
  change (entry_free_resources (core e) h sl) with (entry_free_resources e h sl) in Ef'. rewrite Ef in Ef'. injection Ef' as <- <-.
  eapply IH; [exact Hok' | exact Hm' | | exact Hall | exact E]. by eapply (release_lists (core e)).
Qed.
End Shards.

Lemma flush_lists k l : forall i h sl l' h' sl',
  0 <= k <= 31 -> (forall j s, l !! j = Some s -> shard_ok k (i + j) s) -> mem_inv h (all_lives l) sl ->
  lists_in h sl -> Forall slab_in (all_lives l) -> flush_shards l h sl = Some (l', h', sl') -> lists_in h' sl'.
Proof.
  induction l as [|s l IH]; intros i h sl l' h' sl' Hk Hs Hm HJ Hall E; cbn [flush_shards] in E; [by injection E as _ <- <-|].
  pose proof (Hs 0%nat s eq_refl) as Hs0. unfold all_lives in Hm, Hall. rewrite bind_cons in Hm, Hall. fold (all_lives l) in Hm, Hall.
  apply Forall_app in Hall as [Hall0 Hall]. destruct (flush_shard_spec k Hk (i + 0) s h sl (all_lives l) Hs0 Hm) as (s1 & h1 & sl1 & E1 & _ & _ & _ & Hm1 & _).
  rewrite E1 in E. cbn [mbind option_bind] in E. destruct (flush_shards l h1 sl1) as [[[l2 h2] sl2]|] eqn:E2; [|done]. injection E as _ <- <-.
  eapply (IH (S i)); [exact Hk | | exact Hm1 | | exact Hall | exact E2].
  { intros j s' Hj. replace (S i + j)%nat with (i + S j)%nat by lia. by apply Hs. }
  destruct Hs0 as [Hok Hq]. unfold flush_shard in E1. rewrite (lock_quiet _ Hq) in E1. cbn [mbind option_bind] in E1. cbv zeta in E1.
  destruct (flush_slots _ _ _ h sl) as [[[tbl h3] sl3]|] eqn:E3; [|done]. injection E1 as _ <- <-.
  eapply (flush_slots_lists k); [exact (cok_table _ _ _ Hok) | exact Hm | exact HJ | exact Hall0 | exact E3].
Qed.

(** ** Operations *)

(** The cache uses blocks of [R] only. *)
Definition blocks_in (c : vc_cache) : Prop := lists_in (c_heap c) (c_slab c) /\ Forall slab_in (all_lives (c_shards c)).

Lemma vc_set_blocks k c ev ky val ttl err c' :
  cache_wf k c -> env_fresh c ev ky val -> Z.of_nat (length val) <= 65535 -> blocks_in c ->
  vc_set ev c ky val ttl = Some (err, c') -> blocks_in c'.
Proof.
  intros Hwf Hfresh Hlen [HJ Hall] E.
  destruct (vc_set_cases k c ev ky val ttl err c' Hwf Hfresh E) as [(Eh & Es & El)|(Hky & Hval & Hmax & r & Eb & Hr)].
  { unfold blocks_in. rewrite Eh, Es, El. by split. }
  pose proof (build_lists _ _ _ _ _ _ _ _ Hky Hval Hmax Hlen (cwf_mem _ _ Hwf) Hfresh HJ Eb) as Hbl.
  destruct r as [[h1 sl1]|[[[ne h1] sl1] grow]]; [destruct Hr as (Eh & Es & El); unfold blocks_in; rewrite Eh, Es, El; exact (conj Hbl Hall)|].
  destruct Hbl as [HJ1 Hne], Hr as (s & s2 & L & gone & Hs & HL & HL' & Hm & Hhome & El & HP).
  rewrite HL in Hall. apply Forall_app in Hall as [Hall1 Hall2].
  split; [exact (set_locked_lists k (cwf_k _ _ Hwf) (home ky) _ _ _ _ _ _ _ _ _ _ (cwf_shards _ _ Hwf _ _ Hs) Hm Hhome HJ1 Hall1 El)|].
  rewrite HL'. apply Forall_app. split; [|exact Hall2]. eapply sublist_in; [exact HP|]. by constructor.
Qed.

Lemma vc_get_blocks k c ev ky err o c' : cache_wf k c -> blocks_in c -> vc_get ev c ky = Some (err, o, c') -> blocks_in c'.
Proof.
  intros Hwf [HJ Hall] E. destruct (lookup_lt_is_Some_2 (c_shards c) (home ky)) as [s Hs].
  { rewrite (cwf_len _ _ Hwf). apply home_lt. }
  rewrite (vc_get_eq k c ev ky s Hwf Hs) in E. destruct (get_answer_spec k c ev ky s Hwf Hs) as (o' & s' & Ea & H1 & H2 & _).
  rewrite Ea in E. cbn [mbind option_bind] in E. apply some_pair in E as [_ <-]. split; [exact HJ|].
  destruct (update_wf k c _ s s' Hwf Hs H1 H2) as [_ Hp]. cbv zeta in Hp. by rewrite Hp.
Qed.

Lemma vc_del_blocks k c ev ky err c' : cache_wf k c -> blocks_in c -> vc_del ev c ky = Some (err, c') -> blocks_in c'.
Proof.
  intros Hwf [HJ Hall] E. unfold vc_del in E. cbv zeta in E. destruct (wal_append _ _ _ _ _ _) as [w|]; [|done].
  cbn [mbind option_bind c_heap c_slab c_shards with_wal] in E. destruct (c_shards c !! _) as [s|] eqn:Es; [|done]. cbn [mbind option_bind] in E.
  destruct (cwf_shards _ _ Hwf _ _ Es) as [Hok Hq]. rewrite (lock_quiet _ Hq) in E. cbn [mbind option_bind] in E.
  set (s0 := seq_write_begin (sh_wlock 1 s)) in E. assert (Hok0 : core_ok k (home ky) s0) by (by apply core_ok_seq, core_ok_wlock).
  destruct (all_lives_insert _ _ _ Es) as (L & HL & HL'). pose proof (cwf_mem _ _ Hwf) as Hm. rewrite HL in Hm, Hall.
  apply Forall_app in Hall as [Hall1 Hall2].
  change (shard_find (h_bytes (c_heap c)) (ev_mono ev) s0) with (shard_find (h_bytes (c_heap c)) (ev_mono ev) s) in E.
  destruct (shard_find _ _ _ _ _ _) as [j|] eqn:Ef.
  - destruct (kill_slot _ _ _ _) as [[[s2 h2] sl2]|] eqn:Ek; [|done]. apply some_pair in E as [_ <-].
    destruct (find_live k (cwf_k _ _ Hwf) _ _ _ _ _ _ _ _ Hok Ef) as (e & He & Hl & _).
    destruct (kill_slot_spec k (home ky) s0 _ _ L j e Hok0 Hm He Hl) as (s3 & h3 & sl3 & Ek' & _ & _ & _ & _ & Hp & _).
    rewrite Ek in Ek'. injection Ek' as <- <- <-.
    split; [exact (kill_lists k (home ky) s0 _ _ _ _ _ _ _ _ Hok0 Hm He Hl HJ Hall1 Ek)|].
    match goal with |- Forall slab_in (all_lives (c_shards ?x)) => change (c_shards x) with (<[home ky := shard_unlock (seq_write_end s2)]> (c_shards c)) end.
    rewrite HL'. apply Forall_app. split; [|exact Hall2]. exact (sublist_in _ [core e] _ Hp Hall1).
  - apply some_pair in E as [_ <-]. split; [exact HJ|].
    match goal with |- Forall slab_in (all_lives (c_shards ?x)) => change (c_shards x) with (<[home ky := shard_unlock (seq_write_end s0)]> (c_shards c)) end.
    rewrite HL'. apply Forall_app. by split.
Qed.

Lemma vc_flush_blocks k c c' : cache_wf k c -> blocks_in c -> vc_flush c = Some c' -> blocks_in c' /\ all_lives (c_shards c') = [].
Proof.
  intros Hwf [HJ Hall] E. unfold vc_flush in E.
  destruct (flush_shards_spec k (c_shards c) 0 (c_heap c) (c_slab c)) as (l' & h' & sl' & El & _ & _ & Hno & _);
    [apply Hwf | apply Hwf | apply Hwf|]. rewrite El in E. cbn [mbind option_bind] in E. injection E as <-.
  split; [|exact Hno]. split; [|change (Forall slab_in (all_lives l')); rewrite Hno; constructor].
  eapply (flush_lists k _ 0); [apply Hwf | apply (cwf_shards _ _ Hwf) | apply Hwf | exact HJ | exact Hall | exact El].
Qed.
End Blocks.

(** ** Counting *)

(** The entries whose value is in a block of the class. *)
Definition values_in_class (cls : Z) (c : vc_cache) : list vc_entry :=
  filter (fun e => flag VC_EFLAG_VAL_SLAB e = true /\ slab_class_for (e_val_len e) = cls) (all_lives (c_shards c)).

Lemma regions_nodup rs : Forall (fun r => 0 < r.2) rs -> regions_disj rs -> NoDup rs.
Proof.
  induction rs as [|r rs IH]; intros Hp Hd; [constructor|]. apply Forall_cons in Hp as [Hr Hp]. destruct Hd as [H1 H2].
  constructor; [|by apply IH]. intros Hin. rewrite Forall_forall in H1. specialize (H1 r Hin). unfold region_disj in H1. lia.
Qed.

Lemma class_size_inj c d : 0 <= c <= 15 -> 0 <= d <= 15 -> slab_class_size c = slab_class_size d -> c = d.
Proof. intros Hc Hd E. rewrite !slab_class_size_eq in E by lia. apply (Z.pow_inj_r 2); lia. Qed.

Lemma class_for_range e h : entry_wf h e -> 0 <= slab_class_for (e_val_len e) <= 15.
Proof. intros Hwf. apply slab_class_for_fits. pose proof (wf_val_len _ _ Hwf). lia. Qed.

(** Different entries use different blocks. *)
Lemma slab_regions_nodup h L sl :
  mem_inv h L sl -> Forall (fun e => flag VC_EFLAG_VAL_SLAB e = true) L -> NoDup (slab_region <$> L).
Proof.
  intros (F & _ & Hwf & Hd). apply regions_disj_app in Hd as (Hd & _ & _). revert Hwf Hd. induction L as [|e L IH]; intros Hwf Hd Hs; [constructor|].
  apply Forall_cons in Hwf as [He Hwf]. apply Forall_cons in Hs as [Hse Hs]. rewrite bind_cons in Hd. apply regions_disj_app in Hd as (_ & Hd & Hx).
  cbn [fmap list_fmap]. constructor; [|by apply IH]. intros Hin. apply list_elem_of_fmap in Hin as (e' & E & He').
  rewrite Forall_forall in Hs. assert (Hdj : region_disj (slab_region e) (slab_region e)).
  { apply Hx; [by apply slab_region_in|]. rewrite E. eapply entry_regions_in; [exact He' | by apply slab_region_in, Hs]. }
  unfold region_disj, slab_region in Hdj. cbn [fst snd] in Hdj.
  pose proof (slab_class_size_pos _ (class_for_range _ _ He)). lia.
Qed.

Lemma mem_inv_sub h L L' R' sl : L ≡ₚ L' ++ R' -> mem_inv h L sl -> mem_inv h L' sl.
Proof.
  intros HP Hm. rewrite HP in Hm. rewrite Permutation_app_comm in Hm. clear HP. induction R' as [|e R' IH]; [exact Hm|]. apply IH. by eapply mem_inv_drop.
Qed.

(** The blocks of a class among all blocks of the arenas. *)
Lemma init_region_class arena_bytes arenas r cls :
  (length arenas <= 16)%nat -> 0 <= cls <= 15 -> r ∈ free_regions (init_free arena_bytes arenas 0) -> r.2 = slab_class_size cls ->
  exists a, arenas !! Z.to_nat cls = Some a /\ r ∈ class_regions (Z.to_nat cls) (class_blocks a (slab_class_size cls) 0 (class_count arena_bytes cls)).
Proof.
  intros Hl Hc Hr E. unfold free_regions in Hr. apply list_elem_of_In, in_concat in Hr as (l & Hin & Hr). apply list_elem_of_In in Hin, Hr.
  apply list_elem_of_lookup in Hin as [i Hi]. rewrite list_lookup_imap in Hi. unfold init_free in Hi. rewrite list_lookup_imap in Hi.
  destruct (arenas !! i) as [a|] eqn:Ea; [|done]. cbn in Hi. injection Hi as <-.
  pose proof (lookup_lt_Some _ _ _ Ea). unfold class_regions in Hr. apply list_elem_of_fmap in Hr as (p & -> & Hp). cbn [snd] in E.
  apply class_size_inj in E; [|lia | lia]. assert (i = Z.to_nat cls) as -> by lia. exists a. split; [exact Ea|].
  unfold class_regions. rewrite Z2Nat.id in * by lia. by apply (list_elem_of_fmap_2 (fun p => (p, slab_class_size cls))).
Qed.

Lemma class_bound arena_bytes arenas k c cls :
  (length arenas <= 16)%nat -> 0 <= cls <= 15 -> 0 <= arena_bytes -> cache_wf k c -> blocks_in (free_regions (init_free arena_bytes arenas 0)) c ->
  Z.of_nat (length (values_in_class cls c)) <= arena_bytes / slab_class_size cls.
Proof.
  intros Hl Hc Hb Hwf [_ Hall]. set (V := values_in_class cls c).
  assert (HV : Forall (fun e => flag VC_EFLAG_VAL_SLAB e = true /\ slab_class_for (e_val_len e) = cls) V) by (apply Forall_forall; intros e He; by apply list_elem_of_filter in He as [? _]).
  assert (Hm : mem_inv (c_heap c) V (c_slab c)).
  { eapply mem_inv_sub; [|apply Hwf]. symmetry. apply filter_app_complement. }
  assert (Hnd : NoDup (slab_region <$> V)).
  { eapply slab_regions_nodup; [exact Hm|]. eapply Forall_impl; [exact HV|]. by intros e [? _]. }
  assert (Hpos : 0 <= arena_bytes / slab_class_size cls) by (apply Z.div_pos; [lia | pose proof (slab_class_size_pos cls Hc); lia]).
  assert (Hsub : forall r, r ∈ slab_region <$> V -> exists a, arenas !! Z.to_nat cls = Some a /\
    r ∈ class_regions (Z.to_nat cls) (class_blocks a (slab_class_size cls) 0 (class_count arena_bytes cls))).
  { intros r Hr. apply list_elem_of_fmap in Hr as (e & -> & He). rewrite Forall_forall in HV. destruct (HV e He) as [Hf Hcl].
    apply init_region_class; [exact Hl | exact Hc | | unfold slab_region; cbn [snd]; by rewrite Hcl].
    rewrite Forall_forall in Hall. apply Hall; [|exact Hf]. by apply list_elem_of_filter in He as [_ ?]. }
  destruct (arenas !! Z.to_nat cls) as [a|] eqn:Ea.
  - assert (Hle : (length (slab_region <$> V) <= length (class_regions (Z.to_nat cls) (class_blocks a (slab_class_size cls) 0 (class_count arena_bytes cls))))%nat).
    { apply submseteq_length, NoDup_submseteq; [exact Hnd|]. intros r Hr. destruct (Hsub r Hr) as (a' & E & H). by injection E as <-. }
    unfold class_regions, class_blocks in Hle. rewrite !length_fmap, length_seq in Hle. unfold class_count in Hle. lia.
  - destruct V as [|e V]; [cbn; lia|]. destruct (Hsub (slab_region e)) as (a & E & _); [left | done].
Qed.

(** ** Histories *)

Lemma create_blocks arena_bytes ce arenas max_mem path slots h c h' :
  create_env_ok arena_bytes ce arenas -> vc_create arena_bytes ce max_mem path slots h = Some (Some c, h') ->
  blocks_in (free_regions (init_free arena_bytes arenas 0)) c.
Proof.
  intros [[self E1] E2 E3 E4 E5 E6 E7] E. unfold vc_create in E. rewrite E1, E3 in E. cbn [malloc] in E. set (h0 := Heap _ _ _ _) in E.
  destruct (slab_init_ok arena_bytes arenas h0 E2 E4 E5 E6) as (sl & h1 & Es & _ & Hs & _). rewrite Es in E.
  destruct (wal_init path (ce_wal ce)) as [err w]. cbv zeta in E.
  destruct err; try by (destruct (slab_destroy sl h1) as [h2|]; [|done]; cbn [mbind option_bind] in E; destruct (free _ h2); done).
  match type of E with context [map_tables _ ?n h1] => destruct (map_tables_all _ n h1 E7) as (h2 & Em & Hb) end.
  change (Z.to_nat VC_NUM_SHARDS) with 64%nat in E. rewrite Em in E. apply some_pair in E as [E _].
  match type of E with Some ?x = _ => assert (c = x) as -> by congruence end. rewrite <- Hb in Hs.
  split; [by eapply lists_in_of|]. cbn [c_shards]. generalize 64%nat. intros n.
  induction n as [|n IH]; [constructor|]. unfold all_lives in *. rewrite replicate_S, bind_cons. apply Forall_app. split; [|exact IH].
  unfold new_shard. cbn [s_table]. rewrite lives_all_empty. constructor.
Qed.

(** No value is longer than an entry can say. *)
Definition short_values (o : op) : Prop := forall ky val ttl, o = OSet ky val ttl -> Z.of_nat (length val) <= 65535.

Lemma exec_blocks R k ev o c c' :
  cache_wf k c -> (forall ky val ttl, o = OSet ky val ttl -> env_fresh c ev ky val) -> short_values o ->
  blocks_in R c -> exec ev o c = Some c' -> blocks_in R c'.
Proof.
  intros Hwf Hf Hs Hb E. destruct o as [ky val ttl|ky|ky|]; cbn [exec] in E.
  - destruct (vc_set _ _ _ _ _) as [[err x]|] eqn:Es; [|done]. injection E as <-.
    eapply vc_set_blocks; [exact Hwf | by eapply Hf | by eapply Hs | exact Hb | exact Es].
  - destruct (vc_get _ _ _) as [[[err out] x]|] eqn:Es; [|done]. injection E as <-. by eapply vc_get_blocks.
  - destruct (vc_del _ _ _) as [[err x]|] eqn:Es; [|done]. injection E as <-. by eapply vc_del_blocks.
  - by eapply vc_flush_blocks.
Qed.

Lemma run_blocks R k ops : forall c c',
  cache_wf k c -> Forall (op_logged (c_wal c)) ops.*2 -> run_fresh ops c ->
  Forall (fun x => short_values x.2) ops -> blocks_in R c ->
  run_ops ops c = Some c' -> cache_wf k c' /\ blocks_in R c'.
Proof.
  induction ops as [|[ev o] ops IH]; intros c c' Hwf Hl Hf Hs Hb E; cbn [run_ops] in E; [by injection E as <-|].
  apply Forall_cons in Hs as [Hs1 Hs]. apply Forall_cons in Hl as [Hl1 Hl]. destruct Hf as [Hf1 Hf2].
  destruct (exec_safe k ev o c Hwf Hf1 Hl1) as (c1 & E1 & Hwf1 & Hsame).
  rewrite E1 in E. cbn [mbind option_bind] in E. apply (IH c1); [exact Hwf1 | eapply Forall_impl; [exact Hl|]; intros x; by apply op_logged_same | by apply Hf2 | exact Hs | exact (exec_blocks _ k ev o c c1 Hwf Hf1 Hs1 Hb E1) | exact E].
Qed.

(** C21: the capacity of the slab.  Whatever the operations on a cache with arenas of
    [arena_bytes] bytes, as long as no value is longer than 65535 bytes (a longer one is
    given back to a smaller class than it came from) and the records fit the log when there is
    one, the values that need a block of a class are never more than the blocks that fit into
    one arena, however many slots the tables have and however much memory [max_memory]
    allows. *)
Theorem slab_capacity arena_bytes ce arenas max_mem path slots h c h' ops c' cls :
  create_env_ok arena_bytes ce arenas -> 0 <= slots <= 2 ^ 31 -> 0 <= cls <= 15 ->
  (wal_init path (ce_wal ce)).1 = VC_OK ->
  vc_create arena_bytes ce max_mem path slots h = Some (Some c, h') ->
  Forall (op_logged (c_wal c)) ops.*2 -> run_fresh ops c -> Forall (fun x => short_values x.2) ops -> run_ops ops c = Some c' ->
  Z.of_nat (length (values_in_class cls c')) <= arena_bytes / slab_class_size cls.
Proof.
  intros He Hsl Hc Hw E Hl Hf Hs Er.
  destruct (create_logged arena_bytes ce arenas max_mem path slots h He Hsl Hw) as (c2 & h2 & k & E2 & Hok & _).
  rewrite E in E2. apply some_pair in E2 as [E2 _]. injection E2 as <-.
  destruct (run_blocks _ k ops c c' (cok_wf _ _ Hok) Hl Hf Hs (create_blocks _ _ _ _ _ _ _ _ _ He E) Er) as [Hwf' Hb'].
  apply (class_bound arena_bytes arenas k); [rewrite (ceo_len _ _ _ He); lia | exact Hc | apply He | exact Hwf' | exact Hb'].
Qed.

(** An arena of 64 bytes is one block of class 0: of two values of 40 bytes one is kept. *)
Definition two_values : list (env * op) :=
  [(clock 5, OSet (bs "k") (replicate 40 65) 0); (clock 6, OSet (bs "m") (replicate 40 66) 0)].

Lemma slab_capacity_witness :
  exists c', run_ops two_values mini = Some c' /\ Z.of_nat (length (values_in_class 0 c')) <= 1.
Proof.
  destruct mini_ok as (k & Hok & _). assert (Hf : run_fresh two_values mini).
  { repeat (split; [intros; apply clock_fresh | intros ? _]). exact I. }
  assert (Hl : Forall (op_logged (c_wal mini)) two_values.*2) by (repeat constructor; by left).
  destruct (run_safe k two_values mini (cok_wf _ _ Hok) Hl Hf) as (c' & E & _). exists c'. split; [exact E|].
  destruct (create_ok 64 mini_env mini_arenas (2 ^ 20) 4 empty_heap mini_env_ok) as (c & h' & k' & Ec & _); [lia|].
  assert (c = mini) as -> by (unfold mini; by rewrite Ec).
  change 1 with (64 / slab_class_size 0).
  apply (slab_capacity 64 mini_env mini_arenas (2 ^ 20) None 4 empty_heap mini h' two_values c' 0); try exact E; try exact Ec; try exact Hf; try exact Hl; try lia.
  - apply mini_env_ok.
  - done.
  - repeat constructor; intros ky val ttl Eo; injection Eo as _ <- _; cbn; lia.
Defined.
