(* ===== verification/Proto.v ===== *)
(** * RESP protocol: buffers, command parser, writers

    [src/net/proto.c] and [src/net/proto.h], with the C library functions they
    use ([strtoll], [strndup], [snprintf] of integers).  A byte string is a list
    of bytes; the parser works on the suffix of the input that is left. *)

From S2P Require Import Prelude.

(** ** C library *)

Definition isspace (c : Z) : bool := (c =? 32) || ((9 <=? c) && (c <=? 13)).
Definition isdigit (c : Z) : bool := (48 <=? c) && (c <=? 57).

Definition INT64_MAX : Z := 2 ^ 63 - 1.
Definition INT64_MIN : Z := - 2 ^ 63.

(** The digits at the front: their value and their number. *)
Fixpoint digits (l : list Z) (acc : Z) : Z * nat :=
  match l with
  | c :: l' => if isdigit c then let '(v, n) := digits l' (acc * 10 + (c - 48)) in (v, S n)
               else (acc, O)
  | [] => (acc, O)
  end.

Fixpoint skip_space (l : list Z) : nat :=
  match l with
  | c :: l' => if isspace c then S (skip_space l') else O
  | [] => O
  end.

(** [strtoll(l, &end, 10)]: the value, the number of bytes up to [end], and
    whether [errno] is set.  With no digits [end] is the start. *)
Definition strtoll (l : list Z) : Z * nat * bool :=
  let ws := skip_space l in
  let r := drop ws l in
  let '(neg, r, sg) := match r with
                       | c :: r' => if c =? 45 then (true, r', 1%nat)
                                    else if c =? 43 then (false, r', 1%nat) else (false, r, O)
                       | [] => (false, r, O)
                       end in
  let '(v, n) := digits r 0 in
  if (n =? 0)%nat then (0, O, false)
  else
    let v := if neg then - v else v in
    let stop := (ws + sg + n)%nat in
    if INT64_MAX <? v then (INT64_MAX, stop, true)
    else if v <? INT64_MIN then (INT64_MIN, stop, true)
    else (v, stop, false).

(** The decimal digits of a number, as [%d], [%zu] and [%lld] print it. *)
Fixpoint dec_digits (fuel : nat) (n : Z) (acc : list Z) : list Z :=
  match fuel with
  | O => acc
  | S fuel =>
      let acc := (48 + n mod 10) :: acc in
      if n <? 10 then acc else dec_digits fuel (n / 10) acc
  end.

(** Twenty digits hold every 64-bit number. *)
Definition dec (n : Z) : list Z :=
  if n <? 0 then 45 :: dec_digits 20 (- n) [] else dec_digits 20 n [].

(** The bytes of a C string: up to the first NUL. *)
Fixpoint cstr (l : list Z) : list Z :=
  match l with
  | c :: l' => if c =? 0 then [] else c :: cstr l'
  | [] => []
  end.

(** [memchr] and [strchr]: the index of the first [ch]. *)
Fixpoint memchr (ch : Z) (l : list Z) : option nat :=
  match l with
  | [] => None
  | x :: l => if x =? ch then Some O else S <$> memchr ch l
  end.

(** ** I/O buffer *)

(** The [len] bytes in use, the capacity, the read cursor. *)
Record vc_buf := Buf { b_data : list Z; b_cap : Z; b_rpos : Z }.

Definition b_len (b : vc_buf) : Z := Z.of_nat (length (b_data b)).

(** Whether a block of that many bytes is granted: by [malloc] and [realloc], and to the
    [strndup] of an inline argument. *)
Record allocator := Allocator { al_malloc : Z -> bool; al_dup : Z -> bool }.
Coercion al_malloc : allocator >-> Funclass.

(** All memory is granted. *)
Definition granting : allocator := Allocator (fun _ => true) (fun _ => true).

Section Alloc.
Context (alloc_ok : allocator).

Definition vc_buf_new (cap : Z) : option vc_buf :=
  if alloc_ok cap then Some (Buf [] cap 0) else None.

(** [while (nc - len < need) nc *= 2;] in 64 bits; [None]: more rounds than the
    width of [size_t], after which [nc] is 0 and the loop does not end. *)
Fixpoint grow_loop (fuel : nat) (nc len need : Z) : option Z :=
  match fuel with
  | O => None
  | S fuel => if u64 (nc - len) <? need then grow_loop fuel (u64 (nc * 2)) len need else Some nc
  end.

(** [true] is the return value 0. *)
Definition vc_buf_grow (b : vc_buf) (need : Z) : option (bool * vc_buf) :=
  if need <=? u64 (b_cap b - b_len b) then Some (true, b) else
  nc ← grow_loop 65 (u64 (b_cap b * 2)) (b_len b) need;
  if alloc_ok nc then Some (true, Buf (b_data b) nc (b_rpos b)) else Some (false, b).

Definition vc_buf_reset (b : vc_buf) : vc_buf := Buf [] (b_cap b) 0.

Definition vc_buf_consume (b : vc_buf) (n : Z) : vc_buf :=
  if b_len b <=? n then vc_buf_reset b
  else Buf (drop (Z.to_nat n) (b_data b)) (b_cap b)
         (if n <=? b_rpos b then b_rpos b - n else 0).

(** [if (w < 0) return -1;] before the next statement. *)
Definition and_then (w : option (bool * vc_buf)) (next : vc_buf -> option (bool * vc_buf))
    : option (bool * vc_buf) :=
  match w with
  | Some (true, b) => next b
  | Some (false, b) => Some (false, b)
  | None => None
  end.

(** The [APPEND] macro. *)
Definition append (b : vc_buf) (s : list Z) : option (bool * vc_buf) :=
  and_then (vc_buf_grow b (Z.of_nat (length s)))
    (fun b => Some (true, Buf (b_data b ++ s) (b_cap b) (b_rpos b))).

(** [buf_printf]: the formatted text, refused at 256 bytes. *)
Definition buf_printf (b : vc_buf) (text : list Z) : option (bool * vc_buf) :=
  if 256 <=? Z.of_nat (length text) then Some (false, b) else append b text.

(** A sequence of writes that stops at the first failure. *)
Fixpoint writes (b : vc_buf) (ws : list (vc_buf -> option (bool * vc_buf))) : option (bool * vc_buf) :=
  match ws with
  | [] => Some (true, b)
  | w :: ws => and_then (w b) (fun b => writes b ws)
  end.

Definition resp_write_ok (b : vc_buf) : option (bool * vc_buf) := append b (bs "+OK" ++ CRLF).
Definition resp_write_null (b : vc_buf) : option (bool * vc_buf) := append b (bs "_" ++ CRLF).
Definition resp_write_null_compat (b : vc_buf) (resp3 : bool) : option (bool * vc_buf) :=
  if resp3 then append b (bs "_" ++ CRLF) else append b (bs "$-1" ++ CRLF).
Definition resp_write_error (b : vc_buf) (code msg : list Z) : option (bool * vc_buf) :=
  buf_printf b (bs "-" ++ code ++ bs " " ++ msg ++ CRLF).
Definition resp_write_simple (b : vc_buf) (s : list Z) : option (bool * vc_buf) :=
  buf_printf b (bs "+" ++ s ++ CRLF).
Definition resp_write_integer (b : vc_buf) (n : Z) : option (bool * vc_buf) :=
  buf_printf b (bs ":" ++ dec n ++ CRLF).
Definition resp_write_bool (b : vc_buf) (v : bool) : option (bool * vc_buf) :=
  buf_printf b (bs "#" ++ (if v then bs "t" else bs "f") ++ CRLF).
Definition resp_write_bulk (b : vc_buf) (data : list Z) : option (bool * vc_buf) :=
  writes b [fun b => buf_printf b (bs "$" ++ dec (Z.of_nat (length data)) ++ CRLF);
            fun b => append b data; fun b => append b CRLF].
Definition resp_write_array_header (b : vc_buf) (count : Z) : option (bool * vc_buf) :=
  buf_printf b (bs "*" ++ dec count ++ CRLF).
Definition resp_write_map_header (b : vc_buf) (pairs : Z) : option (bool * vc_buf) :=
  buf_printf b (bs "%" ++ dec pairs ++ CRLF).

Definition VC_WIRE_MAGIC : list Z := bs "*VC1".
Definition VC_WIRE_MAGIC_LEN : Z := 4.
Definition VC_TYPE_INT64 : Z := 105.
Definition VC_TYPE_FLOAT64 : Z := 100.
Definition VC_TYPE_BOOL : Z := 98.
Definition VC_TYPE_JSON : Z := 106.
Definition VC_TYPE_LIST : Z := 108.
Definition VC_TYPE_HASH : Z := 104.
Definition VC_TYPE_BINARY : Z := 66.
Definition VC_TYPE_STRING : Z := 83.

Definition resp_write_vc_typed (b : vc_buf) (type : Z) (payload : list Z) : option (bool * vc_buf) :=
  let total := VC_WIRE_MAGIC_LEN + 1 + Z.of_nat (length payload) in
  writes b [fun b => buf_printf b (bs "$" ++ dec total ++ CRLF);
            fun b => append b VC_WIRE_MAGIC; fun b => append b [type];
            fun b => append b payload; fun b => append b CRLF].

(** [buf8[i] = (uint8_t)(v >> (i * 8))] *)
Definition int64_bytes (v : Z) : list Z := (fun i => u8 (Z.shiftr v (Z.of_nat i * 8))) <$> seq 0 8.

Definition resp_write_vc_int64 (b : vc_buf) (v : Z) : option (bool * vc_buf) :=
  resp_write_vc_typed b VC_TYPE_INT64 (int64_bytes v).
Definition resp_write_vc_float64 (b : vc_buf) (bits : list Z) : option (bool * vc_buf) :=
  resp_write_vc_typed b VC_TYPE_FLOAT64 bits.
Definition resp_write_vc_bool (b : vc_buf) (v : bool) : option (bool * vc_buf) :=
  resp_write_vc_typed b VC_TYPE_BOOL [if v then 1 else 0].
Definition resp_write_vc_json (b : vc_buf) (json : list Z) : option (bool * vc_buf) :=
  resp_write_vc_typed b VC_TYPE_JSON json.
Definition resp_write_vc_binary (b : vc_buf) (data : list Z) : option (bool * vc_buf) :=
  resp_write_vc_typed b VC_TYPE_BINARY data.

(** The bulk and integer writes of [resp_write_hello] ignore failures. *)
Fixpoint writes_ignore (b : vc_buf) (ws : list (vc_buf -> option (bool * vc_buf))) : option vc_buf :=
  match ws with
  | [] => Some b
  | w :: ws => '(_, b) ← w b; writes_ignore b ws
  end.

Definition resp_write_hello (b : vc_buf) (server_ver node_id : list Z) (resp3 : bool)
    : option (bool * vc_buf) :=
  and_then (if resp3 then resp_write_map_header b 5 else resp_write_array_header b 10) (fun b =>
  b ← writes_ignore b
    [fun b => resp_write_bulk b (bs "server"); fun b => resp_write_bulk b (bs "voidcache");
     fun b => resp_write_bulk b (bs "version"); fun b => resp_write_bulk b server_ver;
     fun b => resp_write_bulk b (bs "proto"); fun b => resp_write_integer b (if resp3 then 3 else 2);
     fun b => resp_write_bulk b (bs "id"); fun b => resp_write_bulk b node_id;
     fun b => resp_write_bulk b (bs "mode"); fun b => resp_write_bulk b (bs "standalone")];
  Some (true, b)).

(** ** Command parser *)

Definition VC_MAX_ARGS : Z := 128.
Definition VC_MAX_INLINE_ARG : Z := 64 * 1024.
Definition VC_MAX_CMD_LEN : nat := 64.

(** An argument: the bytes of its heap block (none: NULL) and its length. *)
Record arg := Arg { a_buf : list Z; a_len : Z }.

Record vc_cmd := Cmd { cmd_args : list arg; cmd_vc_type : Z }.

Definition cmd_argc (c : vc_cmd) : Z := Z.of_nat (length (cmd_args c)).

Inductive parse_result : Type :=
| RESP_PARSE_OK (cmd : vc_cmd) (consumed : Z)
| RESP_PARSE_MORE
| RESP_PARSE_ERR.

(** Index of the first CR LF. *)
Fixpoint find_crlf (l : list Z) : option nat :=
  match l with
  | a :: l' =>
      match l' with
      | b :: _ => if (a =? CR) && (b =? LF) then Some O else S <$> find_crlf l'
      | [] => None
      end
  | [] => None
  end.

Definition parse_int64 (l : list Z) : option Z :=
  if decide (l = []) then None
  else if 32 <=? Z.of_nat (length l) then None
  else let '(v, stop, errno) := strtoll l in
       if errno || negb (stop =? length l)%nat then None else Some v.

(** End of an inline command: its index and the bytes to skip. *)
Fixpoint find_nl (l : list Z) : option (nat * Z) :=
  match l with
  | [] => None
  | a :: l' =>
      let next := '(i, n) ← find_nl l'; Some (S i, n) in
      if (a =? CR) && (match l' with b :: _ => b =? LF | [] => false end) then Some (O, 2)
      else if a =? LF then Some (O, 1) else next
  end.

Definition is_blank (c : Z) : bool := (c =? 32) || (c =? 9).

Fixpoint skip_blank (l : list Z) : list Z :=
  match l with
  | c :: l' => if is_blank c then skip_blank l' else l
  | [] => []
  end.

Fixpoint take_word (l : list Z) : list Z * list Z :=
  match l with
  | c :: l' => if is_blank c then ([], l) else let '(w, r) := take_word l' in (c :: w, r)
  | [] => ([], [])
  end.

(** [strndup] copies up to a NUL, or returns NULL; [argl] is the length before it either
    way. *)
Definition strndup_arg (w : list Z) : arg :=
  Arg (if al_dup alloc_ok (Z.of_nat (length (cstr w)) + 1) then cstr w ++ [0] else []) (Z.of_nat (length w)).

Fixpoint inline_args (fuel : nat) (argc : Z) (l : list Z) : list arg :=
  match fuel with
  | O => []
  | S fuel =>
      if decide (l = []) then []
      else if VC_MAX_ARGS <=? argc then []
      else let l := skip_blank l in
           if decide (l = []) then []
           else let '(w, l) := take_word l in strndup_arg w :: inline_args fuel (argc + 1) l
  end.

(** Every round consumes at least one byte of the line. *)
Definition parse_inline (buf : list Z) : parse_result :=
  match find_nl buf with
  | None => RESP_PARSE_MORE
  | Some (nl, skip) =>
      let args := inline_args nl 0 (take nl buf) in
      if decide (args = []) then RESP_PARSE_ERR
      else RESP_PARSE_OK (Cmd args 0) (Z.of_nat nl + skip)
  end.

(** Removes the VoidCache type header of a bulk payload. *)
Definition strip_vc (payload : list Z) : Z * list Z :=
  if (VC_WIRE_MAGIC_LEN <? Z.of_nat (length payload)) &&
     bool_decide (take 4 payload = VC_WIRE_MAGIC)
  then (nth 4 payload 0, drop 5 payload)
  else (0, payload).

(** The loop over the bulk strings: [n] are left, [p] is the unread input. *)
Fixpoint parse_bulks (n : nat) (i : Z) (p : list Z) (vc_type : Z)
    : (list arg * list Z * Z) + parse_result :=
  match n with
  | O => inl ([], p, vc_type)
  | S n =>
      if Z.of_nat (length p) <? 3 then inr RESP_PARSE_MORE
      else if negb (nth 0 p 0 =? 36) then inr RESP_PARSE_ERR
      else
      match find_crlf p with
      | None => inr RESP_PARSE_MORE
      | Some j =>
          match parse_int64 (take (j - 1) (drop 1 p)) with
          | None => inr RESP_PARSE_ERR
          | Some blen =>
              if (blen <? 0) || (VC_MAX_INLINE_ARG <? blen) then inr RESP_PARSE_ERR
              else
              let p := drop (j + 2) p in
              if Z.of_nat (length p) <? blen + 2 then inr RESP_PARSE_MORE
              else
              let '(t, payload) := strip_vc (take (Z.to_nat blen) p) in
              let vc_type := if (i =? 1) && bool_decide (t <> 0) then t else vc_type in
              if alloc_ok (Z.of_nat (length payload) + 1) then
                match parse_bulks n (i + 1) (drop (Z.to_nat blen + 2) p) vc_type with
                | inl (args, rest, ty) =>
                    inl (Arg (payload ++ [0]) (Z.of_nat (length payload)) :: args, rest, ty)
                | inr e => inr e
                end
              else inr RESP_PARSE_ERR
          end
      end
  end.

Definition upper (c : Z) : Z := if (97 <=? c) && (c <=? 122) then c - 32 else c.

(** Upper case of the first 64 bytes of the command name. *)
Definition upper_name (args : list arg) : list arg :=
  match args with
  | a :: args =>
      let n := Nat.min (Z.to_nat (a_len a)) VC_MAX_CMD_LEN in
      Arg ((upper <$> take n (a_buf a)) ++ drop n (a_buf a)) (a_len a) :: args
  | [] => []
  end.

Definition resp_parse_command (buf : list Z) : parse_result :=
  match buf with
  | [] => RESP_PARSE_MORE
  | c :: _ =>
      if negb (c =? 42) then parse_inline buf
      else if Z.of_nat (length buf) <? 4 then RESP_PARSE_MORE
      else
      match find_crlf buf with
      | None => RESP_PARSE_MORE
      | Some j =>
          match parse_int64 (take (j - 1) (drop 1 buf)) with
          | None => RESP_PARSE_ERR
          | Some argc =>
              if (argc <? 0) || (VC_MAX_ARGS <? argc) then RESP_PARSE_ERR
              else match parse_bulks (Z.to_nat argc) 0 (drop (j + 2) buf) 0 with
                   | inl (args, rest, ty) =>
                       RESP_PARSE_OK (Cmd (upper_name args) ty)
                         (Z.of_nat (length buf) - Z.of_nat (length rest))
                   | inr e => e
                   end
          end
      end
  end.
End Alloc.
