(* ===== verification/ProtoSpec.v ===== *)
(** * RESP protocol: theorems

    Numbers survive printing and parsing; a command encoded by a client is parsed
    back from any buffer that starts with it, every proper prefix of it asks for
    more bytes, and what the parser accepts is bounded; buffers never lose or
    overrun bytes. *)

From S2P Require Import Prelude Proto.

(** ** Searching *)

Lemma memchr_at ch pre rest : ch ∉ pre -> memchr ch (pre ++ ch :: rest) = Some (length pre).
Proof.
  induction pre as [|x pre IH]; intros H; cbn [app memchr length]; [by rewrite Z.eqb_refl|].
  apply not_elem_of_cons in H as [Hx Hp]. destruct (Z.eqb_spec x ch); [by subst|]. by rewrite IH.
Qed.

(** ** Strings *)

Lemma cstr_id l : 0 ∉ l -> cstr l = l.
Proof.
  induction l as [|x l IH]; intros H; [done|]. apply not_elem_of_cons in H as [Hx Hl]. cbn [cstr].
  destruct (Z.eqb_spec x 0); [by subst|]. by rewrite IH.
Qed.

(** ** Decimal numbers *)

Lemma dec_digits_spec fuel n acc :
  0 <= n < 10 ^ Z.of_nat fuel -> (0 < fuel)%nat ->
  exists ds, dec_digits fuel n acc = ds ++ acc /\ ds <> [] /\ Forall (fun c => isdigit c = true) ds /\
    (length ds <= fuel)%nat /\
    forall a rest, digits (ds ++ rest) a =
      let '(v, m) := digits rest (a * 10 ^ Z.of_nat (length ds) + n) in (v, (length ds + m)%nat).
Proof.
  revert n acc. induction fuel as [|fuel IH]; intros n acc Hn Hf; [lia|].
  cbn [dec_digits]. assert (Hd : isdigit (48 + n mod 10) = true).
  { unfold isdigit. pose proof (Z.mod_pos_bound n 10). lia. }
  destruct (Z.ltb_spec n 10).
  - exists [48 + n mod 10]. split; [done|]. split; [done|]. split; [by constructor|].
    split; [simpl; lia|]. intros a rest. cbn [app digits]. rewrite Hd. cbn [length].
    replace (a * 10 ^ Z.of_nat 1 + n) with (a * 10 + (48 + n mod 10 - 48)).
    + by destruct (digits _ _).
    + rewrite Z.mod_small by lia. lia.
  - rewrite Nat2Z.inj_succ, Z.pow_succ_r in Hn by lia.
    destruct (IH (n / 10) ((48 + n mod 10) :: acc)) as (ds & E & Hne & Hall & Hlen & Hdig).
    { split; [apply Z.div_pos; lia | apply Z.div_lt_upper_bound; lia]. }
    { destruct fuel; [simpl in Hn; lia | lia]. }
    exists (ds ++ [48 + n mod 10]). rewrite E, <- app_assoc. split; [done|].
    split; [by destruct ds|]. split; [apply Forall_app; by repeat constructor|].
    rewrite length_app. cbn [length]. split; [lia|]. intros a rest. rewrite <- app_assoc.
    rewrite Hdig. cbn [app digits]. rewrite Hd.
    replace (a * 10 ^ Z.of_nat (length ds + 1) + n)
      with ((a * 10 ^ Z.of_nat (length ds) + n / 10) * 10 + (48 + n mod 10 - 48)).
    + destruct (digits rest _) as [v m]. f_equal. lia.
    + rewrite Nat2Z.inj_add, Z.pow_add_r by lia. pose proof (Z.div_mod n 10). nia.
Qed.

Lemma digit_not_space c : isdigit c = true -> isspace c = false /\ c <> 45 /\ c <> 43.
Proof. unfold isdigit, isspace. lia. Qed.

(** What [dec] prints: an optional sign and digits. *)
Lemma dec_spec n :
  - 2 ^ 63 <= n < 2 ^ 63 ->
  exists ds, dec n = (if n <? 0 then [45] else []) ++ ds /\ ds <> [] /\
    Forall (fun c => isdigit c = true) ds /\ (length ds <= 20)%nat /\
    digits ds 0 = (Z.abs n, length ds).
Proof.
  intros Hn. unfold dec. destruct (Z.ltb_spec n 0);
    [destruct (dec_digits_spec 20 (- n) []) as (ds & E & Hne & Hall & Hlen & Hdig)
    |destruct (dec_digits_spec 20 n []) as (ds & E & Hne & Hall & Hlen & Hdig)]; try lia;
    exists ds; rewrite E, app_nil_r; specialize (Hdig 0 []); rewrite app_nil_r in Hdig;
    cbn [digits] in Hdig; rewrite Nat.add_0_r in Hdig;
    (split; [done|]; split; [done|]; split; [done|]; split; [done|]); rewrite Hdig; f_equal; lia.
Qed.

Lemma strtoll_dec n :
  - 2 ^ 63 <= n < 2 ^ 63 -> strtoll (dec n) = (n, length (dec n), false).
Proof.
  intros Hn. destruct (dec_spec n Hn) as (ds & E & Hne & Hall & _ & Hdig). rewrite E.
  destruct ds as [|c ds]; [done|]. apply Forall_cons in Hall as [Hc _].
  destruct (digit_not_space c Hc) as (Hs & H45 & H43). unfold strtoll, INT64_MAX, INT64_MIN.
  destruct (Z.ltb_spec n 0).
  - cbn [app skip_space]. change (isspace 45) with false. cbn [drop].
    rewrite Z.eqb_refl. cbv beta iota zeta. rewrite Hdig. cbn [length Nat.eqb].
    destruct (Z.ltb_spec (2 ^ 63 - 1) (- Z.abs n)); [lia|].
    destruct (Z.ltb_spec (- Z.abs n) (- 2 ^ 63)); [lia|]. f_equal. f_equal; lia.
  - cbn [app skip_space]. rewrite Hs. cbn [drop].
    replace (c =? 45) with false by lia. replace (c =? 43) with false by lia.
    cbv beta iota zeta. rewrite Hdig. cbn [length Nat.eqb].
    destruct (Z.ltb_spec (2 ^ 63 - 1) (Z.abs n)); [lia|].
    destruct (Z.ltb_spec (Z.abs n) (- 2 ^ 63)); [lia|]. f_equal. f_equal; lia.
Qed.

Lemma length_dec n : - 2 ^ 63 <= n < 2 ^ 63 -> (1 <= length (dec n) <= 21)%nat.
Proof.
  intros Hn. destruct (dec_spec n Hn) as (ds & -> & Hne & _ & Hl & _).
  rewrite length_app. destruct ds; [done|]. destruct (n <? 0); simpl in *; lia.
Qed.

Lemma parse_dec n : - 2 ^ 63 <= n < 2 ^ 63 -> parse_int64 (dec n) = Some n.
Proof.
  intros Hn. pose proof (length_dec n Hn). unfold parse_int64.
  rewrite decide_False by (intros E; rewrite E in *; simpl in *; lia).
  destruct (Z.leb_spec 32 (Z.of_nat (length (dec n)))); [lia|].
  rewrite strtoll_dec by done. by rewrite Nat.eqb_refl.
Qed.

Lemma dec_no_cr n : - 2 ^ 63 <= n < 2 ^ 63 -> CR ∉ dec n.
Proof.
  intros Hn Hin. destruct (dec_spec n Hn) as (ds & E & _ & Hall & _). rewrite E in Hin.
  apply elem_of_app in Hin as [Hin|Hin].
  - destruct (n <? 0); [|by apply elem_of_nil in Hin].
    apply list_elem_of_singleton in Hin. done.
  - rewrite Forall_forall in Hall. apply Hall in Hin. done.
Qed.

(** ** Lines *)

Lemma find_crlf_at pre rest :
  CR ∉ pre -> find_crlf (pre ++ CRLF ++ rest) = Some (length pre).
Proof.
  induction pre as [|c pre IH]; intros Hn; [done|].
  apply not_elem_of_cons in Hn as [Hc Hn]. cbn [app find_crlf].
  destruct (pre ++ CRLF ++ rest) as [|d l] eqn:E; [by destruct pre|].
  replace (c =? CR) with false by (symmetry; apply Z.eqb_neq; congruence).
  cbn [andb]. rewrite IH by done. done.
Qed.

(** No line end before the line is complete. *)
Lemma find_crlf_partial pre l :
  CR ∉ pre -> l `prefix_of` (pre ++ CRLF) -> (length l < length pre + 2)%nat -> find_crlf l = None.
Proof.
  revert l. induction pre as [|c pre IH]; intros l Hn Hp Hl.
  - destruct l as [|x [|y l]]; [done | done |]. simpl in Hl. lia.
  - destruct l as [|x l]; [done|]. apply not_elem_of_cons in Hn as [Hc Hn].
    simpl in Hp. pose proof (prefix_cons_inv_1 _ _ _ _ Hp) as ->.
    apply prefix_cons_inv_2 in Hp. cbn [find_crlf]. destruct l as [|y l]; [done|].
    replace (c =? CR) with false by (symmetry; apply Z.eqb_neq; congruence).
    cbn [andb]. rewrite IH by (done || simpl in *; lia). done.
Qed.

(** ** What a client sends *)

Definition enc_bulk (data : list Z) : list Z :=
  bs "$" ++ dec (Z.of_nat (length data)) ++ CRLF ++ data ++ CRLF.

Definition enc_bulks (args : list (list Z)) : list Z := concat (enc_bulk <$> args).

Definition enc_command (args : list (list Z)) : list Z :=
  bs "*" ++ dec (Z.of_nat (length args)) ++ CRLF ++ enc_bulks args.

(** An argument the server takes as it is. *)
Definition arg_fits (a : list Z) : Prop :=
  Z.of_nat (length a) <= VC_MAX_INLINE_ARG /\ (strip_vc a).2 = a /\ (strip_vc a).1 = 0.

Definition as_arg (a : list Z) : arg := Arg (a ++ [0]) (Z.of_nat (length a)).

Definition upper_first (a : list Z) : list Z :=
  (upper <$> take VC_MAX_CMD_LEN a) ++ drop VC_MAX_CMD_LEN a.

Definition enc_args (args : list (list Z)) : list arg :=
  match args with [] => [] | a :: args => as_arg (upper_first a) :: (as_arg <$> args) end.

Section Parse.
Context (alloc_ok : allocator) (Halloc : forall n, n <= VC_MAX_INLINE_ARG + 1 -> alloc_ok n = true).

(** The header of a bulk string, as the parser reads it. *)
Lemma bulk_header data rest :
  Z.of_nat (length data) <= VC_MAX_INLINE_ARG ->
  let p := enc_bulk data ++ rest in
  let j := S (length (dec (Z.of_nat (length data)))) in
  find_crlf p = Some j /\ take (j - 1) (drop 1 p) = dec (Z.of_nat (length data)) /\
  drop (j + 2) p = data ++ CRLF ++ rest.
Proof.
  intros Hl p j. unfold VC_MAX_INLINE_ARG in Hl. set (d := dec (Z.of_nat (length data))) in *.
  assert (Hcr : CR ∉ bs "$" ++ d).
  { apply not_elem_of_cons. split; [done|]. apply dec_no_cr. lia. }
  assert (E : p = (bs "$" ++ d) ++ CRLF ++ (data ++ CRLF ++ rest))
    by (unfold p, enc_bulk; by rewrite <- !app_assoc).
  rewrite E. split; [by apply (find_crlf_at (bs "$" ++ d))|]. split.
  - unfold j. cbn [bs app drop Nat.sub]. rewrite Nat.sub_0_r, <- ?app_assoc.
    by rewrite drop_0, take_app_length.
  - rewrite app_assoc. apply drop_app_exact. rewrite length_app. simpl. lia.
Qed.

Lemma parse_bulk_ok n i data rest vt :
  arg_fits data ->
  parse_bulks alloc_ok (S n) i (enc_bulk data ++ rest) vt =
  match parse_bulks alloc_ok n (i + 1) rest vt with
  | inl (args, rest, ty) => inl (as_arg data :: args, rest, ty)
  | inr e => inr e
  end.
Proof.
  intros (Hl & Hs & Ht). destruct (bulk_header data rest Hl) as (H1 & H2 & H3).
  cbn [parse_bulks]. rewrite H1, H2, H3. unfold VC_MAX_INLINE_ARG in *.
  pose proof (length_dec (Z.of_nat (length data))) as Hd.
  assert (Hlen : (3 <= length (enc_bulk data ++ rest))%nat).
  { unfold enc_bulk. rewrite !length_app. simpl. lia. }
  destruct (Z.ltb_spec (Z.of_nat (length (enc_bulk data ++ rest))) 3); [lia|].
  change (nth 0 (enc_bulk data ++ rest) 0) with 36. cbn [Z.eqb negb].
  rewrite parse_dec by lia.
  replace ((_ <? 0) || _) with false by lia.
  destruct (Z.ltb_spec (Z.of_nat (length (data ++ CRLF ++ rest))) (Z.of_nat (length data) + 2));
    [rewrite !length_app in *; simpl in *; lia|].
  rewrite Nat2Z.id, take_app_length. destruct (strip_vc data) as [t pl]. simpl in Hs, Ht. subst.
  rewrite (bool_decide_false (0 <> 0)) by auto. rewrite andb_false_r.
  rewrite Halloc by (unfold VC_MAX_INLINE_ARG; lia).
  replace (drop (length data + 2) (data ++ CRLF ++ rest)) with rest; [done|].
  rewrite app_assoc, drop_app_exact; [done|]. rewrite length_app. simpl. lia.
Qed.

Lemma parse_bulks_ok args i rest vt :
  Forall arg_fits args ->
  parse_bulks alloc_ok (length args) i (enc_bulks args ++ rest) vt =
  inl (as_arg <$> args, rest, vt).
Proof.
  revert i. induction args as [|a args IH]; intros i Hf; [done|].
  apply Forall_cons in Hf as [Ha Hf]. cbn [length enc_bulks fmap list_fmap concat].
  rewrite <- app_assoc, parse_bulk_ok by done. rewrite IH by done. done.
Qed.

Lemma upper_name_as_arg a args :
  upper_name (as_arg a :: args) = as_arg (upper_first a) :: args.
Proof.
  unfold upper_name, as_arg, upper_first, VC_MAX_CMD_LEN. cbn [a_buf a_len]. rewrite Nat2Z.id.
  assert (Hl : length ((upper <$> take 64 a) ++ drop 64 a) = length a).
  { rewrite length_app, length_fmap, length_take, length_drop. lia. }
  rewrite Hl. f_equal. f_equal. destruct (Nat.le_gt_cases (length a) 64).
  - rewrite Nat.min_l by lia. rewrite take_app_length, drop_app_length.
    by rewrite (take_ge a), (drop_ge a), app_nil_r by lia.
  - rewrite Nat.min_r by lia. rewrite take_app_le, drop_app_le by lia. by rewrite <- app_assoc.
Qed.

Lemma command_header args rest :
  Z.of_nat (length args) <= VC_MAX_ARGS ->
  let p := enc_command args ++ rest in
  let j := S (length (dec (Z.of_nat (length args)))) in
  (4 <= length p)%nat /\ find_crlf p = Some j /\
  take (j - 1) (drop 1 p) = dec (Z.of_nat (length args)) /\ drop (j + 2) p = enc_bulks args ++ rest.
Proof.
  intros Hl p j. unfold VC_MAX_ARGS in Hl. set (d := dec (Z.of_nat (length args))) in *.
  assert (Hcr : CR ∉ bs "*" ++ d).
  { apply not_elem_of_cons. split; [done|]. apply dec_no_cr. lia. }
  pose proof (length_dec (Z.of_nat (length args))) as Hd. fold d in Hd.
  assert (E : p = (bs "*" ++ d) ++ CRLF ++ (enc_bulks args ++ rest))
    by (unfold p, enc_command; by rewrite <- !app_assoc).
  rewrite E. split; [rewrite !length_app; simpl; lia|].
  split; [by apply (find_crlf_at (bs "*" ++ d))|]. split.
  - unfold j. cbn [bs app drop Nat.sub]. rewrite Nat.sub_0_r, <- ?app_assoc.
    by rewrite drop_0, take_app_length.
  - rewrite app_assoc. apply drop_app_exact. rewrite length_app. simpl. lia.
Qed.

Lemma parse_command_ok args rest :
  Z.of_nat (length args) <= VC_MAX_ARGS -> Forall arg_fits args ->
  resp_parse_command alloc_ok (enc_command args ++ rest) =
  RESP_PARSE_OK (Cmd (enc_args args) 0) (Z.of_nat (length (enc_command args))).
Proof.
  intros Hn Hf. destruct (command_header args rest Hn) as (H4 & H1 & H2 & H3).
  unfold resp_parse_command. unfold enc_command at 1. cbn [bs app].
  change (42 :: (dec (Z.of_nat (length args)) ++ CRLF ++ enc_bulks args) ++ rest)
    with (enc_command args ++ rest).
  cbn [Z.eqb negb]. rewrite H1, H2, H3. unfold VC_MAX_ARGS in *.
  destruct (Z.ltb_spec (Z.of_nat (length (enc_command args ++ rest))) 4); [lia|].
  rewrite parse_dec by lia. replace ((_ <? 0) || _) with false by lia.
  rewrite Nat2Z.id, parse_bulks_ok by done. f_equal.
  - unfold enc_args. destruct args as [|a args]; [done|]. rewrite fmap_cons.
    by rewrite upper_name_as_arg.
  - rewrite length_app. lia.
Qed.

(** ** Incomplete input *)

(** A proper prefix of [x ++ y] is a proper prefix of [x], or [x] followed by a
    proper prefix of [y]. *)
Lemma prefix_split (x y l : list Z) :
  l `prefix_of` x ++ y -> (length l < length (x ++ y))%nat ->
  (l `prefix_of` x /\ (length l < length x)%nat) \/
  (exists l', l = x ++ l' /\ l' `prefix_of` y /\ (length l' < length y)%nat).
Proof.
  intros [z Hz] Hl. destruct (Nat.lt_ge_cases (length l) (length x)) as [Hlt|Hge].
  - left. split; [|done]. exists (take (length x - length l) z).
    rewrite <- (take_app_length x y) at 1. rewrite Hz, take_app. by rewrite take_ge by lia.
  - right. exists (drop (length x) l). rewrite length_app in Hl.
    assert (El : l = x ++ drop (length x) l).
    { rewrite <- (take_drop (length x) l) at 1. f_equal.
      rewrite <- (take_app_le l z), <- Hz by lia. apply take_app_length. }
    split; [done|]. split; [|rewrite length_drop; lia].
    exists z. rewrite El, <- app_assoc in Hz. by apply app_inv_head in Hz.
Qed.

Lemma bulk_partial n i data l vt :
  Z.of_nat (length data) <= VC_MAX_INLINE_ARG ->
  l `prefix_of` enc_bulk data -> (length l < length (enc_bulk data))%nat ->
  parse_bulks alloc_ok (S n) i l vt = inr RESP_PARSE_MORE.
Proof.
  intros Hmax Hp Hl. cbn [parse_bulks].
  destruct (Z.ltb_spec (Z.of_nat (length l)) 3) as [H3|H3]; [done|].
  assert (H0 : nth 0 l 0 = 36).
  { destruct l as [|c l]; [simpl in H3; lia|]. by apply (prefix_cons_inv_1 _ _ _ _) in Hp as ->. }
  rewrite H0. cbn [Z.eqb negb]. change (negb (36 =? 36)) with false. cbv iota.
  set (d := dec (Z.of_nat (length data))). unfold VC_MAX_INLINE_ARG in *.
  assert (E : enc_bulk data = ((bs "$" ++ d) ++ CRLF) ++ (data ++ CRLF))
    by (unfold enc_bulk; by rewrite <- !app_assoc).
  rewrite E in Hp, Hl. destruct (prefix_split _ _ _ Hp Hl) as [[Hp' Hl']|(l' & -> & Hp' & Hl')].
  - rewrite (find_crlf_partial (bs "$" ++ d)); [done | | done |].
    + apply not_elem_of_cons. split; [done|]. apply dec_no_cr. lia.
    + rewrite length_app in Hl'. simpl in *. lia.
  - rewrite <- app_assoc, find_crlf_at.
    2: { apply not_elem_of_cons. split; [done|]. apply dec_no_cr. lia. }
    rewrite length_app. cbn [bs length Nat.add Nat.sub]. rewrite Nat.sub_0_r.
    cbn [app drop]. rewrite drop_0, take_app_length.
    unfold d at 1. rewrite parse_dec by lia.
    replace ((_ <? 0) || _) with false by lia.
    change (36 :: d ++ CRLF ++ l') with ((36 :: d) ++ CRLF ++ l').
    rewrite app_assoc, drop_app_exact by (rewrite length_app; simpl; lia).
    rewrite length_app in Hl'. simpl in Hl'.
    destruct (Z.ltb_spec (Z.of_nat (length l')) (Z.of_nat (length data) + 2)); [done | lia].
Qed.

Lemma bulks_partial args i l vt :
  Forall arg_fits args -> l `prefix_of` enc_bulks args -> (length l < length (enc_bulks args))%nat ->
  parse_bulks alloc_ok (length args) i l vt = inr RESP_PARSE_MORE.
Proof.
  revert i l vt. induction args as [|a args IH]; intros i l vt Hf Hp Hl; [simpl in Hl; lia|].
  apply Forall_cons in Hf as [Ha Hf]. change (enc_bulks (a :: args)) with (enc_bulk a ++ enc_bulks args) in *.
  destruct (prefix_split _ _ _ Hp Hl) as [[Hp' Hl']|(l' & -> & Hp' & Hl')].
  - apply (bulk_partial _ _ a); [apply Ha | done | done].
  - cbn [length]. rewrite parse_bulk_ok by done. by rewrite IH.
Qed.

Lemma command_partial args l :
  Z.of_nat (length args) <= VC_MAX_ARGS -> Forall arg_fits args ->
  l `prefix_of` enc_command args -> (length l < length (enc_command args))%nat ->
  resp_parse_command alloc_ok l = RESP_PARSE_MORE.
Proof.
  intros Hn Hf Hp Hl. unfold resp_parse_command. destruct l as [|c l]; [done|].
  assert (c = 42) as -> by exact (prefix_cons_inv_1 _ _ _ _ Hp).
  change (negb (42 =? 42)) with false. cbv iota.
  destruct (Z.ltb_spec (Z.of_nat (length (42 :: l))) 4); [done|].
  set (d := dec (Z.of_nat (length args))). unfold VC_MAX_ARGS in *.
  assert (E : enc_command args = ((bs "*" ++ d) ++ CRLF) ++ enc_bulks args)
    by (unfold enc_command; by rewrite <- !app_assoc).
  rewrite E in Hp, Hl. destruct (prefix_split _ _ _ Hp Hl) as [[Hp' Hl']|(l' & Hl0 & Hp' & Hl')].
  - rewrite (find_crlf_partial (bs "*" ++ d)); [done | | done |].
    + apply not_elem_of_cons. split; [done|]. apply dec_no_cr. lia.
    + rewrite length_app in Hl'. simpl in *. lia.
  - rewrite Hl0, <- app_assoc, find_crlf_at.
    2: { apply not_elem_of_cons. split; [done|]. apply dec_no_cr. lia. }
    rewrite length_app. cbn [bs length Nat.add Nat.sub]. rewrite Nat.sub_0_r.
    cbn [app drop]. rewrite drop_0, take_app_length.
    unfold d at 1. rewrite parse_dec by lia.
    replace ((_ <? 0) || _) with false by lia.
    change (42 :: d ++ CRLF ++ l') with ((42 :: d) ++ CRLF ++ l').
    rewrite app_assoc, drop_app_exact by (rewrite length_app; simpl; lia).
    rewrite Nat2Z.id. by rewrite bulks_partial.
Qed.

(** ** What the parser accepts *)

(** The block of an argument holds its bytes and a terminating NUL. *)
Definition arg_ok (a : arg) : Prop := Z.of_nat (length (a_buf a)) = a_len a + 1.

Lemma parse_bulks_safe n i p vt args rest ty :
  parse_bulks alloc_ok n i p vt = inl (args, rest, ty) ->
  length args = n /\ (length rest <= length p)%nat /\ Forall arg_ok args.
Proof.
  revert i p vt args rest ty. induction n as [|n IH]; intros i p vt args rest ty E.
  { simpl in E. by simplify_eq. }
  cbn [parse_bulks] in E. repeat (case_match; try discriminate).
  all: simplify_eq; match goal with H : parse_bulks _ _ _ _ _ = _ |- _ => apply IH in H as (Hn & Hr & Hok) end.
  all: split; [simpl; congruence|]; split; [rewrite !length_drop in Hr; lia|]; constructor; [|done].
  all: unfold arg_ok; simpl; rewrite length_app; simpl; lia.
Qed.

Lemma find_crlf_lt l j : find_crlf l = Some j -> (j + 2 <= length l)%nat.
Proof.
  revert j. induction l as [|a l IH]; intros j E; [done|]. cbn [find_crlf] in E.
  destruct l as [|b l]; [done|]. destruct (_ && _); [simplify_eq; simpl; lia|].
  destruct (find_crlf (b :: l)) as [j'|]; [|done]. injection E as <-.
  specialize (IH j' eq_refl). simpl in *. lia.
Qed.

Lemma find_nl_lt l i n : find_nl l = Some (i, n) -> (i + Z.to_nat n <= length l)%nat /\ 1 <= n <= 2.
Proof.
  revert i n. induction l as [|a l IH]; intros i n E; [done|]. cbn [find_nl] in E.
  destruct (_ && _) eqn:Ec.
  { simplify_eq. destruct l; [by rewrite andb_false_r in Ec|]. simpl. lia. }
  destruct (a =? LF); [simplify_eq; simpl; lia|].
  destruct (find_nl l) as [[i' n']|]; [|done]. cbn in E. injection E as <- <-.
  destruct (IH i' n' eq_refl). simpl. lia.
Qed.

Lemma inline_args_bound fuel argc l :
  0 <= argc -> Z.of_nat (length (inline_args alloc_ok fuel argc l)) <= Z.max 0 (VC_MAX_ARGS - argc).
Proof.
  revert argc l. induction fuel as [|fuel IH]; intros argc l Ha; [simpl; lia|].
  cbn [inline_args]. case_decide; [simpl; lia|].
  destruct (Z.leb_spec VC_MAX_ARGS argc); [simpl; lia|]. case_decide; [simpl; lia|].
  destruct (take_word _) as [w r]. cbn [length]. specialize (IH (argc + 1) r). lia.
Qed.

Lemma length_upper_name args : length (upper_name args) = length args.
Proof. by destruct args. Qed.

Lemma upper_name_ok args : Forall arg_ok args -> Forall arg_ok (upper_name args).
Proof.
  destruct args as [|a args]; [done|]. intros [Ha Hs]%Forall_cons. constructor; [|done].
  unfold arg_ok in *. cbn [a_buf a_len]. rewrite length_app, length_fmap, length_take, length_drop. lia.
Qed.

Lemma parse_bulks_not_ok n i p vt cmd k : parse_bulks alloc_ok n i p vt <> inr (RESP_PARSE_OK cmd k).
Proof.
  revert i p vt. induction n as [|n IH]; intros i p vt E; [done|]. cbn [parse_bulks] in E.
  repeat (case_match; try discriminate). all: simplify_eq; by eapply IH.
Qed.

Lemma parse_command_safe buf cmd consumed :
  resp_parse_command alloc_ok buf = RESP_PARSE_OK cmd consumed ->
  0 < consumed <= Z.of_nat (length buf) /\ cmd_argc cmd <= VC_MAX_ARGS /\
  (nth 0 buf 0 = 42 -> Forall arg_ok (cmd_args cmd)).
Proof.
  unfold resp_parse_command. destruct buf as [|c buf]; [done|].
  destruct (Z.eqb_spec c 42) as [->|Hc]; cbn [negb].
  - case_match; [done|]. destruct (find_crlf _) as [j|] eqn:Ej; [|done].
    apply find_crlf_lt in Ej. destruct (parse_int64 _) as [argc|]; [|done].
    destruct (_ || _) eqn:Eb; [done|]. zreflect.
    destruct (parse_bulks _ _ _ _ _) as [[[args rest] ty]|e] eqn:Ep; [|].
    + intros E. injection E as <- <-. apply parse_bulks_safe in Ep as (Hn & Hr & Hok).
      rewrite length_drop in Hr. unfold cmd_argc. cbn [cmd_args]. rewrite length_upper_name.
      cbn [length] in *. split; [lia|]. split; [lia|]. intros _. by apply upper_name_ok.
    + intros ->. by apply parse_bulks_not_ok in Ep.
  - intros E. unfold parse_inline in E. destruct (find_nl _) as [[nl sk]|] eqn:En; [|done].
    apply find_nl_lt in En as [H1 H2]. case_decide; [done|]. injection E as <- <-.
    pose proof (inline_args_bound nl 0 (take nl (c :: buf))). unfold cmd_argc, VC_MAX_ARGS in *.
    cbn [cmd_args length] in *.
    split; [lia|]. split; [lia|]. done.
Qed.
End Parse.

(** ** Buffers *)

Definition buf_ok (b : vc_buf) : Prop := b_len b <= b_cap b /\ 1 <= b_cap b <= 2 ^ 62.

Section Buffers.
Context (alloc_ok : allocator).

Lemma grow_loop_spec fuel nc len need :
  0 <= len <= nc -> 1 <= nc -> 0 <= need -> len + need <= 2 ^ 61 -> nc < 2 * (len + need) ->
  len + need <= nc * 2 ^ Z.of_nat fuel -> (0 < fuel)%nat ->
  exists r, grow_loop (S fuel) nc len need = Some r /\ len + need <= r < 2 * (len + need).
Proof.
  revert nc. induction fuel as [|fuel IH]; intros nc Hl Hn Hne Ht Hlt Hf Hpos; [lia|].
  cbn [grow_loop]. rewrite (u64_id (nc - len)) by lia.
  destruct (Z.ltb_spec (nc - len) need); [|exists nc; split; [done | lia]].
  rewrite (u64_id (nc * 2)) by lia. rewrite Nat2Z.inj_succ, Z.pow_succ_r in Hf by lia.
  destruct fuel as [|fuel].
  - cbn [grow_loop]. rewrite (u64_id (nc * 2 - len)) by lia. change (2 ^ Z.of_nat 0) with 1 in Hf.
    destruct (Z.ltb_spec (nc * 2 - len) need); [lia|]. exists (nc * 2). split; [done | lia].
  - apply IH; lia.
Qed.

Lemma vc_buf_grow_spec b need :
  buf_ok b -> 0 <= need -> b_len b + need <= 2 ^ 61 ->
  exists ok b', vc_buf_grow alloc_ok b need = Some (ok, b') /\ b_data b' = b_data b /\
    buf_ok b' /\ (if ok then b_len b + need <= b_cap b' else b' = b /\ exists n, alloc_ok n = false).
Proof.
  intros [Hl Hc] Hn Ht. unfold vc_buf_grow. assert (0 <= b_len b) by (unfold b_len; lia).
  rewrite (u64_id (b_cap b - b_len b)) by lia.
  destruct (Z.leb_spec need (b_cap b - b_len b)).
  { exists true, b. split; [done|]. split; [done|]. split; [done|]. lia. }
  rewrite (u64_id (b_cap b * 2)) by lia.
  destruct (grow_loop_spec 64 (b_cap b * 2) (b_len b) need) as (r & -> & Hr); [lia..|].
  cbn [mbind option_bind]. destruct (alloc_ok r) eqn:Ea.
  - eexists true, _. split; [done|]. split; [done|]. cbn [b_cap b_data].
    split; [|lia]. split; [unfold b_len in *; cbn [b_data b_cap]; lia | cbn [b_cap]; lia].
  - exists false, b. split; [done|]. split; [done|]. split; [done|]. eauto.
Qed.

(** [w] appends [s], or fails for want of memory having appended a part of it. *)
Definition writer (w : vc_buf -> option (bool * vc_buf)) (s : list Z) : Prop :=
  forall b, buf_ok b -> b_len b + Z.of_nat (length s) <= 2 ^ 61 ->
  exists ok b' p, w b = Some (ok, b') /\ buf_ok b' /\ p `prefix_of` s /\ b_data b' = b_data b ++ p /\
    (if ok then p = s else exists n, alloc_ok n = false).

Lemma append_writer s : writer (fun b => append alloc_ok b s) s.
Proof.
  intros b Hb Hl. unfold append.
  destruct (vc_buf_grow_spec b (Z.of_nat (length s)) Hb) as (ok & b' & -> & Hd & Hb' & Hok); [lia..|].
  destruct ok; cbn [and_then].
  - eexists true, _, s. split; [done|]. cbn [b_data]. rewrite Hd. split; [|done].
    destruct Hb' as [_ Hc]. split; [unfold b_len in *; cbn [b_data b_cap]; rewrite length_app; lia | done].
  - destruct Hok as [-> Hn]. exists false, b, []. split; [done|]. rewrite app_nil_r.
    split; [done|]. split; [apply prefix_nil|]. done.
Qed.

Lemma printf_writer s : Z.of_nat (length s) < 256 -> writer (fun b => buf_printf alloc_ok b s) s.
Proof.
  intros Hs b Hb Hl. unfold buf_printf. destruct (Z.leb_spec 256 (Z.of_nat (length s))); [lia|].
  by apply append_writer.
Qed.

(** Writers one after the other. *)
Lemma writes_writer ws ss :
  Forall2 writer ws ss -> writer (fun b => writes b ws) (concat ss).
Proof.
  induction 1 as [|w s ws ss Hw _ IH]; intros b Hb Hl; cbn [writes concat] in *.
  { exists true, b, []. rewrite app_nil_r. done. }
  rewrite length_app in Hl. destruct (Hw b Hb) as (ok & b1 & p & -> & Hb1 & Hp & Hd & Hok); [lia|].
  destruct ok; cbn [and_then].
  - subst p. destruct (IH b1 Hb1) as (ok & b2 & q & -> & Hb2 & Hq & Hd2 & Hok2).
    { unfold b_len in *. rewrite Hd, length_app. lia. }
    exists ok, b2, (s ++ q). split; [done|]. split; [done|]. split; [by apply prefix_app|].
    rewrite Hd2, Hd, <- app_assoc. split; [done|]. destruct ok; [by subst | done].
  - exists false, b1, p. split; [done|]. split; [done|]. split; [|done].
    destruct Hp as [z ->]. exists (z ++ concat ss). by rewrite <- app_assoc.
Qed.

Lemma header_short (c : Z) n : - 2 ^ 63 <= n < 2 ^ 63 -> Z.of_nat (length ([c] ++ dec n ++ CRLF)) < 256.
Proof. intros Hn. rewrite !length_app. simpl. pose proof (length_dec n Hn). lia. Qed.

Lemma bulk_writer data :
  Z.of_nat (length data) < 2 ^ 60 -> writer (fun b => resp_write_bulk alloc_ok b data) (enc_bulk data).
Proof.
  intros Hd. unfold resp_write_bulk.
  replace (enc_bulk data) with (concat [bs "$" ++ dec (Z.of_nat (length data)) ++ CRLF; data; CRLF]).
  - apply writes_writer. repeat constructor.
    + apply printf_writer. apply (header_short 36). lia.
    + apply append_writer.
    + apply append_writer.
  - unfold enc_bulk. cbn [concat]. by rewrite app_nil_r, <- !app_assoc.
Qed.

Lemma vc_typed_writer type payload :
  Z.of_nat (length payload) < 2 ^ 60 ->
  writer (fun b => resp_write_vc_typed alloc_ok b type payload) (enc_bulk (VC_WIRE_MAGIC ++ [type] ++ payload)).
Proof.
  intros Hd. unfold resp_write_vc_typed.
  set (total := VC_WIRE_MAGIC_LEN + 1 + Z.of_nat (length payload)).
  assert (Et : total = Z.of_nat (length (VC_WIRE_MAGIC ++ [type] ++ payload))).
  { rewrite !length_app. unfold total, VC_WIRE_MAGIC_LEN, VC_WIRE_MAGIC. simpl length. lia. }
  replace (enc_bulk (VC_WIRE_MAGIC ++ [type] ++ payload))
    with (concat [bs "$" ++ dec total ++ CRLF; VC_WIRE_MAGIC; [type]; payload; CRLF]).
  - apply writes_writer. repeat constructor; try apply append_writer.
    apply printf_writer. apply (header_short 36). unfold total, VC_WIRE_MAGIC_LEN. lia.
  - unfold enc_bulk. rewrite <- Et. cbn [concat]. by rewrite app_nil_r, <- !app_assoc.
Qed.
End Buffers.

(** ** Theorems *)

(** C13: round trip.  A command of at most 128 arguments of at most 64 KB, none of
    which starts with the VoidCache type header, is parsed back from any buffer that
    starts with its encoding: the same arguments, each in a block with its NUL, the
    name in upper case, exactly the encoded bytes consumed, the rest untouched. *)
Theorem command_roundtrip (alloc_ok : allocator) args rest :
  (forall n, n <= VC_MAX_INLINE_ARG + 1 -> alloc_ok n = true) ->
  Z.of_nat (length args) <= VC_MAX_ARGS -> Forall arg_fits args ->
  resp_parse_command alloc_ok (enc_command args ++ rest) =
  RESP_PARSE_OK (Cmd (enc_args args) 0) (Z.of_nat (length (enc_command args))).
Proof. intros Ha. by apply parse_command_ok. Qed.

Lemma command_roundtrip_witness :
  resp_parse_command granting (enc_command [bs "set"; bs "k"; bs "v"] ++ bs "*1") =
  RESP_PARSE_OK (Cmd [as_arg (bs "SET"); as_arg (bs "k"); as_arg (bs "v")] 0) 27.
Proof.
  apply (command_roundtrip granting [bs "set"; bs "k"; bs "v"] (bs "*1")); [done | done |].
  repeat constructor; vm_compute; congruence.
Defined.

(** C38: an incomplete command waits.  Every proper prefix of the encoding of a command of at
    most 128 arguments of at most 64 KB, none of which starts with the VoidCache type header,
    also the empty prefix, makes the parser ask for more bytes when its memory is granted; it
    never reports an error and never accepts. *)
Theorem command_prefix_more (alloc_ok : allocator) args l :
  (forall n, n <= VC_MAX_INLINE_ARG + 1 -> alloc_ok n = true) ->
  Z.of_nat (length args) <= VC_MAX_ARGS -> Forall arg_fits args ->
  l `prefix_of` enc_command args -> (length l < length (enc_command args))%nat ->
  resp_parse_command alloc_ok l = RESP_PARSE_MORE.
Proof. intros Ha. by apply command_partial. Qed.

Lemma command_prefix_witness :
  resp_parse_command granting (take 20 (enc_command [bs "set"; bs "k"; bs "v"])) = RESP_PARSE_MORE.
Proof.
  apply (command_prefix_more granting [bs "set"; bs "k"; bs "v"]); [done | done | | |].
  - repeat constructor; vm_compute; congruence.
  - exists (drop 20 (enc_command [bs "set"; bs "k"; bs "v"])). symmetry. apply take_drop.
  - vm_compute. lia.
Defined.

(** Whatever bytes arrive, an accepted command consumes at least one byte and
    no more than there are, has at most 128 arguments, and in the RESP form every
    argument's block holds its length plus a NUL. *)
Theorem parse_accepts_bounded (alloc_ok : allocator) buf cmd consumed :
  resp_parse_command alloc_ok buf = RESP_PARSE_OK cmd consumed ->
  0 < consumed <= Z.of_nat (length buf) /\ cmd_argc cmd <= VC_MAX_ARGS /\
  (nth 0 buf 0 = 42 -> Forall arg_ok (cmd_args cmd)).
Proof. apply parse_command_safe. Qed.

Lemma parse_accepts_witness :
  0 < 14 <= 14 /\ cmd_argc (Cmd [as_arg (bs "PING")] 0) <= VC_MAX_ARGS /\
  (nth 0 (enc_command [bs "ping"]) 0 = 42 -> Forall arg_ok [as_arg (bs "PING")]).
Proof.
  apply (parse_accepts_bounded granting (enc_command [bs "ping"]) (Cmd [as_arg (bs "PING")] 0) 14).
  reflexivity.
Defined.

(** In the inline form an argument with a NUL byte gets a block shorter than
    its recorded length: [strndup] stops at the NUL, [argl] does not, and whoever
    reads [argl] bytes reads past the block. *)
Theorem inline_nul_short_block :
  exists cmd, resp_parse_command granting (bs "SET k a" ++ [0] ++ bs "bcd" ++ CRLF) =
    RESP_PARSE_OK cmd 13 /\
    cmd_args cmd !! 2%nat = Some (Arg (bs "a" ++ [0]) 5) /\ ~ arg_ok (Arg (bs "a" ++ [0]) 5).
Proof. eexists. split; [vm_compute; reflexivity|]. split; [reflexivity|]. vm_compute. lia. Qed.

(** Growing a buffer always ends, keeps its bytes, and gives room for what was
    asked or, when the allocator refuses, leaves the buffer as it was. *)
Theorem buf_grow_total (alloc_ok : allocator) b need :
  buf_ok b -> 0 <= need -> b_len b + need <= 2 ^ 61 ->
  exists ok b', vc_buf_grow alloc_ok b need = Some (ok, b') /\ b_data b' = b_data b /\
    buf_ok b' /\ (if ok then b_len b + need <= b_cap b' else b' = b /\ exists n, alloc_ok n = false).
Proof. apply vc_buf_grow_spec. Qed.

Lemma buf_grow_witness :
  exists ok b', vc_buf_grow granting (Buf (bs "abc") 4 0) 1000 = Some (ok, b') /\
    b_data b' = bs "abc" /\ buf_ok b' /\
    (if ok then 3 + 1000 <= b_cap b' else b' = Buf (bs "abc") 4 0 /\ exists n : Z, true = false).
Proof.
  apply (buf_grow_total granting (Buf (bs "abc") 4 0) 1000); [|lia|vm_compute; congruence].
  split; vm_compute; [congruence | split; congruence].
Defined.

(** A bulk reply is written as one unit: on success exactly its encoding is
    appended to the bytes already there, whatever they are, and when memory runs
    out only a prefix of it was. *)
Theorem bulk_reply_exact (alloc_ok : allocator) data b :
  Z.of_nat (length data) < 2 ^ 60 -> buf_ok b -> b_len b + Z.of_nat (length (enc_bulk data)) <= 2 ^ 61 ->
  exists ok b' p, resp_write_bulk alloc_ok b data = Some (ok, b') /\ buf_ok b' /\
    p `prefix_of` enc_bulk data /\ b_data b' = b_data b ++ p /\
    (if ok then p = enc_bulk data else exists n, alloc_ok n = false).
Proof. intros Hd. by apply bulk_writer. Qed.

Lemma bulk_reply_witness :
  exists ok b' p, resp_write_bulk granting (Buf (bs "+OK") 8 0) (bs "hello") = Some (ok, b') /\
    buf_ok b' /\ p `prefix_of` enc_bulk (bs "hello") /\ b_data b' = bs "+OK" ++ p /\
    (if ok then p = enc_bulk (bs "hello") else exists n : Z, true = false).
Proof.
  apply (bulk_reply_exact granting (bs "hello") (Buf (bs "+OK") 8 0)).
  - vm_compute. reflexivity.
  - split; vm_compute; [congruence | split; congruence].
  - vm_compute. congruence.
Defined.
