(* ===== verification/Double.v ===== *)
(** * Doubles

    The [double] of the sources: IEEE 754 binary64 with rounding to nearest even, over the
    executable specification of the Standard Library ([SpecFloat]).  Conversion from and to
    integers, from and to the eight bytes in memory, [strtod], and the formats [%.nf] and
    [%g] of [printf] with its field widths. *)

From S2P Require Import Prelude Proto ProtoSpec.
From Stdlib Require SpecFloat.

(** ** Arithmetic *)

Abbreviation double := SpecFloat.spec_float.

Definition d_of_Z (z : Z) : double := SpecFloat.binary_normalize 53 1024 z 0 false.
Definition d_add : double -> double -> double := SpecFloat.SFadd 53 1024.
Definition d_mul : double -> double -> double := SpecFloat.SFmul 53 1024.
Definition d_div : double -> double -> double := SpecFloat.SFdiv 53 1024.
Definition d_zero : double := SpecFloat.S754_zero false.

(** The double nearest to [n / d]: the literals of the source, and [strtod]. *)
Definition d_ratio (neg : bool) (n d : Z) : double :=
  match n, d with
  | Zpos n, Zpos d =>
      let '(q, e, loc) := SpecFloat.SFdiv_core_binary 53 1024 (Zpos n) 0 (Zpos d) 0 in
      SpecFloat.binary_round_aux 53 1024 neg q e loc
  | _, _ => SpecFloat.S754_zero neg
  end.

(** [(int)x]: undefined when the truncated value is not an [int]. *)
Definition d_to_int (x : double) : option Z :=
  match x with
  | SpecFloat.S754_zero _ => Some 0
  | SpecFloat.S754_finite s m e =>
      let a := if 0 <=? e then Zpos m * 2 ^ e else Zpos m / 2 ^ (- e) in
      let z := if s then - a else a in
      if (- 2 ^ 31 <=? z) && (z <? 2 ^ 31) then Some z else None
  | _ => None
  end.

(** ** Memory *)

Definition bits_of_d (x : double) : Z :=
  let sg (s : bool) := if s then 2 ^ 63 else 0 in
  match x with
  | SpecFloat.S754_zero s => sg s
  | SpecFloat.S754_infinity s => sg s + 2047 * 2 ^ 52
  | SpecFloat.S754_nan => 2047 * 2 ^ 52 + 2 ^ 51
  | SpecFloat.S754_finite s m e =>
      if Zpos m <? 2 ^ 52 then sg s + Zpos m else sg s + (e + 1075) * 2 ^ 52 + (Zpos m - 2 ^ 52)
  end.

Definition d_of_bits (b : Z) : double :=
  let s := 2 ^ 63 <=? b in
  let ex := b / 2 ^ 52 mod 2 ^ 11 in
  let fr := b mod 2 ^ 52 in
  if ex =? 2047 then (if fr =? 0 then SpecFloat.S754_infinity s else SpecFloat.S754_nan)
  else if ex =? 0 then match fr with Zpos m => SpecFloat.S754_finite s m (-1074) | _ => SpecFloat.S754_zero s end
  else match 2 ^ 52 + fr with Zpos m => SpecFloat.S754_finite s m (ex - 1075) | _ => SpecFloat.S754_nan end.

Definition d_bytes (x : double) : list Z := le_encode 8 (bits_of_d x).
Definition d_of_bytes (l : list Z) : double := d_of_bits (le_decode (take 8 l)).

(** ** Printing *)

(** [n / d] to the nearest integer, ties to even. *)
Definition round_div (n d : Z) : Z :=
  let q := n / d in
  match 2 * (n mod d) ?= d with
  | Lt => q
  | Gt => q + 1
  | Eq => if Z.even q then q else q + 1
  end.

Definition pad_left (w : nat) (s : list Z) : list Z := replicate (w - length s) 32 ++ s.
Definition pad_right (w : nat) (s : list Z) : list Z := s ++ replicate (w - length s) 32.

(** [%0<w>d] of a number that is not negative. *)
Definition zero_pad (w : nat) (s : list Z) : list Z := replicate (w - length s) 48 ++ s.

(** A double has at most 309 digits before the point. *)
Definition big_dec (n : Z) : list Z := dec_digits 320 n [].

Definition d_sign (s : bool) : list Z := if s then [45] else [].

(** [q / 10^p] with [p] digits after the point. *)
Definition point (p : nat) (q : Z) : list Z :=
  big_dec (q / 10 ^ Z.of_nat p) ++
  match p with O => [] | _ => [46] ++ zero_pad p (big_dec (q mod 10 ^ Z.of_nat p)) end.

(** A finite double as a ratio. *)
Definition d_num (m : positive) (e : Z) : Z := if 0 <=? e then Zpos m * 2 ^ e else Zpos m.
Definition d_den (e : Z) : Z := if 0 <=? e then 1 else 2 ^ (- e).

(** [%.<p>f] *)
Definition fmt_f (p : nat) (x : double) : list Z :=
  match x with
  | SpecFloat.S754_zero s => d_sign s ++ point p 0
  | SpecFloat.S754_infinity s => d_sign s ++ bs "inf"
  | SpecFloat.S754_nan => bs "nan"
  | SpecFloat.S754_finite s m e => d_sign s ++ point p (round_div (d_num m e * 10 ^ Z.of_nat p) (d_den e))
  end.

(** The largest [k] with [10^k <= n/d], for [n >= d]; the smallest [k] with
    [1 <= n/d * 10^k], negated, for [n < d]. *)
Fixpoint log10_up (fuel : nat) (n d k : Z) : Z :=
  match fuel with
  | O => k
  | S fuel => if 10 * d <=? n then log10_up fuel n (10 * d) (k + 1) else k
  end.
Fixpoint log10_down (fuel : nat) (n d k : Z) : Z :=
  match fuel with
  | O => k
  | S fuel => if d <=? n then k else log10_down fuel (10 * n) d (k - 1)
  end.
Definition log10 (n d : Z) : Z := if d <=? n then log10_up 400 n d 0 else log10_down 400 n d 0.

(** [n/d * 10^k], rounded. *)
Definition scaled (n d k : Z) : Z := if 0 <=? k then round_div (n * 10 ^ k) d else round_div n (d * 10 ^ (- k)).

(** Trailing zeros, and the point when nothing follows it, are dropped. *)
Fixpoint drop_zeros (l : list Z) : list Z :=
  match l with 48 :: l => drop_zeros l | _ => l end.
Definition trim (l : list Z) : list Z :=
  reverse (match drop_zeros (reverse l) with 46 :: r => r | r => r end).

(** [%g]: six significant digits, in the style of [%f] when the exponent is from -4 to 5
    and of [%e] otherwise. *)
Definition fmt_g_pos (n d : Z) : list Z :=
  let k := log10 n d in
  let '(q, k) := (let q := scaled n d (5 - k) in if q =? 1000000 then (100000, k + 1) else (q, k)) in
  if (-4 <=? k) && (k <? 6) then
    (if k =? 5 then big_dec q else trim (point (Z.to_nat (5 - k)) q))
  else
    trim (point 5 q) ++ [101] ++ [if k <? 0 then 45 else 43] ++ zero_pad 2 (big_dec (Z.abs k)).

Definition fmt_g (x : double) : list Z :=
  match x with
  | SpecFloat.S754_zero s => d_sign s ++ bs "0"
  | SpecFloat.S754_infinity s => d_sign s ++ bs "inf"
  | SpecFloat.S754_nan => bs "nan"
  | SpecFloat.S754_finite s m e => d_sign s ++ fmt_g_pos (d_num m e) (d_den e)
  end.

(** ** Reading *)

Definition c_lower (c : Z) : Z := if (65 <=? c) && (c <=? 90) then c + 32 else c.
Definition starts (w l : list Z) : bool := bool_decide ((c_lower <$> take (length w) l) = w).

Definition hex_value (c : Z) : option Z :=
  if isdigit c then Some (c - 48)
  else if (97 <=? c_lower c) && (c_lower c <=? 102) then Some (c_lower c - 87) else None.

(** The digits of a number in base [b] with at most one point: the value of all digits,
    their number, the number of those after the point, the rest. *)
Fixpoint mantissa (b : Z) (value : Z -> option Z) (l : list Z) (seen : bool) (acc : Z) (n frac : nat)
    : Z * nat * nat * list Z :=
  match l with
  | c :: l' =>
      if (c =? 46) && negb seen then mantissa b value l' true acc n frac
      else match value c with
           | Some v => mantissa b value l' seen (acc * b + v) (S n) (if seen then S frac else frac)
           | None => (acc, n, frac, l)
           end
  | [] => (acc, n, frac, [])
  end.

(** An exponent is read when the letter is followed by digits. *)
Definition exponent (letter : Z) (l : list Z) : Z :=
  match l with
  | c :: l =>
      if c_lower c =? letter then
        let '(neg, l) := match l with
                         | s :: l' => if s =? 45 then (true, l') else if s =? 43 then (false, l') else (false, l)
                         | [] => (false, l)
                         end in
        let v := (digits l 0).1 in if neg then - v else v
      else 0
  | [] => 0
  end.

(** [acc * base^x] as a ratio.  Beyond [lim] it is infinite or zero for every double. *)
Definition scale (neg : bool) (base lim acc x : Z) : double :=
  if acc =? 0 then SpecFloat.S754_zero neg
  else if lim <? x then SpecFloat.S754_infinity neg
  else if 0 <=? x then d_ratio neg (acc * base ^ x) 1 else d_ratio neg acc (base ^ (- x)).

(** The value [strtod] returns for a C string, 0 when it has no number. *)
Definition strtod (l : list Z) : double :=
  let l := drop (skip_space l) l in
  let '(neg, l) := match l with
                   | c :: l' => if c =? 45 then (true, l') else if c =? 43 then (false, l') else (false, l)
                   | [] => (false, l)
                   end in
  if starts (bs "inf") l then SpecFloat.S754_infinity neg
  else if starts (bs "nan") l then SpecFloat.S754_nan
  else
    let '(h, hn, hfrac, hrest) := mantissa 16 hex_value (drop 2 l) false 0 0 0 in
    if starts (bs "0x") l && negb (hn =? 0)%nat then
      scale neg 2 5000 h (exponent 112 hrest - 4 * Z.of_nat hfrac)
    else
      let '(m, n, frac, rest) := mantissa 10 (fun c => if isdigit c then Some (c - 48) else None) l false 0 0 0 in
      if (n =? 0)%nat then d_zero
      else scale neg 10 5000 m (exponent 101 rest - Z.of_nat frac).

(** ** Examples *)

Example fmt_samples :
  fmt_g (strtod (bs "3.14")) = bs "3.14" /\ fmt_g (strtod (bs "-0")) = bs "-0" /\
  fmt_g (strtod (bs "1e10")) = bs "1e+10" /\ fmt_g (strtod (bs "999999.5")) = bs "1e+06" /\
  fmt_g (strtod (bs "0.0001")) = bs "0.0001" /\ fmt_g (strtod (bs "0x1.8p1z")) = bs "3" /\
  fmt_g (strtod (bs "1e-320")) = bs "9.99989e-321" /\ fmt_g (strtod (bs "123456789")) = bs "1.23457e+08" /\
  fmt_f 1 (d_of_Z 50) = bs "50.0" /\ fmt_f 2 (d_ratio false 1 8) = bs "0.12" /\ fmt_g (strtod (bs " +100")) = bs "100" /\
  fmt_g (strtod (bs "2.2250738585072011e-308")) = bs "2.22507e-308".
Proof. vm_compute. repeat split. Qed.

(** ** Facts *)

Lemma round_div_near n d : 0 < d -> 2 * Z.abs (n - round_div n d * d) <= d.
Proof.
  intros Hd. unfold round_div. pose proof (Z.div_mod n d). pose proof (Z.mod_pos_bound n d Hd).
  destruct (Z.compare_spec (2 * (n mod d)) d); [destruct (Z.even _)| |]; lia.
Qed.

(** The number of binary digits. *)
Lemma digits2_bounds p : 2 ^ (Zpos (SpecFloat.digits2_pos p) - 1) <= Zpos p < 2 ^ Zpos (SpecFloat.digits2_pos p).
Proof.
  induction p as [p IH|p IH|]; [| |done]; cbn [SpecFloat.digits2_pos];
    rewrite Pos2Z.inj_succ; set (d := Zpos (SpecFloat.digits2_pos p)) in *;
    replace (Z.succ d - 1) with (d - 1 + 1) by lia; rewrite Z.pow_succ_r, Z.pow_add_r by lia; lia.
Qed.

Lemma valid_finite s m e :
  SpecFloat.valid_binary 53 1024 (SpecFloat.S754_finite s m e) = true ->
  (2 ^ 52 <= Zpos m < 2 ^ 53 /\ -1074 <= e <= 971) \/ (Zpos m < 2 ^ 52 /\ e = -1074).
Proof.
  intros H. cbn in H. unfold SpecFloat.bounded, SpecFloat.canonical_mantissa, SpecFloat.fexp, SpecFloat.emin in H.
  apply andb_true_iff in H as [H1 H2]. apply Zbool.Zeq_bool_eq in H1. apply Z.leb_le in H2.
  pose proof (digits2_bounds m) as Hd. set (d := Zpos (SpecFloat.digits2_pos m)) in *.
  assert (d = 53 \/ (d < 53 /\ e = -1074)) as [Hd53|[Hlt He]] by lia.
  - left. rewrite Hd53 in Hd. lia.
  - right. split; [|done]. pose proof (Z.pow_le_mono_r 2 d 52). lia.
Qed.

Lemma fields s ex fr : 0 <= ex < 2048 -> 0 <= fr < 2 ^ 52 ->
  let b := (if s : bool then 2 ^ 63 else 0) + ex * 2 ^ 52 + fr in
  (2 ^ 63 <=? b) = s /\ b / 2 ^ 52 mod 2 ^ 11 = ex /\ b mod 2 ^ 52 = fr /\ 0 <= b < 2 ^ 64.
Proof.
  intros He Hf b. assert (Hb : b = (if s then 2048 else 0) * 2 ^ 52 + ex * 2 ^ 52 + fr) by (unfold b; destruct s; lia).
  split; [destruct s; [apply Z.leb_le | apply Z.leb_gt]; lia|]. rewrite Hb.
  replace (_ + fr) with (((if s then 2048 else 0) + ex) * 2 ^ 52 + fr) by lia.
  rewrite Z.div_add_l, (Z.div_small fr), Z.add_0_r by lia. split; [destruct s; zdivlia|].
  rewrite Z.add_comm, Z.mod_add by lia. split; [by apply Z.mod_small | destruct s; lia].
Qed.

(** A double survives its representation as bits. *)
Lemma d_bits_roundtrip x : SpecFloat.valid_binary 53 1024 x = true -> d_of_bits (bits_of_d x) = x /\ 0 <= bits_of_d x < 2 ^ 64.
Proof.
  intros Hv. destruct x as [[]|[]| |s m e]; try (split; [reflexivity | cbn; lia]).
  unfold bits_of_d. destruct (valid_finite _ _ _ Hv) as [[Hm He]|[Hm ->]].
  - rewrite (proj2 (Z.ltb_ge _ _)) by lia. destruct (fields s (e + 1075) (Zpos m - 2 ^ 52)) as (F1 & F2 & F3 & F4); [lia..|].
    split; [|done]. unfold d_of_bits. rewrite F1, F2, F3. rewrite (proj2 (Z.eqb_neq _ 2047)), (proj2 (Z.eqb_neq _ 0)) by lia.
    replace (2 ^ 52 + _) with (Zpos m) by lia. f_equal. lia.
  - rewrite (proj2 (Z.ltb_lt _ _)) by lia. destruct (fields s 0 (Zpos m)) as (F1 & F2 & F3 & F4); [lia..|].
    rewrite Z.mul_0_l, Z.add_0_r in F1, F2, F3, F4. split; [|done]. unfold d_of_bits. by rewrite F1, F2, F3.
Qed.

Lemma d_bytes_roundtrip x r : SpecFloat.valid_binary 53 1024 x = true -> d_of_bytes (d_bytes x ++ r) = x.
Proof.
  intros Hv. destruct (d_bits_roundtrip x Hv) as [H1 H2]. unfold d_of_bytes, d_bytes.
  rewrite take_app_le, take_ge by (rewrite length_le_encode; lia). by rewrite le8_roundtrip.
Qed.
