(* ===== verification/ProtoMem.v ===== *)
(** * RESP protocol: memory

    The blocks behind the protocol's objects ([src/net/proto.c]): the two blocks of an I/O
    buffer, the blocks of a parsed value ([vc_val_free]) and of a parsed command
    ([vc_cmd_free]), over the heap of [Slab.v].  What [malloc], [calloc] and [realloc] answer
    is an argument.  [Proto.v] has the contents of the same objects. *)

From S2P Require Import Prelude Slab Proto ProtoSpec Double.

(** [free], which ignores NULL. *)
Definition cfree (a : Z) (h : heap) : option heap := if a =? 0 then Some h else free a h.

(** [realloc(a, n)] answered by [ans]: the block moves, or stays when there is no memory. *)
Definition realloc (ans : option Z) (a n : Z) (h : heap) : option (option Z * heap) :=
  match ans with
  | None => match h_mallocs h !! a with Some _ => Some (None, h) | None => None end
  | Some b => h ← free a h; Some (malloc (Some b) n h)
  end.

(** ** I/O buffers *)

(** A buffer with the addresses of its structure and of its data. *)
Record mbuf := MBuf { mb_self : Z; mb_data : Z; mb_buf : vc_buf }.

Definition BUF_SIZE : Z := 32.

Definition buf_new (a1 a2 : option Z) (cap : Z) (h : heap) : option (option mbuf * heap) :=
  match malloc a1 BUF_SIZE h with
  | (None, h) => Some (None, h)
  | (Some b, h) =>
      match malloc a2 cap h with
      | (None, h) => h ← cfree b h; Some (None, h)
      | (Some d, h) => Some (Some (MBuf b d (Buf [] cap 0)), h)
      end
  end.

Definition buf_free (b : option mbuf) (h : heap) : option heap :=
  match b with
  | None => Some h
  | Some b => h ← cfree (mb_data b) h; cfree (mb_self b) h
  end.

(** The return value, 0 as [true], with the buffer and the heap. *)
Definition buf_grow (ans : option Z) (b : mbuf) (need : Z) (h : heap) : option (bool * mbuf * heap) :=
  let x := mb_buf b in
  if need <=? u64 (b_cap x - b_len x) then Some (true, b, h) else
  nc ← grow_loop 65 (u64 (b_cap x * 2)) (b_len x) need;
  '(nd, h) ← realloc ans (mb_data b) nc h;
  match nd with
  | None => Some (false, b, h)
  | Some nd => Some (true, MBuf (mb_self b) nd (Buf (b_data x) nc (b_rpos x)), h)
  end.

(** The contents are those of [Proto.v]. *)
Lemma buf_grow_contents ans b need h :
  is_Some (h_mallocs h !! mb_data b) ->
  (fun r => (r.1.1, mb_buf r.1.2)) <$> buf_grow ans b need h = vc_buf_grow (Allocator (fun _ => bool_decide (is_Some ans)) (fun _ => true)) (mb_buf b) need.
Proof.
  intros [n Hn]. unfold buf_grow, vc_buf_grow. destruct (need <=? _); [done|]. destruct (grow_loop _ _ _ _) as [nc|]; [|done].
  cbn [mbind option_bind]. unfold realloc. destruct ans as [a|]; [unfold free|]; rewrite Hn; done.
Qed.

(** The blocks of a buffer, and nothing else, are added to [m]. *)
Definition owns_buf (m : gmap Z Z) (b : mbuf) (h : heap) : Prop :=
  mb_self b <> 0 /\ mb_data b <> 0 /\ mb_self b <> mb_data b /\ m !! mb_self b = None /\ m !! mb_data b = None /\
  exists n, h_mallocs h = <[mb_self b := BUF_SIZE]> (<[mb_data b := n]> m).

(** An address that [malloc] may return. *)
Definition fresh_addr (a : Z) (h : heap) : Prop := a <> 0 /\ h_mallocs h !! a = None.

Lemma buf_new_owns a1 a2 cap h :
  (forall a, a1 = Some a -> fresh_addr a h) -> (forall a, a2 = Some a -> fresh_addr a h /\ Some a <> a1) ->
  exists r h', buf_new a1 a2 cap h = Some (r, h') /\
    match r with
    | None => h_mallocs h' = h_mallocs h
    | Some b => owns_buf (h_mallocs h) b h' /\ mb_buf b = Buf [] cap 0
    end.
Proof.
  intros H1 H2. unfold buf_new. destruct a1 as [b|]; cbn [malloc]; [|by exists None, h]. destruct (H1 b eq_refl) as [Hb Hm].
  destruct a2 as [d|]; cbn [malloc].
  - destruct (H2 d eq_refl) as [[Hd Hmd] Hne]. eexists _, _. split; [done|]. cbn. split; [|done].
    assert (b <> d) by congruence. split; [done|]. split; [done|]. split; [done|]. split; [done|]. split; [done|]. exists cap. cbn.
    by rewrite insert_insert_ne.
  - unfold cfree. rewrite (proj2 (Z.eqb_neq _ _) Hb). unfold free. cbn [h_mallocs]. rewrite lookup_insert_eq. cbn [mbind option_bind].
    eexists None, _. split; [done|]. cbn. by rewrite delete_insert_id.
Qed.

Lemma buf_grow_owns m ans b need h r b' h' :
  owns_buf m b h -> (forall a, ans = Some a -> a <> 0 /\ m !! a = None /\ a <> mb_self b) ->
  buf_grow ans b need h = Some (r, b', h') -> owns_buf m b' h'.
Proof.
  intros (Hs & Hd & Hne & Hms & Hmd & n & Hm) Ha E. unfold buf_grow in E.
  destruct (need <=? _); [injection E as <- <- <-; by repeat (split; [done|]); exists n|].
  destruct (grow_loop _ _ _ _) as [nc|]; [|done]. cbn [mbind option_bind] in E. unfold realloc in E.
  assert (Hl : h_mallocs h !! mb_data b = Some n) by (rewrite Hm, lookup_insert_ne, lookup_insert_eq by done; done).
  destruct ans as [a|].
  - unfold free in E. rewrite Hl in E. cbn in E. injection E as <- <- <-. destruct (Ha a eq_refl) as (Ha0 & Ham & Has).
    split; [done|]. split; [done|]. split; [cbn; congruence|]. split; [done|]. split; [done|]. exists nc. cbn. rewrite Hm.
    rewrite delete_insert_ne, delete_insert_id by congruence. rewrite insert_insert_ne by congruence. done.
  - rewrite Hl in E. cbn in E. injection E as <- <- <-. by repeat (split; [done|]); exists n.
Qed.

Lemma buf_free_owns m b h : owns_buf m b h -> exists h', buf_free (Some b) h = Some h' /\ h_mallocs h' = m.
Proof.
  intros (Hs & Hd & Hne & Hms & Hmd & n & Hm). unfold buf_free, cfree.
  rewrite (proj2 (Z.eqb_neq _ _) Hd), (proj2 (Z.eqb_neq _ _) Hs). unfold free. rewrite Hm.
  rewrite lookup_insert_ne, lookup_insert_eq by done. cbn [mbind option_bind h_mallocs].
  rewrite lookup_delete_ne, lookup_insert_eq by done. eexists. split; [done|]. cbn [h_mallocs].
  rewrite delete_insert_ne by congruence. rewrite (delete_insert_id m (mb_data b)) by done. by apply delete_insert_id.
Qed.

(** ** Parsed commands *)

(** A command with the addresses of its arguments, NULL as 0. *)
Record mcmd := MCmd { mc_argv : list Z; mc_cmd : vc_cmd }.

Inductive mparse : Type :=
| MP_OK (cmd : mcmd) (consumed : Z)
| MP_MORE
| MP_ERR.

(** One round of the loop over the bulk strings, up to its [malloc]: the type byte, the
    payload and the input behind the bulk string. *)
Definition bulk_round (p : list Z) : parse_result + (Z * list Z * list Z) :=
  if Z.of_nat (length p) <? 3 then inl RESP_PARSE_MORE
  else if negb (nth 0 p 0 =? 36) then inl RESP_PARSE_ERR
  else
  match find_crlf p with
  | None => inl RESP_PARSE_MORE
  | Some j =>
      match parse_int64 (take (j - 1) (drop 1 p)) with
      | None => inl RESP_PARSE_ERR
      | Some blen =>
          if (blen <? 0) || (VC_MAX_INLINE_ARG <? blen) then inl RESP_PARSE_ERR
          else
          let p := drop (j + 2) p in
          if Z.of_nat (length p) <? blen + 2 then inl RESP_PARSE_MORE
          else let '(t, payload) := strip_vc (take (Z.to_nat blen) p) in
               inr (t, payload, drop (Z.to_nat blen + 2) p)
      end
  end.

Definition err_of (e : parse_result) : mparse :=
  match e with RESP_PARSE_MORE => MP_MORE | _ => MP_ERR end.

(** The loop, with what its [malloc] calls answer.  [cmd->argc] is still 0, so that no exit
    but the last one leaves a trace of the blocks in the command, and the [vc_cmd_free] after
    a failed [malloc] releases nothing. *)
Fixpoint bulks_mem (ans : Z -> option Z) (n : nat) (i : Z) (p : list Z) (vt : Z) (h : heap)
    : (list Z * list arg * list Z * Z + mparse) * heap :=
  match n with
  | O => (inl ([], [], p, vt), h)
  | S n =>
      match bulk_round p with
      | inl e => (inr (err_of e), h)
      | inr (t, payload, rest) =>
          let vt := if (i =? 1) && bool_decide (t <> 0) then t else vt in
          match malloc (ans i) (Z.of_nat (length payload) + 1) h with
          | (None, h) => (inr MP_ERR, h)
          | (Some a, h) =>
              match bulks_mem ans n (i + 1) rest vt h with
              | (inl (argv, args, rest, ty), h) =>
                  (inl (a :: argv, Arg (payload ++ [0]) (Z.of_nat (length payload)) :: args, rest, ty), h)
              | (inr e, h) => (inr e, h)
              end
          end
      end
  end.

(** [strndup] of each word; a failure leaves NULL in [argv]. *)
Fixpoint inline_mem (ans : Z -> option Z) (i : Z) (args : list arg) (h : heap) : list Z * list arg * heap :=
  match args with
  | [] => ([], [], h)
  | a :: args =>
      let '(p, h) := malloc (ans i) (Z.of_nat (length (a_buf a))) h in
      let '(argv, copies, h) := inline_mem ans (i + 1) args h in
      (default 0 p :: argv, (if p then a else Arg [] (a_len a)) :: copies, h)
  end.

Definition parse_alloc (ans : Z -> option Z) (buf : list Z) (h : heap) : mparse * heap :=
  match buf with
  | [] => (MP_MORE, h)
  | c :: _ =>
      if negb (c =? 42) then
        match parse_inline granting buf with
        | RESP_PARSE_OK cmd consumed =>
            let '(argv, copies, h) := inline_mem ans 0 (cmd_args cmd) h in
            (MP_OK (MCmd argv (Cmd copies (cmd_vc_type cmd))) consumed, h)
        | e => (err_of e, h)
        end
      else if Z.of_nat (length buf) <? 4 then (MP_MORE, h)
      else
      match find_crlf buf with
      | None => (MP_MORE, h)
      | Some j =>
          match parse_int64 (take (j - 1) (drop 1 buf)) with
          | None => (MP_ERR, h)
          | Some argc =>
              if (argc <? 0) || (VC_MAX_ARGS <? argc) then (MP_ERR, h)
              else match bulks_mem ans (Z.to_nat argc) 0 (drop (j + 2) buf) 0 h with
                   | (inl (argv, args, rest, ty), h) =>
                       (MP_OK (MCmd argv (Cmd (upper_name args) ty)) (Z.of_nat (length buf) - Z.of_nat (length rest)), h)
                   | (inr e, h) => (e, h)
                   end
          end
      end
  end.

(** [free(cmd->argv[i])] for each argument; the command is empty afterwards. *)
Fixpoint free_all (l : list Z) (h : heap) : option heap :=
  match l with [] => Some h | a :: l => h ← cfree a h; free_all l h end.
Definition cmd_free (c : mcmd) (h : heap) : option (mcmd * heap) :=
  h ← free_all (mc_argv c) h; Some (MCmd [] (Cmd [] (cmd_vc_type (mc_cmd c))), h).

(** ** Agreement with the parser of [Proto.v] *)

Lemma parse_bulks_round (alloc_ok : allocator) n i p vt :
  parse_bulks alloc_ok (S n) i p vt =
  match bulk_round p with
  | inl e => inr e
  | inr (t, payload, rest) =>
      if alloc_ok (Z.of_nat (length payload) + 1) then
        match parse_bulks alloc_ok n (i + 1) rest (if (i =? 1) && bool_decide (t <> 0) then t else vt) with
        | inl (args, rest, ty) => inl (Arg (payload ++ [0]) (Z.of_nat (length payload)) :: args, rest, ty)
        | inr e => inr e
        end
      else inr RESP_PARSE_ERR
  end.
Proof.
  cbn [parse_bulks]. unfold bulk_round. destruct (_ <? 3); [done|]. destruct (negb _); [done|].
  destruct (find_crlf p) as [j|]; [|done]. destruct (parse_int64 _) as [blen|]; [|done]. destruct (_ || _); [done|].
  cbv zeta. destruct (_ <? _); [done|]. destruct (strip_vc _) as [t payload]. done.
Qed.

(** What a parse is without its addresses. *)
Definition erase (r : mparse) : parse_result :=
  match r with MP_OK c n => RESP_PARSE_OK (mc_cmd c) n | MP_MORE => RESP_PARSE_MORE | MP_ERR => RESP_PARSE_ERR end.

Lemma round_not_ok p cmd n : bulk_round p <> inl (RESP_PARSE_OK cmd n).
Proof.
  intros E. unfold bulk_round in E. destruct (_ <? 3); [done|]. destruct (negb _); [done|]. destruct (find_crlf p); [|done].
  destruct (parse_int64 _); [|done]. destruct (_ || _); [done|]. cbv zeta in E. destruct (_ <? _); [done|]. by destruct (strip_vc _).
Qed.

Lemma bulks_mem_erase ans n : (forall i, is_Some (ans i)) -> forall i p vt h,
  match (bulks_mem ans n i p vt h).1 with
  | inl (_, args, rest, ty) => parse_bulks granting n i p vt = inl (args, rest, ty)
  | inr e => parse_bulks granting n i p vt = inr (erase e)
  end.
Proof.
  intros Ha. induction n as [|n IH]; intros i p vt h; [done|]. rewrite parse_bulks_round. cbn [bulks_mem].
  destruct (bulk_round p) as [e|[[t payload] rest]] eqn:Er; [destruct e; [by apply round_not_ok in Er | done | done]|]. cbv zeta.
  destruct (Ha i) as [a ->]. cbn [malloc].
  match goal with |- context [bulks_mem _ _ _ _ ?v ?hh] => specialize (IH (i + 1) rest v hh) end. destruct (bulks_mem _ _ _ _ _ _) as [[[[[argv args] rest'] ty]|e] h2]; cbn [fst] in *; by rewrite IH.
Qed.

Lemma inline_mem_copies ans : (forall i, is_Some (ans i)) -> forall args i h, (inline_mem ans i args h).1.2 = args.
Proof.
  intros Ha. induction args as [|a args IH]; intros i h; [done|]. cbn [inline_mem]. destruct (Ha i) as [p ->]. cbn [malloc].
  set (h1 := Heap _ _ _ _). specialize (IH (i + 1) h1). destruct (inline_mem _ _ _ _) as [[argv copies] h']. cbn in *. by rewrite IH.
Qed.

(** With memory the answers are those of [resp_parse_command]. *)
Lemma parse_mem_erase ans buf h : (forall i, is_Some (ans i)) -> erase (parse_alloc ans buf h).1 = resp_parse_command granting buf.
Proof.
  intros Ha. unfold parse_alloc, resp_parse_command. destruct buf as [|c buf]; [done|]. destruct (negb _).
  { destruct (parse_inline _ _) as [[args vt] k| |]; [|done..]. pose proof (inline_mem_copies ans Ha args 0 h) as Hc.
    cbn [cmd_args cmd_vc_type]. destruct (inline_mem _ _ _ _) as [[argv copies] h']. cbn in *. by rewrite Hc. }
  destruct (_ <? 4); [done|]. destruct (find_crlf _) as [j|]; [|done]. destruct (parse_int64 _) as [argc|]; [|done]. destruct (_ || _); [done|].
  pose proof (bulks_mem_erase ans (Z.to_nat argc) Ha 0 (drop (j + 2) (c :: buf)) 0 h) as H.
  destruct (bulks_mem _ _ _ _ _ _) as [[[[[argv args] rest'] ty]|e] h2]; cbn [fst] in *; by rewrite H.
Qed.

(** ** Blocks *)

(** The blocks of the list are allocated one after the other. *)
Definition alloc_all (l : list (Z * Z)) (m : gmap Z Z) : gmap Z Z := foldl (fun m p => <[p.1 := p.2]> m) m l.

Lemma alloc_all_lookup l m a : a ∉ l.*1 -> alloc_all l m !! a = m !! a.
Proof.
  revert m. induction l as [|[b n] l IH]; intros m Ha; [done|]. apply not_elem_of_cons in Ha as [Hb Ha].
  cbn. unfold alloc_all in IH. rewrite IH by done. by apply lookup_insert_ne.
Qed.

Lemma alloc_all_delete l m a n : a ∉ l.*1 -> m !! a = None -> delete a (alloc_all l (<[a := n]> m)) = alloc_all l m.
Proof.
  revert m. induction l as [|[b n'] l IH]; intros m Ha Hm; [by apply delete_insert_id|]. apply not_elem_of_cons in Ha as [Hb Ha]. cbn in Hb.
  cbn. change (delete a (alloc_all l (<[b := n']> (<[a := n]> m))) = alloc_all l (<[b := n']> m)).
  rewrite insert_insert_ne by congruence. apply IH; [done|]. by rewrite lookup_insert_ne.
Qed.

(** Distinct addresses that are not in use. *)
Definition fresh_blocks (l : list (Z * Z)) (m : gmap Z Z) : Prop :=
  NoDup l.*1 /\ Forall (fun a => a <> 0 /\ m !! a = None) l.*1.

Lemma alloc_all_size l m : fresh_blocks l m -> size (alloc_all l m) = (size m + length l)%nat.
Proof.
  revert m. induction l as [|[a n] l IH]; intros m [Hnd Hf]; [cbn; lia|]. cbn [fmap list_fmap fst] in Hnd, Hf. apply NoDup_cons in Hnd as [Ha Hnd].
  apply Forall_cons in Hf as [[Ha0 Hm] Hf]. change (alloc_all ((a, n) :: l) m) with (alloc_all l (<[a := n]> m)). rewrite IH.
  - rewrite map_size_insert_None by done. cbn [length]. lia.
  - split; [done|]. rewrite Forall_forall in *. intros b Hb. destruct (Hf b Hb). split; [done|]. rewrite lookup_insert_ne; [done|]. by intros ->.
Qed.

Lemma free_all_blocks l : forall m h, fresh_blocks l m -> h_mallocs h = alloc_all l m ->
  exists h', free_all l.*1 h = Some h' /\ h_mallocs h' = m.
Proof.
  induction l as [|[a n] l IH]; intros m h [Hnd Hf] Hh; [by exists h|]. cbn [fmap list_fmap fst] in *. apply NoDup_cons in Hnd as [Ha Hnd].
  apply Forall_cons in Hf as [[Ha0 Hm] Hf]. cbn [free_all]. unfold cfree. rewrite (proj2 (Z.eqb_neq a 0) Ha0). unfold free. rewrite Hh.
  change (alloc_all ((a, n) :: l) m) with (alloc_all l (<[a := n]> m)).
  rewrite alloc_all_lookup by done. rewrite lookup_insert_eq. cbn [mbind option_bind]. apply IH; [by split|].
  cbn [h_mallocs]. by apply alloc_all_delete.
Qed.

(** The allocator grants every request of a parse, with different addresses. *)
Definition grants (ans : Z -> option Z) (m : gmap Z Z) : Prop :=
  exists f, (forall i, ans i = Some (f i)) /\ (forall i j, f i = f j -> i = j) /\ forall i, f i <> 0 /\ m !! f i = None.

Lemma malloc_mallocs a n h : h_mallocs (malloc (Some a) n h).2 = <[a := n]> (h_mallocs h).
Proof. done. Qed.

Section Blocks.
Context (f : Z -> Z) (ans : Z -> option Z) (m0 : gmap Z Z).
Context (Hans : forall i, ans i = Some (f i)) (Hinj : forall i j, f i = f j -> i = j) (Hfree : forall i, f i <> 0 /\ m0 !! f i = None).

(** [f i], [f (i + 1)], ... *)
Definition from (i : Z) (n : nat) : list Z := f <$> seqZ i (Z.of_nat n).

Lemma from_S i n : from i (S n) = f i :: from (i + 1) n.
Proof. unfold from. rewrite seqZ_cons by lia. cbn. do 3 f_equal; lia. Qed.

Lemma from_fresh i n sizes : length sizes = n -> fresh_blocks (zip (from i n) sizes) m0.
Proof.
  intros Hl. unfold fresh_blocks. rewrite fst_zip by (unfold from; rewrite length_fmap, length_seqZ; lia). split.
  - unfold from. apply NoDup_fmap_2; [intros x y; apply Hinj | apply NoDup_seqZ].
  - apply Forall_fmap, Forall_forall. intros x _. apply Hfree.
Qed.

(** The blocks after the loop, whatever its outcome. *)
Lemma bulks_mem_blocks n : forall i p vt h r h', bulks_mem ans n i p vt h = (r, h') ->
  exists sizes, h_mallocs h' = alloc_all (zip (from i (length sizes)) sizes) (h_mallocs h) /\
    match r with inl (argv, _, _, _) => argv = from i (length sizes) | inr _ => (length sizes <= n)%nat end.
Proof.
  induction n as [|n IH]; intros i p vt h r h' E; cbn [bulks_mem] in E; [injection E as <- <-; by exists []|].
  destruct (bulk_round p) as [e|[[t payload] rest]]; [injection E as <- <-; exists []; split; [done | cbn; lia]|].
  cbv zeta in E. rewrite Hans in E. cbn [malloc] in E. set (sz := Z.of_nat (length payload) + 1) in E.
  destruct (bulks_mem _ _ _ _ _ _) as [r1 h1] eqn:E1. destruct (IH _ _ _ _ _ _ E1) as (sizes & Hm & Hr). exists (sz :: sizes).
  assert (Hm' : h_mallocs h1 = alloc_all (zip (from i (length (sz :: sizes))) (sz :: sizes)) (h_mallocs h)) by (cbn [length]; rewrite from_S; exact Hm).
  destruct r1 as [[[[argv args] rest'] ty]|e]; injection E as <- <-; (split; [exact Hm'|]); cbn [length]; [rewrite from_S; by f_equal | lia].
Qed.

Lemma inline_mem_blocks args : forall i h argv copies h', inline_mem ans i args h = (argv, copies, h') ->
  exists sizes, length sizes = length args /\ argv = from i (length sizes) /\ h_mallocs h' = alloc_all (zip (from i (length sizes)) sizes) (h_mallocs h).
Proof.
  induction args as [|a args IH]; intros i h argv copies h' E; cbn [inline_mem] in E; [injection E as <- _ <-; by exists []|].
  rewrite Hans in E. cbn [malloc] in E. destruct (inline_mem _ _ _ _) as [[argv1 copies1] h1] eqn:E1. injection E as <- _ <-.
  destruct (IH _ _ _ _ _ E1) as (sizes & Hl & -> & Hm). exists (Z.of_nat (length (a_buf a)) :: sizes). split; [cbn; lia|].
  cbn [length]. rewrite from_S. split; [done|]. exact Hm.
Qed.
End Blocks.

(** A command that was parsed is released without a trace. *)
Lemma parsed_released ans buf h cmd consumed h' :
  grants ans (h_mallocs h) -> parse_alloc ans buf h = (MP_OK cmd consumed, h') ->
  exists c h'', cmd_free cmd h' = Some (c, h'') /\ h_mallocs h'' = h_mallocs h.
Proof.
  intros (f & Hans & Hinj & Hfree) E.
  assert (exists sizes, mc_argv cmd = from f 0 (length sizes) /\ h_mallocs h' = alloc_all (zip (from f 0 (length sizes)) sizes) (h_mallocs h)) as (sizes & Ha & Hm).
  { unfold parse_alloc in E. destruct buf as [|c buf]; [done|]. destruct (negb _).
    - destruct (parse_inline _ _) as [cm k| |]; [|done..]. destruct (inline_mem _ _ _ _) as [[argv copies] h1] eqn:E1. injection E as <- <- <-.
      destruct (inline_mem_blocks f ans Hans _ _ _ _ _ _ E1) as (sizes & _ & H1 & H2). by exists sizes.
    - destruct (_ <? 4); [done|]. destruct (find_crlf _) as [j|]; [|done]. destruct (parse_int64 _) as [argc|]; [|done]. destruct (_ || _); [done|].
      destruct (bulks_mem _ _ _ _ _ _) as [[[[[argv args] rest'] ty]|e] h1] eqn:E1.
      + injection E as <- <- <-. destruct (bulks_mem_blocks f ans Hans _ _ _ _ _ _ _ E1) as (sizes & H1 & H2). by exists sizes.
      + injection E as -> ->. pose proof (bulks_mem_erase ans (Z.to_nat argc) ltac:(intros i; rewrite Hans; by eexists) 0 (drop (j + 2) (c :: buf)) 0 h) as Hx.
        rewrite E1 in Hx. cbn [fst erase] in Hx. by apply parse_bulks_not_ok in Hx. }
  pose proof (from_fresh f (h_mallocs h) Hinj Hfree 0 (length sizes) sizes eq_refl) as Hfr.
  destruct (free_all_blocks _ _ _ Hfr Hm) as (h'' & E2 & Hm'').
  rewrite fst_zip in E2 by (unfold from; rewrite length_fmap, length_seqZ; lia).
  eexists _, h''. unfold cmd_free. rewrite Ha, E2. done.
Qed.

(** ** Incomplete commands *)

Lemma round_enc a rest : arg_fits a -> exists t, bulk_round (enc_bulk a ++ rest) = inr (t, a, rest).
Proof.
  intros Ha. pose proof (parse_bulk_ok granting (fun _ _ => eq_refl) 0 0 a rest 0 Ha) as H. rewrite parse_bulks_round in H.
  destruct (bulk_round _) as [e|[[t payload] rest']]; [done|]. cbn in H. injection H as H1 _ H2. apply app_inj_tail in H1 as [-> _]. exists t. by subst.
Qed.

Lemma round_partial a part :
  arg_fits a -> part `prefix_of` enc_bulk a -> (length part < length (enc_bulk a))%nat -> bulk_round part = inl RESP_PARSE_MORE.
Proof.
  intros (Ha & _) Hp Hl. pose proof (bulk_partial granting 0 0 a part 0 Ha Hp Hl) as H. rewrite parse_bulks_round in H.
  destruct (bulk_round _) as [e|[[t payload] rest']]; [congruence | done].
Qed.

Lemma bulks_mem_partial f ans n a part : (forall i, ans i = Some (f i)) ->
  arg_fits a -> part `prefix_of` enc_bulk a -> (length part < length (enc_bulk a))%nat -> forall done_ i vt h, Forall arg_fits done_ ->
  exists sizes h', bulks_mem ans (length done_ + S n) i (enc_bulks done_ ++ part) vt h = (inr MP_MORE, h') /\ length sizes = length done_ /\
    h_mallocs h' = alloc_all (zip (from f i (length sizes)) sizes) (h_mallocs h).
Proof.
  intros Hans Ha Hp Hl. induction done_ as [|b dn IH]; intros i vt h Hd; cbn [length Nat.add bulks_mem].
  { cbn [enc_bulks fmap list_fmap concat app]. rewrite (round_partial a) by done. by exists [], h. }
  apply Forall_cons in Hd as [Hb Hd]. change (enc_bulks (b :: dn)) with (enc_bulk b ++ enc_bulks dn). rewrite <- app_assoc.
  destruct (round_enc b (enc_bulks dn ++ part) Hb) as [t ->]. cbv zeta. rewrite Hans. cbn [malloc].
  match goal with |- context [bulks_mem ans _ _ _ ?v ?hh] => destruct (IH (i + 1) v hh Hd) as (sizes & h' & E & Hs & Hm) end.
  rewrite E. exists (Z.of_nat (length b) + 1 :: sizes), h'. split; [done|]. split; [cbn; lia|]. cbn [length]. rewrite from_S. exact Hm.
Qed.

(** The beginning of a command: its header, some arguments and a part of the next. *)
Definition begun (args : list (list Z)) (done_ : list (list Z)) (part : list Z) : list Z :=
  bs "*" ++ dec (Z.of_nat (length args)) ++ CRLF ++ enc_bulks done_ ++ part.

Lemma parse_begun f ans args dn a more part h :
  (forall i, ans i = Some (f i)) -> args = dn ++ a :: more -> Z.of_nat (length args) <= VC_MAX_ARGS -> Forall arg_fits args ->
  part `prefix_of` enc_bulk a -> (length part < length (enc_bulk a))%nat ->
  exists sizes h', parse_alloc ans (begun args dn part) h = (MP_MORE, h') /\ length sizes = length dn /\
    h_mallocs h' = alloc_all (zip (from f 0 (length sizes)) sizes) (h_mallocs h).
Proof.
  intros Hans Ea Hn Hf Hp Hl. unfold VC_MAX_ARGS in Hn. assert (Hlen : length args = (length dn + S (length more))%nat) by (by rewrite Ea, length_app).
  rewrite Ea in Hf. apply Forall_app in Hf as [Hd Hf]. apply Forall_cons in Hf as [Ha _].
  destruct (bulks_mem_partial f ans (length more) a part Hans Ha Hp Hl dn 0 0 h Hd) as (sizes & h' & E & Hs & Hm).
  exists sizes, h'. split; [|by split]. unfold parse_alloc, begun. set (d := dec (Z.of_nat (length args))).
  pose proof (length_dec (Z.of_nat (length args))) as Hld. fold d in Hld.
  assert (Hpd : parse_int64 d = Some (Z.of_nat (length args))) by (apply parse_dec; lia).
  assert (Eb : bs "*" ++ d ++ CRLF ++ enc_bulks dn ++ part = (bs "*" ++ d) ++ CRLF ++ (enc_bulks dn ++ part)) by (by rewrite <- !app_assoc).
  assert (Hcr : CR ∉ bs "*" ++ d) by (apply not_elem_of_cons; split; [done | apply dec_no_cr; lia]).
  pose proof (find_crlf_at (bs "*" ++ d) (enc_bulks dn ++ part) Hcr) as Hc. rewrite <- Eb in Hc.
  change (bs "*") with [42] in Hc |- *. change ([42] ++ d ++ CRLF ++ enc_bulks dn ++ part) with (42 :: d ++ CRLF ++ enc_bulks dn ++ part) in Hc |- *.
  change (negb (42 =? 42)) with false. cbv iota.
  destruct (Z.ltb_spec (Z.of_nat (length (42 :: d ++ CRLF ++ enc_bulks dn ++ part))) 4) as [H4|_].
  { cbn [length] in H4. rewrite !length_app in H4. cbn [length CRLF] in H4. lia. }
  rewrite Hc. rewrite length_app. cbn [length Nat.add Nat.sub drop]. rewrite Nat.sub_0_r. rewrite drop_0, take_app_length.
  rewrite Hpd. replace ((_ <? 0) || _) with false by (unfold VC_MAX_ARGS; lia).
  cbn [Nat.add drop]. rewrite app_assoc, drop_app_exact by (rewrite length_app; cbn; lia).
  rewrite Nat2Z.id, Hlen. by rewrite E.
Qed.

(** The server parses its read buffer again after each read: attempts with the answers of
    the allocator in each, over the same bytes. *)
Fixpoint attempts (anss : list (Z -> option Z)) (buf : list Z) (h : heap) : list mparse * heap :=
  match anss with
  | [] => ([], h)
  | ans :: anss => let '(r, h) := parse_alloc ans buf h in let '(rs, h) := attempts anss buf h in (r :: rs, h)
  end.

Fixpoint all_grant (anss : list (Z -> option Z)) (buf : list Z) (h : heap) : Prop :=
  match anss with [] => True | ans :: anss => grants ans (h_mallocs h) /\ all_grant anss buf (parse_alloc ans buf h).2 end.

(** C40: an incomplete command loses memory.  While the next argument of a command is
    incomplete, every attempt to parse the read buffer answers MORE, with an empty command,
    and leaves one new block for each argument that is already there, to which nothing
    points: after [n] attempts there are [n] times as many blocks as complete arguments. *)
Theorem partial_command_leaks args dn a more part anss h :
  args = dn ++ a :: more -> Z.of_nat (length args) <= VC_MAX_ARGS -> Forall arg_fits args ->
  part `prefix_of` enc_bulk a -> (length part < length (enc_bulk a))%nat -> all_grant anss (begun args dn part) h ->
  exists h', attempts anss (begun args dn part) h = (replicate (length anss) MP_MORE, h') /\
    size (h_mallocs h') = (size (h_mallocs h) + length anss * length dn)%nat.
Proof.
  intros Ea Hn Hf Hp Hl. revert h. induction anss as [|ans anss IH]; intros h Hg; [exists h; split; [done | cbn; lia]|].
  destruct Hg as [(f & Hans & Hinj & Hfree) Hg].
  destruct (parse_begun f ans args dn a more part h Hans Ea Hn Hf Hp Hl) as (sizes & h1 & E & Hs & Hm).
  rewrite E in Hg. destruct (IH h1 Hg) as (h' & E' & Hsz). exists h'. cbn [attempts length replicate]. rewrite E, E'. split; [done|].
  rewrite Hsz, Hm, alloc_all_size by (by apply from_fresh). rewrite length_zip_with, Nat.min_r; [nia|].
  unfold from. rewrite length_fmap, length_seqZ. lia.
Qed.

Definition next_blocks (base : Z) (i : Z) : option Z := Some (if i <? 0 then i else base + i).

(** Two reads of the beginning of [SET key val], with both first arguments complete. *)
Lemma partial_command_witness :
  let args := [bs "SET"; bs "key"; bs "val"] in
  exists h', attempts [next_blocks 1000; next_blocks 2000] (begun args [bs "SET"; bs "key"] (bs "$3")) (Heap ∅ ∅ ∅ []) =
    ([MP_MORE; MP_MORE], h') /\ size (h_mallocs h') = 4%nat.
Proof.
  intros args.
  assert (Hg : forall base h, 1000 <= base <= 2000 -> (forall a, base <= a \/ a < 0 -> h_mallocs h !! a = None) -> grants (next_blocks base) (h_mallocs h)).
  { intros base h Hb Hh. exists (fun i => if i <? 0 then i else base + i). split; [done|]. split.
    - intros i j. destruct (Z.ltb_spec i 0), (Z.ltb_spec j 0); lia.
    - intros i. destruct (Z.ltb_spec i 0); (split; [lia | apply Hh; lia]). }
  destruct (partial_command_leaks args [bs "SET"; bs "key"] (bs "val") [] (bs "$3") [next_blocks 1000; next_blocks 2000] (Heap ∅ ∅ ∅ []))
    as (h' & E0 & Hsz); [..|exists h'; split; [exact E0 | rewrite Hsz; vm_compute; reflexivity]];
    [reflexivity | vm_compute; discriminate | repeat constructor; vm_compute; try discriminate; reflexivity | by exists (CRLF ++ bs "val" ++ CRLF) | vm_compute; lia |].
  split; [apply Hg; [lia | done]|]. split; [|exact I]. apply Hg; [lia|]. intros x Hx.
  match goal with |- h_mallocs ?y !! x = None => change (h_mallocs y) with (h_mallocs (snd (parse_alloc (next_blocks 1000) (begun args [bs "SET"; bs "key"] (bs "$3")) (Heap ∅ ∅ ∅ [])))) end.
  assert (E : h_mallocs (snd (parse_alloc (next_blocks 1000) (begun args [bs "SET"; bs "key"] (bs "$3")) (Heap ∅ ∅ ∅ []))) = <[1001 := 4]> (<[1000 := 4]> ∅)) by (vm_compute; reflexivity).
  rewrite E, !lookup_insert_ne by lia. done.
Defined.

(** ** Parsed values *)

Inductive vc_val_type : Type :=
| VC_VAL_NONE | VC_VAL_STRING | VC_VAL_ERROR | VC_VAL_INTEGER | VC_VAL_DOUBLE | VC_VAL_BOOL | VC_VAL_NULL
| VC_VAL_ARRAY | VC_VAL_MAP | VC_VAL_SET | VC_VAL_PUSH
| VC_VAL_INT64 | VC_VAL_FLOAT64 | VC_VAL_JSON | VC_VAL_BINARY.

(** The union, with the member that was written. *)
Inductive vc_val_u : Type :=
| UStr (ptr len : Z)
| UI64 (i : Z)
| UF64 (d : double)
| UBool (b : bool)
| UArr (elems count : Z).

Record vc_val := Val { v_type : vc_val_type; v_u : vc_val_u }.

Definition is_text (t : vc_val_type) : bool :=
  match t with VC_VAL_STRING | VC_VAL_ERROR | VC_VAL_JSON | VC_VAL_BINARY => true | _ => false end.
Definition is_aggregate (t : vc_val_type) : bool :=
  match t with VC_VAL_ARRAY | VC_VAL_MAP | VC_VAL_SET | VC_VAL_PUSH => true | _ => false end.

(** The structures and the pointer arrays in memory. *)
Record vmem := VMem { vm_vals : gmap Z vc_val; vm_arrs : gmap Z (list Z) }.

Section ValFree.
Context (vm : vmem).

(** [for (i = 0; i < count; i++) vc_val_free(elems[i]);] with the recursive call given. *)
Fixpoint free_elems (rec : Z -> heap -> option heap) (elems : list Z) (h : heap) : option heap :=
  match elems with [] => Some h | e :: elems => h ← rec e h; free_elems rec elems h end.

(** Fuel: the depth of the value.  Reading a structure or an array that is not allocated is
    undefined, and so is the wrong member of the union. *)
Fixpoint vc_val_free (fuel : nat) (v : Z) (h : heap) : option heap :=
  match fuel with
  | O => None
  | S fuel =>
      if v =? 0 then Some h else
      _ ← h_mallocs h !! v;
      s ← vm_vals vm !! v;
      h ← (if is_text (v_type s) then
             match v_u s with UStr p _ => cfree p h | _ => None end
           else if is_aggregate (v_type s) then
             match v_u s with
             | UArr p count =>
                 h ← (if count =? 0 then Some h else
                      _ ← h_mallocs h !! p;
                      elems ← vm_arrs vm !! p;
                      if Z.of_nat (length elems) <? count then None
                      else free_elems (vc_val_free fuel) (take (Z.to_nat count) elems) h);
                 cfree p h
             | _ => None
             end
           else Some h);
      cfree v h
  end.

(** A value as a tree of blocks. *)
Inductive vtree : Type :=
| TNull
| TText (self : Z) (ty : vc_val_type) (ptr len : Z)
| TPlain (self : Z) (ty : vc_val_type) (u : vc_val_u)
| TAgg (self : Z) (ty : vc_val_type) (elems : Z) (kids : list vtree).

Definition root (t : vtree) : Z :=
  match t with TNull => 0 | TText a _ _ _ => a | TPlain a _ _ => a | TAgg a _ _ _ => a end.

Definition opt_block (a : Z) : list Z := if a =? 0 then [] else [a].

(** Its blocks, in the order in which they are released. *)
Fixpoint blocks (t : vtree) : list Z :=
  match t with
  | TNull => []
  | TText a _ p _ => opt_block p ++ [a]
  | TPlain a _ _ => [a]
  | TAgg a _ p kids => concat (blocks <$> kids) ++ opt_block p ++ [a]
  end.

Fixpoint depth (t : vtree) : nat :=
  match t with TAgg _ _ _ kids => S (foldr Nat.max 0%nat (depth <$> kids)) | _ => 1%nat end.

(** The memory holds the tree. *)
Fixpoint laid (t : vtree) : Prop :=
  match t with
  | TNull => True
  | TText a ty p n => a <> 0 /\ is_text ty = true /\ vm_vals vm !! a = Some (Val ty (UStr p n))
  | TPlain a ty u => a <> 0 /\ is_text ty = false /\ is_aggregate ty = false /\ vm_vals vm !! a = Some (Val ty u)
  | TAgg a ty p kids =>
      a <> 0 /\ is_aggregate ty = true /\ vm_vals vm !! a = Some (Val ty (UArr p (Z.of_nat (length kids)))) /\
      (kids = [] \/ (p <> 0 /\ vm_arrs vm !! p = Some (root <$> kids))) /\
      foldr and True (laid <$> kids)
  end.

(** The blocks are allocated. *)
Definition live (l : list Z) (h : heap) : Prop := Forall (fun a => a <> 0 /\ is_Some (h_mallocs h !! a)) l.

Lemma free_live a h : a <> 0 -> is_Some (h_mallocs h !! a) ->
  exists h', cfree a h = Some h' /\ h_mallocs h' = delete a (h_mallocs h).
Proof. intros Ha [n Hn]. unfold cfree. rewrite (proj2 (Z.eqb_neq _ _) Ha). unfold free. rewrite Hn. eexists. split; done. Qed.

Lemma free_all_app l1 l2 h : free_all (l1 ++ l2) h = h ← free_all l1 h; free_all l2 h.
Proof. revert h. induction l1 as [|a l1 IH]; intros h; [done|]. cbn. destruct (cfree a h); [apply IH | done]. Qed.

(** Releasing distinct live blocks works, and leaves the others live. *)
Lemma free_all_live l : forall h, NoDup l -> live l h ->
  exists h', free_all l h = Some h' /\ forall a, h_mallocs h' !! a = if decide (a ∈ l) then None else h_mallocs h !! a.
Proof.
  induction l as [|b l IH]; intros h Hnd Hl; [exists h; split; [done|]; intros a; by rewrite decide_False by apply not_elem_of_nil|].
  apply NoDup_cons in Hnd as [Hb Hnd]. apply Forall_cons in Hl as [[Hb0 Hbl] Hl]. destruct (free_live b h Hb0 Hbl) as (h1 & E1 & H1).
  destruct (IH h1 Hnd) as (h' & E' & H').
  { eapply Forall_impl; [apply Forall_and; split; [exact Hl|]; apply Forall_forall; intros a Ha; exact Ha|]. cbn beta.
    intros a [[Ha0 Ha] Hin]. split; [done|]. rewrite H1, lookup_delete_ne; [done|]. by intros ->. }
  exists h'. cbn. rewrite E1. split; [exact E'|]. intros a. rewrite H', H1. destruct (decide (a ∈ l)).
  - by rewrite decide_True by (by right).
  - destruct (decide (a = b)) as [->|]; [rewrite decide_True by left; by rewrite lookup_delete_eq|].
    rewrite decide_False by (by rewrite not_elem_of_cons). by rewrite lookup_delete_ne.
Qed.

Lemma live_app l1 l2 h : live (l1 ++ l2) h <-> live l1 h /\ live l2 h.
Proof. apply Forall_app. Qed.

Lemma live_after l1 l2 h h' : NoDup (l1 ++ l2) -> live l2 h ->
  (forall a, h_mallocs h' !! a = if decide (a ∈ l1) then None else h_mallocs h !! a) -> live l2 h'.
Proof.
  intros Hnd Hl Hm. apply NoDup_app in Hnd as (_ & Hd & _). unfold live in *. rewrite Forall_forall in *. intros a Ha. destruct (Hl a Ha) as [H0 H1].
  split; [done|]. rewrite Hm, decide_False; [done|]. intros Hin. by apply (Hd a Hin).
Qed.

Lemma opt_block_free p h : free_all (opt_block p) h = cfree p h.
Proof. unfold opt_block, cfree. destruct (Z.eqb_spec p 0) as [->|Hp]; [done|]. cbn. unfold cfree. rewrite (proj2 (Z.eqb_neq _ _) Hp). by destruct (free p h). Qed.

(** The children of a node, given their own case. *)
Lemma free_elems_eq rec kids : forall h, NoDup (concat (blocks <$> kids)) -> live (concat (blocks <$> kids)) h ->
  Forall (fun t => forall h, NoDup (blocks t) -> live (blocks t) h -> rec (root t) h = free_all (blocks t) h) kids ->
  free_elems rec (root <$> kids) h = free_all (concat (blocks <$> kids)) h.
Proof.
  induction kids as [|t kids IH]; intros h Hnd Hl Hrec; [done|]. cbn [fmap list_fmap concat free_elems] in *. apply Forall_cons in Hrec as [Ht Hrec].
  pose proof Hnd as Hnd'. apply NoDup_app in Hnd' as (Hn1 & _ & Hn2). apply live_app in Hl as [Hl1 Hl2].
  rewrite (Ht h Hn1 Hl1), free_all_app. destruct (free_all_live _ h Hn1 Hl1) as (h1 & E1 & H1). rewrite E1. cbn [mbind option_bind].
  apply IH; [exact Hn2 | by eapply live_after | exact Hrec].
Qed.

Lemma val_free_eq fuel : forall t h, (depth t <= fuel)%nat -> laid t -> NoDup (blocks t) -> live (blocks t) h ->
  vc_val_free fuel (root t) h = free_all (blocks t) h.
Proof.
  induction fuel as [|fuel IH]; intros t h Hd Hlaid Hnd Hl; [destruct t; cbn in Hd; lia|].
  assert (Hself : forall a, root t = a -> a <> 0 -> a ∈ blocks t -> is_Some (h_mallocs h !! a)).
  { intros a _ _ Ha. unfold live in Hl. rewrite Forall_forall in Hl. by apply Hl. }
  destruct t as [|a ty p n|a ty u|a ty p kids]; cbn [root vc_val_free blocks] in *; [done | | |].
  - destruct Hlaid as (Ha & Ht & Hv). rewrite (proj2 (Z.eqb_neq _ _) Ha). destruct (Hself a eq_refl Ha) as [x ->]; [apply elem_of_app; right; left|].
    cbn [mbind option_bind]. rewrite Hv. cbn [mbind option_bind v_type v_u]. rewrite Ht, free_all_app, opt_block_free.
    destruct (cfree p h) as [h1|]; [|done]. cbn. by destruct (cfree a h1).
  - destruct Hlaid as (Ha & Ht & Hg & Hv). rewrite (proj2 (Z.eqb_neq _ _) Ha). destruct (Hself a eq_refl Ha) as [x ->]; [left|].
    cbn [mbind option_bind]. rewrite Hv. cbn [mbind option_bind v_type v_u]. rewrite Ht, Hg. cbn. by destruct (cfree a h).
  - destruct Hlaid as (Ha & Ht & Hv & Hk & Hrec). rewrite (proj2 (Z.eqb_neq _ _) Ha).
    destruct (Hself a eq_refl Ha) as [x ->]; [apply elem_of_app; right; apply elem_of_app; right; left|].
    cbn [mbind option_bind]. rewrite Hv. cbn [mbind option_bind v_type v_u]. rewrite Ht. replace (is_text ty) with false by (by destruct ty).
    pose proof Hnd as Hnd'. apply NoDup_app in Hnd' as (Hn1 & _ & _). apply live_app in Hl as [Hl1 Hl2].
    assert (Hkids : (if Z.of_nat (length kids) =? 0 then Some h else
        _ ← h_mallocs h !! p; elems ← vm_arrs vm !! p;
        if Z.of_nat (length elems) <? Z.of_nat (length kids) then None
        else free_elems (vc_val_free fuel) (take (Z.to_nat (Z.of_nat (length kids))) elems) h) = free_all (concat (blocks <$> kids)) h).
    { destruct Hk as [->|[Hp Harr]]; [done|]. destruct kids as [|k0 kids]; [done|]. cbn [length]. rewrite (proj2 (Z.eqb_neq _ _)) by lia.
      assert (Hpl : is_Some (h_mallocs h !! p)).
      { unfold live in Hl2. rewrite Forall_forall in Hl2. apply Hl2. unfold opt_block. rewrite (proj2 (Z.eqb_neq _ _) Hp). left. }
      destruct Hpl as [y ->]. cbn [mbind option_bind]. rewrite Harr. cbn [mbind option_bind]. rewrite length_fmap. cbn [length].
      rewrite Z.ltb_irrefl, Nat2Z.id, take_ge by (rewrite length_fmap; done). apply free_elems_eq; [exact Hn1 | exact Hl1|].
      cbn [depth] in Hd. clear -IH Hd Hrec. revert Hd Hrec. generalize (k0 :: kids). intros l Hd Hrec.
      induction l as [|t l IHl]; [constructor|]. cbn in Hd, Hrec. destruct Hrec as [Ht Hrec]. constructor; [|apply IHl; [lia | exact Hrec]].
      intros h Hn Hlv. apply IH; [lia | exact Ht | exact Hn | exact Hlv]. }
    rewrite Hkids, free_all_app. destruct (free_all (concat _) h) as [h1|]; [|done]. cbn [mbind option_bind]. rewrite free_all_app, opt_block_free.
    destruct (cfree p h1) as [h2|]; [|done]. cbn. by destruct (cfree a h2).
Qed.

End ValFree.

(** [vc_val_free] releases a value exactly.  For a value of any nesting whose blocks are
    allocated and distinct it ends without touching freed memory, every block of the value is
    released once, and no other block changes. *)
Theorem val_free_exact vm t h :
  laid vm t -> NoDup (blocks t) -> live (blocks t) h ->
  exists h', vc_val_free vm (depth t) (root t) h = Some h' /\
    forall a, h_mallocs h' !! a = if decide (a ∈ blocks t) then None else h_mallocs h !! a.
Proof.
  intros Hlaid Hnd Hl. rewrite (val_free_eq vm (depth t) t h) by done. by apply free_all_live.
Qed.

(** An array of a string and an integer. *)
Definition pair_tree : vtree := TAgg 10 VC_VAL_ARRAY 20 [TText 30 VC_VAL_STRING 40 2; TPlain 50 VC_VAL_INTEGER (UI64 7)].
Definition pair_mem : vmem :=
  VMem (<[10 := Val VC_VAL_ARRAY (UArr 20 2)]> (<[30 := Val VC_VAL_STRING (UStr 40 2)]> (<[50 := Val VC_VAL_INTEGER (UI64 7)]> ∅)))
       (<[20 := [30; 50]]> ∅).
Definition pair_heap : heap := Heap ∅ (<[10 := 24]> (<[20 := 16]> (<[30 := 24]> (<[40 := 3]> (<[50 := 24]> (<[99 := 8]> ∅)))))) ∅ [].

Lemma val_free_witness : exists h', vc_val_free pair_mem 2 10 pair_heap = Some h' /\
  forall a, h_mallocs h' !! a = if decide (a ∈ [40; 30; 50; 20; 10]) then None else h_mallocs pair_heap !! a.
Proof.
  apply (val_free_exact pair_mem pair_tree pair_heap).
  - cbn. repeat split; try done. by right.
  - apply (bool_decide_unpack _). vm_compute. exact I.
  - repeat constructor; try done; by eexists.
Defined.

(** ** Doubles *)

Definition resp_write_double (alloc_ok : allocator) (b : vc_buf) (d : double) : option (bool * vc_buf) :=
  buf_printf alloc_ok b (bs "," ++ fmt_g d ++ CRLF).
