(* ===== verification/Smoke.v ===== *)
(** * The smoke test

    [src/src/main.c]: a program that creates a cache, sets, reads, deletes and overwrites
    three keys, with an assertion after each step, prints statistics and destroys the cache.
    A run ends with an exit code or at the line of a failed assertion; what was printed is
    part of the state.  The printing of the hit rate with [%.1f] is an argument. *)

From S2P Require Import Prelude Hash Slab Entry Shard Wal Cache CacheInv CacheSafe CacheSpec CacheThm CacheLife Proto ProtoSpec.

(** ** The program *)

(** Undefined behaviour, or the text printed so far with a result or the line of a failed
    assertion. *)
Definition test (X : Type) : Type := list Z -> option (list Z * (Z + X)).

#[export] Instance test_ret : MRet test := fun _ x out => Some (out, inr x).
#[export] Instance test_bind : MBind test := fun _ _ f m out =>
  match m out with
  | None => None
  | Some (out, inl line) => Some (out, inl line)
  | Some (out, inr x) => f x out
  end.

Definition tprint (s : list Z) : test () := fun out => Some (out ++ s, inr ()).
Definition tassert (line : Z) (b : bool) : test () := fun out => Some (out, if b then inr () else inl line).
Definition tcall {X} (r : option X) : test X := fun out => x ← r; Some (out, inr x).

(** The line of [n] double bars. *)
Definition bars (n : nat) : list Z := concat (replicate n [0xE2; 0x95; 0x90]).

Section Main.
(** [%.1f] of [100.0 * hits / total], or of 0. *)
Context (print_rate : Z -> Z -> list Z).

Definition vc_stats_print (c : vc_cache) : list Z :=
  let s := vc_stats c in
  let total := u64 (st_hits s + st_misses s) in
  bars 6 ++ bs " VoidCache Stats " ++ bars 20 ++ [LF] ++
  bs "  Keys:       " ++ dec (st_total_keys s) ++ [LF] ++
  bs "  Sets:       " ++ dec (st_sets s) ++ [LF] ++
  bs "  Hits:       " ++ dec (st_hits s) ++ bs "  (" ++ print_rate (st_hits s) total ++ bs "%)" ++ [LF] ++
  bs "  Misses:     " ++ dec (st_misses s) ++ [LF] ++
  bs "  Evictions:  " ++ dec (st_evictions s) ++ [LF] ++
  bs "  Memory:     " ++ dec (st_memory_bytes s / 1024) ++ bs " KB" ++ [LF] ++
  bars 43 ++ [LF].

Definition errno_is (e x : vc_err) : bool := bool_decide (e = x).

(** [%.*s] of what a [vc_get] returned. *)
Definition shown (c : vc_cache) (o : option get_out) : option (list Z) :=
  r ← o; Some (cstr (out_bytes (c_heap c) r)).

Definition dash : list Z := [0xE2; 0x80; 0x93].
Definition quote (s : list Z) : list Z := [34] ++ s ++ [34].

(** What the system answers: [vc_create], and each operation in turn. *)
Definition smoke_main (arena_bytes : Z) (ce : create_env) (ev : nat -> env) (h : heap) : test Z :=
  tprint (bs "VoidCache " ++ dash ++ bs " smoke test" ++ [LF; LF]);;
  '(oc, _) ← tcall (vc_create arena_bytes ce (256 * 1024 * 1024) None 4096 h);
  tassert 15 (bool_decide (is_Some oc));;
  c ← tcall oc;
  '(e, c) ← tcall (vc_set (ev 0%nat) c (bs "greeting") (bs "hello, world") 0); tassert 18 (errno_is e VC_OK);;
  '(e, c) ← tcall (vc_set (ev 1%nat) c (bs "counter") [0; 0; 0; 1] 0); tassert 19 (errno_is e VC_OK);;
  '(e, c) ← tcall (vc_set (ev 2%nat) c (bs "ttl_key") (bs "expires soon") 2); tassert 20 (errno_is e VC_OK);;
  '(e, o, c) ← tcall (vc_get (ev 3%nat) c (bs "greeting")); tassert 24 (errno_is e VC_OK);;
  v ← tcall (shown c o);
  tprint (bs "greeting  = " ++ quote v ++ [LF]);;
  '(e, c) ← tcall (vc_del (ev 4%nat) c (bs "counter")); tassert 28 (errno_is e VC_OK);;
  '(e, _, c) ← tcall (vc_get (ev 5%nat) c (bs "counter")); tassert 29 (errno_is e VC_ERR_NOTFND);;
  tprint (bs "counter   deleted OK" ++ [LF]);;
  '(e, _, c) ← tcall (vc_get (ev 6%nat) c (bs "nope")); tassert 33 (errno_is e VC_ERR_NOTFND);;
  tprint (bs "nope      not found  OK" ++ [LF]);;
  '(e, c) ← tcall (vc_set (ev 7%nat) c (bs "greeting") (bs "OVERWRITTEN") 0); tassert 37 (errno_is e VC_OK);;
  '(e, o, c) ← tcall (vc_get (ev 8%nat) c (bs "greeting")); tassert 38 (errno_is e VC_OK);;
  v ← tcall (shown c o);
  tprint (bs "greeting  = " ++ quote v ++ bs " (after overwrite)" ++ [LF]);;
  tprint [LF];;
  tprint (vc_stats_print c);;
  _ ← tcall (vc_destroy c);
  tprint ([LF] ++ bs "All assertions passed." ++ [LF]);;
  mret 0.

(** ** Small values *)

(** The answers of the allocators do not matter when the entry is inline. *)
Definition no_memory (ev : env) : env := Env (ev_mono ev) (ev_mono2 ev) (ev_wall ev) None None.

Lemma set_inline_env ev c ky val ttl :
  Z.of_nat (length ky) + Z.of_nat (length val) <= 32 ->
  vc_set ev c ky val ttl = vc_set (no_memory ev) c ky val ttl.
Proof.
  intros Hl. unfold vc_set, build_entry. cbv zeta. cbn [no_memory ev_mono ev_mono2 ev_wall].
  rewrite (proj2 (Z.leb_le _ 32) Hl), (proj2 (Z.ltb_ge 32 (Z.of_nat (length ky)))) by lia. done.
Qed.

(** A shard has no more entries than the cache has keys. *)
Lemma count_le_size k c i s : cache_ok k c -> c_shards c !! i = Some s -> s_count s <= Z.of_nat (size (abs c)).
Proof.
  intros Hok Hi. rewrite (cok_counts _ _ Hok _ _ Hi). unfold abs.
  rewrite <- (length_map_to_list (list_to_map _)). rewrite (Permutation_length (map_to_list_to_map _ (cok_nodup _ _ Hok))).
  unfold contents. rewrite length_fmap. destruct (all_lives_insert _ _ _ Hi) as (R & -> & _). rewrite length_app. lia.
Qed.

(** An inline value goes into a cache with few keys without loss. *)
Lemma set_small A k c ev ky val ttl :
  cache_ok k c -> alive A c -> 4096 <= 2 ^ k -> (size (abs c) <= 8)%nat ->
  ky <> [] -> val <> [] -> Z.of_nat (length ky) + Z.of_nat (length val) <= 32 ->
  (forall v exp, abs c !! ky = Some (v, exp) -> exp = 0) ->
  exists c', vc_set ev c ky val ttl = Some (VC_OK, c') /\ cache_ok k c' /\ alive A c' /\
    abs c' = <[ky := (val, expire_at (ev_mono ev) ttl)]> (abs c).
Proof.
  intros Hok Ha Hk Hsz Hky Hval Hl Hexp.
  destruct (lookup_lt_is_Some_2 (c_shards c) (home ky)) as [s Hs].
  { rewrite (cwf_len _ _ (cok_wf _ _ Hok)). apply home_lt. }
  pose proof (count_le_size _ _ _ _ Hok Hs) as Hc. destruct (cwf_shards _ _ (cok_wf _ _ Hok) _ _ Hs) as [Hcore _].
  pose proof (cok_cap _ _ _ Hcore) as Hcap.
  destruct (vc_set_abs k c (no_memory ev) ky val ttl s Hok) as (c' & E & Hok' & _ & Hr);
    [intros F HF; constructor; done | done | done | lia | | done | lia | intros v exp Hv; by rewrite (Hexp v exp Hv) |].
  { right. unfold set_logged, VC_WAL_RING_SIZE. rewrite u32_id; lia. }
  assert (Href : refused (no_memory ev) (c_slab c) ky val = false) by (unfold refused; by rewrite (proj2 (Z.leb_le _ 32) Hl)).
  rewrite Href in E, Hr. rewrite (set_inline_env ev c ky val ttl Hl).
  exists c'. split; [exact E|]. split; [exact Hok'|]. split; [by eapply vc_set_alive; [|exact E|]|].
  destruct Hr as (v & Hv & _ & Hn). destruct v as [v|].
  - exfalso. assert (85 * s_cap s <= 100 * s_count s) by (by apply Hn). lia.
  - rewrite Hv. cbn [remove_key]. rewrite take_ge by lia. done.
Qed.

Lemma get_small A k c ev ky v :
  cache_ok k c -> alive A c -> Z.of_nat (length ky) < 2 ^ 32 -> abs c !! ky = Some (v, 0) ->
  exists r c', vc_get ev c ky = Some (VC_OK, Some r, c') /\ cache_ok k c' /\ alive A c' /\ abs c' = abs c /\ out_bytes (c_heap c') r = v.
Proof.
  intros Hok Ha Hl Hv. destruct (vc_get_abs k c ev ky Hok Hl) as (err & o & c' & E & Hok' & Hab & Hm). rewrite Hv in Hm.
  destruct Hm as [_ Hm]. destruct Hm as [-> (r & -> & Hr)]; [done | done|]. exists r, c'. split; [exact E|]. split; [done|].
  split; [by eapply vc_get_alive | done].
Qed.

Lemma get_absent A k c ev ky :
  cache_ok k c -> alive A c -> Z.of_nat (length ky) < 2 ^ 32 -> abs c !! ky = None ->
  exists o c', vc_get ev c ky = Some (VC_ERR_NOTFND, o, c') /\ cache_ok k c' /\ alive A c' /\ abs c' = abs c.
Proof.
  intros Hok Ha Hl Hv. destruct (vc_get_abs k c ev ky Hok Hl) as (err & o & c' & E & Hok' & Hab & Hm). rewrite Hv in Hm.
  destruct Hm as [-> ->]. exists None, c'. split; [exact E|]. split; [done|]. split; [by eapply vc_get_alive | done].
Qed.

Lemma del_small A k c ev ky v :
  cache_ok k c -> alive A c -> Z.of_nat (length ky) <= 65536 -> abs c !! ky = Some (v, 0) ->
  exists c', vc_del ev c ky = Some (VC_OK, c') /\ cache_ok k c' /\ alive A c' /\ abs c' = delete ky (abs c).
Proof.
  intros Hok Ha Hl Hv. destruct (vc_del_abs k c ev ky Hok) as (err & c' & E & Hok' & _ & Hm);
    [lia | right; unfold VC_WAL_RING_SIZE; lia |]. rewrite Hv in Hm.
  change (expired_at _ 0) with false in Hm. cbv iota in Hm. destruct Hm as [-> Hm]. exists c'. split; [exact E|].
  split; [done|]. split; [by eapply vc_del_alive | done].
Qed.

(** ** The run *)

Lemma size_insert_le (m : gmap key (list Z * Z)) i x n : (size m <= n)%nat -> (size (<[i := x]> m) <= S n)%nat.
Proof. intros H. rewrite map_size_insert. destruct (m !! i); unfold id; lia. Qed.

Lemma size_delete_le (m : gmap key (list Z * Z)) i n : (size m <= n)%nat -> (size (delete i m) <= n)%nat.
Proof. intros H. rewrite map_size_delete. destruct (m !! i); unfold id; lia. Qed.

Ltac sized :=
  repeat match goal with
         | |- (size (<[_ := _]> _) <= _)%nat => apply size_insert_le
         | |- (size (delete _ _) <= _)%nat => apply size_delete_le
         end; rewrite map_size_empty; lia.
Ltac differ := let H := fresh in intros H; vm_compute in H; discriminate H.

(** The text of a run, up to the statistics. *)
Definition transcript : list Z :=
  bs "VoidCache " ++ dash ++ bs " smoke test" ++ [LF; LF] ++
  bs "greeting  = " ++ quote (bs "hello, world") ++ [LF] ++
  bs "counter   deleted OK" ++ [LF] ++ bs "nope      not found  OK" ++ [LF] ++
  bs "greeting  = " ++ quote (bs "OVERWRITTEN") ++ bs " (after overwrite)" ++ [LF; LF].

Lemma tcall_some {X Y} (r : option X) x (f : X -> test Y) out : r = Some x -> (x ← tcall r; f x) out = f x out.
Proof. intros ->. done. Qed.

Lemma tassert_true {Y} line b (f : test Y) out : b = true -> (tassert line b;; f) out = f out.
Proof. by intros ->. Qed.

(** One operation that succeeds, and its assertion. *)
Ltac do_call E := rewrite (tcall_some _ _ _ _ E); cbv beta iota; rewrite (tassert_true _ _ _ _ eq_refl).

Lemma tprint_then {Y} s (f : test Y) out : (tprint s;; f) out = f (out ++ s).
Proof. done. Qed.

(** C33: the smoke test passes.  When the system grants the memory of [vc_create], and
    whatever the clocks and the allocators answer later, no assertion of the program fails,
    the cache is destroyed, the text is the expected one and the exit code is 0. *)
Theorem smoke_passes arena_bytes ce B ev h :
  granted arena_bytes ce B ->
  exists c, smoke_main arena_bytes ce ev h [] =
    Some (transcript ++ vc_stats_print c ++ [LF] ++ bs "All assertions passed." ++ [LF], inr 0).
Proof.
  intros He. destruct (create_ok arena_bytes ce (ba_arenas B) (256 * 1024 * 1024) 4096 h (gr_env _ _ _ He)) as (c0 & h' & k & E0 & H0 & M0 & Hk); [lia|].
  pose proof (create_alive _ _ _ _ _ _ _ _ _ He E0) as A0.
  destruct (set_small B k c0 (ev 0%nat) (bs "greeting") (bs "hello, world") 0 H0 A0 Hk) as (c1 & E1 & H1 & A1 & M1);
    [rewrite M0; sized | differ | differ | done | by intros ? ?; rewrite M0 |].
  destruct (set_small B k c1 (ev 1%nat) (bs "counter") [0; 0; 0; 1] 0 H1 A1 Hk) as (c2 & E2 & H2 & A2 & M2);
    [rewrite M1, M0; sized | differ | differ | done | intros ? ?; rewrite M1, M0, lookup_insert_ne; [done | differ] |].
  destruct (set_small B k c2 (ev 2%nat) (bs "ttl_key") (bs "expires soon") 2 H2 A2 Hk) as (c3 & E3 & H3 & A3 & M3);
    [rewrite M2, M1, M0; sized | differ | differ | done | intros ? ?; rewrite M2, M1, M0, !lookup_insert_ne; [done | differ | differ] |].
  rewrite M2, M1, M0 in M3. set (m := <[_ := _]> _) in M3.
  destruct (get_small B k c3 (ev 3%nat) (bs "greeting") (bs "hello, world") H3 A3) as (r4 & c4 & E4 & H4 & A4 & M4 & V4);
    [done | rewrite M3; unfold m; rewrite lookup_insert_ne, lookup_insert_ne, lookup_insert_eq; [done | differ | differ] |].
  destruct (del_small B k c4 (ev 4%nat) (bs "counter") [0; 0; 0; 1] H4 A4) as (c5 & E5 & H5 & A5 & M5);
    [done | rewrite M4, M3; unfold m; rewrite lookup_insert_ne, lookup_insert_eq; [done | differ] |].
  destruct (get_absent B k c5 (ev 5%nat) (bs "counter") H5 A5) as (o6 & c6 & E6 & H6 & A6 & M6);
    [done | rewrite M5; apply lookup_delete_eq |].
  destruct (get_absent B k c6 (ev 6%nat) (bs "nope") H6 A6) as (o7 & c7 & E7 & H7 & A7 & M7);
    [done | rewrite M6, M5, M4, M3; unfold m; rewrite lookup_delete_ne, !lookup_insert_ne; [done | differ..] |].
  destruct (set_small B k c7 (ev 7%nat) (bs "greeting") (bs "OVERWRITTEN") 0 H7 A7 Hk) as (c8 & E8 & H8 & A8 & M8);
    [rewrite M7, M6, M5, M4, M3; unfold m; sized | differ | differ | done | |].
  { intros v x. rewrite M7, M6, M5, M4, M3. unfold m. rewrite lookup_delete_ne, lookup_insert_ne, lookup_insert_ne, lookup_insert_eq by differ.
    by intros [= _ <-]. }
  destruct (get_small B k c8 (ev 8%nat) (bs "greeting") (bs "OVERWRITTEN") H8 A8) as (r9 & c9 & E9 & H9 & A9 & M9 & V9);
    [done | rewrite M8; apply lookup_insert_eq |].
  destruct (alive_destroyed B k c9 (gr_base _ _ _ He) (cok_wf _ _ H9) A9) as (h9 & E10 & _).
  exists c9. unfold smoke_main. rewrite tprint_then, (tcall_some _ _ _ _ E0). cbv beta iota.
  rewrite (tassert_true _ _ _ _ (bool_decide_eq_true_2 _ (mk_is_Some _ _ eq_refl))), (tcall_some _ _ _ _ eq_refl).
  do_call E1. do_call E2. do_call E3. do_call E4.
  rewrite (tcall_some (shown c4 (Some r4)) (bs "hello, world")) by (unfold shown; cbn [mbind option_bind]; rewrite V4; reflexivity).
  rewrite tprint_then. do_call E5. do_call E6. rewrite tprint_then. do_call E7. rewrite tprint_then. do_call E8. do_call E9.
  rewrite (tcall_some (shown c9 (Some r9)) (bs "OVERWRITTEN")) by (unfold shown; cbn [mbind option_bind]; rewrite V9; reflexivity).
  rewrite !tprint_then, (tcall_some _ _ _ _ E10), tprint_then. reflexivity.
Qed.
End Main.

Lemma smoke_witness :
  exists c, smoke_main (fun _ _ => bs "50.0") 64 mini_env (fun _ => clock 0) empty_heap [] =
    Some (transcript ++ vc_stats_print (fun _ _ => bs "50.0") c ++ [LF] ++ bs "All assertions passed." ++ [LF], inr 0).
Proof.
  apply (smoke_passes (fun _ _ => bs "50.0") 64 mini_env mini_base). apply mini_granted.
Defined.
