(* ===== verification/Bench.v ===== *)
(** * The benchmark

    [src/bench/benchmark.c]: the generated keys, the Zipf table, the single-threaded and
    multi-threaded measurements and the program that runs them.  A run is a computation over
    the cache, the text printed so far and the numbers of cache calls, clock readings and
    thread groups so far, which select what the environment answers.  The threads of a group
    interleave as a schedule says, one cache operation at a time; doubles are those of
    [Double.v]. *)

From S2P Require Import Prelude Hash Slab Entry Shard Wal Cache CacheInv CacheSafe CacheSpec CacheThm CacheLife Proto ProtoSpec Double Smoke.

(** ** Keys, values and ranks *)

Definition NKEYS : Z := 1048576.

(** [snprintf(g_keys[i], 24, "k%010d", i)] in a row of zeros. *)
Definition key_row (i : Z) : list Z :=
  let s := bs "k" ++ zero_pad 10 (dec i) ++ [0] in s ++ replicate (24 - length s) 0.

Record globals := Globals { g_keys : list (list Z); g_vals : list Z; zipf_table : list Z }.

Definition gen_keys : list (list Z) * list Z :=
  (key_row <$> seqZ 0 NKEYS, (fun i => u8 (Z.lxor i 0xA5)) <$> seqZ 0 4096).

(** [for (i = 1; i <= 1024; i++) sum += 1.0 / i;] *)
Fixpoint zipf_sum (n : nat) (i : Z) (sum : double) : double :=
  match n with
  | O => sum
  | S n => zipf_sum n (i + 1) (d_add sum (d_div (d_of_Z 1) (d_of_Z i)))
  end.

(** [(int)((1.0 / rank) / sum * NKEYS)] *)
Definition zipf_count (sum : double) (rank : Z) : option Z :=
  d_to_int (d_mul (d_div (d_div (d_of_Z 1) (d_of_Z rank)) sum) (d_of_Z NKEYS)).

(** [for (j = 0; j < count && idx < NKEYS; j++) zipf_table[idx++] = v;] *)
Fixpoint zipf_fill (count : nat) (v : Z) (idx : Z) (tbl : list Z) : Z * list Z :=
  match count with
  | O => (idx, tbl)
  | S count => if idx <? NKEYS then zipf_fill count v (idx + 1) (<[Z.to_nat idx := v]> tbl) else (idx, tbl)
  end.

Fixpoint zipf_ranks (n : nat) (sum : double) (rank idx : Z) (tbl : list Z) : option (Z * list Z) :=
  match n with
  | O => Some (idx, tbl)
  | S n =>
      if idx <? NKEYS then
        count ← zipf_count sum rank;
        let '(idx, tbl) := zipf_fill (Z.to_nat count) (rank - 1) idx tbl in
        zipf_ranks n sum (rank + 1) idx tbl
      else Some (idx, tbl)
  end.

Definition harmonic : double := zipf_sum 1024 1 d_zero.

(** The rest of the table, at most [NKEYS] entries, gets 0. *)
Definition build_zipf : option (list Z) :=
  '(idx, tbl) ← zipf_ranks 1024 harmonic 1 0 (replicate (Z.to_nat NKEYS) 0);
  Some (zipf_fill (Z.to_nat NKEYS) 0 idx tbl).2.

(** ** The run *)

(** What the system answers: to the [n]-th cache operation, the [n]-th reading of the clock,
    and in the [n]-th group of threads the success of each creation and the order of steps. *)
Record bench_world := World {
  w_env : Z -> env;
  w_clock : Z -> Z * Z;
  w_create : Z -> nat -> bool;
  w_sched : Z -> list nat
}.

Record bstate := BState {
  bs_cache : vc_cache;
  bs_out : list Z;
  bs_calls : Z;
  bs_ticks : Z;
  bs_groups : Z
}.

(** [None] is undefined behaviour. *)
Definition bench (X : Type) : Type := bstate -> option (X * bstate).

#[export] Instance bench_ret : MRet bench := fun _ x st => Some (x, st).
#[export] Instance bench_bind : MBind bench := fun _ _ f m st =>
  match m st with None => None | Some (x, st) => f x st end.

Definition bprint (s : list Z) : bench () :=
  fun st => Some ((), BState (bs_cache st) (bs_out st ++ s) (bs_calls st) (bs_ticks st) (bs_groups st)).
Definition bcall {X} (r : option X) : bench X := fun st => x ← r; Some (x, st).

(** [for (i = from; i < from + n; i++) a = body(i, a);] *)
Fixpoint for_loop {A} (n : nat) (i : Z) (a : A) (body : Z -> A -> bench A) : bench A :=
  match n with
  | O => mret a
  | S n => a ← body i a; for_loop n (i + 1) a body
  end.

Section Program.
Context (w : bench_world).

Definition ns_now : bench Z := fun st =>
  let '(sec, nsec) := w_clock w (bs_ticks st) in
  Some (u64 (u64 (u64 sec * 1000000000) + u64 nsec),
        BState (bs_cache st) (bs_out st) (bs_calls st) (bs_ticks st + 1) (bs_groups st)).

Definition set_cache (c : vc_cache) (st : bstate) : bstate :=
  BState c (bs_out st) (bs_calls st + 1) (bs_ticks st) (bs_groups st).

(** ** Output *)

(** [n] times the character U+2500. *)
Definition rules (n : nat) : list Z := concat (replicate n [0xE2; 0x94; 0x80]).

Definition hdr : bench () :=
  bprint ([LF] ++ pad_right 48 (bs "Benchmark") ++ bs "  " ++ pad_left 10 (bs "ops") ++ bs "  " ++
          pad_left 10 (bs "Mops/sec") ++ bs "  " ++ pad_left 8 (bs "ns/op") ++ [LF]);;
  bprint (pad_right 48 (rules 48) ++ bs "  " ++ pad_left 10 (rules 10) ++ bs "  " ++ pad_left 10 (rules 10) ++ bs "  " ++
          pad_left 8 (rules 8) ++ [LF]).

Definition row_text (name : list Z) (ops ns : Z) : list Z :=
  let mops := d_mul (d_div (d_of_Z ops) (d_of_Z ns)) (d_of_Z 1000) in
  let nsop := d_div (d_of_Z ns) (d_of_Z ops) in
  pad_right 48 name ++ bs "  " ++ pad_left 10 (dec ops) ++ bs "  " ++ pad_left 10 (fmt_f 3 mops) ++ bs "  " ++
  pad_left 8 (fmt_f 1 nsop) ++ [LF].

Definition row (name : list Z) (ops ns : Z) : bench () := bprint (row_text name ops ns).

Context (g : globals).

(** ** One thread *)

(** [g_keys[k]] with length 12; an index outside the array is undefined. *)
Definition key_at (k : Z) : option (list Z) :=
  if k <? 0 then None else take 12 <$> g_keys g !! Z.to_nat k.

(** The first [vlen] bytes of [g_vals]. *)
Definition val_of (vlen : Z) : option (list Z) :=
  if Z.of_nat (length (g_vals g)) <? vlen then None else Some (take (Z.to_nat vlen) (g_vals g)).

Definition bset (k vlen : Z) : bench vc_err := fun st =>
  ky ← key_at k; val ← val_of vlen;
  '(err, c) ← vc_set (w_env w (bs_calls st)) (bs_cache st) ky val 0; Some (err, set_cache c st).

Definition bget (k : Z) : bench vc_err := fun st =>
  ky ← key_at k;
  '(err, _, c) ← vc_get (w_env w (bs_calls st)) (bs_cache st) ky; Some (err, set_cache c st).

Definition bflush : bench () := fun st => c ← vc_flush (bs_cache st); Some ((), set_cache c st).

Definition masked (i : Z) : Z := Z.land i (NKEYS - 1).

(** The loop that sets the first [n] keys, around the table. *)
Definition set_loop (vlen n : Z) : bench () :=
  for_loop (Z.to_nat n) 0 () (fun i _ => bset (masked i) vlen;; mret ()).

Definition bench_set (vlen n : Z) (label : list Z) : bench () :=
  t0 ← ns_now;
  set_loop vlen n;;
  t1 ← ns_now;
  row label n (u64 (t1 - t0)).

(** [for (i = 0; i < NKEYS; i++) vc_set(c, g_keys[i], 12, g_vals, vlen, 0);] *)
Definition populate (vlen : Z) : bench () :=
  for_loop (Z.to_nat NKEYS) 0 () (fun i _ => bset i vlen;; mret ()).

Definition get_loop (n : Z) : bench Z :=
  for_loop (Z.to_nat n) 0 0 (fun i hits => e ← bget (masked i); mret (if errno_is e VC_OK then hits + 1 else hits)).

(** The result is the local variable [hits]. *)
Definition bench_get_hot (vlen n : Z) (label : list Z) : bench Z :=
  populate vlen;;
  t0 ← ns_now;
  hits ← get_loop n;
  t1 ← ns_now;
  row label n (u64 (t1 - t0));;
  mret hits.

Definition bench_get_zipf (n : Z) (label : list Z) : bench () :=
  t0 ← ns_now;
  for_loop (Z.to_nat n) 0 () (fun i _ => k ← bcall (zipf_table g !! Z.to_nat (masked i)); bget k;; mret ());;
  t1 ← ns_now;
  row label n (u64 (t1 - t0)).

(** ** Threads *)

Record mt_arg := MtArg {
  ma_thread_id : Z;
  ma_total_threads : Z;
  ma_iters : Z;
  ma_read_pct : Z;
  ma_vlen : Z;
  ma_elapsed_ns : Z;
  ma_ops_done : Z
}.

Definition is_int (z : Z) : bool := (- 2 ^ 31 <=? z) && (z <? 2 ^ 31).

(** [(i + tid * (NKEYS / total_threads)) & (NKEYS - 1)], in [int]. *)
Definition local_key (a : mt_arg) (i : Z) : option Z :=
  if ma_total_threads a =? 0 then None else
  let slice := ma_thread_id a * Z.quot NKEYS (ma_total_threads a) in
  if is_int slice && is_int (i + slice) then Some (masked (i + slice)) else None.

(** One round of the loop of [mt_worker]. *)
Definition mt_round (a : mt_arg) (i : Z) : bench () :=
  k ← bcall (local_key a i);
  if Z.rem i 100 <? ma_read_pct a then bget k;; mret () else bset k (ma_vlen a);; mret ().

Definition mt_done (a : mt_arg) (elapsed ops : Z) : mt_arg :=
  MtArg (ma_thread_id a) (ma_total_threads a) (ma_iters a) (ma_read_pct a) (ma_vlen a) elapsed ops.

(** The worker when it runs alone. *)
Definition mt_worker (a : mt_arg) : bench mt_arg :=
  t0 ← ns_now;
  ops ← for_loop (Z.to_nat (ma_iters a)) 0 0 (fun i ops => mt_round a i;; mret (u64 (ops + 1)));
  t1 ← ns_now;
  mret (mt_done a (u64 (t1 - t0)) ops).

(** The worker as a thread: before its first clock reading, before round [i], at its end. *)
Inductive phase := Ready | Looping (t0 i ops : Z) | Finished.
Record mt_thread := Thread { th_arg : mt_arg; th_phase : phase }.

Definition mt_step (t : mt_thread) : bench mt_thread :=
  let a := th_arg t in
  match th_phase t with
  | Ready => t0 ← ns_now; mret (Thread a (Looping t0 0 0))
  | Looping t0 i ops =>
      if i <? ma_iters a then mt_round a i;; mret (Thread a (Looping t0 (i + 1) (u64 (ops + 1))))
      else t1 ← ns_now; mret (Thread (mt_done a (u64 (t1 - t0)) ops) Finished)
  | Finished => mret t
  end.

Definition step_at (j : nat) (ts : list mt_thread) : bench (list mt_thread) :=
  match ts !! j with
  | Some t => t ← mt_step t; mret (<[j := t]> ts)
  | None => mret ts
  end.

Fixpoint run_schedule (sched : list nat) (ts : list mt_thread) : bench (list mt_thread) :=
  match sched with
  | [] => mret ts
  | j :: sched => ts ← step_at j ts; run_schedule sched ts
  end.

(** [pthread_join]: what is left of the thread, at most its rounds and two readings. *)
Fixpoint finish (fuel : nat) (t : mt_thread) : bench mt_thread :=
  match fuel with
  | O => mret t
  | S fuel => t ← mt_step t; finish fuel t
  end.

Fixpoint join_all (ts : list mt_thread) : bench (list mt_thread) :=
  match ts with
  | [] => mret []
  | t :: ts =>
      t ← finish (Z.to_nat (ma_iters (th_arg t)) + 2) t;
      ts ← join_all ts;
      mret (t :: ts)
  end.

(** The threads take turns; a turn is one whole operation on the cache, so that what an
    operation of one thread sees of another in its middle is left to [SeqLock.v].  The joins
    of threads that were not created are undefined. *)
Definition run_group (args : list mt_arg) : bench (list mt_thread) := fun st =>
  let n := bs_groups st in
  let st := BState (bs_cache st) (bs_out st) (bs_calls st) (bs_ticks st) (n + 1) in
  if forallb (w_create w n) (seq 0 (length args)) then
    (ts ← run_schedule (w_sched w n) ((fun a => Thread a Ready) <$> args); join_all ts) st
  else None.

(** [total_ops += ops_done; if (elapsed_ns > max_ns) max_ns = elapsed_ns;] *)
Fixpoint group_totals (ts : list mt_thread) (total max_ns : Z) : Z * Z :=
  match ts with
  | [] => (total, max_ns)
  | t :: ts =>
      group_totals ts (u64 (total + ma_ops_done (th_arg t)))
        (if max_ns <? ma_elapsed_ns (th_arg t) then ma_elapsed_ns (th_arg t) else max_ns)
  end.

Definition group_args (nthreads read_pct vlen iters : Z) : list mt_arg :=
  (fun i => MtArg i nthreads iters read_pct vlen 0 0) <$> seqZ 0 nthreads.

Definition bench_mt (nthreads read_pct vlen iters : Z) (label : list Z) : bench () :=
  let nthreads := if 16 <? nthreads then 16 else nthreads in
  ts ← run_group (group_args nthreads read_pct vlen iters);
  let '(total, max_ns) := group_totals ts 0 0 in
  row label total max_ns.

(** ** The table at the end *)

Definition side (s : list Z) : list Z := [0xE2; 0x95; 0x91] ++ s ++ [0xE2; 0x95; 0x91; LF].
Definition top_line : list Z := [0xE2; 0x95; 0x94] ++ bars 58 ++ [0xE2; 0x95; 0x97; LF].
Definition mid_line : list Z := [0xE2; 0x95; 0xA0] ++ bars 58 ++ [0xE2; 0x95; 0xA3; LF].
Definition low_line : list Z := [0xE2; 0x95; 0x9A] ++ bars 58 ++ [0xE2; 0x95; 0x9D; LF].
Definition n_times : list Z := [0xC3; 0x97].

(** ["║ %-28s  %8s  %8s  %8s ║\n"] *)
Definition cells (a b c d : list Z) : list Z :=
  side (bs " " ++ pad_right 28 a ++ bs "  " ++ pad_left 8 b ++ bs "  " ++ pad_left 8 c ++ bs "  " ++ pad_left 8 d ++ bs " ").
(** ["║ %-28s  %7.2fM  %7.2fM  %7.2fM ║\n"] *)
Definition numbers (a : list Z) (x y z : double) : list Z :=
  let m (v : double) := pad_left 7 (fmt_f 2 v) ++ bs "M" in
  side (bs " " ++ pad_right 28 a ++ bs "  " ++ m x ++ bs "  " ++ m y ++ bs "  " ++ m z ++ bs " ").

Definition print_comparison (vc_get_mops vc_set_mops vc_mt_mops : double) : bench () :=
  bprint ([LF] ++ top_line);;
  bprint (side (bs "           Comparison vs Redis & Memcached                "));;
  bprint mid_line;;
  bprint (cells (bs "Scenario") (bs "VoidCache") (bs "Redis") (bs "Memcached"));;
  bprint (cells (rules 28) (rules 9) (rules 5) (rules 9));;
  let r_get := d_ratio false 80 100 in let r_set := d_ratio false 75 100 in
  let m_get := d_of_Z 2 in
  let r_pip := d_of_Z 6 in
  bprint (numbers (bs "Single-thread GET") vc_get_mops r_get m_get);;
  bprint (numbers (bs "Single-thread SET") vc_set_mops r_set (d_ratio false 150 100));;
  bprint (numbers (bs "Multi-thread (8T) GET") vc_mt_mops r_pip m_get);;
  let x (a b : double) := n_times ++ fmt_f 1 (d_div a b) in
  bprint mid_line;;
  bprint (side (bs "  VoidCache vs Redis:     GET " ++ x vc_get_mops r_get ++ bs "    8T-GET " ++ x vc_mt_mops r_pip ++ bs "         "));;
  bprint (side (bs "  VoidCache vs Memcached: GET " ++ x vc_get_mops m_get ++ bs "    8T-GET " ++ x vc_mt_mops m_get ++ bs "         "));;
  bprint low_line.

(** ** [main] *)

Definition ST : Z := 2000000.
Definition MT : Z := 500000.

(** [(double)ops / ((double)ns / 1e3)] *)
Definition mops (ops ns : Z) : double := d_div (d_of_Z ops) (d_div (d_of_Z ns) (d_of_Z 1000)).

Definition heading (s : list Z) : list Z := [LF] ++ rules 2 ++ s ++ [LF].
Definition on_threads (kind : list Z) (s : list Z) : list Z := kind ++ n_times ++ s.

Definition plain_gets (n : Z) : bench () :=
  for_loop (Z.to_nat n) 0 () (fun i _ => bget (masked i);; mret ()).

(** A section of four groups of threads; [sp] separates the number. *)
Definition four_groups (kind sp : list Z) (read_pct : Z) : bench () :=
  bench_mt 1 read_pct 8 (MT * 4) (on_threads kind (bs "1" ++ sp ++ bs "thread"));;
  bench_mt 2 read_pct 8 (MT * 2) (on_threads kind (bs "2" ++ sp ++ bs "threads"));;
  bench_mt 4 read_pct 8 MT (on_threads kind (bs "4" ++ sp ++ bs "threads"));;
  bench_mt 8 read_pct 8 MT (on_threads kind (bs "8" ++ sp ++ bs "threads")).

(** [main] between [vc_create] and [vc_stats_print]; the result is the three numbers of the
    table. *)
Definition measure : bench (double * double * double) :=
  set_loop 8 50000;;
  hdr;;
  bprint (heading (bs " Inline path  (key=12B, val=8B, key+val fits in cache line)"));;
  bench_set 8 ST (bs "SET  inline  single-thread");;
  bench_get_hot 8 ST (bs "GET  inline  single-thread  100% hit");;
  bench_get_zipf ST (bs "GET  inline  single-thread  zipf");;
  bflush;;
  bprint (heading (bs " Slab path  (key=12B, val=256B)"));;
  bench_set 256 (ST / 2) (bs "SET  slab    single-thread");;
  bench_get_hot 256 (ST / 2) (bs "GET  slab    single-thread  100% hit");;
  bflush;;
  bprint (heading (bs " Slab path  (key=12B, val=4096B)"));;
  bench_set 4096 (ST / 8) (bs "SET  slab4k  single-thread");;
  bench_get_hot 4096 (ST / 8) (bs "GET  slab4k  single-thread  100% hit");;
  bflush;;
  populate 8;;
  bprint (heading (bs " Multi-threaded GET (inline, 100% reads)"));;
  four_groups (bs "GET") (bs "   ") 100;;
  bprint (heading (bs " Multi-threaded SET (inline)"));;
  four_groups (bs "SET") (bs "   ") 0;;
  bprint (heading (bs " 80% GET / 20% SET mixed workload"));;
  four_groups (bs "MIXED") (bs "  ") 80;;
  bflush;;
  populate 8;;
  t0 ← ns_now;
  plain_gets ST;;
  t1 ← ns_now;
  let vc_get_mops := mops ST (u64 (t1 - t0)) in
  t0 ← ns_now;
  set_loop 8 ST;;
  t1 ← ns_now;
  let vc_set_mops := mops ST (u64 (t1 - t0)) in
  ts ← run_group (group_args 8 100 8 MT);
  let '(total8, max8ns) := group_totals ts 0 0 in
  mret (vc_get_mops, vc_set_mops, mops total8 max8ns).

End Program.

(** [100.0 * hits / total] with [%.1f]. *)
Definition hit_rate (hits total : Z) : list Z :=
  fmt_f 1 (if total =? 0 then d_zero else d_div (d_mul (d_of_Z 100) (d_of_Z hits)) (d_of_Z total)).

Definition bench_banner : list Z :=
  top_line ++ side (bs "               VoidCache Benchmark Suite                  ") ++ low_line.

(** What was printed on both streams, and the exit code. *)
Definition bench_main (w : bench_world) (arena_bytes : Z) (ce : create_env) (h : heap) : option (list Z * Z) :=
  zipf ← build_zipf;
  let g := Globals gen_keys.1 gen_keys.2 zipf in
  '(oc, _) ← vc_create arena_bytes ce (2 * 1024 * 1024 * 1024) None 32768 h;
  match oc with
  | None => Some (bench_banner ++ bs "vc_create failed" ++ [LF], 1)
  | Some c =>
      '((a, b, m), st) ← measure w g (BState c bench_banner 0 0 0);
      '(_, st) ← (bprint [LF];; bprint (vc_stats_print hit_rate (bs_cache st));; print_comparison a b m) st;
      _ ← vc_destroy (bs_cache st);
      Some (bs_out st, 0)
  end.
