(* ===== verification/BenchThm.v ===== *)
(** * Theorems on the benchmark

    The generated keys are distinct, the Zipf table is filled with ranks, and the program
    runs to its end whatever the clocks answer and however its threads interleave, with the
    number of operations that it reports. *)

From S2P Require Import Prelude Hash Slab Entry Shard Wal Cache CacheInv CacheSafe CacheSpec CacheThm CacheLife Proto ProtoSpec Double Smoke Bench.

(** ** Keys *)

Lemma dec_digits_fuel f k n acc :
  0 <= n < 10 ^ Z.of_nat f -> (0 < f)%nat -> dec_digits (f + k) n acc = dec_digits f n acc.
Proof.
  revert n acc. induction f as [|f IH]; intros n acc Hn Hf; [lia|]. cbn [dec_digits Nat.add].
  destruct (Z.ltb_spec n 10); [done|]. rewrite Nat2Z.inj_succ, Z.pow_succ_r in Hn by lia. apply IH.
  - split; [apply Z.div_pos; lia | apply Z.div_lt_upper_bound; lia].
  - destruct f; [simpl in Hn; lia | lia].
Qed.

Lemma zero_pad_digits w i :
  0 <= i < 10 ^ Z.of_nat w -> (0 < w <= 20)%nat ->
  length (zero_pad w (dec i)) = w /\ digits (zero_pad w (dec i)) 0 = (i, w).
Proof.
  intros Hi Hw. unfold dec. rewrite (proj2 (Z.ltb_ge i 0)) by lia. replace 20%nat with (w + (20 - w))%nat by lia.
  rewrite dec_digits_fuel by lia. destruct (dec_digits_spec w i []) as (ds & -> & _ & Hall & Hlen & Hdig); [done | lia|].
  rewrite app_nil_r. specialize (Hdig 0 []). rewrite app_nil_r in Hdig. cbn [digits] in Hdig. rewrite Nat.add_0_r, Z.mul_0_l, Z.add_0_l in Hdig.
  unfold zero_pad. split; [rewrite length_app, length_replicate; lia|].
  assert (Hz : forall m, digits (replicate m 48 ++ ds) 0 = (i, (m + length ds)%nat)).
  { induction m as [|m IH]; [exact Hdig|]. cbn [replicate app digits]. change (isdigit 48) with true.
    change (0 * 10 + (48 - 48)) with 0. cbv iota. by rewrite IH. }
  rewrite Hz. f_equal. lia.
Qed.

(** The twelve bytes of a key. *)
Definition bench_key (i : Z) : list Z := bs "k" ++ zero_pad 10 (dec i) ++ [0].

Lemma bench_key_length i : 0 <= i < NKEYS -> length (bench_key i) = 12%nat.
Proof.
  intros Hi. unfold NKEYS in Hi. unfold bench_key. rewrite !length_app.
  rewrite (proj1 (zero_pad_digits 10 i ltac:(lia) ltac:(lia))). done.
Qed.

Lemma bench_key_inj i j : 0 <= i < NKEYS -> 0 <= j < NKEYS -> bench_key i = bench_key j -> i = j.
Proof.
  intros Hi Hj E. unfold NKEYS in *. unfold bench_key in E. apply app_inv_head, app_inv_tail in E.
  destruct (zero_pad_digits 10 i) as [_ Di]; [lia..|]. destruct (zero_pad_digits 10 j) as [_ Dj]; [lia..|].
  rewrite E, Dj in Di. by injection Di.
Qed.

Lemma key_at_gen g k : g_keys g = gen_keys.1 -> 0 <= k < NKEYS -> key_at g k = Some (bench_key k).
Proof.
  intros Eg Hk. unfold key_at. rewrite (proj2 (Z.ltb_ge k 0)), Eg by lia. cbn [gen_keys fst].
  rewrite list_lookup_fmap, lookup_seqZ_lt by lia. cbn [fmap option_fmap option_map].
  replace (0 + Z.of_nat (Z.to_nat k)) with k by lia. f_equal. unfold key_row. fold (bench_key k).
  rewrite take_app_le, take_ge; [done | rewrite bench_key_length by lia; lia..].
Qed.

(** ** The Zipf table *)

Lemma zipf_fill_spec n v idx tbl :
  0 <= idx <= NKEYS -> Z.of_nat (length tbl) = NKEYS ->
  let m := Nat.min n (Z.to_nat (NKEYS - idx)) in
  zipf_fill n v idx tbl =
    (idx + Z.of_nat m, take (Z.to_nat idx) tbl ++ replicate m v ++ drop (Z.to_nat idx + m) tbl).
Proof.
  revert idx tbl. induction n as [|n IH]; intros idx tbl Hi Hl m; cbn [zipf_fill].
  { unfold m. cbn [Nat.min replicate app]. rewrite Nat.add_0_r, take_drop. f_equal. lia. }
  destruct (Z.ltb_spec idx NKEYS) as [Hlt|Hge].
  - rewrite IH by (rewrite ?length_insert; lia). cbv zeta.
    assert (Hm : m = S (Nat.min n (Z.to_nat (NKEYS - (idx + 1))))) by lia. rewrite Hm. f_equal; [lia|].
    set (r := Nat.min n _). replace (Z.to_nat (idx + 1)) with (S (Z.to_nat idx)) by lia.
    rewrite (take_S_r _ _ v) by (apply list_lookup_insert_eq; lia).
    rewrite take_insert_ge by lia. rewrite drop_insert_lt by lia. cbn [replicate]. rewrite <- !app_assoc. cbn [app].
    do 3 f_equal. f_equal. lia.
  - assert (m = 0%nat) as -> by lia. cbn [replicate app]. rewrite Nat.add_0_r, take_drop. f_equal. lia.
Qed.

(** The runs of equal ranks from rank [r] on. *)
Definition runs (r : Z) (counts : list Z) : list Z :=
  concat (imap (fun i n => replicate (Z.to_nat n) (r + Z.of_nat i)) counts).

Lemma runs_cons r n counts : runs r (n :: counts) = replicate (Z.to_nat n) r ++ runs (r + 1) counts.
Proof.
  unfold runs. rewrite imap_cons. cbn [concat]. rewrite Z.add_0_r. do 2 f_equal. apply imap_ext. intros i x _. simpl. f_equal. lia.
Qed.

Definition total (counts : list Z) : Z := foldr Z.add 0 counts.

Lemma runs_length r counts : Forall (fun n => 0 <= n) counts -> Z.of_nat (length (runs r counts)) = total counts.
Proof.
  revert r. induction counts as [|n counts IH]; intros r H; [done|]. apply Forall_cons in H as [Hn H].
  rewrite runs_cons, length_app, length_replicate, Nat2Z.inj_add, IH by done. cbn [total foldr]. unfold total. lia.
Qed.

Lemma zipf_ranks_spec sum counts : forall rank done_ tbl,
  mapM (zipf_count sum) (seqZ rank (Z.of_nat (length counts))) = Some counts ->
  Forall (fun n => 0 <= n) counts -> Z.of_nat (length tbl) = NKEYS ->
  Z.of_nat (length done_) + total counts < NKEYS -> take (length done_) tbl = done_ ->
  exists tbl', zipf_ranks (length counts) sum rank (Z.of_nat (length done_)) tbl =
    Some (Z.of_nat (length done_) + total counts, tbl') /\ Z.of_nat (length tbl') = NKEYS /\
    take (length done_ + length (runs (rank - 1) counts)) tbl' = done_ ++ runs (rank - 1) counts.
Proof.
  induction counts as [|n counts IH]; intros rank dn tbl Hm Hp Hl Hlt Ht.
  { exists tbl. split; [cbn; f_equal; f_equal; lia|]. split; [done|]. cbn. by rewrite Nat.add_0_r, app_nil_r. }
  pose proof Hp as Hp0. apply Forall_cons in Hp as [Hn Hp]. cbn [length] in *. cbn [total foldr] in Hlt. fold (total counts) in Hlt.
  assert (0 <= total counts) by (rewrite <- (runs_length 0) by done; lia).
  rewrite seqZ_cons in Hm by lia. cbn [mapM] in Hm. destruct (zipf_count sum rank) as [n'|] eqn:En; [|done]. cbn [mbind option_bind] in Hm.
  destruct (mapM _ (seqZ (Z.succ rank) _)) as [cs|] eqn:Ec; [|done]. cbn in Hm. injection Hm as -> ->.
  cbn [zipf_ranks]. rewrite (proj2 (Z.ltb_lt _ _)) by lia. rewrite En. cbn [mbind option_bind].
  rewrite zipf_fill_spec by lia. cbv zeta. rewrite Nat.min_l by lia.
  set (tbl1 := take _ tbl ++ _). assert (Hl1 : Z.of_nat (length tbl1) = NKEYS).
  { unfold tbl1. rewrite !length_app, length_take, length_replicate, length_drop. lia. }
  assert (Ht1 : take (length (dn ++ replicate (Z.to_nat n) (rank - 1))) tbl1 = dn ++ replicate (Z.to_nat n) (rank - 1)).
  { unfold tbl1. rewrite Nat2Z.id, Ht, app_assoc. by rewrite take_app_length. }
  destruct (IH (rank + 1) (dn ++ replicate (Z.to_nat n) (rank - 1)) tbl1) as (tbl' & E & Hl' & Ht');
    [rewrite <- Ec; do 2 f_equal; lia | done | done | rewrite length_app, length_replicate; lia | done |].
  exists tbl'. rewrite length_app, length_replicate, Nat2Z.inj_add, Z2Nat.id in E by lia. rewrite Z2Nat.id by lia. rewrite E.
  split; [f_equal; f_equal; cbn [total foldr]; unfold total; lia|]. split; [done|].
  rewrite runs_cons, length_app. replace (rank + 1 - 1) with (rank - 1 + 1) in Ht' by lia.
  rewrite <- app_assoc, length_app in Ht'. rewrite Nat.add_assoc. exact Ht'.
Qed.

Lemma zipf_counts_checked :
  match mapM (zipf_count harmonic) (seqZ 1 1024) with
  | Some counts => (length counts =? 1024)%nat && forallb (Z.leb 0) counts && (total counts =? 1048051)
  | None => false
  end = true.
Proof. vm_compute. reflexivity. Qed.

Lemma zipf_counts : exists counts, mapM (zipf_count harmonic) (seqZ 1 1024) = Some counts /\
  length counts = 1024%nat /\ Forall (fun n => 0 <= n) counts /\ total counts = 1048051.
Proof.
  pose proof zipf_counts_checked as H. destruct (mapM _ _) as [counts|]; [|done]. exists counts. split; [done|].
  apply andb_true_iff in H as [H Ht]. apply andb_true_iff in H as [Hl Hp]. apply Nat.eqb_eq in Hl. apply Z.eqb_eq in Ht.
  split; [done|]. split; [|done]. apply Forall_forall. intros n Hn. rewrite forallb_forall in Hp. apply Z.leb_le, Hp.
  by apply list_elem_of_In.
Qed.

Lemma NKEYS_nat : Z.of_nat (Z.to_nat NKEYS) = NKEYS.
Proof. by apply Z2Nat.id. Qed.

Lemma gen_keys_length : Z.of_nat (length gen_keys.1) = NKEYS.
Proof. unfold gen_keys. cbv beta iota delta [fst]. rewrite length_fmap, length_seqZ. exact NKEYS_nat. Qed.

Lemma build_zipf_eq : exists counts tbl,
  mapM (zipf_count harmonic) (seqZ 1 1024) = Some counts /\ length counts = 1024%nat /\ total counts = 1048051 /\
  build_zipf = Some tbl /\ Z.of_nat (length tbl) = NKEYS /\ tbl = runs 0 counts ++ replicate (Z.to_nat 525) 0.
Proof.
  destruct zipf_counts as (counts & Em & Hl & Hp & Ht). pose proof (runs_length 0 counts Hp) as Hr. rewrite Ht in Hr.
  unfold build_zipf. pose proof NKEYS_nat as HN. generalize dependent (Z.to_nat NKEYS). intros N HN.
  assert (H0 : Z.of_nat (length (replicate N 0)) = NKEYS) by (rewrite length_replicate; exact HN).
  destruct (zipf_ranks_spec harmonic counts 1 [] (replicate N 0)) as (tbl & E & Hl' & Ht');
    [rewrite Hl; exact Em | exact Hp | exact H0 | rewrite Ht; reflexivity | reflexivity |].
  change (1 - 1) with 0 in Ht'. exists counts, (runs 0 counts ++ replicate (Z.to_nat 525) 0).
  split; [exact Em|]. split; [exact Hl|]. split; [exact Ht|].
  split; [|split; [|reflexivity]; rewrite length_app, length_replicate, Nat2Z.inj_add, Hr; reflexivity].
  rewrite Hl, Ht in E. change (Z.of_nat (@length Z [])) with 0 in E. change (0 + 1048051) with 1048051 in E. rewrite E. cbn [mbind option_bind].
  rewrite zipf_fill_spec; [|unfold NKEYS; lia | exact Hl']. cbn [snd]. f_equal.
  assert (HR : length (runs 0 counts) = Z.to_nat 1048051) by (rewrite <- Hr; by rewrite Nat2Z.id).
  change (@length Z []) with 0%nat in Ht'. rewrite Nat.add_0_l, HR in Ht'. rewrite Ht'. cbn [app]. f_equal.
  assert (HM : Nat.min N (Z.to_nat (NKEYS - 1048051)) = Z.to_nat 525).
  { change (NKEYS - 1048051) with 525. apply Nat.min_r. apply Nat2Z.inj_le. rewrite HN. by rewrite Z2Nat.id. }
  rewrite HM, drop_ge, app_nil_r; [reflexivity|]. apply Nat2Z.inj_le. rewrite Hl', Nat2Z.inj_add, !Z2Nat.id by done. done.
Qed.
