(* ===== verification/BenchRun.v ===== *)
(** * The run of the benchmark

    Every measurement ends without undefined behaviour, whatever the clocks answer and in
    every interleaving of the threads, and performs the number of operations it reports. *)

From S2P Require Import Prelude Hash Slab Entry Shard Wal Cache CacheInv CacheSafe CacheSpec CacheThm CacheLife Proto ProtoSpec Double Smoke Bench BenchThm.

(** The allocators are not asked for short keys and values below 2 MB. *)
Lemma set_slab_env ev c ky val ttl :
  Z.of_nat (length ky) <= 24 -> Z.of_nat (length val) <= 2 ^ 21 ->
  vc_set ev c ky val ttl = vc_set (no_memory ev) c ky val ttl.
Proof.
  intros Hk Hv. unfold vc_set, build_entry. cbv zeta. cbn [no_memory ev_mono ev_mono2 ev_wall].
  change (slab_class_size (Z.of_nat VC_SLAB_CLASSES - 1)) with (2 ^ 21).
  rewrite (proj2 (Z.leb_le (Z.of_nat (length val)) (2 ^ 21)) Hv), (proj2 (Z.leb_le (Z.of_nat (length ky)) (32 - 8))) by lia. done.
Qed.

Section Run.
Context (k : Z) (A : base) (w : bench_world) (g : globals).

(** What holds between any two operations. *)
Definition held (st : bstate) : Prop := cache_wf k (bs_cache st) /\ alive A (bs_cache st).

(** The computation ends well; [Q] relates its result, the number of its operations on the
    cache and what it prints. *)
Definition goes {X} (m : bench X) (Q : X -> Z -> list Z -> Prop) : Prop :=
  forall st, held st -> exists x st' n o, m st = Some (x, st') /\ held st' /\
    bs_calls st' = bs_calls st + n /\ bs_out st' = bs_out st ++ o /\ Q x n o.

Lemma goes_ret {X} (x : X) (Q : X -> Z -> list Z -> Prop) : Q x 0 [] -> goes (mret x) Q.
Proof. intros HQ st Hst. exists x, st, 0, []. rewrite app_nil_r, Z.add_0_r. done. Qed.

Lemma goes_bind {X Y} (m : bench X) (f : X -> bench Y) Q R :
  goes m Q -> (forall x n o, Q x n o -> goes (f x) (fun y n' o' => R y (n + n') (o ++ o'))) -> goes (m ≫= f) R.
Proof.
  intros Hm Hf st Hst. destruct (Hm st Hst) as (x & st1 & n & o & E & H1 & Hn & Ho & HQ).
  destruct (Hf x n o HQ st1 H1) as (y & st2 & n' & o' & E' & H2 & Hn' & Ho' & HR).
  exists y, st2, (n + n'), (o ++ o'). unfold mbind, bench_bind. rewrite E. split; [exact E'|]. split; [exact H2|].
  split; [lia|]. split; [|exact HR]. by rewrite Ho', Ho, app_assoc.
Qed.

Lemma goes_weaken {X} (m : bench X) (Q R : X -> Z -> list Z -> Prop) :
  goes m Q -> (forall x n o, Q x n o -> R x n o) -> goes m R.
Proof. intros Hm HQR st Hst. destruct (Hm st Hst) as (x & st' & n & o & H1 & H2 & H3 & H4 & H5). eauto 10. Qed.

Lemma goes_print s : goes (bprint s) (fun _ n o => n = 0 /\ o = s).
Proof. intros st Hst. do 4 eexists. split; [reflexivity|]. cbn. split; [exact Hst|]. by rewrite Z.add_0_r. Qed.

Lemma goes_now : goes (ns_now w) (fun _ n o => n = 0 /\ o = []).
Proof.
  intros st Hst. unfold ns_now. destruct (w_clock w (bs_ticks st)) as [sec nsec].
  do 4 eexists. split; [reflexivity|]. cbn. split; [exact Hst|]. by rewrite Z.add_0_r, app_nil_r.
Qed.

(** A loop of [n] rounds. *)
Lemma goes_for {X} (P : Z -> X -> Prop) c (body : Z -> X -> bench X) n from a :
  (forall i x, from <= i < from + Z.of_nat n -> P i x -> goes (body i x) (fun y m o => P (i + 1) y /\ m = c /\ o = [])) ->
  P from a -> goes (for_loop n from a body) (fun y m o => P (from + Z.of_nat n) y /\ m = Z.of_nat n * c /\ o = []).
Proof.
  revert from a. induction n as [|n IH]; intros from a Hb Ha; cbn [for_loop].
  { apply goes_ret. by rewrite Z.add_0_r. }
  eapply goes_bind; [apply Hb; [lia | exact Ha]|]. intros x m o (HP & -> & ->). cbn beta.
  eapply goes_weaken; [apply IH; [|exact HP]|].
  - intros i y Hi. apply Hb. lia.
  - intros y m o (Hy & -> & ->). split; [|split; [lia | done]]. by replace (from + Z.of_nat (S n)) with (from + 1 + Z.of_nat n) by lia.
Qed.

(** ** Single operations *)

(** The arrays hold what [main] puts there. *)
Record good_globals : Prop := {
  gg_keys : g_keys g = gen_keys.1;
  gg_vals : length (g_vals g) = 4096%nat;
  gg_zipf : forall i, 0 <= i < NKEYS -> exists r, zipf_table g !! Z.to_nat i = Some r /\ 0 <= r < NKEYS
}.
Context (Hg : good_globals).

Lemma goes_set i vlen : 0 <= i < NKEYS -> 0 <= vlen <= 4096 -> goes (bset w g i vlen) (fun _ n o => n = 1 /\ o = []).
Proof.
  intros Hi Hv st [Hwf Ha]. unfold bset. rewrite (key_at_gen g i (gg_keys Hg) Hi). cbn [mbind option_bind].
  unfold val_of. rewrite (gg_vals Hg), (proj2 (Z.ltb_ge _ _)) by lia. cbn [mbind option_bind].
  set (ev := w_env w (bs_calls st)). set (val := take (Z.to_nat vlen) (g_vals g)).
  pose proof (bench_key_length i Hi) as Hk. assert (Hvl : Z.of_nat (length val) <= 4096) by (unfold val; rewrite length_take; lia).
  rewrite set_slab_env by lia.
  destruct (exec_safe k (no_memory ev) (OSet (bench_key i) val 0) (bs_cache st) Hwf) as (c' & E & Hwf' & _).
  { intros ky v t _. intros F HF. constructor; done. }
  { right. unfold set_logged, VC_WAL_RING_SIZE. rewrite u32_id; lia. }
  cbn [exec] in E. destruct (vc_set _ _ _ _ _) as [[err c1]|] eqn:Es; [|done]. cbn [mbind option_bind snd] in E. injection E as <-.
  exists err, (set_cache c1 st), 1, []. split; [reflexivity|].
  split; [split; [exact Hwf'|]; eapply vc_set_alive; [|exact Es | exact Ha]; done|]. rewrite app_nil_r. done.
Qed.

Lemma goes_get i : 0 <= i < NKEYS -> goes (bget w g i) (fun _ n o => n = 1 /\ o = []).
Proof.
  intros Hi st [Hwf Ha]. unfold bget. rewrite (key_at_gen g i (gg_keys Hg) Hi). cbn [mbind option_bind].
  destruct (exec_safe k (w_env w (bs_calls st)) (OGet (bench_key i)) (bs_cache st) Hwf) as (c' & E & Hwf' & _); [done | done |].
  cbn [exec] in E. destruct (vc_get _ _ _) as [[[err r] c1]|] eqn:Es; [|done]. cbn [mbind option_bind snd] in E. injection E as <-.
  exists err, (set_cache c1 st), 1, []. split; [reflexivity|].
  split; [split; [exact Hwf'|]; eapply vc_get_alive; [exact Es | exact Ha]|]. rewrite app_nil_r. done.
Qed.

Lemma goes_flush : goes bflush (fun _ n o => n = 1 /\ o = []).
Proof.
  intros st [Hwf Ha]. unfold bflush. destruct (vc_flush_spec k (bs_cache st) Hwf) as (c' & E & Hok & _). rewrite E. cbn [mbind option_bind].
  exists (), (set_cache c' st), 1, []. split; [reflexivity|].
  split; [split; [exact (cok_wf _ _ Hok)|]; eapply vc_flush_alive; [exact E | exact Ha]|]. rewrite app_nil_r. done.
Qed.

Lemma masked_range i : 0 <= masked i < NKEYS.
Proof. unfold masked. change (NKEYS - 1) with (2 ^ 20 - 1). rewrite land_mask by lia. by apply Z.mod_pos_bound. Qed.

(** ** Measurements on one thread *)

(** A computation that makes [n] calls and prints something. *)
Abbreviation makes n := (fun _ m _ => m = n).

Lemma goes_then {X Y} (m : bench X) (f : bench Y) n n' :
  goes m (makes n) -> goes f (makes n') -> goes (m;; f) (makes (n + n')).
Proof. intros Hm Hf. eapply goes_bind; [exact Hm|]. intros x ? o ->. eapply goes_weaken; [exact Hf|]. by intros y ? ? ->. Qed.

Lemma goes_then_any {X Y} (m : bench X) (f : X -> bench Y) n n' :
  goes m (makes n) -> (forall x, goes (f x) (makes n')) -> goes (m ≫= f) (makes (n + n')).
Proof. intros Hm Hf. eapply goes_bind; [exact Hm|]. intros x ? o ->. eapply goes_weaken; [apply Hf|]. by intros y ? ? ->. Qed.

Lemma goes_printing s : goes (bprint s) (makes 0).
Proof. eapply goes_weaken; [apply goes_print|]. by intros ? ? ? [-> _]. Qed.
Lemma goes_clock : goes (ns_now w) (makes 0).
Proof. eapply goes_weaken; [apply goes_now|]. by intros ? ? ? [-> _]. Qed.
Lemma goes_flushing : goes bflush (makes 1).
Proof. eapply goes_weaken; [apply goes_flush|]. by intros ? ? ? [-> _]. Qed.

(** A loop with one operation in each round. *)
Lemma goes_loop n (body : Z -> () -> bench ()) :
  0 <= n -> (forall i, 0 <= i < n -> goes (body i ()) (fun _ m o => m = 1 /\ o = [])) ->
  goes (for_loop (Z.to_nat n) 0 () body) (makes n).
Proof.
  intros Hn Hb. eapply goes_weaken; [apply (goes_for (fun _ _ => True) 1); [|done]|].
  - intros i [] Hi _. eapply goes_weaken; [apply Hb; lia|]. by intros ? ? ? [-> ->].
  - cbn beta. intros _ m o (_ & -> & _). lia.
Qed.

Lemma goes_op {X} (m : bench X) : goes m (fun _ n o => n = 1 /\ o = []) -> goes (m;; mret ()) (fun _ n o => n = 1 /\ o = []).
Proof. intros Hm. eapply goes_bind; [exact Hm|]. intros x n o [-> ->]. by apply goes_ret. Qed.

Lemma goes_set_loop vlen n : 0 <= n -> 0 <= vlen <= 4096 -> goes (set_loop w g vlen n) (makes n).
Proof. intros Hn Hv. apply goes_loop; [exact Hn|]. intros i Hi. apply goes_op, goes_set; [apply masked_range | exact Hv]. Qed.

Lemma goes_populate vlen : 0 <= vlen <= 4096 -> goes (populate w g vlen) (makes NKEYS).
Proof. intros Hv. apply goes_loop; [done|]. intros i Hi. apply goes_op, goes_set; [exact Hi | exact Hv]. Qed.

(** The tactic for a sequence of steps, with the sum of their calls. *)
Ltac go := repeat first
  [ apply goes_printing | apply goes_clock | apply goes_flushing
  | apply goes_set_loop; [done | lia] | apply goes_populate; lia
  | eapply goes_then_any; [|intros ?; cbv zeta] ].

Lemma goes_bench_set vlen n label : 0 <= n -> 0 <= vlen <= 4096 -> goes (bench_set w g vlen n label) (makes n).
Proof.
  intros Hn Hv. eapply goes_weaken; [unfold bench_set; go|]. intros ? ? ? ->. lia.
Qed.

Lemma goes_get_loop n : 0 <= n -> goes (get_loop w g n) (fun hits m _ => m = n /\ 0 <= hits <= n).
Proof.
  intros Hn. eapply goes_weaken; [apply (goes_for (fun i hits => 0 <= hits <= i) 1); [|done]|].
  - intros i hits Hi Hh. eapply goes_bind; [apply goes_get, masked_range|]. intros e m o [-> ->]. apply goes_ret.
    split; [|done]. destruct (errno_is e VC_OK); lia.
  - cbn beta. intros hits m o (Hh & -> & _). lia.
Qed.

Lemma goes_bench_get_hot vlen n label : 0 <= n -> 0 <= vlen <= 4096 -> goes (bench_get_hot w g vlen n label) (makes (NKEYS + n)).
Proof.
  intros Hn Hv. eapply goes_weaken.
  - unfold bench_get_hot. go; [eapply goes_weaken; [apply goes_get_loop; exact Hn|]; by intros ? ? ? [-> _] |].
    by apply goes_ret.
  - intros ? ? ? ->. lia.
Qed.

Lemma goes_bench_get_zipf n label : 0 <= n -> goes (bench_get_zipf w g n label) (makes n).
Proof.
  intros Hn. eapply goes_weaken; [unfold bench_get_zipf; go; apply goes_loop; [exact Hn|]|].
  - intros i Hi. destruct (gg_zipf Hg _ (masked_range i)) as (r & Er & Hr). rewrite Er. exact (goes_op _ (goes_get r Hr)).
  - intros ? ? ? ->. lia.
Qed.

(** ** Threads *)

(** The argument of a thread of a group. *)
Record good_arg (a : mt_arg) : Prop := {
  ga_total : 0 < ma_total_threads a <= 16;
  ga_id : 0 <= ma_thread_id a < ma_total_threads a;
  ga_iters : 0 <= ma_iters a <= 2 ^ 30;
  ga_vlen : 0 <= ma_vlen a <= 4096
}.

(** The rounds a thread still has to do. *)
Definition rounds_left (t : mt_thread) : Z :=
  match th_phase t with
  | Ready => ma_iters (th_arg t)
  | Looping _ i _ => ma_iters (th_arg t) - i
  | Finished => 0
  end.

Definition steps_left (t : mt_thread) : Z :=
  match th_phase t with
  | Ready => ma_iters (th_arg t) + 2
  | Looping _ i _ => ma_iters (th_arg t) - i + 1
  | Finished => 0
  end.

Record good_thread (t : mt_thread) : Prop := {
  gt_arg : good_arg (th_arg t);
  gt_phase : match th_phase t with
             | Ready => True
             | Looping _ i ops => 0 <= i <= ma_iters (th_arg t) /\ ops = i
             | Finished => ma_ops_done (th_arg t) = ma_iters (th_arg t)
             end
}.

Lemma local_key_ok a i : good_arg a -> 0 <= i < ma_iters a -> exists key, local_key a i = Some key /\ 0 <= key < NKEYS.
Proof.
  intros [] Hi. unfold local_key. rewrite (proj2 (Z.eqb_neq _ _)) by lia.
  assert (Hs : 0 <= ma_thread_id a * Z.quot NKEYS (ma_total_threads a) <= NKEYS).
  { rewrite Z.quot_div_nonneg by (unfold NKEYS; lia). pose proof (Z.mul_div_le NKEYS (ma_total_threads a)).
    pose proof (Z.div_pos NKEYS (ma_total_threads a)). unfold NKEYS in *. nia. }
  replace (is_int _ && is_int _) with true by (unfold is_int, NKEYS in *; lia). eexists. split; [done|]. apply masked_range.
Qed.

Lemma goes_round a i : good_arg a -> 0 <= i < ma_iters a -> goes (mt_round w g a i) (fun _ n o => n = 1 /\ o = []).
Proof.
  intros Ha Hi. destruct (local_key_ok a i Ha Hi) as (key & E & Hk). unfold mt_round. rewrite E.
  change (goes (if Z.rem i 100 <? ma_read_pct a then bget w g key;; mret () else bset w g key (ma_vlen a);; mret ()) (fun _ n o => n = 1 /\ o = [])).
  destruct (_ <? _); apply goes_op; [by apply goes_get | apply goes_set; [exact Hk | apply Ha]].
Qed.

(** One step of a thread: a step less, and as many calls as rounds less. *)
Lemma goes_step t : good_thread t ->
  goes (mt_step w g t) (fun t' n o => good_thread t' /\ n = rounds_left t - rounds_left t' /\ o = [] /\
    ma_iters (th_arg t') = ma_iters (th_arg t) /\ (steps_left t' < steps_left t \/ th_phase t' = Finished)).
Proof.
  intros [Ha Hp]. destruct t as [a ph]. unfold mt_step, rounds_left, steps_left. cbn [th_arg th_phase] in *. destruct ph as [|t0 i ops|].
  - eapply goes_bind; [apply goes_now|]. intros t0 n o [-> ->]. apply goes_ret. cbn. pose proof (ga_iters _ Ha).
    split; [split; [done|]; cbn; lia|]. split; [lia|]. split; [done|]. split; [done|]. lia.
  - destruct Hp as [Hi ->]. pose proof (ga_iters _ Ha). destruct (Z.ltb_spec i (ma_iters a)).
    + eapply goes_bind; [apply goes_round; [exact Ha | lia]|]. intros _ n o [-> ->]. apply goes_ret. cbn. rewrite u64_id by lia.
      split; [split; [done|]; cbn; lia|]. split; [lia|]. split; [done|]. split; [done|]. lia.
    + eapply goes_bind; [apply goes_now|]. intros t1 n o [-> ->]. apply goes_ret. cbn.
      split; [split; [by destruct Ha|]; cbn; lia|]. split; [lia|]. split; [done|]. split; [done|]. by right.
  - apply goes_ret. split; [by split|]. split; [cbn; lia|]. split; [done|]. split; [done|]. by right.
Qed.

Lemma goes_finish fuel t : good_thread t -> steps_left t <= Z.of_nat fuel ->
  goes (finish w g fuel t) (fun t' n o => good_thread t' /\ n = rounds_left t /\ o = [] /\
    ma_iters (th_arg t') = ma_iters (th_arg t) /\ th_phase t' = Finished).
Proof.
  revert t. induction fuel as [|fuel IH]; intros t Ht Hf; cbn [finish].
  { assert (Hph : th_phase t = Finished).
    { destruct Ht as [Ha Hp]. pose proof (ga_iters _ Ha). unfold steps_left in Hf. destruct (th_phase t); [lia | lia | done]. }
    apply goes_ret. split; [done|]. unfold rounds_left. by rewrite Hph. }
  eapply goes_bind; [apply goes_step; exact Ht|]. intros t1 n o (H1 & -> & -> & Hi & Hs). cbn beta.
  eapply goes_weaken; [apply IH; [exact H1|]|].
  - destruct Hs as [Hs|Hs]; [lia|]. unfold steps_left. rewrite Hs. lia.
  - intros t' n o (H' & -> & -> & Hi' & Hp). split; [done|]. split; [lia|]. split; [done|]. split; [congruence | done].
Qed.

Abbreviation all_left ts := (total (rounds_left <$> ts)).
Abbreviation all_iters ts := ((fun t => ma_iters (th_arg t)) <$> ts).

Lemma total_insert (l : list Z) j x y : l !! j = Some x -> total (<[j := y]> l) = total l - x + y.
Proof.
  revert j. induction l as [|z l IH]; intros [|j] E; [done | done | |]; cbn in E.
  - injection E as ->. cbn. unfold total. lia.
  - specialize (IH _ E). change (z + total (<[j := y]> l) = z + total l - x + y). lia.
Qed.

Lemma goes_step_at j ts : Forall good_thread ts ->
  goes (step_at w g j ts) (fun ts' n o => Forall good_thread ts' /\ n = all_left ts - all_left ts' /\ o = [] /\ all_iters ts' = all_iters ts).
Proof.
  intros Hts. unfold step_at. destruct (ts !! j) as [t|] eqn:E; [|apply goes_ret; split; [done|]; split; [lia | done]].
  eapply goes_bind; [apply goes_step; exact (Forall_lookup_1 _ _ _ _ Hts E)|]. intros t' n o (H1 & -> & -> & Hi & _). apply goes_ret.
  split; [by apply Forall_insert|]. rewrite list_fmap_insert, (total_insert _ j (rounds_left t)) by (by rewrite list_lookup_fmap, E).
  split; [lia|]. split; [done|]. rewrite list_fmap_insert. apply list_insert_id. by rewrite list_lookup_fmap, E, Hi.
Qed.

Lemma goes_schedule sched : forall ts, Forall good_thread ts ->
  goes (run_schedule w g sched ts) (fun ts' n o => Forall good_thread ts' /\ n = all_left ts - all_left ts' /\ o = [] /\ all_iters ts' = all_iters ts).
Proof.
  induction sched as [|j sched IH]; intros ts Hts; cbn [run_schedule]; [apply goes_ret; split; [done|]; split; [lia | done]|].
  eapply goes_bind; [apply goes_step_at; exact Hts|]. intros ts1 n o (H1 & -> & -> & Hi). cbn beta.
  eapply goes_weaken; [apply IH; exact H1|]. intros ts' n o (H' & -> & -> & Hi'). split; [done|]. split; [lia|]. split; [done | congruence].
Qed.

(** A thread that has come to its end. *)
Definition ended (t : mt_thread) : Prop := good_thread t /\ th_phase t = Finished.

Lemma steps_bound t : good_thread t -> steps_left t <= ma_iters (th_arg t) + 2.
Proof. intros [Ha Hp]. pose proof (ga_iters _ Ha). unfold steps_left. destruct (th_phase t); lia. Qed.

Lemma goes_join ts : Forall good_thread ts ->
  goes (join_all w g ts) (fun ts' n o => Forall ended ts' /\ n = all_left ts /\ o = [] /\ all_iters ts' = all_iters ts).
Proof.
  induction ts as [|t ts IH]; intros Hts; cbn [join_all]; [by apply goes_ret|]. apply Forall_cons in Hts as [Ht Hts].
  pose proof (steps_bound t Ht). pose proof (ga_iters _ (gt_arg _ Ht)).
  eapply goes_bind; [apply goes_finish; [exact Ht | lia]|]. intros t' n o (H1 & -> & -> & Hi & Hp). cbn beta.
  eapply goes_bind; [apply IH; exact Hts|]. intros ts' n o (H2 & -> & -> & Hi'). cbn beta. apply goes_ret.
  split; [by constructor|]. split; [cbn; unfold total; lia|]. split; [done|]. cbn. by rewrite Hi, Hi'.
Qed.

(** The threads of a group are created. *)
Context (Hcreate : forall n i, w_create w n i = true).

Lemma goes_group args : Forall good_arg args ->
  goes (run_group w g args) (fun ts n o => Forall ended ts /\ n = total (ma_iters <$> args) /\ o = [] /\ all_iters ts = ma_iters <$> args).
Proof.
  intros Hargs st Hst. unfold run_group.
  replace (forallb _ _) with true by (symmetry; apply forallb_forall; intros; apply Hcreate).
  set (ts := (fun a => Thread a Ready) <$> args).
  assert (Hts : Forall good_thread ts).
  { apply Forall_fmap. eapply Forall_impl; [exact Hargs|]. intros a Ha. by split. }
  assert (El : rounds_left <$> ts = ma_iters <$> args) by (unfold ts; by rewrite <- list_fmap_compose).
  assert (Ei : all_iters ts = ma_iters <$> args) by (unfold ts; by rewrite <- list_fmap_compose).
  assert (Hgo : goes (ts ← run_schedule w g (w_sched w (bs_groups st)) ts; join_all w g ts)
    (fun ts n o => Forall ended ts /\ n = total (ma_iters <$> args) /\ o = [] /\ all_iters ts = ma_iters <$> args)).
  { eapply goes_bind; [apply goes_schedule; exact Hts|]. intros ts1 n o (H1 & -> & -> & Hi). cbn beta.
    eapply goes_weaken; [apply goes_join; exact H1|]. intros ts2 n o (H2 & -> & -> & Hi'). rewrite El. split; [done|].
    split; [lia|]. split; [done | congruence]. }
  set (st1 := BState _ _ _ _ _). destruct (Hgo st1 Hst) as (x & st' & n & o & E & H' & Hn & Ho & HQ).
  exists x, st', n, o. split; [exact E|]. split; [exact H'|]. split; [exact Hn|]. split; [exact Ho | exact HQ].
Qed.

Lemma total_nonneg l : Forall (fun n => 0 <= n) l -> 0 <= total l.
Proof. induction 1; cbn; unfold total in *; lia. Qed.

Lemma totals_of ts acc mx : Forall ended ts -> 0 <= acc -> acc + total (all_iters ts) < 2 ^ 64 ->
  (group_totals ts acc mx).1 = acc + total (all_iters ts).
Proof.
  revert acc mx. induction ts as [|t ts IH]; intros acc mx Hts Ha Hlt; cbn [group_totals]; [cbn; lia|].
  apply Forall_cons in Hts as [[[Harg Hp] Hph] Hts]. rewrite Hph in Hp. pose proof (ga_iters _ Harg). cbn [fmap list_fmap total foldr] in Hlt |- *.
  fold (total (all_iters ts)) in Hlt |- *. assert (0 <= total (all_iters ts)).
  { apply total_nonneg, Forall_fmap. eapply Forall_impl; [exact Hts|]. intros t' [[Ha' _] _]. apply (ga_iters _ Ha'). }
  rewrite Hp, u64_id by lia. rewrite IH; [lia | exact Hts | lia | lia].
Qed.

Lemma total_replicate n x : total (replicate n x) = Z.of_nat n * x.
Proof. induction n as [|n IH]; [done|]. cbn [replicate total foldr]. unfold total in IH. rewrite IH. lia. Qed.

Lemma group_args_good nth pct vlen iters : 0 < nth <= 16 -> 0 <= vlen <= 4096 -> 0 <= iters <= 2 ^ 30 ->
  Forall good_arg (group_args nth pct vlen iters) /\ ma_iters <$> group_args nth pct vlen iters = replicate (Z.to_nat nth) iters.
Proof.
  intros Hn Hv Hi. unfold group_args. split.
  - apply Forall_fmap, Forall_forall. intros i Hin. apply elem_of_seqZ in Hin. split; cbn; lia.
  - rewrite <- list_fmap_compose. rewrite <- (length_seqZ 0 nth). generalize (seqZ 0 nth). intros l.
    induction l as [|x l IH]; [done|]. cbn. by rewrite IH.
Qed.

Lemma goes_bench_mt nth pct vlen iters label : 0 < nth <= 16 -> 0 <= vlen <= 4096 -> 0 <= iters <= 2 ^ 30 ->
  goes (bench_mt w g nth pct vlen iters label)
    (fun _ n o => n = nth * iters /\ exists max_ns, o = row_text label (nth * iters) max_ns).
Proof.
  intros Hn Hv Hi. unfold bench_mt. rewrite (proj2 (Z.ltb_ge 16 nth)) by lia. destruct (group_args_good nth pct vlen iters Hn Hv Hi) as [Hga Hit].
  eapply goes_bind; [apply goes_group; exact Hga|]. intros ts n o (Hts & -> & -> & Hall). rewrite Hit in Hall |- *.
  pose proof (totals_of ts 0 0 Hts) as Ht. rewrite Hall, total_replicate, Z2Nat.id in Ht by lia.
  destruct (group_totals ts 0 0) as [tot mx]. cbn [fst] in Ht.
  assert (0 <= nth * iters <= 16 * 2 ^ 30) by nia. rewrite Ht by lia. eapply goes_weaken; [apply goes_print|].
  intros _ n o [-> ->]. rewrite total_replicate, Z2Nat.id by lia. split; [lia|]. by exists mx.
Qed.

(** ** The whole run *)

Lemma goes_mt nth pct vlen iters label : 0 < nth <= 16 -> 0 <= vlen <= 4096 -> 0 <= iters <= 2 ^ 30 ->
  goes (bench_mt w g nth pct vlen iters label) (makes (nth * iters)).
Proof. intros. eapply goes_weaken; [by apply goes_bench_mt|]. by intros ? ? ? [-> _]. Qed.

Lemma goes_four kind sp pct : goes (four_groups w g kind sp pct) (makes (20 * MT)).
Proof.
  eapply goes_weaken; [unfold four_groups; repeat (eapply goes_then; [apply goes_mt; unfold MT; lia|]); apply goes_mt; unfold MT; lia|].
  intros ? ? ? ->. lia.
Qed.

Lemma goes_gets n : 0 <= n -> goes (plain_gets w g n) (makes n).
Proof. intros Hn. apply goes_loop; [exact Hn|]. intros i Hi. apply goes_op, goes_get, masked_range. Qed.

Lemma goes_last : goes (run_group w g (group_args 8 100 8 MT)) (makes (8 * MT)).
Proof.
  destruct (group_args_good 8 100 8 MT) as [Hga Hit]; [lia | lia | unfold MT; lia|].
  eapply goes_weaken; [apply goes_group; exact Hga|]. intros ts n o (_ & -> & _). rewrite Hit, total_replicate. reflexivity.
Qed.

(** The operations of all measurements. *)
Definition all_calls : Z := 50000 + 5 * ST + 2 * (ST / 2) + 2 * (ST / 8) + 5 * NKEYS + 68 * MT + 4.

Ltac goes_by_name :=
  lazymatch goal with
  | |- goes (_ ≫= _) _ => eapply goes_then_any; [|intros ?; cbv zeta]
  | |- goes (bprint _) _ => apply goes_printing
  | |- goes (ns_now _) _ => apply goes_clock
  | |- goes bflush _ => apply goes_flushing
  | |- goes (set_loop _ _ _ _) _ => apply goes_set_loop; [done | lia]
  | |- goes (populate _ _ _) _ => apply goes_populate; lia
  | |- goes (plain_gets _ _ _) _ => apply goes_gets; done
  | |- goes (four_groups _ _ _ _ _) _ => apply goes_four
  | |- goes (run_group _ _ _) _ => apply goes_last
  | |- goes (bench_set _ _ _ _ _) _ => apply goes_bench_set; [done | lia]
  | |- goes (bench_get_hot _ _ _ _ _) _ => apply goes_bench_get_hot; [done | lia]
  | |- goes (bench_get_zipf _ _ _ _) _ => apply goes_bench_get_zipf; done
  end.

Lemma goes_measure : goes (measure w g) (makes all_calls).
Proof.
  eapply goes_weaken.
  - unfold measure, hdr. repeat goes_by_name.
    destruct (group_totals _ _ _). by apply goes_ret.
  - intros ? ? ? ->. reflexivity.
Qed.
End Run.

(** ** A thread that runs alone *)

Lemma finish_loop w g a t0 n : forall i ops st, i + Z.of_nat n = ma_iters a ->
  finish w g (n + 1) (Thread a (Looping t0 i ops)) st =
  (ops ← for_loop n i ops (fun i ops => mt_round w g a i;; mret (u64 (ops + 1)));
   t1 ← ns_now w; mret (Thread (mt_done a (u64 (t1 - t0)) ops) Finished)) st.
Proof.
  induction n as [|n IH]; intros i ops st Hi; cbn [finish for_loop Nat.add]; unfold mt_step; cbn [th_arg th_phase].
  - rewrite (proj2 (Z.ltb_ge i _)) by lia. unfold mbind, bench_bind, mret, bench_ret. by destruct (ns_now w st) as [[t1 st1]|].
  - rewrite (proj2 (Z.ltb_lt i _)) by lia. unfold mbind, bench_bind, mret, bench_ret at 1.
    destruct (mt_round w g a i st) as [[[] st1]|]; [|done]. rewrite IH by lia. done.
Qed.

(** The thread of a group does, step by step, what the function [mt_worker] does. *)
Lemma thread_is_worker w g a st : 0 <= ma_iters a ->
  finish w g (Z.to_nat (ma_iters a) + 2) (Thread a Ready) st = (a ← mt_worker w g a; mret (Thread a Finished)) st.
Proof.
  intros Ha. replace (Z.to_nat (ma_iters a) + 2)%nat with (S (Z.to_nat (ma_iters a) + 1)) by lia.
  cbn [finish]. unfold mt_step at 1. cbn [th_arg th_phase]. unfold mt_worker. unfold mbind, bench_bind, mret, bench_ret at 1.
  destruct (ns_now w st) as [[t0 st1]|]; [|done]. rewrite finish_loop by lia. unfold mbind, bench_bind, mret, bench_ret.
  destruct (for_loop _ _ _ _ st1) as [[ops st2]|]; [|done]. by destruct (ns_now w st2) as [[t1 st3]|].
Qed.

(** ** The program *)

Lemma runs_range r counts x : x ∈ runs r counts -> r <= x < r + Z.of_nat (length counts).
Proof.
  revert r. induction counts as [|n counts IH]; intros r; [by intros ?%elem_of_nil|]. rewrite runs_cons, elem_of_app. cbn [length].
  intros [H|H]; [apply elem_of_replicate in H; lia | apply IH in H; lia].
Qed.

Lemma main_globals : exists zipf, build_zipf = Some zipf /\ good_globals (Globals gen_keys.1 gen_keys.2 zipf).
Proof.
  destruct build_zipf_eq as (counts & tbl & _ & Hl & _ & E & Hlen & Et). exists tbl. split; [exact E|]. split; [reflexivity | |].
  - cbn [g_vals gen_keys snd]. rewrite length_fmap, length_seqZ. reflexivity.
  - intros i Hi. cbn [zipf_table]. destruct (lookup_lt_is_Some_2 tbl (Z.to_nat i)) as [r Hr]; [lia|]. exists r. split; [exact Hr|].
    apply list_elem_of_lookup_2 in Hr. rewrite Et in Hr. apply elem_of_app in Hr as [Hr|Hr].
    + apply runs_range in Hr. rewrite Hl in Hr. unfold NKEYS. lia.
    + apply elem_of_replicate in Hr as [-> _]. unfold NKEYS. lia.
Qed.

(** Printing leaves the cache alone. *)
Definition only_prints (m : bench ()) : Prop := forall st, exists st', m st = Some ((), st') /\ bs_cache st' = bs_cache st.

Lemma bprint_only s : only_prints (bprint s).
Proof. intros st. eexists. split; reflexivity. Qed.

Lemma then_only s (f : bench ()) : only_prints f -> only_prints (bprint s;; f).
Proof. intros Hf st. unfold mbind, bench_bind. cbn [bprint]. by destruct (Hf (BState (bs_cache st) (bs_out st ++ s) (bs_calls st) (bs_ticks st) (bs_groups st))) as (st' & E & Hc); exists st'. Qed.

Lemma comparison_only a b m : only_prints (print_comparison a b m).
Proof. unfold print_comparison. repeat (apply then_only; cbv zeta). apply bprint_only. Qed.

Lemma epilogue a b m st :
  exists st', (bprint [LF];; bprint (vc_stats_print hit_rate (bs_cache st));; print_comparison a b m) st = Some ((), st') /\
    bs_cache st' = bs_cache st.
Proof. apply (then_only [LF]), then_only, comparison_only. Qed.

Lemma obind_some {X Y} (m : option X) x (f : X -> option Y) : m = Some x -> m ≫= f = f x.
Proof. by intros ->. Qed.

Lemma main_ends w arena_bytes ce h zipf c h' a b m st h2 :
  build_zipf = Some zipf -> vc_create arena_bytes ce (2 * 1024 * 1024 * 1024) None 32768 h = Some (Some c, h') ->
  measure w (Globals gen_keys.1 gen_keys.2 zipf) (BState c bench_banner 0 0 0) = Some ((a, b, m), st) ->
  vc_destroy (bs_cache st) = Some h2 -> exists out, bench_main w arena_bytes ce h = Some (out, 0).
Proof.
  intros Ez Ec Em Ed. destruct (epilogue a b m st) as (st' & Ep & Ecache). exists (bs_out st').
  unfold bench_main. rewrite (obind_some _ _ _ Ez). cbv beta zeta. rewrite (obind_some _ _ _ Ec). cbv beta iota.
  rewrite (obind_some _ _ _ Em). cbv beta iota. rewrite (obind_some _ _ _ Ep). cbv beta iota. rewrite Ecache.
  rewrite (obind_some _ _ _ Ed). reflexivity.
Qed.

(** C32: the benchmark comes to its end.  When [vc_create] gets its memory and the threads are
    created, then whatever the clocks answer and however the threads of a group take turns,
    each turn being one whole operation on the cache, all measurements come to their end, with
    51792884 operations on the cache, the cache is destroyed and the exit code is 0.  What
    threads do to each other in the middle of an operation is the matter of [SeqLock.v] and
    [Treiber.v]. *)
Theorem benchmark_completes w arena_bytes ce B h :
  granted arena_bytes ce B -> (forall n i, w_create w n i = true) ->
  exists c h' zipf r st out,
    vc_create arena_bytes ce (2 * 1024 * 1024 * 1024) None 32768 h = Some (Some c, h') /\ build_zipf = Some zipf /\
    measure w (Globals gen_keys.1 gen_keys.2 zipf) (BState c bench_banner 0 0 0) = Some (r, st) /\ bs_calls st = 51792884 /\
    bench_main w arena_bytes ce h = Some (out, 0).
Proof.
  intros He Hcr. destruct main_globals as (zipf & Ez & Hg).
  destruct (create_ok arena_bytes ce (ba_arenas B) (2 * 1024 * 1024 * 1024) 32768 h (gr_env _ _ _ He)) as (c & h' & k & Ec & Hok & _ & _); [lia|].
  pose proof (create_alive _ _ _ _ _ _ _ _ _ He Ec) as Ha.
  destruct (goes_measure k B w _ Hg Hcr (BState c bench_banner 0 0 0)) as (r & st & n & o & Em & Hst & Hn & _ & ->); [split; [exact (cok_wf _ _ Hok) | exact Ha]|].
  destruct r as [[a b] m].
  destruct (alive_destroyed B k (bs_cache st) (gr_base _ _ _ He) (proj1 Hst) (proj2 Hst)) as (h2 & Ed & _).
  destruct (main_ends _ _ _ _ _ _ _ _ _ _ _ _ Ez Ec Em Ed) as [out Eo].
  exists c, h', zipf, (a, b, m), st, out. split; [exact Ec|]. split; [exact Ez|]. split; [exact Em|]. split; [exact Hn | exact Eo].
Qed.

Definition idle_world : bench_world := World (fun _ => clock 0) (fun _ => (0, 0)) (fun _ _ => true) (fun _ => [1; 0; 1]%nat).

Lemma benchmark_completes_witness : exists out, bench_main idle_world 64 mini_env empty_heap = Some (out, 0).
Proof.
  destruct (benchmark_completes idle_world 64 mini_env mini_base empty_heap) as (c & h' & zipf & r & st & out & _ & _ & _ & _ & E);
    [apply mini_granted | reflexivity |].
  exists out. exact E.
Defined.
