(* ===== verification/BenchHits.v ===== *)
(** * What the hot benchmark hits

    The benchmark labels its reads of 256-byte and 4096-byte values [100% hit].  The keys it
    can find are bounded by the blocks of one slab arena. *)

From S2P Require Import Prelude Hash Slab Entry Shard Wal Cache CacheInv CacheSafe CacheSpec CacheThm CacheLife Capacity Proto ProtoSpec Double Smoke Bench BenchThm BenchRun.

(** ** A hit has an entry *)

Lemma hit_entry k c ev ky o c' :
  cache_wf k c -> Z.of_nat (length ky) < 2 ^ 32 -> vc_get ev c ky = Some (VC_OK, o, c') ->
  exists e, e ∈ all_lives (c_shards c) /\ key_bytes (h_bytes (c_heap c)) e = ky.
Proof.
  intros Hwf Hmax E. destruct (lookup_lt_is_Some_2 (c_shards c) (home ky)) as [s Hs].
  { rewrite (cwf_len _ _ Hwf). apply home_lt. }
  rewrite (vc_get_eq k c ev ky s Hwf Hs) in E. unfold get_answer in E. destruct (cwf_shards _ _ Hwf _ _ Hs) as [Hc _].
  destruct (shard_find _ (ev_mono ev) _ _ _ _) as [j|] eqn:Ef; [|done].
  destruct (find_live k (cwf_k _ _ Hwf) _ _ _ _ _ _ _ _ Hc Ef) as (e & He & Hl & Hm & _).
  exists (core e). split; [apply list_elem_of_bind; exists s; split; [by eapply lives_elem | by eapply list_elem_of_lookup_2]|].
  unfold entry_matches in Hm. zreflect. match goal with H : bool_decide (key_bytes _ _ = _) = true |- _ => apply bool_decide_eq_true in H; rename H into Hkey end.
  rewrite key_bytes_core, Hkey. unfold klen32. rewrite u32_id, Nat2Z.id by lia. apply firstn_all.
Qed.

Lemma get_lives k c ev ky err o c' : cache_wf k c -> vc_get ev c ky = Some (err, o, c') ->
  cache_wf k c' /\ c_heap c' = c_heap c /\ all_lives (c_shards c') ≡ₚ all_lives (c_shards c).
Proof.
  intros Hwf E. destruct (lookup_lt_is_Some_2 (c_shards c) (home ky)) as [s Hs].
  { rewrite (cwf_len _ _ Hwf). apply home_lt. }
  rewrite (vc_get_eq k c ev ky s Hwf Hs) in E. destruct (get_answer_spec k c ev ky s Hwf Hs) as (o' & s' & Ea & H1 & H2 & _).
  rewrite Ea in E. cbn [mbind option_bind] in E. apply some_pair in E as [_ <-].
  destruct (update_wf k c _ s s' Hwf Hs H1 H2) as [H3 H4]. split; [exact H3|]. split; [reflexivity | exact H4].
Qed.

Lemma bind_inv {X Y} (m : bench X) (f : X -> bench Y) st y st' :
  (m ≫= f) st = Some (y, st') -> exists x st1, m st = Some (x, st1) /\ f x st1 = Some (y, st').
Proof. unfold mbind, bench_bind. destruct (m st) as [[x st1]|]; [|done]. eauto. Qed.

Section Hits.
Context (k : Z) (R : list region) (w : bench_world) (g : globals) (Hg : good_globals g).

(** Every entry has a value of [v] bytes in a slab block. *)
Definition all_like (v : Z) (c : vc_cache) : Prop :=
  Forall (fun e => flag VC_EFLAG_VAL_SLAB e = true /\ e_val_len e = v) (all_lives (c_shards c)).

Definition slab_only (v : Z) (c : vc_cache) : Prop := cache_wf k c /\ blocks_in R c /\ all_like v c.

(** A loop body that leaves a property of the cache alone. *)
Definition holds_on {X} (P : vc_cache -> Prop) (m : bench X) : Prop :=
  forall st x st', P (bs_cache st) -> m st = Some (x, st') -> P (bs_cache st').

Lemma holds_bind {X Y} P (m : bench X) (f : X -> bench Y) : holds_on P m -> (forall x, holds_on P (f x)) -> holds_on P (m ≫= f).
Proof.
  intros Hm Hf st y st' HP E. apply bind_inv in E as (x & st1 & E1 & E). eapply Hf; [|exact E]. by eapply Hm.
Qed.

Lemma holds_ret {X} P (x : X) : holds_on P (mret x).
Proof. intros st y st' HP E. by injection E as <- <-. Qed.

Lemma holds_loop {X} P (body : Z -> X -> bench X) n : (forall i x, holds_on P (body i x)) -> forall i a, holds_on P (for_loop n i a body).
Proof. intros Hb. induction n as [|n IH]; intros i a; cbn [for_loop]; [apply holds_ret|]. apply holds_bind; [apply Hb | intros x; apply IH]. Qed.

Lemma holds_now P : holds_on P (ns_now w).
Proof. intros st x st' HP E. unfold ns_now in E. destruct (w_clock w _). by injection E as _ <-. Qed.

Lemma holds_print P s : holds_on P (bprint s).
Proof. intros st x st' HP E. by injection E as _ <-. Qed.

Lemma key_at_length i ky : key_at g i = Some ky -> length ky = 12%nat.
Proof.
  intros E. assert (Hi : 0 <= i < NKEYS).
  { unfold key_at in E. destruct (Z.ltb_spec i 0); [done|]. destruct (g_keys g !! _) as [row|] eqn:Er; [|done].
    apply lookup_lt_Some in Er. rewrite (gg_keys _ Hg) in Er. pose proof gen_keys_length. lia. }
  rewrite (key_at_gen g i (gg_keys _ Hg) Hi) in E. injection E as <-. by apply bench_key_length.
Qed.

(** Setting a value that does not fit inline. *)
Lemma holds_set v i : 20 < v <= 4096 -> holds_on (slab_only v) (bset w g i v).
Proof.
  intros Hv st err st' (Hwf & Hb & Hl) E. unfold bset in E. destruct (key_at g i) as [ky|] eqn:Ek; [|done]. cbn [mbind option_bind] in E.
  pose proof (key_at_length _ _ Ek) as Hk. unfold val_of in E. rewrite (gg_vals _ Hg), (proj2 (Z.ltb_ge _ _)) in E by lia. cbn [mbind option_bind] in E.
  set (val := take (Z.to_nat v) (g_vals g)) in E. assert (Hvl : Z.of_nat (length val) = v) by (unfold val; rewrite length_take, (gg_vals _ Hg); lia).
  rewrite set_slab_env in E by lia. set (ev := no_memory _) in E.
  assert (Hf : env_fresh (bs_cache st) ev ky val) by (intros F HF; constructor; done).
  destruct (vc_set _ _ _ _ _) as [[e c1]|] eqn:Es; [|done]. cbn [mbind option_bind] in E. injection E as _ <-. cbn [set_cache bs_cache].
  destruct (exec_safe k ev (OSet ky val 0) (bs_cache st) Hwf) as (c2 & E2 & Hwf2 & _);
    [by intros ? ? ? [= <- <- _] | right; unfold set_logged, VC_WAL_RING_SIZE; rewrite u32_id; lia |].
  cbn [exec] in E2. rewrite Es in E2. injection E2 as <-.
  split; [exact Hwf2|]. split; [eapply vc_set_blocks; [exact Hwf | exact Hf | lia | exact Hb | exact Es]|].
  unfold all_like in *. destruct (vc_set_cases k _ _ _ _ _ _ _ Hwf Hf Es) as [(_ & _ & ->)|(Hky & Hval & Hmax & r & Eb & Hr)]; [exact Hl|].
  destruct r as [[h1 sl1]|[[[ne h1] sl1] grow]]; [destruct Hr as (_ & _ & ->); exact Hl|].
  destruct Hr as (s & s2 & L & gone & _ & HL & HL' & _ & _ & _ & HP). rewrite HL in Hl. apply Forall_app in Hl as [Hl1 Hl2].
  rewrite HL'. apply Forall_app. split; [|exact Hl2].
  assert (Hne : flag VC_EFLAG_VAL_SLAB (core ne) = true /\ e_val_len (core ne) = v).
  { unfold build_entry in Eb. cbv zeta in Eb. 
    rewrite (proj2 (Z.leb_gt _ 32)) in Eb by lia. cbn [andb] in Eb. change (slab_class_size (Z.of_nat VC_SLAB_CLASSES - 1)) with (2 ^ 21) in Eb.
    rewrite (proj2 (Z.leb_le _ (2 ^ 21))) in Eb by lia. destruct (slab_alloc _ _ _) as [[[vb|] cls] sl2]; [|done].
    rewrite (proj2 (Z.leb_le _ (32 - 8))) in Eb by lia. injection Eb as <- _ _ _. split; [reflexivity|]. cbn. unfold stored_len.
    rewrite (proj2 (Z.ltb_ge _ _)) by lia. exact Hvl. }
  assert (Hall : Forall (fun e => flag VC_EFLAG_VAL_SLAB e = true /\ e_val_len e = v) (core ne :: lives (s_table s))) by (by constructor).
  rewrite HP in Hall. by apply Forall_app in Hall as [_ ?].
Qed.

(** ** Counting hits *)

(** Hits so far have different entries of the list [L]. *)
Definition found (m : bytemap) (L : list vc_entry) (i hits : Z) : Prop :=
  exists es, NoDup es /\ es ⊆ L /\ Z.of_nat (length es) = hits /\
    forall e, e ∈ es -> exists j, 0 <= j < i /\ key_bytes m e = bench_key j.

Lemma found_bound m L i hits : found m L i hits -> hits <= Z.of_nat (length L).
Proof. intros (es & Hnd & Hs & <- & _). apply Nat2Z.inj_le, submseteq_length, NoDup_submseteq; [exact Hnd | exact Hs]. Qed.

Lemma found_more m L i hits e : found m L i hits -> 0 <= i < NKEYS -> e ∈ L -> key_bytes m e = bench_key i -> found m L (i + 1) (hits + 1).
Proof.
  intros (es & Hnd & Hs & Hl & Hk) Hi He Hke. exists (e :: es). split; [|split; [|split]].
  - constructor; [|exact Hnd]. intros Hin. destruct (Hk e Hin) as (j & Hj & Ej). rewrite Hke in Ej.
    apply bench_key_inj in Ej; lia.
  - intros x Hx. apply elem_of_cons in Hx as [->|Hx]; [exact He | by apply Hs].
  - cbn [length]. lia.
  - intros x Hx. apply elem_of_cons in Hx as [->|Hx]; [exists i; split; [lia | exact Hke]|]. destruct (Hk x Hx) as (j & Hj & Ej). exists j. split; [lia | exact Ej].
Qed.

Lemma found_skip m L i hits : found m L i hits -> found m L (i + 1) hits.
Proof. intros (es & Hnd & Hs & Hl & Hk). exists es. split; [done|]. split; [done|]. split; [done|]. intros e He. destruct (Hk e He) as (j & Hj & Ej). exists j. split; [lia | done]. Qed.

Lemma masked_id i : 0 <= i < NKEYS -> masked i = i.
Proof. intros Hi. unfold masked. change (NKEYS - 1) with (2 ^ 20 - 1). rewrite land_mask by lia. by apply Z.mod_small. Qed.

Lemma get_loop_found m L n : forall i hits st hits' st',
  0 <= i -> i + Z.of_nat n <= NKEYS -> cache_wf k (bs_cache st) -> h_bytes (c_heap (bs_cache st)) = m ->
  all_lives (c_shards (bs_cache st)) ≡ₚ L -> found m L i hits ->
  for_loop n i hits (fun i hits => e ← bget w g (masked i); mret (if errno_is e VC_OK then hits + 1 else hits)) st = Some (hits', st') ->
  found m L (i + Z.of_nat n) hits'.
Proof.
  induction n as [|n IH]; intros i hits st hits' st' Hi Hn Hwf Hm HL Hf E; cbn [for_loop] in E.
  { injection E as <- _. by rewrite Z.add_0_r. }
  apply bind_inv in E as (h1 & st1 & Eb & E). apply bind_inv in Eb as (err & st2 & Eb & Er). injection Er as <- <-.
  unfold bget in Eb. rewrite masked_id, (key_at_gen g i (gg_keys _ Hg)) in Eb by lia. cbn [mbind option_bind] in Eb.
  destruct (vc_get _ _ _) as [[[err1 o] c1]|] eqn:Eg; [|done]. cbn [mbind option_bind] in Eb. injection Eb as <- <-.
  destruct (get_lives k _ _ _ _ _ _ Hwf Eg) as (Hwf1 & Hh1 & HL1). replace (i + Z.of_nat (S n)) with (i + 1 + Z.of_nat n) by lia.
  eapply (IH (i + 1) _ (set_cache c1 st)); [lia | lia | exact Hwf1 | cbn; rewrite Hh1; exact Hm | cbn; rewrite HL1; exact HL | | exact E].
  unfold errno_is. case_bool_decide as He; [|by apply found_skip]. subst err1.
  pose proof (bench_key_length i) as Hkl. destruct (hit_entry k _ _ _ _ _ Hwf ltac:(rewrite Hkl by lia; lia) Eg) as (e & Hin & Hke).
  rewrite HL in Hin. rewrite Hm in Hke. apply (found_more m L i hits e Hf); [lia | exact Hin | exact Hke].
Qed.

(** ** The measurement *)

Lemma holds_populate v : 20 < v <= 4096 -> holds_on (slab_only v) (populate w g v).
Proof.
  intros Hv. unfold populate. generalize (Z.to_nat NKEYS). intros N. apply holds_loop. intros i x.
  apply holds_bind; [by apply holds_set | intros ?; apply holds_ret].
Qed.

#[local] Strategy expand [bench_get_hot bench_set].

Lemma hot_bound v n label st hits st' :
  20 < v <= 4096 -> 0 <= n <= NKEYS -> slab_only v (bs_cache st) -> bench_get_hot w g v n label st = Some (hits, st') ->
  exists c, slab_only v c /\ hits <= Z.of_nat (length (all_lives (c_shards c))).
Proof.
  intros Hv Hn Hst E. unfold bench_get_hot in E. apply bind_inv in E as (u & st1 & E1 & E).
  pose proof (holds_populate v Hv _ _ _ Hst E1) as H1.
  apply bind_inv in E as (t0 & st2 & E2 & E). apply bind_inv in E as (h & st3 & E3 & E).
  apply bind_inv in E as (t1 & st4 & E4 & E). apply bind_inv in E as (u5 & st5 & E5 & E). injection E as -> _.
  pose proof (holds_now (slab_only v) _ _ _ H1 E2) as H2. exists (bs_cache st2). split; [exact H2|].
  eapply found_bound. eapply (get_loop_found _ _ (Z.to_nat n) 0 0 st2);
    [lia | lia | apply H2 | reflexivity | reflexivity | | exact E3].
  exists []. split; [constructor|]. split; [by intros x ?%elem_of_nil|]. split; [done|]. by intros e ?%elem_of_nil.
Qed.
End Hits.

Lemma all_in_class k R v c : slab_only k R v c -> all_lives (c_shards c) = values_in_class (slab_class_for v) c.
Proof.
  intros (_ & _ & Hl). unfold values_in_class. symmetry. unfold all_like in Hl.
  induction (all_lives (c_shards c)) as [|e L IH]; [done|]. apply Forall_cons in Hl as [[Hf Hv] Hl].
  rewrite filter_cons_True by (by rewrite Hv). f_equal. by apply IH.
Qed.

(** The reads labelled [100% hit].  After [vc_flush], with arenas of [arena_bytes] bytes,
    whatever was set before and whatever the clocks answer: of the [n] keys that
    [bench_get_hot] reads, not more are found than one arena has blocks for values of [vlen]
    bytes.  With the 16 MB of the source these are 65536 of 1000000 for 256 bytes, and 4096
    of 250000 for 4096 bytes. *)
Theorem hot_hits_bounded w g k arena_bytes arenas vlen n l1 l2 st hits st' :
  good_globals g -> (length arenas <= 16)%nat -> 0 <= arena_bytes -> 20 < vlen <= 4096 -> 0 <= n <= NKEYS ->
  cache_wf k (bs_cache st) -> blocks_in (free_regions (init_free arena_bytes arenas 0)) (bs_cache st) ->
  (bflush;; bench_set w g vlen n l1;; bench_get_hot w g vlen n l2) st = Some (hits, st') ->
  hits <= arena_bytes / slab_class_size (slab_class_for vlen).
Proof.
  intros Hg Hl Hb Hv Hn Hwf Hbl E. set (R := free_regions _) in Hbl.
  apply bind_inv in E as (u1 & st1 & E1 & E). apply bind_inv in E as (u2 & st2 & E2 & E).
  assert (H1 : slab_only k R vlen (bs_cache st1)).
  { unfold bflush in E1. destruct (vc_flush (bs_cache st)) as [c1|] eqn:Ef; [|done]. cbn [mbind option_bind] in E1. injection E1 as _ <-.
    destruct (vc_flush_spec k _ Hwf) as (c2 & Ef' & Hok & _). rewrite Ef in Ef'. injection Ef' as <-.
    destruct (vc_flush_blocks R k _ _ Hwf Hbl Ef) as [Hb1 Hno]. split; [exact (cok_wf _ _ Hok)|]. split; [exact Hb1|].
    unfold all_like. change (bs_cache (set_cache c1 st)) with c1. rewrite Hno. constructor. }
  assert (H2 : slab_only k R vlen (bs_cache st2)).
  { unfold bench_set in E2. apply bind_inv in E2 as (t0 & st3 & E3 & E2). apply bind_inv in E2 as (u & st4 & E4 & E2).
    apply bind_inv in E2 as (t1 & st5 & E5 & E2). eapply (holds_print (slab_only k R vlen)); [|exact E2].
    eapply (holds_now w (slab_only k R vlen)); [|exact E5]. eapply (holds_loop (slab_only k R vlen)); [| |exact E4].
    - intros i x. apply holds_bind; [by apply holds_set | intros ?; apply holds_ret].
    - by eapply (holds_now w (slab_only k R vlen)); [|exact E3]. }
  destruct (hot_bound k R w g Hg vlen n l2 st2 hits st' Hv Hn H2 E) as (c & Hc & Hh).
  rewrite (all_in_class _ _ _ _ Hc) in Hh. etransitivity; [exact Hh|]. destruct Hc as (Hwfc & Hbc & _).
  apply (class_bound arena_bytes arenas k); [exact Hl | | exact Hb | exact Hwfc | exact Hbc]. apply slab_class_for_fits. lia.
Qed.

Lemma source_bounds :
  SLAB_ARENA_BYTES / slab_class_size (slab_class_for 256) = 65536 /\ SLAB_ARENA_BYTES / slab_class_size (slab_class_for 4096) = 4096 /\
  ST / 2 = 1000000 /\ ST / 8 = 250000.
Proof. vm_compute. done. Qed.

(** The measurement itself comes to its end. *)
Lemma hot_runs k A w g vlen n l1 l2 st : good_globals g -> 0 <= vlen <= 4096 -> 0 <= n -> held k A st ->
  exists hits st', (bflush;; bench_set w g vlen n l1;; bench_get_hot w g vlen n l2) st = Some (hits, st').
Proof.
  intros Hg Hv Hn Hst. destruct (goes_then k A bflush (bench_set w g vlen n l1;; bench_get_hot w g vlen n l2) 1 (n + (NKEYS + n))) with (st := st)
    as (x & st' & m & o & E & _); [apply goes_flushing | | exact Hst | exists x, st'; exact E].
  apply goes_then; [by apply goes_bench_set | by apply goes_bench_get_hot].
Qed.

Lemma hot_hits_witness : exists zipf hits st',
  (bflush;; bench_set idle_world (Globals gen_keys.1 gen_keys.2 zipf) 40 10 [];; bench_get_hot idle_world (Globals gen_keys.1 gen_keys.2 zipf) 40 10 [])
    (BState mini [] 0 0 0) = Some (hits, st') /\ hits <= 64 / slab_class_size (slab_class_for 40).
Proof.
  destruct main_globals as (zipf & _ & Hg). destruct (create_ok 64 mini_env mini_arenas (2 ^ 20) 4 empty_heap mini_env_ok) as (c & h' & k & Ec & Hok & _); [lia|].
  assert (c = mini) as -> by (unfold mini; by rewrite Ec).
  destruct (hot_runs k mini_base idle_world _ 40 10 [] [] (BState mini [] 0 0 0) Hg) as (hits & st' & E);
    [lia | lia | split; [exact (cok_wf _ _ Hok) | exact (create_alive _ _ _ _ _ _ _ _ _ mini_granted Ec)] |].
  exists zipf, hits, st'. split; [exact E|].
  apply (hot_hits_bounded idle_world _ k 64 mini_arenas 40 10 [] [] (BState mini [] 0 0 0) hits st' Hg);
    [cbn; lia | lia | lia | unfold NKEYS; lia | exact (cok_wf _ _ Hok) | exact (create_blocks _ _ _ _ _ _ _ _ _ mini_env_ok Ec) | exact E].
Defined.
