(* ===== verification/Auth.v ===== *)
(** * Authentication: SHA-256, the user table, ACL files

    [src/net/auth.c] and [src/net/auth.h].  Random tokens ([RAND_bytes],
    [/dev/urandom]) and HMAC (libcrypto) are outside the program; the random bytes
    are an argument of [vc_auth_gen_token]. *)

From S2P Require Import Prelude Proto.

(** ** SHA-256 *)

Definition ROR32 (x : Z) (n : Z) : Z := Z.lor (Z.shiftr x n) (u32 (Z.shiftl x (32 - n))).
Definition not32 (x : Z) : Z := 2 ^ 32 - 1 - x.
Definition CH (x y z : Z) : Z := Z.lxor (Z.land x y) (Z.land (not32 x) z).
Definition MAJ (x y z : Z) : Z := Z.lxor (Z.lxor (Z.land x y) (Z.land x z)) (Z.land y z).
Definition EP0 (x : Z) : Z := Z.lxor (Z.lxor (ROR32 x 2) (ROR32 x 13)) (ROR32 x 22).
Definition EP1 (x : Z) : Z := Z.lxor (Z.lxor (ROR32 x 6) (ROR32 x 11)) (ROR32 x 25).
Definition SIG0 (x : Z) : Z := Z.lxor (Z.lxor (ROR32 x 7) (ROR32 x 18)) (Z.shiftr x 3).
Definition SIG1 (x : Z) : Z := Z.lxor (Z.lxor (ROR32 x 17) (ROR32 x 19)) (Z.shiftr x 10).

(** In rows of four, as in the source. *)
Definition K256 : list Z := concat
  [[0x428a2f98; 0x71374491; 0xb5c0fbcf; 0xe9b5dba5]; [0x3956c25b; 0x59f111f1; 0x923f82a4; 0xab1c5ed5];
   [0xd807aa98; 0x12835b01; 0x243185be; 0x550c7dc3]; [0x72be5d74; 0x80deb1fe; 0x9bdc06a7; 0xc19bf174];
   [0xe49b69c1; 0xefbe4786; 0x0fc19dc6; 0x240ca1cc]; [0x2de92c6f; 0x4a7484aa; 0x5cb0a9dc; 0x76f988da];
   [0x983e5152; 0xa831c66d; 0xb00327c8; 0xbf597fc7]; [0xc6e00bf3; 0xd5a79147; 0x06ca6351; 0x14292967];
   [0x27b70a85; 0x2e1b2138; 0x4d2c6dfc; 0x53380d13]; [0x650a7354; 0x766a0abb; 0x81c2c92e; 0x92722c85];
   [0xa2bfe8a1; 0xa81a664b; 0xc24b8b70; 0xc76c51a3]; [0xd192e819; 0xd6990624; 0xf40e3585; 0x106aa070];
   [0x19a4c116; 0x1e376c08; 0x2748774c; 0x34b0bcb5]; [0x391c0cb3; 0x4ed8aa4a; 0x5b9cca4f; 0x682e6ff3];
   [0x748f82ee; 0x78a5636f; 0x84c87814; 0x8cc70208]; [0x90befffa; 0xa4506ceb; 0xbef9a3f7; 0xc67178f2]].

Definition H256 : list Z :=
  [0x6a09e667; 0xbb67ae85; 0x3c6ef372; 0xa54ff53a; 0x510e527f; 0x9b05688c; 0x1f83d9ab; 0x5be0cd19].

(** [(len + 9 + 63) & ~(size_t)63] *)
Definition padded_len (len : Z) : Z := Z.land (u64 (len + 9 + 63)) (2 ^ 64 - 64).

(** [for (i = 0; i < 8; i++) padded[padded_len - 1 - i] = (uint8_t)(bit_len >> (i * 8));]
    The loop counter is [8 - n]. *)
Fixpoint write_bit_len (n : nat) (plen bit_len : Z) (padded : list Z) : list Z :=
  match n with
  | O => padded
  | S n' =>
      let i := 8 - Z.of_nat n in
      write_bit_len n' plen bit_len
        (<[Z.to_nat (plen - 1 - i) := u8 (Z.shiftr bit_len (i * 8))]> padded)
  end.

Definition sha_padded (msg : list Z) : list Z :=
  let len := Z.of_nat (length msg) in
  let bit_len := u64 (len * 8) in
  let plen := padded_len len in
  let padded := msg ++ drop (length msg) (replicate (Z.to_nat plen) 0) in
  let padded := <[Z.to_nat len := 0x80]> padded in
  write_bit_len 8 plen bit_len padded.

(** The first sixteen words of the schedule, big endian. *)
Definition be_word (b : list Z) (i : nat) : Z :=
  let byte j := nth (4 * i + j) b 0 in
  Z.lor (Z.lor (Z.lor (Z.shiftl (byte 0%nat) 24) (Z.shiftl (byte 1%nat) 16)) (Z.shiftl (byte 2%nat) 8))
        (byte 3%nat).

(** [n] more words appended to [w]. *)
Fixpoint sha_schedule (n : nat) (w : list Z) : list Z :=
  match n with
  | O => w
  | S n =>
      let i := length w in
      sha_schedule n
        (w ++ [u32 (SIG1 (nth (i - 2) w 0) + nth (i - 7) w 0 + SIG0 (nth (i - 15) w 0) + nth (i - 16) w 0)])
  end.

Definition sha_regs : Type := Z * Z * Z * Z * Z * Z * Z * Z.

Definition sha_round (w : list Z) (r : sha_regs) (i : nat) : sha_regs :=
  let '(a, b2, c, d, e, f, g, hh) := r in
  let t1 := u32 (hh + EP1 e + CH e f g + nth i K256 0 + nth i w 0) in
  let t2 := u32 (EP0 a + MAJ a b2 c) in
  (u32 (t1 + t2), a, b2, c, u32 (d + t1), e, f, g).

Definition sha_block (h : list Z) (block : list Z) : list Z :=
  let w := sha_schedule 48 (be_word block <$> seq 0 16) in
  let r := (nth 0 h 0, nth 1 h 0, nth 2 h 0, nth 3 h 0, nth 4 h 0, nth 5 h 0, nth 6 h 0, nth 7 h 0) in
  let '(a, b2, c, d, e, f, g, hh) := foldl (sha_round w) r (seq 0 64) in
  [u32 (nth 0 h 0 + a); u32 (nth 1 h 0 + b2); u32 (nth 2 h 0 + c); u32 (nth 3 h 0 + d);
   u32 (nth 4 h 0 + e); u32 (nth 5 h 0 + f); u32 (nth 6 h 0 + g); u32 (nth 7 h 0 + hh)].

(** [for (blk = 0; blk < padded_len; blk += 64)] *)
Fixpoint sha_blocks (n : nat) (h : list Z) (padded : list Z) : list Z :=
  match n with
  | O => h
  | S n => sha_blocks n (sha_block h (take 64 padded)) (drop 64 padded)
  end.

Definition be_bytes (x : Z) : list Z := [u8 (Z.shiftr x 24); u8 (Z.shiftr x 16); u8 (Z.shiftr x 8); u8 x].

(** [None] for [alloc_ok]: [calloc] failed and the digest is all zeros. *)
Definition vc_sha256 (alloc_ok : bool) (msg : list Z) : list Z :=
  if negb alloc_ok then replicate 32 0
  else
    let p := sha_padded msg in
    concat (be_bytes <$> sha_blocks (length p / 64) H256 p).

(** ** Users *)

Definition VC_ACL_READ : Z := 1.
Definition VC_ACL_WRITE : Z := 2.
Definition VC_ACL_ADMIN : Z := 4.
Definition VC_ACL_PUBSUB : Z := 8.
Definition VC_ACL_ALL : Z := 15.
Definition VC_AUTH_MAX_USERS : Z := 64.
Definition VC_AUTH_USERNAME_MAX : nat := 64.

Record vc_user := User {
  u_username : list Z;      (** the C string *)
  u_pw_sha256 : list Z;
  u_acl : Z;
  u_enabled : bool
}.

Record vc_auth_db := AuthDb { db_users : list vc_user; db_require_auth : bool }.

Definition db_count (db : vc_auth_db) : Z := Z.of_nat (length (db_users db)).

Definition anon : vc_user := User (bs "anonymous") (replicate 32 0) VC_ACL_ALL true.

Definition vc_acl_check (u : option vc_user) (need : Z) : bool :=
  match u with Some u => Z.land (u_acl u) need =? need | None => false end.

(** [hex[raw[i] >> 4], hex[raw[i] & 0xf]] *)
Definition hex_digit (v : Z) : Z := if v <? 10 then 48 + v else 87 + v.
Definition hex_of (raw : list Z) : list Z :=
  raw ≫= (fun b => [hex_digit (Z.shiftr b 4); hex_digit (Z.land b 15)]).

(** [rand]: the 32 bytes of the first source that delivered. *)
Definition vc_auth_gen_token (rand : option (list Z)) : option (list Z) := hex_of <$> rand.

Definition hex_val (c : Z) : option Z :=
  if isdigit c then Some (c - 48)
  else if (97 <=? c) && (c <=? 102) then Some (c - 87)
  else if (65 <=? c) && (c <=? 70) then Some (c - 55)
  else None.

(** [sscanf(s, "%02x", &v)] with [v = 0] before, on a string without spaces: at
    most two characters, a sign counts as one; what does not match leaves 0. *)
Definition scan_hex2 (s : list Z) : Z :=
  match s with
  | [] => 0
  | c1 :: s' =>
      let second := match s' with c2 :: _ => hex_val c2 | [] => None end in
      match hex_val c1, second with
      | Some a, Some b => 16 * a + b
      | Some a, None => a
      | None, Some b => if c1 =? 43 then b else if c1 =? 45 then u32 (- b) else 0
      | None, None => 0
      end
  end.

(** The text is NUL-terminated in its buffer; [junk] is what the code reads from
    the uninitialised bytes after the NUL. *)
Definition hex_to_bytes (junk : nat -> Z) (hex : list Z) (nbytes : nat) : list Z :=
  (fun i => if (2 * i <=? length hex)%nat then u8 (scan_hex2 (drop (2 * i) hex)) else u8 (junk i))
    <$> seq 0 nbytes.

Fixpoint acl_flags_loop (acl : Z) (flags : list Z) : Z :=
  match flags with
  | [] => acl
  | c :: flags =>
      acl_flags_loop
        (if c =? 114 then Z.lor acl VC_ACL_READ
         else if c =? 119 then Z.lor acl VC_ACL_WRITE
         else if c =? 97 then Z.lor acl VC_ACL_ADMIN
         else if c =? 112 then Z.lor acl VC_ACL_PUBSUB
         else if c =? 42 then VC_ACL_ALL else acl) flags
  end.

Definition parse_acl_flags (flags : list Z) : Z := acl_flags_loop 0 flags.

(** [fgets(line, 256, f)]: the line read and the rest; [None] at the end. *)
Fixpoint fgets (n : nat) (f : list Z) : list Z * list Z :=
  match n with
  | O => ([], f)
  | S n => match f with
           | [] => ([], [])
           | c :: f => if c =? LF then ([c], f) else let '(l, r) := fgets n f in (c :: l, r)
           end
  end.

(** A [%<w>s] conversion: white space, then at most [w] other characters. *)
Definition skip_ws (l : list Z) : list Z := drop (skip_space l) l.

Fixpoint take_tok (w : nat) (l : list Z) : list Z * list Z :=
  match w with
  | O => ([], l)
  | S w => match l with
           | c :: l' => if isspace c then ([], l) else let '(t, r) := take_tok w l' in (c :: t, r)
           | [] => ([], [])
           end
  end.

Definition scan_tok (w : nat) (l : list Z) : option (list Z * list Z) :=
  let '(t, r) := take_tok w (skip_ws l) in
  match t with [] => None | _ => Some (t, r) end.

(** One line of the file: a user, or nothing. *)
Definition acl_line (junk : nat -> Z) (line : list Z) : option vc_user :=
  let p := skip_blank (cstr line) in
  match p with
  | [] => None
  | c :: _ =>
      if (c =? 35) || (c =? LF) then None
      else
        '(user, r) ← scan_tok 63 p;
        '(pw_hex, r) ← scan_tok 64 r;
        '(flags, _) ← scan_tok 15 r;
        Some (User user (hex_to_bytes junk pw_hex 32) (parse_acl_flags flags) true)
  end.

(** The reading loop; each round takes at least one byte of the file. *)
Fixpoint acl_loop (fuel : nat) (junk : nat -> Z) (f : list Z) (users : list vc_user) : list vc_user :=
  match fuel with
  | O => users
  | S fuel =>
      match f with
      | [] => users
      | _ :: _ =>
          let '(line, f) := fgets 255 f in
          if VC_AUTH_MAX_USERS <=? Z.of_nat (length users) then users
          else match acl_line junk line with
               | Some u => acl_loop fuel junk f (users ++ [u])
               | None => acl_loop fuel junk f users
               end
      end
  end.

(** [path]: [None] for NULL; [file]: its bytes if it can be opened.  [inl] is -1. *)
Definition vc_auth_load (junk : nat -> Z) (path : option (list Z)) (file : option (list Z))
    : unit + vc_auth_db :=
  match path with
  | None | Some [] => inr (AuthDb [] false)
  | Some _ =>
      match file with
      | None => inl ()
      | Some f => inr (AuthDb (acl_loop (S (length f)) junk f []) true)
      end
  end.

(** [false] is -1.  [strncpy] of 63 bytes over a zeroed field. *)
Definition vc_auth_add_user (alloc_ok : bool) (db : vc_auth_db) (username password : list Z) (acl : Z)
    : bool * vc_auth_db :=
  if VC_AUTH_MAX_USERS <=? db_count db then (false, db)
  else (true, AuthDb (db_users db ++ [User (take 63 (cstr username)) (vc_sha256 alloc_ok (cstr password)) acl true])
                true).

Fixpoint verify_loop (users : list vc_user) (username pw_hash : list Z) : option vc_user :=
  match users with
  | [] => None
  | u :: users =>
      if negb (u_enabled u) then verify_loop users username pw_hash
      else if negb (bool_decide (u_username u = username)) then verify_loop users username pw_hash
      else if bool_decide (u_pw_sha256 u = pw_hash) then Some u
      else verify_loop users username pw_hash
  end.

Definition vc_auth_verify (alloc_ok : bool) (db : vc_auth_db) (username password : list Z) : option vc_user :=
  if negb (db_require_auth db) then Some anon
  else verify_loop (db_users db) username (vc_sha256 alloc_ok password).

(** ** Padding *)

Lemma padded_len_spec len :
  0 <= len < 2 ^ 61 ->
  padded_len len mod 64 = 0 /\ len + 9 <= padded_len len < len + 9 + 64.
Proof.
  intros Hl. unfold padded_len. rewrite u64_id by lia.
  change (2 ^ 64 - 64) with (2 ^ 64 - 2 ^ 6).
  rewrite (land_clear (len + 9 + 63) 64 6) by lia. change (2 ^ 6) with 64.
  split; [apply Z.mod_mul; lia|]. zdivlia.
Qed.

(** Big-endian eight bytes. *)
Definition be8 (x : Z) : list Z := (fun i => u8 (Z.shiftr x (56 - 8 * Z.of_nat i))) <$> seq 0 8.

Lemma insert_tail (pre t : list Z) plen i v :
  plen = Z.of_nat (length pre) + 8 -> 0 <= i <= 7 ->
  <[Z.to_nat (plen - 1 - i) := v]> (pre ++ t) = pre ++ <[Z.to_nat (7 - i) := v]> t.
Proof.
  intros Hp Hi. rewrite insert_app_r_alt by lia. do 2 f_equal. lia.
Qed.

Lemma write_bit_len_spec pre plen b :
  plen = Z.of_nat (length pre) + 8 ->
  write_bit_len 8 plen b (pre ++ replicate 8 0) = pre ++ be8 b.
Proof.
  intros Hp. cbn [write_bit_len]. rewrite !(insert_tail pre) by (done || lia). reflexivity.
Qed.

(** What the padded message is. *)
Lemma sha_padded_eq msg :
  Z.of_nat (length msg) < 2 ^ 61 ->
  exists z, sha_padded msg = msg ++ [0x80] ++ replicate z 0 ++ be8 (8 * Z.of_nat (length msg)) /\
    (z < 64)%nat /\ Z.of_nat (length (sha_padded msg)) mod 64 = 0.
Proof.
  intros Hl. destruct (padded_len_spec (Z.of_nat (length msg))) as [Hm Hr]; [lia|].
  set (len := Z.of_nat (length msg)) in *. set (plen := padded_len len) in *.
  set (z := Z.to_nat (plen - len - 9)). exists z.
  assert (E : sha_padded msg = msg ++ [0x80] ++ replicate z 0 ++ be8 (8 * len)).
  { unfold sha_padded. fold len plen. rewrite drop_replicate.
    replace (Z.to_nat plen - length msg)%nat with (S (z + 8)) by lia.
    rewrite insert_app_r_alt by lia. replace (Z.to_nat len - length msg)%nat with 0%nat by lia.
    rewrite replicate_S. cbn [insert list_insert]. rewrite replicate_add.
    rewrite (Z.mul_comm 8 len), u64_id by lia.
    rewrite (cons_middle 128), !app_assoc.
    rewrite write_bit_len_spec by (rewrite !length_app, length_replicate; simpl; lia). done. }
  split; [done|]. split; [lia|]. rewrite E, !length_app, length_replicate.
  change (length (be8 (8 * len))) with 8%nat. change (length [128]) with 1%nat.
  replace (Z.of_nat (length msg + (1 + (z + 8)))) with plen by lia. done.
Qed.

(** ** The user table *)

Lemma verify_loop_some users name hash u :
  verify_loop users name hash = Some u ->
  u ∈ users /\ u_enabled u = true /\ u_username u = name /\ u_pw_sha256 u = hash.
Proof.
  induction users as [|x users IH]; [done|]. cbn [verify_loop].
  destruct (u_enabled x) eqn:He; cbn [negb]; [|intros H; apply IH in H as [? ?]; split; [by right | done]].
  case_bool_decide as Hn; cbn [negb]; [|intros H; apply IH in H as [? ?]; split; [by right | done]].
  case_bool_decide as Hh; [|intros H; apply IH in H as [? ?]; split; [by right | done]].
  intros [= <-]. split; [left | done].
Qed.

Lemma verify_loop_none users name hash :
  verify_loop users name hash = None ->
  forall u, u ∈ users -> u_enabled u = true -> u_username u = name -> u_pw_sha256 u <> hash.
Proof.
  induction users as [|x users IH]; [intros _ u Hu; by apply elem_of_nil in Hu|]. cbn [verify_loop].
  intros H u Hu He Hn Hh. apply elem_of_cons in Hu as [->|Hu].
  - rewrite He, bool_decide_true, bool_decide_true in H by done. done.
  - revert H. destruct (u_enabled x); cbn [negb]; [|intros; by eapply IH].
    case_bool_decide; cbn [negb]; [|intros; by eapply IH].
    case_bool_decide; [done|]. intros; by eapply IH.
Qed.

Lemma verify_loop_app users u name hash :
  verify_loop users name hash = None -> u_enabled u = true -> u_username u = name ->
  u_pw_sha256 u = hash -> verify_loop (users ++ [u]) name hash = Some u.
Proof.
  intros H He Hn Hh. induction users as [|x users IH]; cbn [app verify_loop] in *.
  - by rewrite He, !bool_decide_true by done.
  - destruct (u_enabled x); cbn [negb] in *; [|by apply IH].
    destruct (bool_decide (u_username x = name)); cbn [negb] in *; [|by apply IH].
    destruct (bool_decide (u_pw_sha256 x = hash)); [done | by apply IH].
Qed.

Lemma acl_loop_bound fuel junk f users :
  Z.of_nat (length users) <= VC_AUTH_MAX_USERS ->
  Z.of_nat (length (acl_loop fuel junk f users)) <= VC_AUTH_MAX_USERS.
Proof.
  revert f users. induction fuel as [|fuel IH]; intros f users Hl; [done|]. cbn [acl_loop].
  destruct f as [|c f]; [done|]. destruct (fgets 255 (c :: f)) as [line r].
  destruct (Z.leb_spec VC_AUTH_MAX_USERS (Z.of_nat (length users))); [done|].
  destruct (acl_line junk line); apply IH; [rewrite length_app; simpl; lia | done].
Qed.

(** ** ACL flags *)

Definition acl_bit (c : Z) : Z :=
  if c =? 114 then VC_ACL_READ else if c =? 119 then VC_ACL_WRITE
  else if c =? 97 then VC_ACL_ADMIN else if c =? 112 then VC_ACL_PUBSUB
  else if c =? 42 then VC_ACL_ALL else 0.

Lemma acl_loop_fold acl flags :
  0 <= acl <= 15 ->
  acl_flags_loop acl flags = foldl (fun a c => Z.lor a (acl_bit c)) acl flags /\
  0 <= acl_flags_loop acl flags <= 15.
Proof.
  revert acl. induction flags as [|c flags IH]; intros acl Ha; [done|]. cbn [acl_flags_loop foldl].
  assert (Hacl : acl ∈ [0;1;2;3;4;5;6;7;8;9;10;11;12;13;14;15]).
  { rewrite !elem_of_cons. lia. }
  unfold acl_bit.
  destruct (c =? 114), (c =? 119), (c =? 97), (c =? 112), (c =? 42); try (rewrite Z.lor_0_r; by apply IH);
    (match goal with |- acl_flags_loop ?x _ = foldl _ ?y _ /\ _ =>
       replace y with x; [apply IH|] end);
    repeat (apply elem_of_cons in Hacl as [->|Hacl]); try (by apply elem_of_nil in Hacl); by vm_compute.
Qed.

(** ** Theorems *)

(** The message padding is the one of RFC 6234: the message, the byte 0x80, fewer
    than 64 zero bytes and the bit length in eight big-endian bytes, a whole number of
    64-byte blocks. *)
Theorem sha256_padding msg :
  Z.of_nat (length msg) < 2 ^ 61 ->
  exists z, sha_padded msg = msg ++ [0x80] ++ replicate z 0 ++ be8 (8 * Z.of_nat (length msg)) /\
    (z < 64)%nat /\ Z.of_nat (length (sha_padded msg)) mod 64 = 0.
Proof. apply sha_padded_eq. Qed.

Lemma sha256_padding_witness :
  exists z, sha_padded (bs "abc") = bs "abc" ++ [0x80] ++ replicate z 0 ++ be8 (8 * 3) /\
    (z < 64)%nat /\ Z.of_nat (length (sha_padded (bs "abc"))) mod 64 = 0.
Proof. apply (sha256_padding (bs "abc")). vm_compute. reflexivity. Defined.

(** The digests of the empty message and of the FIPS 180-4 one- and two-block
    example messages are the published ones. *)
Theorem sha256_vectors :
  hex_of (vc_sha256 true []) =
    bs "e3b0c44298fc1c149afbf4c8996fb92427ae41e4649b934ca495991b7852b855" /\
  hex_of (vc_sha256 true (bs "abc")) =
    bs "ba7816bf8f01cfea414140de5dae2223b00361a396177a9cb410ff61f20015ad" /\
  hex_of (vc_sha256 true (bs "abcdbcdecdefdefgefghfghighijhijkijkljklmklmnlmnomnopnopq")) =
    bs "248d6a61d20638b8e5c026930c3e6039a33ce45964ff2167f6ecedd419db06c1".
Proof. vm_compute. repeat split. Qed.

(** With authentication on, [vc_auth_verify] accepts exactly when some enabled
    user has that name and the digest of that password, and returns such a user. *)
Theorem verify_correct alloc_ok db name password :
  db_require_auth db = true ->
  match vc_auth_verify alloc_ok db name password with
  | Some u => u ∈ db_users db /\ u_enabled u = true /\ u_username u = name /\
      u_pw_sha256 u = vc_sha256 alloc_ok password
  | None => forall u, u ∈ db_users db -> u_enabled u = true -> u_username u = name ->
      u_pw_sha256 u <> vc_sha256 alloc_ok password
  end.
Proof.
  intros Hr. unfold vc_auth_verify. rewrite Hr. cbn [negb].
  destruct (verify_loop _ _ _) as [u|] eqn:E; [by apply verify_loop_some | by apply verify_loop_none].
Qed.

Lemma verify_correct_witness :
  match vc_auth_verify true (AuthDb [User (bs "bob") (vc_sha256 true (bs "pw")) VC_ACL_READ true] true)
          (bs "bob") (bs "pw") with
  | Some u => u ∈ [User (bs "bob") (vc_sha256 true (bs "pw")) VC_ACL_READ true] /\ u_enabled u = true /\
      u_username u = bs "bob" /\ u_pw_sha256 u = vc_sha256 true (bs "pw")
  | None => forall u, u ∈ [User (bs "bob") (vc_sha256 true (bs "pw")) VC_ACL_READ true] ->
      u_enabled u = true -> u_username u = bs "bob" -> u_pw_sha256 u <> vc_sha256 true (bs "pw")
  end.
Proof.
  apply (verify_correct true (AuthDb [User (bs "bob") (vc_sha256 true (bs "pw")) VC_ACL_READ true] true)).
  reflexivity.
Defined.

(** A user added to a table with room can log in with the password and gets the
    rights given, unless an earlier user has the same name and password; afterwards
    the server requires authentication. *)
Theorem add_user_verify db name password acl :
  db_count db < VC_AUTH_MAX_USERS -> (length name <= 63)%nat -> cstr name = name ->
  cstr password = password ->
  verify_loop (db_users db) name (vc_sha256 true password) = None ->
  exists db', vc_auth_add_user true db name password acl = (true, db') /\
    db_require_auth db' = true /\ db_count db' = db_count db + 1 /\
    exists u, vc_auth_verify true db' name password = Some u /\ u_username u = name /\ u_acl u = acl.
Proof.
  intros Hc Hl Hn Hp Hnone. unfold vc_auth_add_user.
  destruct (Z.leb_spec VC_AUTH_MAX_USERS (db_count db)); [lia|].
  eexists. split; [done|]. split; [done|]. rewrite Hn, Hp, take_ge by lia. split.
  - unfold db_count. cbn [db_users]. rewrite length_app. simpl. lia.
  - unfold vc_auth_verify. cbn [db_require_auth negb db_users].
    eexists. split; [by apply verify_loop_app|]. done.
Qed.

Lemma add_user_witness :
  exists db', vc_auth_add_user true (AuthDb [] false) (bs "bob") (bs "pw") VC_ACL_READ = (true, db') /\
    db_require_auth db' = true /\ db_count db' = 0 + 1 /\
    exists u, vc_auth_verify true db' (bs "bob") (bs "pw") = Some u /\ u_username u = bs "bob" /\
      u_acl u = VC_ACL_READ.
Proof.
  apply (add_user_verify (AuthDb [] false) (bs "bob") (bs "pw") VC_ACL_READ); try reflexivity.
  simpl. lia.
Defined.

(** Loading an ACL file fails closed: with a path given, either loading reports an
    error or authentication is required, and the table holds at most 64 users. *)
Theorem auth_load_fails_closed junk path file :
  path <> [] ->
  match vc_auth_load junk (Some path) file with
  | inl _ => file = None
  | inr db => db_require_auth db = true /\ db_count db <= VC_AUTH_MAX_USERS
  end.
Proof.
  intros Hp. unfold vc_auth_load. destruct path as [|c path]; [done|].
  destruct file as [f|]; [|done]. split; [done|]. unfold db_count. cbn [db_users].
  apply acl_loop_bound. simpl. unfold VC_AUTH_MAX_USERS. lia.
Qed.

Lemma auth_load_witness :
  match vc_auth_load (fun _ => 0) (Some (bs "vcache.acl")) (Some (bs "bob ab r")) with
  | inl _ => Some (bs "bob ab r") = None
  | inr db => db_require_auth db = true /\ db_count db <= VC_AUTH_MAX_USERS
  end.
Proof. apply (auth_load_fails_closed (fun _ => 0) (bs "vcache.acl")). discriminate. Defined.

(** The flag string gives the union of the rights of its letters ([*] gives all),
    in any order, and never a bit outside the four rights. *)
Theorem acl_flags_union flags :
  parse_acl_flags flags = foldl (fun a c => Z.lor a (acl_bit c)) 0 flags /\
  0 <= parse_acl_flags flags <= VC_ACL_ALL.
Proof. apply (acl_loop_fold 0). lia. Qed.
