(* ===== verification/Kv.v ===== *)
(** * The interface between the command layer and the cache

    What [src/net/commands.c] calls of [src/src/voidcache.c]: the operations as a
    class, and the laws a client may rely on.  The handlers of [Commands.v] are
    written and proved against the class; [vc_cache] is an instance of both. *)

From S2P Require Import Prelude Hash Slab Entry Shard Wal Cache CacheInv CacheSafe CacheSpec CacheThm.

(** ** Operations *)

Class Kv (C : Type) := {
  (** [vc_get], with the bytes behind the returned pointer *)
  kv_get : env -> C -> list Z -> option (option (list Z) * C);
  kv_set : env -> C -> list Z -> list Z -> Z -> option (vc_err * C);
  kv_del : env -> C -> list Z -> option (vc_err * C);
  kv_flush : C -> option C;
  kv_stats : C -> vc_global_stats;
  kv_max_memory : C -> Z;
  (** the tables as KEYS and SCAN walk them: the key of every LIVE slot *)
  kv_slots : C -> list (list (option (list Z)))
}.

(** ** Laws *)

Abbreviation kvmap := (gmap (list Z) (list Z * Z)).

(** A binding that has not expired at either clock reading of the operation. *)
Definition fresh_at (ev : env) (exp : Z) : Prop :=
  expired_at (ev_mono ev) exp = false /\ expired_at (ev_mono2 ev) exp = false.

(** A binding that has expired at the first reading. *)
Definition stale_at (ev : env) (exp : Z) : Prop := expired_at (ev_mono ev) exp = true.

Class KvLaws (C : Type) `{Kv C} := {
  kv_ok : C -> Prop;
  kv_map : C -> kvmap;
  (** the cache can take the key and value: memory is fresh, its shard is not full,
      an old binding of the key has not expired, and the record fits the log *)
  kv_ready : env -> C -> list Z -> list Z -> Prop;
  (** a record of so many bytes of key and value fits the log, if there is one *)
  kv_logs : C -> Z -> Prop;
  kv_get_law : forall ev c k, kv_ok c -> Z.of_nat (length k) < 2 ^ 32 ->
    exists r c', kv_get ev c k = Some (r, c') /\ kv_ok c' /\ kv_map c' = kv_map c /\
      match kv_map c !! k with
      | None => r = None
      | Some (v, exp) => (stale_at ev exp -> r = None) /\ (fresh_at ev exp -> r = Some v)
      end;
  (** a read leaves the store as ready as it was *)
  kv_get_ready : forall ev ev' c k k' v r c', kv_ok c -> Z.of_nat (length k) < 2 ^ 32 ->
    kv_get ev c k = Some (r, c') -> kv_ready ev' c k' v -> kv_ready ev' c' k' v;
  kv_set_law : forall ev c k v ttl, kv_ok c -> kv_ready ev c k v ->
    exists err c', kv_set ev c k v ttl = Some (err, c') /\ kv_ok c' /\
      ((err = VC_ERR_OOM /\ kv_map c' = kv_map c) \/
       (err = VC_OK /\ exists victim,
          kv_map c' = <[k := (take (Z.to_nat 65535) v, expire_at (ev_mono ev) ttl)]>
                        (remove_key victim (kv_map c)) /\ victim <> Some k));
  kv_del_law : forall ev c k, kv_ok c -> Z.of_nat (length k) < 2 ^ 32 -> kv_logs c (Z.of_nat (length k)) ->
    exists err c', kv_del ev c k = Some (err, c') /\ kv_ok c' /\ (forall n, kv_logs c n -> kv_logs c' n) /\
      match kv_map c !! k with
      | Some (_, exp) =>
          if expired_at (ev_mono ev) exp then err = VC_ERR_NOTFND /\ kv_map c' = kv_map c
          else err = VC_OK /\ kv_map c' = delete k (kv_map c)
      | None => err = VC_ERR_NOTFND /\ kv_map c' = kv_map c
      end;
  kv_flush_law : forall c, kv_ok c -> exists c', kv_flush c = Some c' /\ kv_ok c' /\ kv_map c' = ∅
}.

(** ** The cache is an instance *)

Definition slot_key (h : heap) (e : vc_entry) : option (list Z) :=
  if bool_decide (e_state e = LIVE) then Some (key_bytes (h_bytes h) e) else None.

(** The bytes a successful [vc_get] lets the caller read. *)
Definition cache_get (ev : env) (c : vc_cache) (k : list Z) : option (option (list Z) * vc_cache) :=
  '(_, o, c') ← vc_get ev c k;
  Some (match o with Some r => Some (out_bytes (c_heap c') r) | None => None end, c').

Definition cache_slots (c : vc_cache) : list (list (option (list Z))) :=
  (fun s => slot_key (c_heap c) <$> s_table s) <$> c_shards c.

#[export] Instance vc_cache_kv : Kv vc_cache := {
  kv_get := cache_get;
  kv_set := vc_set;
  kv_del := vc_del;
  kv_flush := vc_flush;
  kv_stats := vc_stats;
  kv_max_memory := c_max_memory;
  kv_slots := cache_slots
}.

Definition cache_ready (ev : env) (c : vc_cache) (k v : list Z) : Prop :=
  env_fresh c ev k v /\ k <> [] /\ v <> [] /\ Z.of_nat (length k) < 2 ^ 32 /\ log_room (c_wal c) (set_logged k v) /\
  (exists s, c_shards c !! home k = Some s /\ s_count s < s_cap s) /\
  (forall x exp, abs c !! k = Some (x, exp) -> expired_at (ev_mono2 ev) exp = false).

Lemma cache_get_law ev c ky :
  (exists k, cache_ok k c) -> Z.of_nat (length ky) < 2 ^ 32 ->
  exists r c', kv_get ev c ky = Some (r, c') /\ (exists k, cache_ok k c') /\ abs c' = abs c /\
    match abs c !! ky with
    | None => r = None
    | Some (v, exp) => (stale_at ev exp -> r = None) /\ (fresh_at ev exp -> r = Some v)
    end.
Proof.
  intros (k & Hok) Hmax. pose proof (cok_wf _ _ Hok) as Hwf.
  destruct (lookup_lt_is_Some_2 (c_shards c) (home ky)) as [s Hs].
  { rewrite (cwf_len _ _ Hwf). apply home_lt. }
  destruct (get_answer_spec k c ev ky s Hwf Hs) as (o & s' & E & H1 & H2 & H3).
  destruct (get_answer_abs k c ev ky s Hok Hs Hmax) as (o' & s'' & E' & Hab).
  rewrite E in E'. injection E' as <- <-.
  destruct (update_ok k c (home ky) s s' Hok Hs H1 H2 H3) as [Hok' Habs].
  cbn [kv_get vc_cache_kv]. unfold cache_get. rewrite (vc_get_eq k c ev ky s Hwf Hs), E. cbn [mbind option_bind].
  eexists _, _. split; [done|]. split; [by exists k|]. split; [done|].
  destruct (abs c !! ky) as [[v exp]|]; [|by rewrite Hab].
  destruct Hab as [Ha1 Ha2]. split; [intros Hx; by rewrite Ha1|].
  intros [Hx Hy]. destruct (Ha2 Hx Hy) as (r & -> & Hr). by rewrite <- Hr.
Qed.

Lemma env_ok_perm L L' F ev ky val : L ≡ₚ L' -> env_ok L F ev ky val -> env_ok L' F ev ky val.
Proof.
  intros HL [H1 H2 H3]. assert (Hf : forall r, fresh L F r -> fresh L' F r).
  { intros r. unfold fresh. by rewrite HL. }
  constructor; [intros a Ha; by apply Hf, H1 | intros a Ha; by apply Hf, H2 | done].
Qed.

Lemma cache_get_ready ev ev' c ky ky' v r c' :
  (exists k, cache_ok k c) -> Z.of_nat (length ky) < 2 ^ 32 ->
  kv_get ev c ky = Some (r, c') -> cache_ready ev' c ky' v -> cache_ready ev' c' ky' v.
Proof.
  intros (k & Hok) Hmax Eg (Hf & Hk & Hv & Hl & Hlog & (s0 & Hs0 & Hroom) & Hst). pose proof (cok_wf _ _ Hok) as Hwf.
  destruct (lookup_lt_is_Some_2 (c_shards c) (home ky)) as [s Hs].
  { rewrite (cwf_len _ _ Hwf). apply home_lt. }
  destruct (get_answer_spec k c ev ky s Hwf Hs) as (o & s' & E & H1 & H2 & H3).
  destruct (update_ok k c (home ky) s s' Hok Hs H1 H2 H3) as [Hok' Habs].
  destruct (update_wf k c (home ky) s s' Hwf Hs H1 H2) as [_ Hp].
  cbn [kv_get vc_cache_kv] in Eg. unfold cache_get in Eg.
  rewrite (vc_get_eq k c ev ky s Hwf Hs), E in Eg. cbn [mbind option_bind] in Eg. apply Some_inj in Eg.
  apply (f_equal snd) in Eg. cbn [snd] in Eg. subst c'.
  cbv zeta in Hok', Habs, Hp. split; [|split; [done|]; split; [done|]; split; [done|]; split; [exact Hlog|]; split].
  - intros F HF. eapply env_ok_perm; [symmetry; exact Hp|]. by apply Hf.
  - destruct (decide (home ky = home ky')) as [Eh|Eh].
    + rewrite <- Eh in *. rewrite Hs in Hs0. injection Hs0 as <-. exists s'.
      split; [apply list_lookup_insert_eq; by eapply lookup_lt_Some|].
      destruct (cwf_shards _ _ Hwf _ _ Hs) as [Hc _]. destruct H1 as [Hc' _].
      by rewrite H3, (cok_cap _ _ _ Hc'), <- (cok_cap _ _ _ Hc).
    + exists s0. split; [|done]. cbn. by rewrite list_lookup_insert_ne.
  - by rewrite Habs.
Qed.

Lemma cache_set_law ev c ky val ttl :
  (exists k, cache_ok k c) -> cache_ready ev c ky val ->
  exists err c', kv_set ev c ky val ttl = Some (err, c') /\ (exists k, cache_ok k c') /\
    ((err = VC_ERR_OOM /\ abs c' = abs c) \/
     (err = VC_OK /\ exists victim,
        abs c' = <[ky := (take (Z.to_nat 65535) val, expire_at (ev_mono ev) ttl)]>
                   (remove_key victim (abs c)) /\ victim <> Some ky)).
Proof.
  intros (k & Hok) (Hf & Hky & Hval & Hmax & Hlog & (s & Hs & Hroom) & Hstale).
  destruct (vc_set_abs k c ev ky val ttl s Hok Hf Hky Hval Hmax Hlog Hs Hroom Hstale) as (c' & E & Hok' & _ & Hr).
  destruct (refused ev (c_slab c) ky val); eexists _, c'; (split; [exact E|]); (split; [by exists k|]); [by left|].
  right. split; [done|]. destruct Hr as (v & Hv & Hne & _). by exists v.
Qed.

#[export] Instance vc_cache_laws : KvLaws vc_cache.
Proof.
  refine {| kv_ok := fun c => exists k, cache_ok k c; kv_map := abs; kv_ready := cache_ready;
            kv_logs := fun c n => log_room (c_wal c) n |}.
  - apply cache_get_law.
  - apply cache_get_ready.
  - apply cache_set_law.
  - intros ev c ky (k & Hok) Hmax Hlog. destruct (vc_del_abs k c ev ky Hok Hmax Hlog) as (err & c' & E & Hok' & Hs & H).
    exists err, c'. split; [done|]. split; [by exists k|]. split; [|done]. intros n. by apply same_log_room.
  - intros c (k & Hok). destruct (vc_flush_spec k c (cok_wf _ _ Hok)) as (c' & E & Hok' & H & _).
    exists c'. split; [done|]. split; [by exists k | done].
Defined.
