(* ===== verification/Commands.v ===== *)
(** * Commands

    [src/net/commands.c]: the handlers, the dispatch table and the authentication
    guard, over the interface of [Kv.v].  An argument is its [argl] bytes; as a C
    string it ends at its first NUL.  The reply is the list of bytes appended to the
    write buffer, with the 256-byte limit of [buf_printf]; growing that buffer is
    taken to succeed ([ProtoSpec.v] has the case where it does not).  [None] is
    undefined behaviour: a signed overflow, a read outside a block, a write through a
    failed [malloc].  Parsing and printing of floating-point numbers ([strtod], [%g])
    are arguments. *)

From S2P Require Import Prelude Hash Slab Entry Shard Wal Cache CacheInv CacheSafe CacheSpec.
From S2P Require Import Proto ProtoSpec Auth Kv.

(** ** State *)

Inductive conn_state : Type :=
| VC_CONN_FREE | VC_CONN_CONNECTED | VC_CONN_TLS_HAND | VC_CONN_AUTHED | VC_CONN_CLOSING.

#[export] Instance conn_state_eq_dec : EqDecision conn_state.
Proof. solve_decision. Defined.

Record conn := Conn {
  cn_fd : Z;
  cn_state : conn_state;
  cn_resp3 : bool;
  cn_user : option vc_user;
  cn_token : list Z;
  cn_db_idx : Z;
  cn_peer_addr : list Z;
  cn_peer_port : Z;
  cn_out : list Z            (** bytes written to [wbuf] *)
}.

Record server (C : Type) := Server {
  sv_cache : C;
  sv_auth : vc_auth_db;
  sv_node_id : list Z;
  sv_total_conns : Z;
  sv_total_commands : Z;
  sv_cluster_enabled : bool;
  sv_announce_addr : option (list Z);
  sv_announce_port : Z;
  sv_port : Z
}.
Arguments Server {C}.
Arguments sv_cache {C}.
Arguments sv_auth {C}.
Arguments sv_node_id {C}.
Arguments sv_total_conns {C}.
Arguments sv_total_commands {C}.
Arguments sv_cluster_enabled {C}.
Arguments sv_announce_addr {C}.
Arguments sv_announce_port {C}.
Arguments sv_port {C}.

(** What the system answers while a command runs: one [env] per cache operation,
    [malloc], the random source, the [strndup] of each key that KEYS or SCAN copies, the
    [calloc] of each digest (of the credentials at an argument). *)
Record cenv := CEnv {
  ce_ev : nat -> env;
  ce_malloc : bool;
  ce_rand : option (list Z);
  ce_dup : nat -> bool;
  ce_digest : nat -> bool
}.

Definition cn_write (s : list Z) (c : conn) : conn :=
  Conn (cn_fd c) (cn_state c) (cn_resp3 c) (cn_user c) (cn_token c) (cn_db_idx c)
    (cn_peer_addr c) (cn_peer_port c) (cn_out c ++ s).
Definition cn_set_state (st : conn_state) (c : conn) : conn :=
  Conn (cn_fd c) st (cn_resp3 c) (cn_user c) (cn_token c) (cn_db_idx c)
    (cn_peer_addr c) (cn_peer_port c) (cn_out c).
Definition cn_set_resp3 (b : bool) (c : conn) : conn :=
  Conn (cn_fd c) (cn_state c) b (cn_user c) (cn_token c) (cn_db_idx c)
    (cn_peer_addr c) (cn_peer_port c) (cn_out c).
Definition cn_set_db (n : Z) (c : conn) : conn :=
  Conn (cn_fd c) (cn_state c) (cn_resp3 c) (cn_user c) (cn_token c) n
    (cn_peer_addr c) (cn_peer_port c) (cn_out c).
(** [conn->user = u; vc_auth_gen_token(conn->token);] *)
Definition cn_login (rand : option (list Z)) (u : vc_user) (c : conn) : conn :=
  Conn (cn_fd c) (cn_state c) (cn_resp3 c) (Some u)
    (default (cn_token c) (vc_auth_gen_token rand)) (cn_db_idx c)
    (cn_peer_addr c) (cn_peer_port c) (cn_out c).

(** ** Replies *)

Definition printf_out (s : list Z) : list Z := if 256 <=? Z.of_nat (length s) then [] else s.

Definition r_ok : list Z := bs "+OK" ++ CRLF.
Definition r_error (code msg : list Z) : list Z := printf_out (bs "-" ++ code ++ bs " " ++ msg ++ CRLF).
Definition r_simple (s : list Z) : list Z := printf_out (bs "+" ++ s ++ CRLF).
Definition r_int (n : Z) : list Z := printf_out (bs ":" ++ dec n ++ CRLF).
Definition r_bulk (s : list Z) : list Z := enc_bulk s.
Definition r_array (n : Z) : list Z := printf_out (bs "*" ++ dec n ++ CRLF).
Definition r_map (n : Z) : list Z := printf_out (bs "%" ++ dec n ++ CRLF).
Definition r_bool (b : bool) : list Z := bs "#" ++ (if b then bs "t" else bs "f") ++ CRLF.
Definition r_null (resp3 : bool) : list Z := if resp3 then bs "_" ++ CRLF else bs "$-1" ++ CRLF.
Definition r_typed (type : Z) (payload : list Z) : list Z :=
  enc_bulk (VC_WIRE_MAGIC ++ [type] ++ payload).
Definition r_err (msg : list Z) : list Z := r_error (bs "ERR") msg.

(** ** C strings *)

Definition lower (c : Z) : Z := if (65 <=? c) && (c <=? 90) then c + 32 else c.

(** [strcasecmp(a, b) == 0] *)
Definition strcaseeq (a b : list Z) : bool := bool_decide ((lower <$> cstr a) = (lower <$> cstr b)).

(** [strcmp(a, b) == 0] *)
Definition streq (a b : list Z) : bool := bool_decide (cstr a = cstr b).

(** What [parse_int64] of [commands.c] stores in [*out], also when it fails. *)
Definition parse_out (s : list Z) : Z := (strtoll (cstr s)).1.1.

Definition has_magic (v : list Z) : bool :=
  (VC_WIRE_MAGIC_LEN <? Z.of_nat (length v)) && bool_decide (take 4 v = VC_WIRE_MAGIC).

Definition in_int64 (n : Z) : bool := (INT64_MIN <=? n) && (n <=? INT64_MAX).

Definition VC_SERVER_VERSION : list Z := bs "2.0.0".

Section Handlers.
Context {C : Type} `{Kv C}.
(** [strtod] to the eight bytes of a double, and [%g] of such bytes. *)
Context (strtod : list Z -> list Z) (print_g : list Z -> list Z).

Abbreviation srv_t := (server C).
Abbreviation result := (option (srv_t * conn)).
Abbreviation handler := (cenv -> srv_t -> conn -> list (list Z) -> result).

Definition with_cache (c : C) (s : srv_t) : srv_t :=
  Server c (sv_auth s) (sv_node_id s) (sv_total_conns s) (sv_total_commands s)
    (sv_cluster_enabled s) (sv_announce_addr s) (sv_announce_port s) (sv_port s).
Definition count_command (s : srv_t) : srv_t :=
  Server (sv_cache s) (sv_auth s) (sv_node_id s) (sv_total_conns s) (u64 (sv_total_commands s + 1))
    (sv_cluster_enabled s) (sv_announce_addr s) (sv_announce_port s) (sv_port s).

(** The reply, nothing else changed. *)
Definition say (s : srv_t) (c : conn) (out : list Z) : result := Some (s, cn_write out c).

(** The [i]-th argument, [argv[i]] with [argl[i]]. *)
Definition argn (argv : list (list Z)) (i : nat) : list Z := default [] (argv !! i).

(** [need_auth]: [None] when the command may go on, else the error reply. *)
Definition need_auth (s : srv_t) (c : conn) (acl : Z) : option (list Z) :=
  if negb (db_require_auth (sv_auth s)) then None
  else match cn_user c with
       | None => Some (r_error (bs "NOAUTH") (bs "Authentication required. Use AUTH command."))
       | Some u =>
           if vc_acl_check (Some u) acl then None
           else Some (r_error (bs "NOPERM") (bs "Permission denied for this command."))
       end.

Definition guarded (acl : Z) (s : srv_t) (c : conn) (next : result) : result :=
  match need_auth s c acl with Some e => say s c e | None => next end.

(** [ARGC_CHECK(c, mn, mx)] *)
Definition argc_check (mn mx : Z) (argv : list (list Z)) (s : srv_t) (c : conn) (next : result) : result :=
  let n := Z.of_nat (length argv) - 1 in
  if (n <? mn) || (mx <? n) then say s c (r_err (bs "wrong number of arguments")) else next.

Definition argc_min (mn : Z) (argv : list (list Z)) (s : srv_t) (c : conn) (next : result) : result :=
  if Z.of_nat (length argv) <? mn then say s c (r_err (bs "wrong arguments")) else next.

(** The cache operations, through the server. *)
Definition do_get (e : cenv) (i : nat) (s : srv_t) (k : list Z) : option (option (list Z) * srv_t) :=
  '(r, c) ← kv_get (ce_ev e i) (sv_cache s) k; Some (r, with_cache c s).
Definition do_set (e : cenv) (i : nat) (s : srv_t) (k v : list Z) (ttl : Z) : option (vc_err * srv_t) :=
  '(r, c) ← kv_set (ce_ev e i) (sv_cache s) k v ttl; Some (r, with_cache c s).
Definition do_del (e : cenv) (i : nat) (s : srv_t) (k : list Z) : option (vc_err * srv_t) :=
  '(r, c) ← kv_del (ce_ev e i) (sv_cache s) k; Some (r, with_cache c s).

(** ** Connection commands *)

Definition cmd_ping (e : cenv) (s : srv_t) (c : conn) (argv : list (list Z)) : result :=
  if 1 <? Z.of_nat (length argv) then say s c (r_bulk (argn argv 1)) else say s c (r_simple (bs "PONG")).

Definition r_hello (node_id : list Z) (resp3 : bool) : list Z :=
  (if resp3 then r_map 5 else r_array 10) ++
  r_bulk (bs "server") ++ r_bulk (bs "voidcache") ++ r_bulk (bs "version") ++ r_bulk VC_SERVER_VERSION ++
  r_bulk (bs "proto") ++ r_int (if resp3 then 3 else 2) ++ r_bulk (bs "id") ++ r_bulk (cstr node_id) ++
  r_bulk (bs "mode") ++ r_bulk (bs "standalone").

(** The AUTH options of HELLO from argument [i] on: whether all passwords were right, and the
    connection, which keeps the logins before a wrong one. *)
Fixpoint hello_auth (fuel : nat) (e : cenv) (s : srv_t) (c : conn) (argv : list (list Z)) (i : nat)
    : bool * conn :=
  match fuel with
  | O => (true, c)
  | S fuel =>
      if (i <? length argv - 1)%nat then
        if strcaseeq (argn argv i) (bs "AUTH") && (i + 2 <? length argv)%nat then
          match vc_auth_verify (ce_digest e i) (sv_auth s) (cstr (argn argv (i + 1))) (cstr (argn argv (i + 2))) with
          | None => (false, c)
          | Some u => hello_auth fuel e s (cn_login (ce_rand e) u c) argv (i + 3)
          end
        else hello_auth fuel e s c argv (i + 1)
      else (true, c)
  end.

Definition cmd_hello (e : cenv) (s : srv_t) (c : conn) (argv : list (list Z)) : result :=
  let proto := if 2 <=? Z.of_nat (length argv) then s32 (parse_out (argn argv 1)) else 2 in
  if negb (proto =? 2) && negb (proto =? 3)
  then say s c (r_error (bs "NOPROTO") (bs "unsupported protocol version"))
  else match hello_auth (length argv) e s c argv 2 with
       | (false, c) => say s c (r_error (bs "WRONGPASS") (bs "Invalid username or password"))
       | (true, c) => say s (cn_set_resp3 (proto =? 3) c) (r_hello (sv_node_id s) (proto =? 3))
       end.

Definition cmd_auth (e : cenv) (s : srv_t) (c : conn) (argv : list (list Z)) : result :=
  let argc := Z.of_nat (length argv) in
  if (argc <? 2) || (3 <? argc) then say s c (r_err (bs "wrong number of arguments for AUTH"))
  else
    let '(uname, upass) := if argc =? 2 then (bs "default", argn argv 1) else (argn argv 1, argn argv 2) in
    if negb (db_require_auth (sv_auth s)) then say s c r_ok
    else match vc_auth_verify (ce_digest e 0) (sv_auth s) uname upass with
         | None => say s c (r_error (bs "WRONGPASS") (bs "Invalid username or password"))
         | Some u => say s (cn_login (ce_rand e) u c) r_ok
         end.

Definition cmd_select (e : cenv) (s : srv_t) (c : conn) (argv : list (list Z)) : result :=
  argc_check 1 1 argv s c
    (if negb (parse_out (argn argv 1) =? 0)
     then say s c (r_err (bs "VoidCache supports only DB 0 (keyspace is global)"))
     else say s c r_ok).

Definition cmd_quit (e : cenv) (s : srv_t) (c : conn) (argv : list (list Z)) : result :=
  say s (cn_set_state VC_CONN_CLOSING c) r_ok.

Definition cmd_reset (e : cenv) (s : srv_t) (c : conn) (argv : list (list Z)) : result :=
  say s (cn_set_db 0 c) (r_simple (bs "RESET")).

Definition client_ok : list (list Z) :=
  [bs "NO-EVICT"; bs "NO-TOUCH"; bs "UNPAUSE"; bs "PAUSE"; bs "CACHING"; bs "REPLY"; bs "TRACKING"].

Definition cmd_client (e : cenv) (s : srv_t) (c : conn) (argv : list (list Z)) : result :=
  argc_min 2 argv s c
    (let sub := argn argv 1 in
     if strcaseeq sub (bs "SETNAME") then say s c r_ok
     else if strcaseeq sub (bs "GETNAME") then say s c (r_bulk [])
     else if strcaseeq sub (bs "ID") then say s c (r_int (cn_fd c))
     else if existsb (strcaseeq sub) client_ok then say s c r_ok
     else if strcaseeq sub (bs "INFO") then
       say s c (r_bulk (take 255 (bs "id=" ++ dec (cn_fd c) ++ CRLF ++ bs "addr=" ++ cn_peer_addr c ++ bs ":" ++
                        dec (cn_peer_port c) ++ CRLF ++ bs "cmd=client" ++ CRLF)))
     else if strcaseeq sub (bs "LIST") then
       say s c (r_bulk (bs "id=" ++ dec (cn_fd c) ++ bs " addr=" ++ cn_peer_addr c ++ bs ":" ++
         dec (cn_peer_port c) ++ bs " fd=" ++ dec (cn_fd c) ++
         bs " name= age=0 idle=0 flags=N db=0 sub=0 psub=0 multi=-1 rbs=16384 rbp=0 obl=0 oll=0 omem=0 events=r cmd=client resp=2" ++ [LF]))
     else say s c (r_err (bs "unknown CLIENT subcommand"))).

(** ** Keys and values *)

Record set_opts := SetOpts { so_ttl : Z; so_nx : bool; so_xx : bool }.

(** The options of SET from argument [i] on. *)
Fixpoint set_options (fuel : nat) (argv : list (list Z)) (i : nat) (o : set_opts) : set_opts :=
  match fuel with
  | O => o
  | S fuel =>
      if (i <? length argv)%nat then
        let a := argn argv i in
        let more := (i + 1 <? length argv)%nat in
        if strcaseeq a (bs "EX") && more then
          set_options fuel argv (i + 2) (SetOpts (u32 (parse_out (argn argv (i + 1)))) (so_nx o) (so_xx o))
        else if strcaseeq a (bs "PX") && more then
          set_options fuel argv (i + 2)
            (SetOpts (u32 (Z.quot (parse_out (argn argv (i + 1))) 1000)) (so_nx o) (so_xx o))
        else if strcaseeq a (bs "NX") then set_options fuel argv (i + 1) (SetOpts (so_ttl o) true (so_xx o))
        else if strcaseeq a (bs "XX") then set_options fuel argv (i + 1) (SetOpts (so_ttl o) (so_nx o) true)
        else set_options fuel argv (i + 1) o
      else o
  end.

(** The value SET stores: for an empty one the NUL that ends the argument. *)
Definition set_value (val : list Z) : list Z := if decide (val = []) then [0] else val.

Definition cmd_set (e : cenv) (s : srv_t) (c : conn) (argv : list (list Z)) : result :=
  guarded VC_ACL_WRITE s c (argc_min 3 argv s c
    (let key := argn argv 1 in
     let o := set_options (length argv) argv 3 (SetOpts 0 false false) in
     '(r1, s) ← (if so_nx o then do_get e 0 s key else Some (None, s));
     if so_nx o && bool_decide (is_Some r1) then say s c (r_null (cn_resp3 c)) else
     '(r2, s) ← (if so_xx o then do_get e 1 s key else Some (None, s));
     if so_xx o && negb (bool_decide (is_Some r2)) then say s c (r_null (cn_resp3 c)) else
     '(err, s) ← do_set e 2 s key (set_value (argn argv 2)) (so_ttl o);
     if bool_decide (err = VC_OK) then say s c r_ok else say s c (r_err (bs "storage error")))).

Definition cmd_get (e : cenv) (s : srv_t) (c : conn) (argv : list (list Z)) : result :=
  guarded VC_ACL_READ s c (argc_check 1 1 argv s c
    ('(r, s) ← do_get e 0 s (argn argv 1);
     match r with
     | Some v => say s c (r_bulk v)
     | None => say s c (r_null (cn_resp3 c))
     end)).

Fixpoint del_loop (e : cenv) (i : nat) (s : srv_t) (keys : list (list Z)) (n : Z) : option (Z * srv_t) :=
  match keys with
  | [] => Some (n, s)
  | k :: keys =>
      '(err, s) ← do_del e i s k;
      del_loop e (S i) s keys (if bool_decide (err = VC_OK) then n + 1 else n)
  end.

Definition cmd_del (e : cenv) (s : srv_t) (c : conn) (argv : list (list Z)) : result :=
  guarded VC_ACL_WRITE s c (argc_min 2 argv s c
    ('(n, s) ← del_loop e 0 s (drop 1 argv) 0; say s c (r_int n))).

Fixpoint exists_loop (e : cenv) (i : nat) (s : srv_t) (keys : list (list Z)) (n : Z) : option (Z * srv_t) :=
  match keys with
  | [] => Some (n, s)
  | k :: keys =>
      '(r, s) ← do_get e i s k;
      exists_loop e (S i) s keys (match r with Some _ => n + 1 | None => n end)
  end.

Definition cmd_exists (e : cenv) (s : srv_t) (c : conn) (argv : list (list Z)) : result :=
  guarded VC_ACL_READ s c (argc_min 2 argv s c
    ('(n, s) ← exists_loop e 0 s (drop 1 argv) 0; say s c (r_int n))).

(** Reads the key, and writes its value back with another TTL. *)
Definition reset_ttl (e : cenv) (s : srv_t) (c : conn) (key : list Z) (ttl : Z) : result :=
  '(r, s) ← do_get e 0 s key;
  match r with
  | None => say s c (r_int 0)
  | Some v =>
      if negb (ce_malloc e) then say s c (r_err (bs "OOM"))
      else '(_, s) ← do_set e 1 s key v ttl; say s c (r_int 1)
  end.

Definition cmd_expire (e : cenv) (s : srv_t) (c : conn) (argv : list (list Z)) : result :=
  guarded VC_ACL_WRITE s c (argc_check 2 2 argv s c
    (reset_ttl e s c (argn argv 1) (u32 (parse_out (argn argv 2))))).

Definition cmd_ttl (e : cenv) (s : srv_t) (c : conn) (argv : list (list Z)) : result :=
  guarded VC_ACL_READ s c (argc_check 1 1 argv s c
    ('(r, s) ← do_get e 0 s (argn argv 1);
     match r with None => say s c (r_int (-2)) | Some _ => say s c (r_int (-1)) end)).

Definition cmd_pttl : handler := cmd_ttl.

Definition cmd_persist (e : cenv) (s : srv_t) (c : conn) (argv : list (list Z)) : result :=
  guarded VC_ACL_WRITE s c (argc_check 1 1 argv s c (reset_ttl e s c (argn argv 1) 0)).

Definition type_name (v : list Z) : list Z :=
  if has_magic v then
    let t := nth 4 v 0 in
    if t =? VC_TYPE_INT64 then bs "integer"
    else if t =? VC_TYPE_FLOAT64 then bs "float"
    else if t =? VC_TYPE_BOOL then bs "boolean"
    else if t =? VC_TYPE_JSON then bs "json"
    else if t =? VC_TYPE_LIST then bs "list"
    else if t =? VC_TYPE_HASH then bs "hash"
    else if t =? VC_TYPE_BINARY then bs "binary"
    else bs "string"
  else bs "string".

Definition cmd_type (e : cenv) (s : srv_t) (c : conn) (argv : list (list Z)) : result :=
  guarded VC_ACL_READ s c (argc_check 1 1 argv s c
    ('(r, s) ← do_get e 0 s (argn argv 1);
     match r with None => say s c (r_simple (bs "none")) | Some v => say s c (r_simple (type_name v)) end)).

Fixpoint mget_loop (e : cenv) (i : nat) (s : srv_t) (c : conn) (keys : list (list Z)) : result :=
  match keys with
  | [] => Some (s, c)
  | k :: keys =>
      '(r, s) ← do_get e i s k;
      mget_loop e (S i) s
        (cn_write (match r with Some v => r_bulk v | None => r_null (cn_resp3 c) end) c) keys
  end.

Definition cmd_mget (e : cenv) (s : srv_t) (c : conn) (argv : list (list Z)) : result :=
  guarded VC_ACL_READ s c (argc_min 2 argv s c
    (mget_loop e 0 s (cn_write (r_array (Z.of_nat (length argv) - 1)) c) (drop 1 argv))).

Fixpoint mset_loop (e : cenv) (i : nat) (s : srv_t) (pairs : list (list Z)) : option srv_t :=
  match pairs with
  | k :: v :: pairs => '(_, s) ← do_set e i s k v 0; mset_loop e (S i) s pairs
  | _ => Some s
  end.

Definition cmd_mset (e : cenv) (s : srv_t) (c : conn) (argv : list (list Z)) : result :=
  guarded VC_ACL_WRITE s c
    (if (Z.of_nat (length argv) <? 3) || (Z.of_nat (length argv) mod 2 =? 0)
     then say s c (r_err (bs "wrong number of arguments"))
     else s ← mset_loop e 0 s (drop 1 argv); say s c r_ok).

(** The number a value holds: typed, or the text of its first 31 bytes. *)
Definition int_of_value (v : list Z) : Z :=
  if (Z.of_nat (length v) =? VC_WIRE_MAGIC_LEN + 1 + 8) && bool_decide (take 4 v = VC_WIRE_MAGIC) &&
     (nth 4 v 0 =? VC_TYPE_INT64)
  then s64 (le_decode (drop 5 v))
  else parse_out (take 31 v).

Definition int_value (n : Z) : list Z := VC_WIRE_MAGIC ++ [VC_TYPE_INT64] ++ int64_bytes n.

Definition cmd_incrby (e : cenv) (s : srv_t) (c : conn) (argv : list (list Z)) (delta : Z) : result :=
  guarded VC_ACL_WRITE s c (argc_check 1 2 argv s c
    (let delta := if Z.of_nat (length argv) =? 3 then parse_out (argn argv 2) else delta in
     '(r, s) ← do_get e 0 s (argn argv 1);
     let cur := match r with Some v => int_of_value v | None => 0 end + delta in
     if negb (in_int64 cur) then None else
     let c := cn_write (r_typed VC_TYPE_INT64 (int64_bytes cur)) c in
     '(_, s) ← do_set e 1 s (argn argv 1) (int_value cur) 0;
     say s c (r_int cur))).

Definition cmd_incr (e : cenv) (s : srv_t) (c : conn) (argv : list (list Z)) : result :=
  cmd_incrby e s c argv 1.
Definition cmd_decr (e : cenv) (s : srv_t) (c : conn) (argv : list (list Z)) : result :=
  cmd_incrby e s c argv (-1).
Definition cmd_incrby2 (e : cenv) (s : srv_t) (c : conn) (argv : list (list Z)) : result :=
  cmd_incrby e s c argv (if Z.of_nat (length argv) =? 3 then parse_out (argn argv 2) else 0).
Definition cmd_decrby (e : cenv) (s : srv_t) (c : conn) (argv : list (list Z)) : result :=
  let d := if Z.of_nat (length argv) =? 3 then parse_out (argn argv 2) else 0 in
  if d =? INT64_MIN then None else cmd_incrby e s c argv (- d).

Definition cmd_append (e : cenv) (s : srv_t) (c : conn) (argv : list (list Z)) : result :=
  guarded VC_ACL_WRITE s c (argc_check 2 2 argv s c
    (let key := argn argv 1 in
     let a := argn argv 2 in
     '(r, s) ← do_get e 0 s key;
     match r with
     | Some v =>
         if negb (ce_malloc e) then say s c (r_err (bs "OOM"))
         else '(_, s) ← do_set e 1 s key (v ++ a) 0; say s c (r_int (Z.of_nat (length (v ++ a))))
     | None => '(_, s) ← do_set e 1 s key a 0; say s c (r_int (Z.of_nat (length a)))
     end)).

Definition cmd_rename (e : cenv) (s : srv_t) (c : conn) (argv : list (list Z)) : result :=
  guarded VC_ACL_WRITE s c (argc_check 2 2 argv s c
    ('(r, s) ← do_get e 0 s (argn argv 1);
     match r with
     | None => say s c (r_err (bs "no such key"))
     | Some v =>
         if negb (ce_malloc e) then say s c (r_err (bs "OOM"))
         else '(_, s) ← do_del e 1 s (argn argv 1);
              '(_, s) ← do_set e 2 s (argn argv 2) v 0;
              say s c r_ok
     end)).

(** ** Keyspace *)

Definition cmd_dbsize (e : cenv) (s : srv_t) (c : conn) (argv : list (list Z)) : result :=
  guarded VC_ACL_READ s c (say s c (r_int (s64 (st_total_keys (kv_stats (sv_cache s)))))).

(** [strndup(k, kl)], which may fail, with the length kept at [kl]: the reply reads [kl] bytes
    through NULL, or past the block of a key that holds a NUL. *)
Definition dup_key (granted : bool) (k : list Z) : option (list Z) :=
  if granted then if decide (cstr k = k) then Some k else None else None.

Fixpoint dup_keys (granted : nat -> bool) (i : nat) (ks : list (list Z)) : option (list (list Z)) :=
  match ks with
  | [] => Some []
  | k :: ks => k ← dup_key (granted i) k; ks ← dup_keys granted (S i) ks; Some (k :: ks)
  end.

Definition MAX_KEYS : nat := Z.to_nat 65536.

Definition live_keys (slots : list (list (option (list Z)))) : list (list Z) :=
  omap id (concat slots).

Definition cmd_keys (e : cenv) (s : srv_t) (c : conn) (argv : list (list Z)) : result :=
  guarded VC_ACL_READ s c (argc_check 1 1 argv s c
    (if negb (ce_malloc e) then say s c (r_err (bs "OOM"))
     else ks ← dup_keys (ce_dup e) 0 (take MAX_KEYS (live_keys (kv_slots (sv_cache s))));
          say s c (r_array (Z.of_nat (length ks)) ++ concat (r_bulk <$> ks)))).

(** The inner loop of SCAN over the slots of one shard: the keys taken and the slot
    reached. *)
Fixpoint scan_slots (fuel : nat) (slots : list (option (list Z))) (slot nk count : Z)
    : Z * list (list Z) :=
  match fuel with
  | O => (slot, [])
  | S fuel =>
      if (slot <? Z.of_nat (length slots)) && (nk <? count) then
        match slots !! Z.to_nat slot with
        | Some (Some k) =>
            let '(sl, ks) := scan_slots fuel slots (slot + 1) (nk + 1) count in (sl, k :: ks)
        | _ => scan_slots fuel slots (slot + 1) nk count
        end
      else (slot, [])
  end.

(** The outer loop: the next cursor and the keys; [shard] and [slot] are where the
    walk stands. *)
Fixpoint scan_shards (fuel : nat) (tables : list (list (option (list Z)))) (shard slot nk count : Z)
    : Z * list (list Z) :=
  match fuel with
  | O => (0, [])
  | S fuel =>
      if (shard <? VC_NUM_SHARDS) && (nk <? count) then
        let slots := default [] (tables !! Z.to_nat shard) in
        let '(slot, ks) := scan_slots (S (length slots)) slots slot nk count in
        let nk := nk + Z.of_nat (length ks) in
        if Z.of_nat (length slots) <=? slot then
          let '(cur, ks') := scan_shards fuel tables (shard + 1) 0 nk count in (cur, ks ++ ks')
        else (Z.lor (Z.shiftl shard 20) slot, ks)
      else (0, [])
  end.

Definition scan_count (argv : list (list Z)) : Z :=
  foldl (fun n i => if strcaseeq (argn argv i) (bs "COUNT") then parse_out (argn argv (i + 1)) else n)
    10 (seq 2 (length argv - 3)).

(** [count] and [cursor] are [int64_t]; the comparison is with [(int)count]. *)
Definition scan (tables : list (list (option (list Z)))) (cursor count : Z) : Z * list (list Z) :=
  scan_shards 65 tables (Z.land (Z.shiftr cursor 20) 0x3F) (Z.land cursor 0xFFFFF) 0 (s32 count).

Definition cmd_scan (e : cenv) (s : srv_t) (c : conn) (argv : list (list Z)) : result :=
  guarded VC_ACL_READ s c
    (let cursor := if 2 <=? Z.of_nat (length argv) then parse_out (argn argv 1) else 0 in
     let '(next, ks) := scan (kv_slots (sv_cache s)) cursor (scan_count argv) in
     if negb (ce_malloc e) && negb (bool_decide (ks = [])) then None else
     ks ← dup_keys (ce_dup e) 0 ks;
     say s c (r_array 2 ++ r_bulk (dec next) ++ r_array (Z.of_nat (length ks)) ++ concat (r_bulk <$> ks))).

Definition cmd_flushdb (e : cenv) (s : srv_t) (c : conn) (argv : list (list Z)) : result :=
  guarded VC_ACL_ADMIN s c (k ← kv_flush (sv_cache s); say (with_cache k s) c r_ok).

(** ** Server information *)

Definition mode_name (s : srv_t) : list Z :=
  if sv_cluster_enabled s then bs "cluster" else bs "standalone".

Definition info_text (s : srv_t) : list Z :=
  let st := kv_stats (sv_cache s) in
  concat ((fun l => l ++ CRLF) <$>
    [bs "# Server"; bs "redis_version:" ++ VC_SERVER_VERSION; bs "redis_mode:" ++ mode_name s;
     bs "server:voidcache"; bs "version:" ++ VC_SERVER_VERSION; bs "node_id:" ++ cstr (sv_node_id s);
     bs "mode:" ++ mode_name s; bs "os:Linux"; bs "arch_bits:64"; [];
     bs "# Clients"; bs "connected_clients:" ++ dec (sv_total_conns s);
     bs "total_connections_received:" ++ dec (sv_total_conns s); [];
     bs "# Stats"; bs "total_commands_processed:" ++ dec (sv_total_commands s);
     bs "keyspace_hits:" ++ dec (st_hits st); bs "keyspace_misses:" ++ dec (st_misses st);
     bs "evicted_keys:" ++ dec (st_evictions st); bs "expired_keys:" ++ dec (st_expirations st); [];
     bs "# Keyspace"; bs "db0:keys=" ++ dec (st_total_keys st); [];
     bs "# Replication"; bs "role:master"; bs "connected_slaves:0";
     bs "master_failover_state:no-failover";
     bs "master_replid:0000000000000000000000000000000000000000"; bs "master_repl_offset:0"; [];
     bs "# Persistence"; bs "loading:0"; bs "rdb_changes_since_last_save:0";
     bs "rdb_last_bgsave_status:ok"; bs "aof_enabled:0"; [];
     bs "# CPU"; bs "used_cpu_sys:0"; bs "used_cpu_user:0"; [];
     bs "# Memory"; bs "used_memory:" ++ dec (st_memory_bytes st);
     bs "maxmemory:" ++ dec (kv_max_memory (sv_cache s))]).

Definition cmd_info (e : cenv) (s : srv_t) (c : conn) (argv : list (list Z)) : result :=
  guarded VC_ACL_READ s c (say s c (r_bulk (info_text s))).

Definition config_entries (s : srv_t) : list (list Z * list Z) :=
  [(bs "hz", bs "10"); (bs "maxmemory", dec (kv_max_memory (sv_cache s)));
   (bs "maxmemory-policy", bs "allkeys-lru"); (bs "save", []); (bs "appendonly", bs "no");
   (bs "list-max-ziplist-size", bs "-2"); (bs "list-compress-depth", bs "0");
   (bs "activerehashing", bs "yes"); (bs "lazyfree-lazy-eviction", bs "no");
   (bs "latency-tracking", bs "yes"); (bs "latency-tracking-info-percentiles", bs "50 99 99.9");
   (bs "proto-max-bulk-len", bs "536870912"); (bs "activedefrag", bs "no");
   (bs "repl-backlog-size", bs "1048576"); (bs "bind-source-addr", []); (bs "socket-mark-id", bs "0")].

(** [CFGMATCH]; an empty pattern reads the byte before it. *)
Definition cfg_match (pat key : list Z) : option bool :=
  let pat := cstr pat in
  if streq pat (bs "*") || strcaseeq pat key then Some true
  else if decide (pat = []) then None
  else let n := (length pat - 1)%nat in
       Some ((nth n pat 0 =? 42) && strcaseeq (take n pat) (take n key)).

Fixpoint cfg_select (pat : list Z) (l : list (list Z * list Z)) : option (list (list Z * list Z)) :=
  match l with
  | [] => Some []
  | kv :: l =>
      match cfg_match pat kv.1 with
      | None => None
      | Some m => r ← cfg_select pat l; Some (if m then kv :: r else r)
      end
  end.

Definition cmd_config (e : cenv) (s : srv_t) (c : conn) (argv : list (list Z)) : result :=
  argc_min 2 argv s c
    (if strcaseeq (argn argv 1) (bs "GET") && (3 <=? Z.of_nat (length argv)) then
       l ← cfg_select (argn argv 2) (config_entries s);
       say s c (r_array (2 * Z.of_nat (length l)) ++ concat ((fun kv => r_bulk kv.1 ++ r_bulk kv.2) <$> l))
     else if strcaseeq (argn argv 1) (bs "SET") then say s c r_ok
     else if strcaseeq (argn argv 1) (bs "RESETSTAT") then say s c r_ok
     else say s c (r_err (bs "unknown CONFIG subcommand"))).

Definition cmd_command (e : cenv) (s : srv_t) (c : conn) (argv : list (list Z)) : result :=
  if Z.of_nat (length argv) <? 2 then say s c (r_array 0)
  else
    let sub := argn argv 1 in
    if strcaseeq sub (bs "COUNT") then say s c (r_int 0)
    else if strcaseeq sub (bs "DOCS") then say s c (if cn_resp3 c then r_map 0 else r_array 0)
    else if strcaseeq sub (bs "INFO") then
      let n := (length argv - 2)%nat in
      if (n =? 0)%nat then say s c (r_array 0)
      else say s c (r_array (Z.of_nat n) ++ concat (replicate n (r_null (cn_resp3 c))))
    else say s c (r_array 0).

Definition cmd_debug (e : cenv) (s : srv_t) (c : conn) (argv : list (list Z)) : result :=
  guarded VC_ACL_ADMIN s c (say s c r_ok).

(** ** Typed values *)

Definition type_byte (tname : list Z) : option Z :=
  if strcaseeq tname (bs "int") then Some VC_TYPE_INT64
  else if strcaseeq tname (bs "float") then Some VC_TYPE_FLOAT64
  else if strcaseeq tname (bs "bool") then Some VC_TYPE_BOOL
  else if strcaseeq tname (bs "json") then Some VC_TYPE_JSON
  else if strcaseeq tname (bs "binary") then Some VC_TYPE_BINARY
  else if strcaseeq tname (bs "string") then Some VC_TYPE_STRING
  else None.

(** What the typed writer puts on the wire. *)
Definition vcset_wire (t : Z) (val : list Z) : list Z :=
  if t =? VC_TYPE_INT64 then r_typed VC_TYPE_INT64 (int64_bytes (parse_out val))
  else if t =? VC_TYPE_FLOAT64 then r_typed VC_TYPE_FLOAT64 (strtod (cstr val))
  else if t =? VC_TYPE_BOOL then
    r_typed VC_TYPE_BOOL [if strcaseeq val (bs "true") || streq val (bs "1") then 1 else 0]
  else if t =? VC_TYPE_JSON then r_typed VC_TYPE_JSON val
  else r_typed VC_TYPE_BINARY val.

(** The payload of a bulk string, between its header and its last CR LF. *)
Definition bulk_payload (wire : list Z) : option (list Z) :=
  match memchr CR wire with
  | Some cr => if (cr + 2 <? length wire)%nat
               then Some (take (length wire - (cr + 2) - 2) (drop (cr + 2) wire)) else None
  | None => None
  end.

Definition cmd_vcset (e : cenv) (s : srv_t) (c : conn) (argv : list (list Z)) : result :=
  guarded VC_ACL_WRITE s c
    (if Z.of_nat (length argv) <? 4 then say s c (r_err (bs "Usage: VCSET key type value"))
     else match type_byte (argn argv 2) with
          | None => say s c (r_err (bs "unknown type; use int|float|bool|json|binary|string"))
          | Some t =>
              if negb (ce_malloc e) then say s c (r_err (bs "OOM"))
              else match bulk_payload (vcset_wire t (argn argv 3)) with
                   | Some p => '(_, s) ← do_set e 0 s (argn argv 1) p 0; say s c r_ok
                   | None => say s c r_ok
                   end
          end).

(** The integer of at most eight little-endian bytes. *)
Definition vcget_int (payload : list Z) : Z := s64 (le_decode (take 8 payload)).

(** The reply to VCGET; [None]: a float or bool payload too short to hold one. *)
Definition vcget_reply (v : list Z) : option (list Z) :=
  if has_magic v then
    let t := nth 4 v 0 in
    let payload := drop 5 v in
    let head name := r_map 2 ++ r_bulk (bs "type") ++ r_bulk name ++ r_bulk (bs "value") in
    if t =? VC_TYPE_INT64 then Some (head (bs "int") ++ r_int (vcget_int payload))
    else if t =? VC_TYPE_FLOAT64 then
      if (length payload <? 8)%nat then None
      else Some (head (bs "float") ++ printf_out (bs "," ++ print_g (take 8 payload) ++ CRLF))
    else if t =? VC_TYPE_BOOL then
      match payload with
      | [] => None
      | b :: _ => Some (head (bs "bool") ++ r_bool (negb (b =? 0)))
      end
    else if t =? VC_TYPE_JSON then Some (head (bs "json") ++ r_bulk payload)
    else Some (head (bs "binary") ++ r_bulk payload)
  else Some (r_map 2 ++ r_bulk (bs "type") ++ r_bulk (bs "string") ++ r_bulk (bs "value") ++ r_bulk v).

Definition cmd_vcget (e : cenv) (s : srv_t) (c : conn) (argv : list (list Z)) : result :=
  guarded VC_ACL_READ s c (argc_check 1 1 argv s c
    ('(r, s) ← do_get e 0 s (argn argv 1);
     match r with
     | None => say s c (r_null (cn_resp3 c))
     | Some v => out ← vcget_reply v; say s c out
     end)).

(** The byte of a double quote. *)
Definition DQ : list Z := [34].
Definition quoted (s : list Z) : list Z := DQ ++ s ++ DQ.

Definition vcinfo_json (s : srv_t) : list Z :=
  let st := kv_stats (sv_cache s) in
  bs "{" ++ quoted (bs "server") ++ bs ":" ++ quoted (bs "voidcache") ++ bs "," ++
  quoted (bs "version") ++ bs ":" ++ quoted VC_SERVER_VERSION ++ bs "," ++
  quoted (bs "node_id") ++ bs ":" ++ quoted (cstr (sv_node_id s)) ++ bs "," ++
  quoted (bs "shards") ++ bs ":" ++ dec VC_NUM_SHARDS ++ bs "," ++
  quoted (bs "max_memory") ++ bs ":" ++ dec (kv_max_memory (sv_cache s)) ++ bs "," ++
  quoted (bs "keys") ++ bs ":" ++ dec (st_total_keys st) ++ bs "," ++
  quoted (bs "hits") ++ bs ":" ++ dec (st_hits st) ++ bs "," ++
  quoted (bs "misses") ++ bs ":" ++ dec (st_misses st) ++ bs "," ++
  quoted (bs "evictions") ++ bs ":" ++ dec (st_evictions st) ++ bs "," ++
  quoted (bs "memory_bytes") ++ bs ":" ++ dec (st_memory_bytes st) ++ bs "}".

Definition cmd_vcinfo (e : cenv) (s : srv_t) (c : conn) (argv : list (list Z)) : result :=
  guarded VC_ACL_READ s c (say s c (r_typed VC_TYPE_JSON (vcinfo_json s))).

(** ** Cluster, ACL and monitoring stubs *)

Definition announce (s : srv_t) : list Z := default (bs "127.0.0.1") (sv_announce_addr s).

Definition cmd_cluster (e : cenv) (s : srv_t) (c : conn) (argv : list (list Z)) : result :=
  argc_min 2 argv s c
    (let sub := argn argv 1 in
     if strcaseeq sub (bs "INFO") then
       say s c (r_bulk (concat ((fun l => l ++ CRLF) <$>
         [bs "cluster_enabled:" ++ dec (if sv_cluster_enabled s then 1 else 0); bs "cluster_state:ok";
          bs "cluster_slots_assigned:16384"; bs "cluster_slots_ok:16384"; bs "cluster_known_nodes:1";
          bs "cluster_size:1"])))
     else if strcaseeq sub (bs "MYID") then say s c (r_bulk (cstr (sv_node_id s)))
     else if strcaseeq sub (bs "NODES") then
       let port := if sv_announce_port s =? 0 then sv_port s else sv_announce_port s in
       say s c (r_bulk (take 255 (cstr (sv_node_id s) ++ bs " " ++ announce s ++ bs ":" ++ dec port ++ bs "@" ++
                        dec (port + 10000) ++ bs " myself,master - 0 0 1 connected 0-16383" ++ [LF])))
     else if strcaseeq sub (bs "SLOTS") then
       say s c (r_array 1 ++ r_array 3 ++ r_int 0 ++ r_int 16383 ++ r_array 2 ++ r_bulk (announce s) ++
                r_int (sv_port s))
     else say s c (r_err (bs "unknown CLUSTER subcommand"))).

Definition acl_name (c : conn) : list Z :=
  match cn_user c with
  | Some u => if decide (u_username u = []) then bs "default" else u_username u
  | None => bs "default"
  end.

Definition cmd_acl (e : cenv) (s : srv_t) (c : conn) (argv : list (list Z)) : result :=
  argc_min 2 argv s c
    (let sub := argn argv 1 in
     if strcaseeq sub (bs "WHOAMI") then say s c (r_bulk (acl_name c))
     else if strcaseeq sub (bs "CAT") then
       say s c (r_array 4 ++ r_bulk (bs "read") ++ r_bulk (bs "write") ++ r_bulk (bs "admin") ++
                r_bulk (bs "pubsub"))
     else if strcaseeq sub (bs "LIST") then
       say s c (r_array 1 ++ r_bulk (take 127 (bs "user " ++ acl_name c ++ bs " on ~* &* +@all")))
     else if strcaseeq sub (bs "GETUSER") then say s c (r_null (cn_resp3 c))
     else if existsb (strcaseeq sub) [bs "SETUSER"; bs "DELUSER"; bs "LOG"; bs "RESET"] then say s c r_ok
     else say s c (r_err (bs "unknown ACL subcommand"))).

Definition cmd_latency (e : cenv) (s : srv_t) (c : conn) (argv : list (list Z)) : result :=
  argc_min 2 argv s c
    (let sub := argn argv 1 in
     if strcaseeq sub (bs "LATEST") then say s c (r_array 0)
     else if strcaseeq sub (bs "HISTORY") then say s c (r_array 0)
     else if strcaseeq sub (bs "RESET") then say s c (r_int 0)
     else if strcaseeq sub (bs "GRAPH") then say s c (r_bulk [])
     else say s c (r_err (bs "unknown LATENCY subcommand"))).

Definition cmd_slowlog (e : cenv) (s : srv_t) (c : conn) (argv : list (list Z)) : result :=
  argc_min 2 argv s c
    (let sub := argn argv 1 in
     if strcaseeq sub (bs "GET") then say s c (r_array 0)
     else if strcaseeq sub (bs "LEN") then say s c (r_int 0)
     else if strcaseeq sub (bs "RESET") then say s c r_ok
     else say s c (r_err (bs "unknown SLOWLOG subcommand"))).

(** ENCODING sends seven bytes of a six-byte literal: its NUL too. *)
Definition cmd_object (e : cenv) (s : srv_t) (c : conn) (argv : list (list Z)) : result :=
  argc_min 2 argv s c
    (let sub := argn argv 1 in
     if strcaseeq sub (bs "ENCODING") then say s c (r_bulk (bs "embstr" ++ [0]))
     else if strcaseeq sub (bs "REFCOUNT") then say s c (r_int 1)
     else if strcaseeq sub (bs "IDLETIME") then say s c (r_int 0)
     else if strcaseeq sub (bs "FREQ") then say s c (r_int 0)
     else if strcaseeq sub (bs "HELP") then say s c (r_array 0)
     else say s c (r_err (bs "unknown OBJECT subcommand"))).

Definition cmd_wait (e : cenv) (s : srv_t) (c : conn) (argv : list (list Z)) : result :=
  say s c (r_int 0).

Definition wrong_type : list Z :=
  r_error (bs "WRONGTYPE") (bs "Operation against a key holding the wrong kind of value").

Definition cmd_xlen (e : cenv) (s : srv_t) (c : conn) (argv : list (list Z)) : result :=
  say s c wrong_type.
Definition cmd_srandmember (e : cenv) (s : srv_t) (c : conn) (argv : list (list Z)) : result :=
  say s c wrong_type.

(** ** Dispatch *)

Record cmd_entry := CmdEntry { ce_name : list Z; ce_fn : handler; ce_acl : Z }.

Definition cmd_table : list cmd_entry :=
  [CmdEntry (bs "PING") cmd_ping 0; CmdEntry (bs "HELLO") cmd_hello 0; CmdEntry (bs "AUTH") cmd_auth 0;
   CmdEntry (bs "SELECT") cmd_select 0; CmdEntry (bs "QUIT") cmd_quit 0; CmdEntry (bs "CLIENT") cmd_client 0;
   CmdEntry (bs "GET") cmd_get VC_ACL_READ; CmdEntry (bs "MGET") cmd_mget VC_ACL_READ;
   CmdEntry (bs "EXISTS") cmd_exists VC_ACL_READ; CmdEntry (bs "TTL") cmd_ttl VC_ACL_READ;
   CmdEntry (bs "PTTL") cmd_pttl VC_ACL_READ; CmdEntry (bs "TYPE") cmd_type VC_ACL_READ;
   CmdEntry (bs "DBSIZE") cmd_dbsize VC_ACL_READ; CmdEntry (bs "KEYS") cmd_keys VC_ACL_READ;
   CmdEntry (bs "SCAN") cmd_scan VC_ACL_READ; CmdEntry (bs "INFO") cmd_info VC_ACL_READ;
   CmdEntry (bs "SET") cmd_set VC_ACL_WRITE; CmdEntry (bs "MSET") cmd_mset VC_ACL_WRITE;
   CmdEntry (bs "DEL") cmd_del VC_ACL_WRITE; CmdEntry (bs "EXPIRE") cmd_expire VC_ACL_WRITE;
   CmdEntry (bs "PERSIST") cmd_persist VC_ACL_WRITE; CmdEntry (bs "RENAME") cmd_rename VC_ACL_WRITE;
   CmdEntry (bs "APPEND") cmd_append VC_ACL_WRITE; CmdEntry (bs "INCR") cmd_incr VC_ACL_WRITE;
   CmdEntry (bs "DECR") cmd_decr VC_ACL_WRITE; CmdEntry (bs "INCRBY") cmd_incrby2 VC_ACL_WRITE;
   CmdEntry (bs "DECRBY") cmd_decrby VC_ACL_WRITE;
   CmdEntry (bs "FLUSHDB") cmd_flushdb VC_ACL_ADMIN; CmdEntry (bs "FLUSHALL") cmd_flushdb VC_ACL_ADMIN;
   CmdEntry (bs "CONFIG") cmd_config VC_ACL_ADMIN; CmdEntry (bs "DEBUG") cmd_debug VC_ACL_ADMIN;
   CmdEntry (bs "COMMAND") cmd_command 0; CmdEntry (bs "CLUSTER") cmd_cluster 0;
   CmdEntry (bs "VCSET") cmd_vcset VC_ACL_WRITE; CmdEntry (bs "VCGET") cmd_vcget VC_ACL_READ;
   CmdEntry (bs "VCINFO") cmd_vcinfo VC_ACL_READ; CmdEntry (bs "RESET") cmd_reset 0;
   CmdEntry (bs "ACL") cmd_acl 0; CmdEntry (bs "LATENCY") cmd_latency VC_ACL_ADMIN;
   CmdEntry (bs "SLOWLOG") cmd_slowlog VC_ACL_ADMIN; CmdEntry (bs "OBJECT") cmd_object VC_ACL_READ;
   CmdEntry (bs "WAIT") cmd_wait 0; CmdEntry (bs "XLEN") cmd_xlen VC_ACL_READ;
   CmdEntry (bs "SRANDMEMBER") cmd_srandmember VC_ACL_READ].

(** The bytes of the message, with its em dash in UTF-8. *)
Definition unknown_command : list Z :=
  r_err (bs "unknown command " ++ [0xE2; 0x80; 0x94] ++ bs " see https://voidcache.io/commands").

Fixpoint find_command (name : list Z) (l : list cmd_entry) : option cmd_entry :=
  match l with
  | [] => None
  | x :: l => if strcaseeq name (ce_name x) then Some x else find_command name l
  end.

Definition vc_dispatch (e : cenv) (s : srv_t) (c : conn) (argv : list (list Z)) : result :=
  match argv with
  | [] => Some (s, c)
  | name :: _ =>
      match find_command name cmd_table with
      | None => say s c unknown_command
      | Some x =>
          let denied := if ce_acl x =? 0 then None else need_auth s c (ce_acl x) in
          match denied with
          | Some err => say s c err
          | None => '(s, c) ← ce_fn x e s c argv; Some (count_command s, c)
          end
      end
  end.
End Handlers.
