(* ===== verification/CommandsSpec.v ===== *)
(** * Correctness of the commands

    Access control and the replies of the handlers of [Commands.v], for any store
    that satisfies the laws of [Kv.v]; the witnesses run the handlers on the cache
    of [Cache.v]. *)

From S2P Require Import Prelude Hash Slab Entry Shard Wal Cache CacheInv CacheSafe CacheSpec CacheThm.
From S2P Require Import Proto ProtoSpec Auth Kv Commands.

Section Access.
Context {C : Type} {KV : Kv C} {L : KvLaws C}.
Context (strtod : list Z -> list Z) (print_g : list Z -> list Z).

Abbreviation dispatch := (vc_dispatch strtod print_g).
Abbreviation table := (cmd_table strtod print_g).

(** ** Handlers that need no right *)

(** The arguments of the command hold credentials that [vc_auth_verify] accepts. *)
Definition presents (db : vc_auth_db) (argv : list (list Z)) (u : vc_user) : Prop :=
  exists digest name pw, vc_auth_verify digest db name pw = Some u /\
    (name = bs "default" \/ exists a, a ∈ tail argv /\ (name = a \/ name = cstr a)) /\
    (exists a, a ∈ tail argv /\ (pw = a \/ pw = cstr a)).

(** A handler that leaves the server alone, and the user too unless it logs in. *)
Definition harmless (h : cenv -> server C -> conn -> list (list Z) -> option (server C * conn)) : Prop :=
  forall e s c argv, exists c', h e s c argv = Some (s, c') /\
    (cn_user c' = cn_user c \/
     exists u, cn_user c' = Some u /\ presents (sv_auth s) argv u).

Lemma argn_in argv i : (0 < i < length argv)%nat -> argn argv i ∈ tail argv.
Proof.
  intros [H0 Hi]. destruct (lookup_lt_is_Some_2 argv i Hi) as [a Ha]. unfold argn. rewrite Ha.
  destruct argv as [|x argv]; [done|]. destruct i as [|i]; [lia|]. by eapply list_elem_of_lookup_2.
Qed.

Lemma hello_auth_user fuel e (s : server C) c argv i ok c' :
  hello_auth fuel e s c argv i = (ok, c') ->
  cn_user c' = cn_user c \/ exists u, cn_user c' = Some u /\ presents (sv_auth s) argv u.
Proof.
  revert c i. induction fuel as [|fuel IH]; intros c i; cbn [hello_auth]; [intros [= _ <-]; by left|].
  destruct (Nat.ltb_spec i (length argv - 1)) as [Hi|]; [|intros [= _ <-]; by left].
  destruct (strcaseeq _ _ && _) eqn:Ea; [|apply IH].
  apply andb_true_iff in Ea as [_ Hb%Nat.ltb_lt].
  destruct (vc_auth_verify _ _ _ _) as [u|] eqn:Ev; [|intros [= _ <-]; by left]. intros [Hc|Hc]%IH; [|by right].
  right. exists u. split; [by rewrite Hc|].
  eexists _, (cstr (argn argv (i + 1))), (cstr (argn argv (i + 2))). split; [done|].
  split; [right; exists (argn argv (i + 1)) | exists (argn argv (i + 2))];
    (split; [apply argn_in; lia | by right]).
Qed.

Lemma hello_harmless : harmless cmd_hello.
Proof.
  intros e s c argv. unfold cmd_hello. cbv zeta. generalize (if 2 <=? Z.of_nat (length argv) then s32 (parse_out (argn argv 1)) else 2). intros pr.
  destruct (negb _ && _); [eexists; split; [reflexivity | by left]|].
  destruct (hello_auth _ _ _ _ _ _) as [ok c1] eqn:E. apply hello_auth_user in E.
  destruct ok; (eexists; split; [reflexivity|]; exact E).
Qed.

Lemma auth_harmless : harmless cmd_auth.
Proof.
  intros e s c argv. unfold cmd_auth.
  destruct (_ || _) eqn:Ea; [eexists; split; [reflexivity | by left]|].
  apply orb_false_iff in Ea as [Hlo%Z.ltb_ge Hhi%Z.ltb_ge].
  destruct (Z.eqb_spec (Z.of_nat (length argv)) 2) as [H2|H2];
    (destruct (negb _); [eexists; split; [reflexivity | by left]|]);
    (destruct (vc_auth_verify _ _ _ _) as [u|] eqn:Ev; [|eexists; split; [reflexivity | by left]]);
    eexists; (split; [reflexivity|]); right; exists u; (split; [done|]); eexists _, _, _; (split; [exact Ev|]).
  - split; [by left|]. exists (argn argv 1); split; [apply argn_in; lia | by left].
  - split; [right; exists (argn argv 1) | exists (argn argv 2)]; (split; [apply argn_in; lia | by left]).
Qed.

(** Every branch of the handler only replies. *)
Ltac only_says :=
  intros e s c argv;
  repeat first [ case_match | progress cbv zeta beta ];
  (eexists; split; [reflexivity | by left]).

Lemma quiet_handlers :
  Forall (fun x => ce_acl x = 0 -> harmless (ce_fn x)) table.
Proof.
  unfold cmd_table. repeat apply Forall_cons_2; try apply Forall_nil_2;
    cbn [ce_acl ce_fn]; try discriminate; intros _.
  - unfold harmless, cmd_ping. only_says.
  - apply hello_harmless.
  - apply auth_harmless.
  - unfold harmless, cmd_select, argc_check. only_says.
  - unfold harmless, cmd_quit. only_says.
  - unfold harmless, cmd_client, argc_min. only_says.
  - unfold harmless, cmd_command. only_says.
  - unfold harmless, cmd_cluster, argc_min. only_says.
  - unfold harmless, cmd_reset. only_says.
  - unfold harmless, cmd_acl, argc_min. only_says.
  - unfold harmless, cmd_wait. only_says.
Qed.

(** ** Handlers that only read *)

(** The server is the same but for statistics and access bits of the store. *)
Definition same_store (s s' : server C) : Prop :=
  sv_auth s' = sv_auth s /\ kv_ok (sv_cache s') /\ kv_map (sv_cache s') = kv_map (sv_cache s).

Lemma same_store_refl s : kv_ok (sv_cache s) -> same_store s s.
Proof. by split. Qed.

Lemma same_store_trans s1 s2 s3 : same_store s1 s2 -> same_store s2 s3 -> same_store s1 s3.
Proof. intros (A & _ & B) (A' & Hok & B'). split; [by rewrite A'|]. by rewrite B'. Qed.

(** A key the store accepts. *)
Definition short (a : list Z) : Prop := Z.of_nat (length a) < 2 ^ 32.

Lemma argn_short argv i : Forall short argv -> short (argn argv i).
Proof.
  intros H. unfold argn. destruct (argv !! i) as [a|] eqn:E; [|by compute].
  exact (Forall_lookup_1 _ _ _ _ H E).
Qed.

Lemma do_get_keeps e i s k :
  kv_ok (sv_cache s) -> short k -> exists r s', do_get e i s k = Some (r, s') /\ same_store s s'.
Proof.
  intros Hok Hk. destruct (kv_get_law (ce_ev e i) (sv_cache s) k Hok Hk) as (r & c' & E & Hok' & Hm & _).
  unfold do_get. rewrite E. cbn [mbind option_bind]. eexists _, _. split; [reflexivity|]. by split.
Qed.

(** What a reading command may do; [ub] tells whether it may be undefined. *)
Definition reading (ub : bool) (s : server C) (c : conn) (r : option (server C * conn)) : Prop :=
  match r with
  | Some (s', c') => same_store s s' /\ cn_user c' = cn_user c
  | None => ub = true
  end.

Definition reader (ub : bool) (h : cenv -> server C -> conn -> list (list Z) -> option (server C * conn))
    : Prop :=
  forall e s c argv, kv_ok (sv_cache s) -> Forall short argv -> reading ub s c (h e s c argv).

Lemma say_reading ub s c out : kv_ok (sv_cache s) -> reading ub s c (say s c out).
Proof. intros H. split; [by apply same_store_refl | done]. Qed.

Lemma same_store_reading ub s s' c c' r :
  same_store s s' -> cn_user c' = cn_user c -> reading ub s' c' r -> reading ub s c r.
Proof.
  intros Hk Hu. destruct r as [[s2 c2]|]; [|done]. intros [Hk' Hu']. split; [by eapply same_store_trans|].
  by rewrite Hu'.
Qed.

Lemma guarded_reading ub acl s c r :
  kv_ok (sv_cache s) -> reading ub s c r -> reading ub s c (guarded acl s c r).
Proof. intros Hok Hr. unfold guarded. case_match; [by apply say_reading | done]. Qed.

Lemma argc_check_reading ub mn mx argv s c r :
  kv_ok (sv_cache s) -> reading ub s c r -> reading ub s c (argc_check mn mx argv s c r).
Proof. intros Hok Hr. unfold argc_check. cbv zeta. case_match; [by apply say_reading | done]. Qed.

Lemma argc_min_reading ub mn argv s c r :
  kv_ok (sv_cache s) -> reading ub s c r -> reading ub s c (argc_min mn argv s c r).
Proof. intros Hok Hr. unfold argc_min. case_match; [by apply say_reading | done]. Qed.

(** A read of the store, then a reading continuation. *)
Lemma get_reading ub e i s c k (next : option (list Z) * server C -> option (server C * conn)) :
  kv_ok (sv_cache s) -> short k ->
  (forall r s', same_store s s' -> reading ub s' c (next (r, s'))) ->
  reading ub s c (do_get e i s k ≫= next).
Proof.
  intros Hok Hk Hn. destruct (do_get_keeps e i s k Hok Hk) as (r & s' & -> & Hs). cbn [mbind option_bind].
  by apply (same_store_reading ub s s' c c); [| | apply Hn].
Qed.

Lemma mget_reading e i s c keys :
  kv_ok (sv_cache s) -> Forall short keys -> reading false s c (mget_loop e i s c keys).
Proof.
  intros Hok Hk. revert i s c Hok. induction Hk as [|k keys Hk Hks IH]; intros i s c Hok; cbn [mget_loop].
  { split; [by apply same_store_refl | done]. }
  apply get_reading; [done | done |]. intros r s' Hs.
  eapply (same_store_reading false s'); [apply same_store_refl, Hs | | apply IH, Hs]. done.
Qed.

Lemma exists_loop_keeps e i s keys n :
  kv_ok (sv_cache s) -> Forall short keys ->
  exists m s', exists_loop e i s keys n = Some (m, s') /\ same_store s s'.
Proof.
  intros Hok Hk. revert i s n Hok. induction Hk as [|k keys Hk Hks IH]; intros i s n Hok; cbn [exists_loop].
  { eexists _, _. split; [done | by apply same_store_refl]. }
  destruct (do_get_keeps e i s k Hok Hk) as (r & s' & -> & Hs). cbn [mbind option_bind].
  destruct (IH (S i) s' (match r with Some _ => n + 1 | None => n end) (proj1 (proj2 Hs))) as (m & s2 & -> & H2).
  eexists _, _. split; [done | by eapply same_store_trans].
Qed.

(** The guards first, then the reads, then the reply. *)
Ltac reading_step :=
  first [ apply say_reading; assumption
        | match goal with Hs : same_store _ ?x |- reading _ ?x _ (say _ _ _) => exact (say_reading _ _ _ _ (proj1 (proj2 Hs))) end
        | apply guarded_reading; [done|]
        | apply argc_check_reading; [done|]
        | apply argc_min_reading; [done|]
        | apply get_reading; [done | by apply argn_short | intros r s' Hs]
        | case_match ].
Ltac reading_tac := intros e s c argv Hok Hargs; repeat reading_step.

Lemma mapM_dup_reading s c granted ks (f : list (list Z) -> list Z) :
  kv_ok (sv_cache s) -> reading true s c (ks' ← dup_keys granted 0 ks; say s c (f ks')).
Proof. intros Hok. destruct (dup_keys granted 0 ks); [by apply say_reading | done]. Qed.

(** The commands that may be undefined on some stored keys or values. *)
Definition may_be_undefined (name : list Z) : bool :=
  existsb (fun n => bool_decide (n = name)) [bs "KEYS"; bs "SCAN"; bs "VCGET"].

Lemma reading_handlers :
  Forall (fun x => ce_acl x = VC_ACL_READ -> reader (may_be_undefined (ce_name x)) (ce_fn x)) table.
Proof.
  unfold cmd_table. repeat apply Forall_cons_2; try apply Forall_nil_2;
    cbn [ce_acl ce_fn ce_name]; try discriminate; intros _; unfold reader.
  - unfold cmd_get. reading_tac.
  - unfold cmd_mget. reading_tac.
    eapply (same_store_reading _ s); [by apply same_store_refl | | apply mget_reading; [done | by apply Forall_drop]].
    done.
  - unfold cmd_exists. reading_tac.
    destruct (exists_loop_keeps e 0 s (drop 1 argv) 0 Hok) as (m & s' & -> & Hs); [by apply Forall_drop|].
    cbn [mbind option_bind]. apply (same_store_reading _ s s' c c); [done | done | apply say_reading, Hs].
  - unfold cmd_ttl. reading_tac.
  - unfold cmd_pttl, cmd_ttl. reading_tac.
  - unfold cmd_type. reading_tac.
  - unfold cmd_dbsize. reading_tac.
  - unfold cmd_keys. intros e s c argv Hok Hargs. do 3 reading_step; [by apply say_reading|].
    by apply (mapM_dup_reading s c _ _ (fun ks => _)).
  - unfold cmd_scan. intros e s c argv Hok Hargs. apply guarded_reading; [done|]. cbv zeta.
    destruct (scan _ _ _) as [next ks]. case_match; [reflexivity|].
    by apply (mapM_dup_reading s c _ _ (fun ks => _)).
  - unfold cmd_info. reading_tac.
  - unfold cmd_vcget. reading_tac. destruct (vcget_reply _ _) as [out|]; [apply say_reading, Hs | done].
  - unfold cmd_vcinfo. reading_tac.
  - unfold cmd_object. reading_tac; cbv zeta; reading_tac.
  - unfold cmd_xlen. reading_tac.
  - unfold cmd_srandmember. reading_tac.
Qed.

(** ** Dispatch *)

Lemma find_command_in name l x :
  find_command (C := C) name l = Some x -> x ∈ l /\ strcaseeq name (ce_name x) = true.
Proof.
  induction l as [|y l IH]; cbn [find_command]; [done|].
  destruct (strcaseeq name (ce_name y)) eqn:E; [intros [= <-]; by split; [left|]|].
  intros [Hx Hn]%IH. by split; [right|].
Qed.

Lemma table_acls : Forall (fun x => ce_acl x = 0 \/ ce_acl x = VC_ACL_READ \/ ce_acl x = VC_ACL_WRITE \/
  ce_acl x = VC_ACL_ADMIN) table.
Proof. unfold cmd_table. repeat (apply Forall_cons; split; [cbn [ce_acl]; auto|]). apply Forall_nil_2. Qed.

(** One connection's commands, each with what the system answers while it runs. *)
Fixpoint session (s : server C) (c : conn) (cmds : list (cenv * list (list Z)))
    : option (server C * conn) :=
  match cmds with
  | (e, argv) :: cmds => '(s, c) ← dispatch e s c argv; session s c cmds
  | [] => Some (s, c)
  end.

Lemma dispatch_unauthenticated e s c argv :
  db_require_auth (sv_auth s) = true -> cn_user c = None ->
  (forall u, ~ presents (sv_auth s) argv u) ->
  exists s' c', dispatch e s c argv = Some (s', c') /\ sv_auth s' = sv_auth s /\
    sv_cache s' = sv_cache s /\ cn_user c' = None.
Proof.
  intros Hr Hu Hp. destruct argv as [|name args]; cbn [vc_dispatch].
  { eexists _, _. done. }
  destruct (find_command _ _) as [x|] eqn:Ef; [|eexists _, _; split; [reflexivity|]; done].
  apply find_command_in in Ef as [Hx _]. destruct (Z.eqb_spec (ce_acl x) 0) as [H0|H0].
  - pose proof (proj1 (Forall_forall _ _) quiet_handlers x Hx H0) as Hh.
    destruct (Hh e s c (name :: args)) as (c' & -> & Hc). cbn [mbind option_bind].
    eexists _, _. split; [reflexivity|]. split; [done|]. split; [done|].
    destruct Hc as [Hc|(u & _ & Hc)]; [by rewrite Hc | by destruct (Hp u)].
  - unfold need_auth. rewrite Hr, Hu. cbn [negb]. eexists _, _. split; [reflexivity|]. done.
Qed.

Lemma dispatch_read_only e s c argv u :
  kv_ok (sv_cache s) -> Forall short argv -> db_require_auth (sv_auth s) = true -> cn_user c = Some u ->
  vc_acl_check (Some u) VC_ACL_WRITE = false -> vc_acl_check (Some u) VC_ACL_ADMIN = false ->
  match dispatch e s c argv with
  | Some (s', _) => same_store s s'
  | None => exists n, may_be_undefined n = true /\ strcaseeq (argn argv 0) n = true
  end.
Proof.
  intros Hok Hargs Hr Hu Hw Ha. destruct argv as [|name args]; cbn [vc_dispatch]; [by apply same_store_refl|].
  destruct (find_command _ _) as [x|] eqn:Ef; [|by apply same_store_refl].
  apply find_command_in in Ef as [Hx Hn].
  destruct (proj1 (Forall_forall _ _) table_acls x Hx) as [E|[E|[E|E]]];
    [|destruct (need_auth s c (ce_acl x)) eqn:En | |];
    rewrite E; rewrite ?Z.eqb_refl; try (rewrite (proj2 (Z.eqb_neq _ 0)) by done).
  - pose proof (proj1 (Forall_forall _ _) quiet_handlers x Hx E) as Hh.
    destruct (Hh e s c (name :: args)) as (c' & -> & _). exact (same_store_refl s Hok).
  - by apply same_store_refl.
  - pose proof (proj1 (Forall_forall _ _) reading_handlers x Hx E e s c (name :: args) Hok Hargs) as Hh.
    destruct (ce_fn x e s c (name :: args)) as [[s' c']|]; cbn [mbind option_bind]; [apply Hh|].
    exists (ce_name x). by split.
  - replace (need_auth s c VC_ACL_WRITE)
      with (Some (r_error (bs "NOPERM") (bs "Permission denied for this command.")))
      by (unfold need_auth; by rewrite Hr, Hu, Hw).
    by apply same_store_refl.
  - replace (need_auth s c VC_ACL_ADMIN)
      with (Some (r_error (bs "NOPERM") (bs "Permission denied for this command.")))
      by (unfold need_auth; by rewrite Hr, Hu, Ha).
    by apply same_store_refl.
Qed.

(** On a server that requires authentication, a connection that presents no
    accepted credentials cannot touch the cache: any sequence of commands runs to
    its end and leaves the store as it was, and the connection has no user. *)
Theorem unauthenticated_session s c cmds :
  db_require_auth (sv_auth s) = true -> cn_user c = None ->
  (forall e argv u, (e, argv) ∈ cmds -> ~ presents (sv_auth s) argv u) ->
  exists s' c', session s c cmds = Some (s', c') /\ sv_cache s' = sv_cache s /\ cn_user c' = None.
Proof.
  revert s c. induction cmds as [|[e argv] cmds IH]; intros s c Hr Hu Hp; cbn [session].
  { by exists s, c. }
  destruct (dispatch_unauthenticated e s c argv Hr Hu) as (s1 & c1 & -> & Ha & Hs & Hu1).
  { intros u. apply (Hp e). left. }
  cbn [mbind option_bind]. destruct (IH s1 c1) as (s2 & c2 & E & Hs2 & Hu2).
  - by rewrite Ha.
  - done.
  - intros e' argv' u Hin. rewrite Ha. apply (Hp e'). by right.
  - eexists _, _. split; [exact E|]. by rewrite Hs2.
Qed.

(** C12: a user without the write and admin rights cannot change a binding: every
    command leaves the contents of the store as they were, and only KEYS, SCAN and
    VCGET can be undefined (on keys with a NUL, without memory for copies of the keys, and
    on malformed typed values). *)
Theorem read_only_user e s c argv u :
  kv_ok (sv_cache s) -> Forall short argv -> db_require_auth (sv_auth s) = true -> cn_user c = Some u ->
  vc_acl_check (Some u) VC_ACL_WRITE = false -> vc_acl_check (Some u) VC_ACL_ADMIN = false ->
  match dispatch e s c argv with
  | Some (s', _) => kv_ok (sv_cache s') /\ kv_map (sv_cache s') = kv_map (sv_cache s)
  | None => exists n, may_be_undefined n = true /\ strcaseeq (argn argv 0) n = true
  end.
Proof.
  intros Hok Hargs Hr Hu Hw Ha. pose proof (dispatch_read_only e s c argv u Hok Hargs Hr Hu Hw Ha) as H.
  destruct (dispatch e s c argv) as [[s' c']|]; [apply H | done].
Qed.
End Access.

(** ** A server over the small cache *)

Definition mini_server (db : vc_auth_db) : server vc_cache :=
  Server mini db (bs "n1") 1 0 false None 0 6379.
Definition mini_conn (u : option vc_user) : conn := Conn 5 VC_CONN_CONNECTED false u [] 0 (bs "127.0.0.1") 4000 [].
Definition mini_cenv (now : Z) : cenv := CEnv (fun _ => clock now) true None (fun _ => true) (fun _ => true).

(** Doubles stood for by eight zero bytes, printed as 0. *)
Definition no_strtod (_ : list Z) : list Z := replicate 8 0.
Definition no_print_g (_ : list Z) : list Z := bs "0".

Definition bob : vc_user := User (bs "bob") (vc_sha256 true (bs "pw")) VC_ACL_READ true.

Lemma mini_kv_ok : kv_ok mini.
Proof. destruct mini_ok as (k & Hok & _). by exists k. Qed.

Lemma mini_shards : c_shards mini = replicate 64 (new_shard 4).
Proof. vm_compute. reflexivity. Qed.

Lemma mini_ready now k v : k <> [] -> v <> [] -> short k -> kv_ready (clock now) mini k v.
Proof.
  intros Hk Hv Hl. split; [apply clock_fresh|]. split; [done|]. split; [done|]. split; [done|]. split; [by left|]. split.
  - exists (new_shard 4). split; [|done]. rewrite mini_shards. apply lookup_replicate. split; [done | apply home_lt].
  - intros x exp. by rewrite lookup_abs_mini.
Qed.

Lemma bob_absent argv :
  bs "bob" ∉ tail argv -> Forall (fun a => cstr a = a) (tail argv) ->
  forall u, ~ presents (AuthDb [bob] true) argv u.
Proof.
  intros Hn Hc u (digest & name & pw & Hv & Hname & _). apply verify_loop_some in Hv as (Hu & _ & Hun & _).
  apply list_elem_of_singleton in Hu as ->. cbn [bob u_username] in Hun. subst name.
  destruct Hname as [H|(a & Ha & H)]; [done|].
  rewrite (proj1 (Forall_forall _ _) Hc a Ha) in H. destruct H as [<-|<-]; done.
Qed.

Lemma unauthenticated_witness :
  exists s' c', session no_strtod no_print_g (mini_server (AuthDb [bob] true)) (mini_conn None)
    [(mini_cenv 1, [bs "SET"; bs "k"; bs "v"]); (mini_cenv 2, [bs "FLUSHALL"]);
     (mini_cenv 3, [bs "AUTH"; bs "guess"])] = Some (s', c') /\
    sv_cache s' = sv_cache (mini_server (AuthDb [bob] true)) /\ cn_user c' = None.
Proof.
  apply (unauthenticated_session no_strtod no_print_g (mini_server (AuthDb [bob] true)) (mini_conn None));
    [reflexivity | reflexivity |].
  intros e argv u Hin. apply bob_absent.
  - apply (bool_decide_unpack _). repeat (apply elem_of_cons in Hin as [[= -> ->]|Hin]; [vm_compute; exact I|]).
    by apply elem_of_nil in Hin.
  - repeat (apply elem_of_cons in Hin as [[= -> ->]|Hin]; [repeat constructor|]). by apply elem_of_nil in Hin.
Defined.

Lemma read_only_witness :
  match vc_dispatch no_strtod no_print_g (mini_cenv 1) (mini_server (AuthDb [bob] true)) (mini_conn (Some bob))
          [bs "SET"; bs "k"; bs "v"] with
  | Some (s', _) => kv_ok (sv_cache s') /\ kv_map (sv_cache s') = kv_map (sv_cache (mini_server (AuthDb [bob] true)))
  | None => exists n, may_be_undefined n = true /\ strcaseeq (argn [bs "SET"; bs "k"; bs "v"] 0) n = true
  end.
Proof.
  apply (read_only_user no_strtod no_print_g (mini_cenv 1) (mini_server (AuthDb [bob] true))
           (mini_conn (Some bob)) [bs "SET"; bs "k"; bs "v"] bob);
    [apply mini_kv_ok | by repeat constructor | reflexivity | reflexivity | reflexivity | reflexivity].
Defined.
