(* ===== verification/Replies.v ===== *)
(** * Replies of the commands

    What a permitted user is answered, and what the store holds afterwards: SET and
    GET with expiry, MGET, DEL, INCR and its relatives, typed values.  The store is
    any that satisfies the laws of [Kv.v]. *)

From S2P Require Import Prelude Hash Slab Entry Shard Wal Cache CacheInv CacheSafe CacheSpec CacheThm.
From S2P Require Import Proto ProtoSpec Auth Kv Commands CommandsSpec.

(** ** Looking at a binding *)

(** What a read finds at time [now]. *)
Definition view (now : Z) (m : kvmap) (k : list Z) : option (list Z) :=
  match m !! k with
  | Some (v, exp) => if expired_at now exp then None else Some v
  | None => None
  end.

(** The clock does not pass the expiry of the binding between the two readings. *)
Definition steady (ev : env) (m : kvmap) (k : list Z) : Prop :=
  view (ev_mono2 ev) m k = view (ev_mono ev) m k.

(** The monotonic clock stands at [now] while the command runs. *)
Definition at_time (e : cenv) (now : Z) : Prop :=
  forall i, ev_mono (ce_ev e i) = now /\ ev_mono2 (ce_ev e i) = now.

(** The bindings DEL leaves: those of other keys, and expired ones. *)
Definition del_all (now : Z) (keys : list (list Z)) (m : kvmap) : kvmap :=
  filter (fun kv => ~ (kv.1 ∈ keys /\ expired_at now kv.2.2 = false)) m.

Lemma at_time_steady e now i m k : at_time e now -> steady (ce_ev e i) m k.
Proof. intros H. destruct (H i) as [E1 E2]. unfold steady. by rewrite E1, E2. Qed.

(** ** Numbers and typed payloads *)

Lemma dec_no_nul n : - 2 ^ 63 <= n < 2 ^ 63 -> 0 ∉ dec n.
Proof.
  intros Hn Hin. destruct (dec_spec n Hn) as (ds & E & _ & Hall & _). rewrite E in Hin.
  apply elem_of_app in Hin as [Hin|Hin].
  - destruct (n <? 0); [|by apply elem_of_nil in Hin]. by apply list_elem_of_singleton in Hin.
  - rewrite Forall_forall in Hall. by apply Hall in Hin.
Qed.

Lemma parse_out_dec n : - 2 ^ 63 <= n < 2 ^ 63 -> parse_out (dec n) = n.
Proof. intros Hn. unfold parse_out. rewrite cstr_id by (by apply dec_no_nul). by rewrite strtoll_dec. Qed.

Lemma int64_bytes_le n : int64_bytes n = le_encode 8 n.
Proof.
  unfold int64_bytes, u8. cbn [seq fmap list_fmap]. cbv [le_encode]. rewrite !Z.shiftr_div_pow2 by lia.
  rewrite !Z.div_div by lia. by rewrite Z.div_1_r.
Qed.

Lemma int64_bytes_decode n : - 2 ^ 63 <= n < 2 ^ 63 -> s64 (le_decode (int64_bytes n)) = n.
Proof.
  intros Hn. rewrite int64_bytes_le, le_decode_encode. change (256 ^ Z.of_nat 8) with (2 ^ 64).
  unfold s64. rewrite Z.add_mod_idemp_l by lia. rewrite Z.mod_small by lia. lia.
Qed.

Lemma int_of_int_value n : in_int64 n = true -> int_of_value (int_value n) = n.
Proof.
  unfold in_int64, INT64_MIN, INT64_MAX. intros Hn. unfold int_of_value.
  change (_ && _ && _) with true. change (drop 5 (int_value n)) with (int64_bytes n).
  apply int64_bytes_decode. lia.
Qed.

(** The payload VCSET cuts out of the wire form is the one it wrapped. *)
Lemma bulk_payload_enc p : Z.of_nat (length p) < 2 ^ 63 -> bulk_payload (enc_bulk p) = Some p.
Proof.
  intros Hp. set (h := bs "$" ++ dec (Z.of_nat (length p))).
  assert (E : enc_bulk p = h ++ CR :: LF :: p ++ CRLF).
  { unfold enc_bulk, h, CRLF. rewrite <- !app_assoc. done. }
  assert (Hno : CR ∉ h).
  { unfold h. rewrite elem_of_app. intros [Hin|Hin]; [by apply list_elem_of_singleton in Hin|].
    by apply dec_no_cr in Hin; [|lia]. }
  unfold bulk_payload. rewrite E, memchr_at by done. rewrite !length_app. cbn [length]. rewrite length_app.
  change (length CRLF) with 2%nat. destruct (Nat.ltb_spec (length h + 2) (length h + S (S (length p + 2)))); [|lia].
  f_equal. replace (length h + 2)%nat with (length (h ++ [CR; LF])) by (rewrite length_app; cbn; lia).
  replace (h ++ CR :: LF :: p ++ CRLF) with ((h ++ [CR; LF]) ++ p ++ CRLF) by (rewrite <- app_assoc; done).
  rewrite drop_app_length. rewrite length_app. cbn [length].
  replace (length h + S (S (length p + 2)) - (length h + 2) - 2)%nat with (length p) by lia.
  apply take_app_length.
Qed.

(** ** Expiry *)

Lemma expire_at_range now n :
  0 <= now < 2 ^ 62 -> 1 <= n < 2 ^ 32 -> expire_at now n = now + n * 1000000000.
Proof.
  intros Hnow Hn. unfold expire_at. destruct (Z.eqb_spec n 0); [lia|]. rewrite u64_id by lia. apply s64_id. lia.
Qed.

Lemma view_insert now k v exp m : view now (<[k := (v, exp)]> m) k = if expired_at now exp then None else Some v.
Proof. unfold view. by rewrite lookup_insert_eq. Qed.

Lemma expired_at_pos now exp : 0 < exp -> 0 <= now < 2 ^ 63 -> expired_at now exp = (exp <? now).
Proof. intros He Hn. unfold expired_at. destruct (Z.eqb_spec exp 0); [lia|]. by rewrite s64_id by lia. Qed.

Section Replies.
Context {C : Type} {KV : Kv C} {L : KvLaws C}.
Context (strtod : list Z -> list Z) (print_g : list Z -> list Z).

Abbreviation contents_of s := (kv_map (sv_cache s)).

(** The reply to a read. *)
Definition value_reply (c : conn) (r : option (list Z)) : list Z :=
  match r with Some v => r_bulk v | None => r_null (cn_resp3 c) end.

(** The command passes the guard. *)
Definition allowed (s : server C) (c : conn) (acl : Z) : Prop := need_auth s c acl = None.

Lemma allowed_keeps s s' c out acl : same_store s s' -> allowed s c acl -> allowed s' (cn_write out c) acl.
Proof. intros (Ha & _). unfold allowed, need_auth. by rewrite Ha. Qed.

Lemma do_get_view e i s k :
  kv_ok (sv_cache s) -> short k -> steady (ce_ev e i) (contents_of s) k ->
  exists s', do_get e i s k = Some (view (ev_mono (ce_ev e i)) (contents_of s) k, s') /\ same_store s s' /\
    (forall ev k' v, kv_ready ev (sv_cache s) k' v -> kv_ready ev (sv_cache s') k' v).
Proof.
  intros Hok Hk Hst. destruct (kv_get_law (ce_ev e i) (sv_cache s) k Hok Hk) as (r & c' & E & Hok' & Hm & Hr).
  exists (with_cache c' s). unfold do_get. rewrite E. cbn [mbind option_bind].
  split; [|split; [by split | intros ev k' v; by eapply kv_get_ready]].
  do 2 f_equal. unfold steady, view in *. destruct (contents_of s !! k) as [[v exp]|]; [|done].
  destruct Hr as [Hr1 Hr2]. destruct (expired_at (ev_mono (ce_ev e i)) exp) eqn:E1; [by apply Hr1|].
  apply Hr2. split; [done|]. by destruct (expired_at (ev_mono2 (ce_ev e i)) exp).
Qed.

Lemma do_set_spec e i s k v ttl :
  kv_ok (sv_cache s) -> kv_ready (ce_ev e i) (sv_cache s) k v ->
  exists err s', do_set e i s k v ttl = Some (err, s') /\ sv_auth s' = sv_auth s /\ kv_ok (sv_cache s') /\
    ((err = VC_ERR_OOM /\ contents_of s' = contents_of s) \/
     (err = VC_OK /\ exists victim, victim <> Some k /\
        contents_of s' = <[k := (take (Z.to_nat 65535) v, expire_at (ev_mono (ce_ev e i)) ttl)]>
                           (remove_key victim (contents_of s)))).
Proof.
  intros Hok Hready. destruct (kv_set_law (ce_ev e i) (sv_cache s) k v ttl Hok Hready)
    as (err & c' & E & Hok' & Hr).
  exists err, (with_cache c' s). unfold do_set. rewrite E. cbn [mbind option_bind].
  split; [done|]. split; [done|]. split; [done|]. destruct Hr as [Hr|(-> & v' & Hm & Hne)]; [by left|].
  right. split; [done|]. exists v'. split; [exact Hne | exact Hm].
Qed.

(** ** MGET *)

Lemma cn_write_app a b c : cn_write b (cn_write a c) = cn_write (a ++ b) c.
Proof. unfold cn_write. cbn. by rewrite app_assoc. Qed.

Lemma mget_loop_spec e i s c keys now :
  kv_ok (sv_cache s) -> Forall short keys -> at_time e now ->
  exists s', mget_loop e i s c keys =
      Some (s', cn_write (concat ((fun k => value_reply c (view now (contents_of s) k)) <$> keys)) c) /\
    same_store s s'.
Proof.
  intros Hok Hk Ht. revert i s c Hok. induction Hk as [|k keys Hk _ IH]; intros i s c Hok; cbn [mget_loop].
  { exists s. split; [|by apply same_store_refl]. unfold cn_write. cbn. rewrite app_nil_r. by destruct c. }
  destruct (do_get_view e i s k Hok Hk) as (s1 & -> & Hs1 & _); [by eapply at_time_steady|].
  cbn [mbind option_bind]. destruct (Ht i) as [-> _].
  destruct (IH (S i) s1 (cn_write (value_reply c (view now (contents_of s) k)) c)) as (s2 & E & Hs2);
    [apply Hs1|].
  exists s2. split; [|by eapply same_store_trans]. unfold value_reply at 1 in E. rewrite E, cn_write_app.
  cbn [fmap list_fmap concat]. by rewrite (proj2 (proj2 Hs1)).
Qed.

(** ** DEL *)

Lemma del_all_step now k keys m :
  match m !! k with
  | Some (_, exp) =>
      if expired_at now exp then del_all now (k :: keys) m = del_all now keys m
      else del_all now (k :: keys) m = del_all now keys (delete k m)
  | None => del_all now (k :: keys) m = del_all now keys m
  end.
Proof.
  assert (Hother : forall x, x <> k -> del_all now (k :: keys) m !! x = del_all now keys m !! x).
  { intros x Hx. unfold del_all. apply option_eq. intros y. rewrite !map_lookup_filter_Some. cbn.
    rewrite elem_of_cons. naive_solver. }
  assert (Hsame : (forall v exp, m !! k = Some (v, exp) -> expired_at now exp = true) ->
                  del_all now (k :: keys) m = del_all now keys m).
  { intros Hx. apply map_eq. intros x. destruct (decide (x = k)) as [->|]; [|by apply Hother].
    unfold del_all. apply option_eq. intros [v exp]. rewrite !map_lookup_filter_Some. cbn.
    split; intros [Hm _]; (split; [done|]); rewrite (Hx _ _ Hm); naive_solver. }
  destruct (m !! k) as [[v exp]|] eqn:E; [|by apply Hsame].
  destruct (expired_at now exp) eqn:Ee; [apply Hsame; naive_solver|].
  apply map_eq. intros x. destruct (decide (x = k)) as [->|Hne].
  - transitivity (@None (list Z * Z)); [|symmetry]; unfold del_all.
    + apply map_lookup_filter_None. right. intros y Hy. rewrite E in Hy. injection Hy as <-. cbn.
      rewrite elem_of_cons. naive_solver.
    + apply map_lookup_filter_None. left. apply lookup_delete_eq.
  - rewrite Hother by done. unfold del_all. apply option_eq. intros y.
    by rewrite !map_lookup_filter_Some, lookup_delete_ne by done.
Qed.

(** The record of a deletion fits in the log. *)
Definition logs (s : server C) (k : list Z) : Prop := kv_logs (sv_cache s) (Z.of_nat (length k)).

Lemma del_loop_spec e i s keys n now :
  kv_ok (sv_cache s) -> Forall short keys -> Forall (logs s) keys -> at_time e now ->
  exists n' s', del_loop e i s keys n = Some (n', s') /\ kv_ok (sv_cache s') /\ sv_auth s' = sv_auth s /\
    contents_of s' = del_all now keys (contents_of s) /\
    n' + Z.of_nat (size (contents_of s')) = n + Z.of_nat (size (contents_of s)).
Proof.
  intros Hok Hk Hl Ht. revert i s n Hok Hl. induction Hk as [|k keys Hk _ IH]; intros i s n Hok Hl; cbn [del_loop].
  { exists n, s. split; [done|]. split; [done|]. split; [done|]. split; [|done].
    symmetry. apply map_filter_id. intros x y _ [H _]. by apply not_elem_of_nil in H. }
  apply Forall_cons in Hl as [Hlk Hl].
  destruct (kv_del_law (ce_ev e i) (sv_cache s) k Hok Hk Hlk) as (err & c' & E & Hok' & Hlogs & Hr).
  assert (Forall (logs (with_cache c' s)) keys) as Hl' by (eapply Forall_impl; [exact Hl|]; intros x; apply Hlogs).
  unfold do_del. rewrite E. cbn [mbind option_bind]. destruct (Ht i) as [Hnow _]. rewrite Hnow in Hr.
  pose proof (del_all_step now k keys (contents_of s)) as Hd.
  destruct (IH (S i) (with_cache c' s) (if bool_decide (err = VC_OK) then n + 1 else n) Hok' Hl')
    as (n2 & s2 & -> & H1 & H2 & H3 & H4).
  exists n2, s2. split; [done|]. split; [done|]. split; [done|]. cbn [with_cache sv_cache] in H3, H4.
  assert (Hno : err = VC_ERR_NOTFND /\ kv_map c' = contents_of s ->
    del_all now (k :: keys) (contents_of s) = del_all now keys (contents_of s) ->
    contents_of s2 = del_all now (k :: keys) (contents_of s) /\
    n2 + Z.of_nat (size (contents_of s2)) = n + Z.of_nat (size (contents_of s))).
  { intros [-> Hm] ->. rewrite bool_decide_false in H4 by done. by rewrite Hm in *. }
  destruct (contents_of s !! k) as [[v exp]|] eqn:Ek; [|by apply Hno].
  destruct (expired_at now exp); [by apply Hno|]. destruct Hr as [-> Hm].
  rewrite bool_decide_true in H4 by done. rewrite Hm in H3, H4. rewrite Hd. split; [done|].
  pose proof (map_size_delete_Some k (contents_of s) (ex_intro _ _ Ek)) as Hs.
  pose proof (map_size_ne_0_lookup_2 (contents_of s) k (ex_intro _ _ Ek)). lia.
Qed.

(** ** Permitted commands *)

Abbreviation dispatch := (vc_dispatch strtod print_g).
Abbreviation table := (cmd_table strtod print_g).

Lemma guarded_allowed acl s c r : allowed s c acl -> guarded acl s c r = r.
Proof. unfold allowed, guarded. by intros ->. Qed.

Lemma dispatch_allowed e s c name args x :
  find_command name table = Some x -> allowed s c (ce_acl x) ->
  dispatch e s c (name :: args) = '(s, c) ← ce_fn x e s c (name :: args); Some (count_command s, c).
Proof. intros Ef Ha. unfold vc_dispatch. rewrite Ef. unfold allowed in Ha. cbv zeta. rewrite Ha. by destruct (ce_acl x =? 0). Qed.

Lemma get_reply e s c k now :
  kv_ok (sv_cache s) -> allowed s c VC_ACL_READ -> short k -> at_time e now ->
  exists s', dispatch e s c [bs "GET"; k] =
    Some (s', cn_write (value_reply c (view now (contents_of s) k)) c) /\ same_store s s'.
Proof.
  intros Hok Ha Hk Ht.
  rewrite (dispatch_allowed e s c (bs "GET") [k] (CmdEntry (bs "GET") cmd_get VC_ACL_READ) eq_refl Ha). cbn [ce_fn].
  unfold cmd_get. rewrite guarded_allowed by done. unfold argc_check. cbv zeta. cbn [length].
  change (_ || _) with false. cbv iota. change (argn [bs "GET"; k] 1) with k.
  destruct (do_get_view e 0 s k Hok Hk) as (s1 & -> & Hs1 & _); [by eapply at_time_steady|].
  cbn [mbind option_bind]. destruct (Ht 0%nat) as [-> _].
  exists (count_command s1). split; [|exact Hs1]. unfold value_reply. by destruct (view _ _ _).
Qed.

Lemma set_options_ex k v d :
  set_options 5 [bs "SET"; k; v; bs "EX"; d] 3 (SetOpts 0 false false) = SetOpts (u32 (parse_out d)) false false.
Proof. reflexivity. Qed.

Lemma set_ex_reply e s c k v n :
  kv_ok (sv_cache s) -> allowed s c VC_ACL_WRITE -> kv_ready (ce_ev e 2) (sv_cache s) k (set_value v) ->
  1 <= n < 2 ^ 32 ->
  exists s' out, dispatch e s c [bs "SET"; k; v; bs "EX"; dec n] = Some (s', cn_write out c) /\
    sv_auth s' = sv_auth s /\ kv_ok (sv_cache s') /\
    ((out = r_err (bs "storage error") /\ contents_of s' = contents_of s) \/
     (out = r_ok /\ exists victim, victim <> Some k /\
        contents_of s' = <[k := (take (Z.to_nat 65535) (set_value v), expire_at (ev_mono (ce_ev e 2)) n)]>
                           (remove_key victim (contents_of s)))).
Proof.
  intros Hok Ha Hready Hn.
  rewrite (dispatch_allowed e s c (bs "SET") _ (CmdEntry (bs "SET") cmd_set VC_ACL_WRITE) eq_refl Ha). cbn [ce_fn].
  unfold cmd_set. rewrite guarded_allowed by done. unfold argc_min. cbn [length]. change (_ <? _) with false.
  cbv iota. replace (set_options _ _ _ _) with (SetOpts n false false).
  2: { rewrite set_options_ex, parse_out_dec by lia. by rewrite (u32_id n) by lia. }
  cbn [so_nx so_xx so_ttl mbind option_bind andb].
  change (argn _ 1) with k. change (argn _ 2) with v.
  destruct (do_set_spec e 2 s k (set_value v) n Hok Hready) as (err & s1 & -> & H1 & H2 & Hr).
  cbn [mbind option_bind]. destruct Hr as [[-> Hm]|[-> Hm]].
  - rewrite bool_decide_false by done. eexists (count_command s1), _. split; [reflexivity|]. eauto.
  - rewrite bool_decide_true by done. eexists (count_command s1), _. split; [reflexivity|]. eauto.
Qed.

Lemma incrby_reply e s c name k delta now cur :
  kv_ok (sv_cache s) -> allowed s c VC_ACL_WRITE -> short k -> at_time e now ->
  cur = (match view now (contents_of s) k with Some v => int_of_value v | None => 0 end) + delta ->
  in_int64 cur = true -> kv_ready (ce_ev e 1) (sv_cache s) k (int_value cur) ->
  exists s', cmd_incrby e s c [name; k] delta =
      Some (s', cn_write (r_typed VC_TYPE_INT64 (int64_bytes cur) ++ r_int cur) c) /\ kv_ok (sv_cache s') /\
    (contents_of s' = contents_of s \/
     exists victim, victim <> Some k /\
       contents_of s' = <[k := (int_value cur, 0)]> (remove_key victim (contents_of s))).
Proof.
  intros Hok Ha Hk Ht Hcur Hin Hready. unfold cmd_incrby. rewrite guarded_allowed by done.
  unfold argc_check. cbv zeta. cbn [length]. change (_ || _) with false. cbv iota.
  change (_ =? 3) with false. cbv iota. change (argn [name; k] 1) with k.
  destruct (do_get_view e 0 s k Hok Hk) as (s1 & -> & Hs1 & Hrd); [by eapply at_time_steady|].
  cbn [mbind option_bind]. destruct (Ht 0%nat) as [-> _]. rewrite <- Hcur, Hin. cbn [negb].
  destruct (do_set_spec e 1 s1 k (int_value cur) 0) as (err & s2 & -> & H1 & H2 & Hr);
    [apply Hs1 | by apply Hrd|].
  cbn [mbind option_bind]. exists s2. split; [unfold say; by rewrite cn_write_app|]. split; [done|].
  rewrite (proj2 (proj2 Hs1)) in Hr. destruct Hr as [[_ Hm]|(_ & v & Hv & Hm)]; [by left|]. right. eauto.
Qed.

(** ** Typed values *)

(** What VCGET answers for a value stored by VCSET with type [t]. *)
Definition typed_view (t : Z) (val : list Z) : list Z :=
  let '(name, value) :=
    if t =? VC_TYPE_INT64 then (bs "int", r_int (parse_out val))
    else if t =? VC_TYPE_FLOAT64 then (bs "float", printf_out (bs "," ++ print_g (strtod (cstr val)) ++ CRLF))
    else if t =? VC_TYPE_BOOL then (bs "bool", r_bool (strcaseeq val (bs "true") || streq val (bs "1")))
    else if t =? VC_TYPE_JSON then (bs "json", r_bulk val)
    else (bs "binary", r_bulk val) in
  r_map 2 ++ r_bulk (bs "type") ++ r_bulk name ++ r_bulk (bs "value") ++ value.

Lemma strtoll_range l : - 2 ^ 63 <= (strtoll l).1.1 < 2 ^ 63.
Proof.
  unfold strtoll, INT64_MAX, INT64_MIN. repeat case_match; cbn [fst];
    repeat match goal with H : (_ <? _) = _ |- _ => first [apply Z.ltb_lt in H | apply Z.ltb_ge in H] end; lia.
Qed.

Lemma length_int64_bytes n : length (int64_bytes n) = 8%nat.
Proof. done. Qed.

Lemma typed_length t p : length (VC_WIRE_MAGIC ++ [t] ++ p) = (5 + length p)%nat.
Proof. done. Qed.

Lemma typed_magic t p : has_magic (VC_WIRE_MAGIC ++ [t] ++ p) = true.
Proof.
  unfold has_magic. rewrite typed_length. unfold VC_WIRE_MAGIC_LEN.
  destruct (Z.ltb_spec 4 (Z.of_nat (5 + length p))); [done | lia].
Qed.

(** A wrapped payload comes out of the wire form, and VCGET reads its type and body. *)
Lemma typed_stored t body (n : nat) reply :
  (5 + length body <= n)%nat -> Z.of_nat n < 2 ^ 63 ->
  vcget_reply print_g (VC_WIRE_MAGIC ++ [t] ++ body) = Some reply ->
  exists p, bulk_payload (r_typed t body) = Some p /\ (length p <= n)%nat /\ vcget_reply print_g p = Some reply.
Proof.
  intros Hl Hn Hr. exists (VC_WIRE_MAGIC ++ [t] ++ body).
  split; [apply bulk_payload_enc; rewrite typed_length; lia|]. by rewrite typed_length.
Qed.

Lemma vcset_payload t val :
  (forall l, length (strtod l) = 8%nat) -> Z.of_nat (length val) <= 65530 ->
  exists p, bulk_payload (vcset_wire strtod t val) = Some p /\ (length p <= Z.to_nat 65535)%nat /\
    vcget_reply print_g p = Some (typed_view t val).
Proof.
  intros Hd Hl. unfold vcset_wire, typed_view.
  destruct (Z.eqb_spec t VC_TYPE_INT64) as [->|]; [|destruct (Z.eqb_spec t VC_TYPE_FLOAT64) as [->|];
    [|destruct (Z.eqb_spec t VC_TYPE_BOOL) as [->|]; [|destruct (Z.eqb_spec t VC_TYPE_JSON) as [->|]]]];
    apply typed_stored; rewrite ?length_int64_bytes, ?Hd; cbn [length]; try lia; unfold vcget_reply; rewrite typed_magic; try done; cbv zeta.
  - change (drop 5 _) with (int64_bytes (parse_out val)).
    change (nth 4 _ 0 =? VC_TYPE_INT64) with true. cbv iota. unfold vcget_int.
    rewrite take_ge by (rewrite length_int64_bytes; lia).
    rewrite int64_bytes_decode by apply strtoll_range. done.
  - change (drop 5 _) with (strtod (cstr val)). change (nth 4 _ 0 =? VC_TYPE_INT64) with false.
    change (nth 4 _ 0 =? VC_TYPE_FLOAT64) with true. cbv iota. rewrite Hd, take_ge by (rewrite Hd; lia). done.
  - by destruct (strcaseeq _ _ || _).
Qed.

Lemma vcset_reply e s c k tname t val p :
  kv_ok (sv_cache s) -> allowed s c VC_ACL_WRITE -> ce_malloc e = true -> type_byte tname = Some t ->
  bulk_payload (vcset_wire strtod t val) = Some p -> kv_ready (ce_ev e 0) (sv_cache s) k p ->
  exists s', dispatch e s c [bs "VCSET"; k; tname; val] = Some (s', cn_write r_ok c) /\
    sv_auth s' = sv_auth s /\ kv_ok (sv_cache s') /\
    (contents_of s' = contents_of s \/
     exists victim, contents_of s' = <[k := (take (Z.to_nat 65535) p, 0)]> (remove_key victim (contents_of s))).
Proof.
  intros Hok Ha Hm Ht Hp Hready.
  rewrite (dispatch_allowed e s c (bs "VCSET") _ (CmdEntry (bs "VCSET") (cmd_vcset strtod) VC_ACL_WRITE) eq_refl Ha).
  cbn [ce_fn]. unfold cmd_vcset. rewrite guarded_allowed by done. cbn [length]. change (_ <? _) with false.
  cbv iota. change (argn _ 2) with tname. change (argn _ 3) with val. change (argn _ 1) with k.
  rewrite Ht, Hm, Hp. cbn [negb].
  destruct (do_set_spec e 0 s k p 0 Hok Hready) as (err & s1 & -> & H1 & H2 & Hr). cbn [mbind option_bind].
  exists (count_command s1). split; [done|]. split; [done|]. split; [done|].
  destruct Hr as [[_ Hr]|(_ & v & _ & Hr)]; [by left|]. right. exists v. exact Hr.
Qed.

Lemma vcget_cmd_reply e s c k now v out :
  kv_ok (sv_cache s) -> allowed s c VC_ACL_READ -> short k -> at_time e now ->
  view now (contents_of s) k = Some v -> vcget_reply print_g v = Some out ->
  exists s', dispatch e s c [bs "VCGET"; k] = Some (s', cn_write out c) /\ same_store s s'.
Proof.
  intros Hok Ha Hk Ht Hv Hout.
  rewrite (dispatch_allowed e s c (bs "VCGET") _ (CmdEntry (bs "VCGET") (cmd_vcget print_g) VC_ACL_READ) eq_refl Ha).
  cbn [ce_fn]. unfold cmd_vcget. rewrite guarded_allowed by done. unfold argc_check. cbv zeta. cbn [length].
  change (_ || _) with false. cbv iota. change (argn _ 1) with k.
  destruct (do_get_view e 0 s k Hok Hk) as (s1 & -> & Hs1 & _); [by eapply at_time_steady|].
  cbn [mbind option_bind]. destruct (Ht 0%nat) as [-> _]. rewrite Hv, Hout. cbn [mbind option_bind].
  exists (count_command s1). split; [done | exact Hs1].
Qed.

Lemma auth_allowed s s' c out acl :
  sv_auth s' = sv_auth s -> allowed s c acl -> allowed s' (cn_write out c) acl.
Proof. intros Ha. unfold allowed, need_auth. by rewrite Ha. Qed.

(** ** Theorems *)

(** SET with EX, then GET on the same connection: the SET replies OK and the GET
    returns the value (its first 65535 bytes) up to and including the instant it
    expires and the null reply after it, or the SET reports a storage error and
    changes nothing. *)
Theorem set_ex_get e1 e2 s c k v n t0 t1 :
  kv_ok (sv_cache s) -> allowed s c VC_ACL_WRITE -> allowed s c VC_ACL_READ -> short k ->
  kv_ready (ce_ev e1 2) (sv_cache s) k (set_value v) ->
  at_time e1 t0 -> at_time e2 t1 -> 0 <= t0 < 2 ^ 62 -> 0 <= t1 < 2 ^ 63 -> 1 <= n < 2 ^ 32 ->
  exists s1 out, dispatch e1 s c [bs "SET"; k; v; bs "EX"; dec n] = Some (s1, cn_write out c) /\
    ((out = r_err (bs "storage error") /\ contents_of s1 = contents_of s) \/
     (out = r_ok /\ exists s2,
        dispatch e2 s1 (cn_write r_ok c) [bs "GET"; k] =
        Some (s2, cn_write (r_ok ++ if t0 + n * 1000000000 <? t1 then r_null (cn_resp3 c)
                                    else r_bulk (take (Z.to_nat 65535) (set_value v))) c))).
Proof.
  intros Hok Hw Hr Hk Hready Ht0 Ht1 H0 H1 Hn.
  destruct (set_ex_reply e1 s c k v n Hok Hw Hready Hn) as (s1 & out & E & Ha & Hok1 & Hm).
  exists s1, out. split; [done|]. destruct Hm as [Hm|(-> & victim & _ & Hm)]; [by left|].
  right. split; [done|]. destruct (get_reply e2 s1 (cn_write r_ok c) k t1) as (s2 & -> & _);
    [done | by eapply auth_allowed | done | done |].
  exists s2. rewrite cn_write_app, Hm, view_insert. destruct (Ht0 2%nat) as [-> _].
  rewrite expire_at_range by done. rewrite expired_at_pos by lia. by case_match.
Qed.

(** MGET answers, for each key in order, the value bound to it if it has not
    expired and the null reply otherwise, after an array header with their number. *)
Theorem mget_reply e s c keys now :
  kv_ok (sv_cache s) -> allowed s c VC_ACL_READ -> keys <> [] -> Forall short keys -> at_time e now ->
  exists s', dispatch e s c (bs "MGET" :: keys) =
      Some (s', cn_write (r_array (Z.of_nat (length keys)) ++
                          concat ((fun k => value_reply c (view now (contents_of s) k)) <$> keys)) c) /\
    kv_ok (sv_cache s') /\ contents_of s' = contents_of s.
Proof.
  intros Hok Ha Hne Hk Ht.
  rewrite (dispatch_allowed e s c (bs "MGET") keys (CmdEntry (bs "MGET") cmd_mget VC_ACL_READ) eq_refl Ha).
  cbn [ce_fn]. unfold cmd_mget. rewrite guarded_allowed by done. unfold argc_min. cbn [length].
  destruct keys as [|k keys]; [done|]. destruct (Z.ltb_spec (Z.of_nat (S (length (k :: keys)))) 2);
    [cbn [length] in *; lia|].
  change (drop 1 _) with (k :: keys).
  replace (Z.of_nat (S (length (k :: keys))) - 1) with (Z.of_nat (length (k :: keys))) by lia.
  destruct (mget_loop_spec e 0 s (cn_write (r_array (Z.of_nat (length (k :: keys)))) c) (k :: keys) now Hok Hk Ht)
    as (s1 & -> & Hs1).
  cbn [mbind option_bind]. exists (count_command s1). rewrite cn_write_app. split; [done | apply Hs1].
Qed.

(** DEL removes exactly the listed keys that are bound and not expired, and
    replies with their number; a key listed twice counts once. *)
Theorem del_reply e s c keys now :
  kv_ok (sv_cache s) -> allowed s c VC_ACL_WRITE -> keys <> [] -> Forall short keys -> Forall (logs s) keys ->
  at_time e now ->
  exists s', dispatch e s c (bs "DEL" :: keys) =
      Some (s', cn_write (r_int (Z.of_nat (size (contents_of s)) - Z.of_nat (size (contents_of s')))) c) /\
    kv_ok (sv_cache s') /\ contents_of s' = del_all now keys (contents_of s).
Proof.
  intros Hok Ha Hne Hk Hl Ht.
  rewrite (dispatch_allowed e s c (bs "DEL") keys (CmdEntry (bs "DEL") cmd_del VC_ACL_WRITE) eq_refl Ha).
  cbn [ce_fn]. unfold cmd_del. rewrite guarded_allowed by done. unfold argc_min. cbn [length].
  destruct keys as [|k keys]; [done|]. destruct (Z.ltb_spec (Z.of_nat (S (length (k :: keys)))) 2);
    [cbn [length] in *; lia|].
  change (drop 1 _) with (k :: keys).
  destruct (del_loop_spec e 0 s (k :: keys) 0 now Hok Hk Hl Ht) as (n & s1 & -> & H1 & H2 & H3 & H4).
  cbn [mbind option_bind]. exists (count_command s1). split; [|done]. cbn [count_command sv_cache].
  unfold say. cbn [mbind option_bind]. do 4 f_equal. lia.
Qed.

(** INCR and DECR (the handler behind them, on a key alone) add the step to the
    number the key holds, or to 0 when it is not bound: the number is stored as a
    typed value that reads back as itself, unless the store is out of memory, and
    the client receives it twice, as a typed value and as an integer. *)
Theorem incrby_adds e s c name k delta now cur :
  kv_ok (sv_cache s) -> allowed s c VC_ACL_WRITE -> short k -> at_time e now ->
  cur = (match view now (contents_of s) k with Some v => int_of_value v | None => 0 end) + delta ->
  in_int64 cur = true -> kv_ready (ce_ev e 1) (sv_cache s) k (int_value cur) ->
  exists s', cmd_incrby e s c [name; k] delta =
      Some (s', cn_write (r_typed VC_TYPE_INT64 (int64_bytes cur) ++ r_int cur) c) /\ kv_ok (sv_cache s') /\
    (contents_of s' = contents_of s \/
     forall t, exists v, view t (contents_of s') k = Some v /\ int_of_value v = cur).
Proof.
  intros Hok Ha Hk Ht Hcur Hin Hready.
  destruct (incrby_reply e s c name k delta now cur Hok Ha Hk Ht Hcur Hin Hready) as (s' & E & Hok' & Hm).
  exists s'. split; [done|]. split; [done|]. destruct Hm as [Hm|(v & _ & Hm)]; [by left|]. right. intros t.
  exists (int_value cur). rewrite Hm, view_insert. split; [done | by apply int_of_int_value].
Qed.

(** DECRBY adds its argument instead of subtracting it: on a key and a number it
    is INCRBY. *)
Theorem decrby_is_incrby e s c name k d :
  parse_out d <> INT64_MIN -> cmd_decrby e s c [name; k; d] = cmd_incrby2 (C := C) e s c [name; k; d].
Proof.
  intros Hd. unfold cmd_decrby, cmd_incrby2. cbn [length]. change (_ =? 3) with true. cbv iota zeta.
  change (argn [name; k; d] 2) with d. destruct (Z.eqb_spec (parse_out d) INT64_MIN); [done|].
  unfold cmd_incrby. cbn [length]. change (Z.of_nat 3 =? 3) with true. cbv iota. done.
Qed.

(** A value stored by VCSET is what VCGET returns, with the name of its type: the
    number, the double, the truth value, or the bytes (a string under the name
    binary).  When the store is out of memory the reply to VCSET is OK all the
    same, and nothing is stored. *)
Theorem vcset_vcget e1 e2 s c k tname t val now :
  (forall l, length (strtod l) = 8%nat) ->
  kv_ok (sv_cache s) -> allowed s c VC_ACL_WRITE -> allowed s c VC_ACL_READ -> short k ->
  ce_malloc e1 = true -> at_time e2 now -> type_byte tname = Some t -> Z.of_nat (length val) <= 65530 ->
  (forall p, bulk_payload (vcset_wire strtod t val) = Some p -> kv_ready (ce_ev e1 0) (sv_cache s) k p) ->
  exists s1, dispatch e1 s c [bs "VCSET"; k; tname; val] = Some (s1, cn_write r_ok c) /\
    (contents_of s1 = contents_of s \/
     exists s2, dispatch e2 s1 (cn_write r_ok c) [bs "VCGET"; k] =
       Some (s2, cn_write (r_ok ++ typed_view t val) c)).
Proof.
  intros Hd Hok Hw Hr Hk Hm Ht Hty Hl Hready.
  destruct (vcset_payload t val Hd Hl) as (p & Hp & Hlp & Hg).
  destruct (vcset_reply e1 s c k tname t val p Hok Hw Hm Hty Hp (Hready p Hp)) as (s1 & E & Ha & Hok1 & Hc).
  exists s1. split; [done|]. destruct Hc as [Hc|(v & Hc)]; [by left|]. right.
  destruct (vcget_cmd_reply e2 s1 (cn_write r_ok c) k now p (typed_view t val)) as (s2 & -> & _);
    [done | by eapply auth_allowed | done | done | | done |].
  - rewrite Hc, view_insert, take_ge by done. done.
  - exists s2. by rewrite cn_write_app.
Qed.
End Replies.

(** ** Examples over the small cache *)

Abbreviation open_server := (mini_server (AuthDb [] false)).
Abbreviation guest := (mini_conn None).

Lemma mini_at now : at_time (mini_cenv now) now.
Proof. done. Qed.

Lemma set_ex_get_witness :
  exists s1 out, vc_dispatch no_strtod no_print_g (mini_cenv 5) open_server guest
      [bs "SET"; bs "k"; bs "v"; bs "EX"; dec 10] = Some (s1, cn_write out guest) /\
    ((out = r_err (bs "storage error") /\ kv_map (sv_cache s1) = kv_map (sv_cache open_server)) \/
     (out = r_ok /\ exists s2,
        vc_dispatch no_strtod no_print_g (mini_cenv 6) s1 (cn_write r_ok guest) [bs "GET"; bs "k"] =
        Some (s2, cn_write (r_ok ++ if 5 + 10 * 1000000000 <? 6 then r_null (cn_resp3 guest)
                                    else r_bulk (take (Z.to_nat 65535) (set_value (bs "v")))) guest))).
Proof.
  apply (set_ex_get no_strtod no_print_g (mini_cenv 5) (mini_cenv 6) open_server guest (bs "k") (bs "v") 10 5 6);
    [apply mini_kv_ok | reflexivity | reflexivity | reflexivity | by apply mini_ready | apply mini_at
    | apply mini_at | lia | lia | lia].
Defined.

Lemma mget_witness :
  exists s', vc_dispatch no_strtod no_print_g (mini_cenv 5) open_server guest (bs "MGET" :: [bs "a"; bs "b"]) =
      Some (s', cn_write (r_array (Z.of_nat (length [bs "a"; bs "b"])) ++
        concat ((fun k => value_reply guest (view 5 (kv_map (sv_cache open_server)) k)) <$> [bs "a"; bs "b"])) guest) /\
    kv_ok (sv_cache s') /\ kv_map (sv_cache s') = kv_map (sv_cache open_server).
Proof.
  apply (mget_reply no_strtod no_print_g (mini_cenv 5) open_server guest [bs "a"; bs "b"] 5);
    [apply mini_kv_ok | reflexivity | discriminate | by repeat constructor | apply mini_at].
Defined.

Lemma del_witness :
  exists s', vc_dispatch no_strtod no_print_g (mini_cenv 5) open_server guest (bs "DEL" :: [bs "a"; bs "a"]) =
      Some (s', cn_write (r_int (Z.of_nat (size (kv_map (sv_cache open_server))) -
                                 Z.of_nat (size (kv_map (sv_cache s'))))) guest) /\
    kv_ok (sv_cache s') /\ kv_map (sv_cache s') = del_all 5 [bs "a"; bs "a"] (kv_map (sv_cache open_server)).
Proof.
  apply (del_reply no_strtod no_print_g (mini_cenv 5) open_server guest [bs "a"; bs "a"] 5);
    [apply mini_kv_ok | reflexivity | discriminate | by repeat constructor
    | repeat constructor; left; reflexivity | apply mini_at].
Defined.

Lemma view_mini now k : view now (kv_map (sv_cache open_server)) k = None.
Proof. unfold view. cbn [mini_server sv_cache]. change (kv_map mini) with (abs mini). by rewrite lookup_abs_mini. Qed.

Lemma incrby_witness :
  exists s', cmd_incrby (mini_cenv 5) open_server guest [bs "INCR"; bs "n"] 1 =
      Some (s', cn_write (r_typed VC_TYPE_INT64 (int64_bytes 1) ++ r_int 1) guest) /\ kv_ok (sv_cache s') /\
    (kv_map (sv_cache s') = kv_map (sv_cache open_server) \/
     forall t, exists v, view t (kv_map (sv_cache s')) (bs "n") = Some v /\ int_of_value v = 1).
Proof.
  apply (incrby_adds (mini_cenv 5) open_server guest (bs "INCR") (bs "n") 1 5 1);
    [apply mini_kv_ok | reflexivity | reflexivity | apply mini_at | by rewrite view_mini | reflexivity
    | by apply mini_ready].
Defined.

Lemma decrby_witness :
  cmd_decrby (mini_cenv 5) open_server guest [bs "DECRBY"; bs "n"; bs "3"] =
  cmd_incrby2 (mini_cenv 5) open_server guest [bs "DECRBY"; bs "n"; bs "3"].
Proof. apply (decrby_is_incrby (mini_cenv 5) open_server guest (bs "DECRBY") (bs "n") (bs "3")). discriminate. Defined.

Lemma vcset_witness :
  exists s1, vc_dispatch no_strtod no_print_g (mini_cenv 5) open_server guest
      [bs "VCSET"; bs "n"; bs "int"; bs "42"] = Some (s1, cn_write r_ok guest) /\
    (kv_map (sv_cache s1) = kv_map (sv_cache open_server) \/
     exists s2, vc_dispatch no_strtod no_print_g (mini_cenv 6) s1 (cn_write r_ok guest) [bs "VCGET"; bs "n"] =
       Some (s2, cn_write (r_ok ++ typed_view no_strtod no_print_g VC_TYPE_INT64 (bs "42")) guest)).
Proof.
  apply (vcset_vcget no_strtod no_print_g (mini_cenv 5) (mini_cenv 6) open_server guest (bs "n") (bs "int")
           VC_TYPE_INT64 (bs "42") 6);
    [reflexivity | apply mini_kv_ok | reflexivity | reflexivity | reflexivity | reflexivity | apply mini_at
    | reflexivity | by compute |].
  intros p Hp. apply mini_ready; [done | | done]. intros ->. discriminate.
Defined.
