(* ===== verification/Session.v ===== *)
(** * Whole sessions

    Every handler of [Commands.v], for every user: a command is undefined only in the few
    situations listed in [hazard]; in all others it runs to its end and leaves a well-formed
    store, also when shards are full, allocations fail or old bindings have expired.  The
    handlers are proved against the class [KvSafe], which the cache implements. *)

From S2P Require Import Prelude Hash Slab Entry Shard Wal Cache CacheInv CacheSafe CacheSpec CacheThm.
From S2P Require Import Proto ProtoSpec Auth Kv Commands CommandsSpec Replies.

(** ** What the handlers need of the store *)

Class KvSafe (C : Type) `{Kv C} := {
  kv_wf : C -> Prop;
  (** the memory that the allocator may return for this key and value is unused, and the
      record of the operation fits in the log *)
  kv_can_set : env -> C -> list Z -> list Z -> Prop;
  kv_can_del : C -> list Z -> Prop;
  kv_safe_get : forall ev c k, kv_wf c ->
    exists r c', kv_get ev c k = Some (r, c') /\ kv_wf c' /\ (forall v, r = Some v -> Z.of_nat (length v) <= 65535);
  kv_safe_set : forall ev c k v ttl, kv_wf c -> (k <> [] -> v <> [] -> kv_can_set ev c k v) ->
    exists err c', kv_set ev c k v ttl = Some (err, c') /\ kv_wf c';
  kv_safe_del : forall ev c k, kv_wf c -> (k <> [] -> kv_can_del c k) ->
    exists err c', kv_del ev c k = Some (err, c') /\ kv_wf c';
  kv_safe_flush : forall c, kv_wf c -> exists c', kv_flush c = Some c' /\ kv_wf c'
}.

(** ** The cache is such a store *)

Lemma deref_length m e r n : (length (deref m e r n) <= Z.to_nat n)%nat.
Proof. destruct r; cbn [deref]; [rewrite length_take; lia | by rewrite length_mem_read]. Qed.

Lemma get_answer_short k c ev ky s o s' :
  cache_wf k c -> c_shards c !! home ky = Some s -> get_answer c ev ky s = Some (Some o, s') -> go_len o <= 65535.
Proof.
  intros Hwf Hs E. pose proof (cwf_shards _ _ Hwf _ _ Hs) as Hsk. destruct (Hsk) as [Hc _].
  assert (Hlen : forall now j e, shard_find (h_bytes (c_heap c)) now s ky (klen32 ky) (wyhash64 ky 0) = Some j ->
    s_table s !! Z.to_nat j = Some e -> e_val_len e <= 65535).
  { intros now j e Ef He. destruct (find_live k (cwf_k _ _ Hwf) _ _ _ _ _ _ _ _ Hc Ef) as (x & Hx & Hl & _).
    assert (x = e) as -> by congruence.
    pose proof (all_lives_elem _ _ _ _ Hs (lives_elem _ _ _ He Hl)) as Hin.
    apply (mem_inv_wf _ _ _ _ (cwf_mem _ _ Hwf)) in Hin. apply (wf_val_len _ _ Hin). }
  unfold get_answer in E. destruct (shard_find _ (ev_mono ev) _ _ _ _) as [j|] eqn:Ef; [|done].
  destruct (s_table s !! Z.to_nat j) as [e|] eqn:He; cbn [mbind option_bind] in E; [|done].
  destruct (flag _ e); [injection E as <- _; by eapply Hlen|].
  destruct (get_locked_spec k (home ky) (c_heap c) (ev_mono2 ev) s ky (wyhash64 ky 0) (cwf_k _ _ Hwf) Hsk)
    as (o' & s'' & E' & _ & _ & _ & Hf). rewrite E in E'. injection E' as <- _.
  destruct (shard_find _ (ev_mono2 ev) _ _ _ _) as [j2|] eqn:Ef2; [|done].
  destruct Hf as (x & Hx & [= ->]). by eapply Hlen.
Qed.

Lemma cache_safe_get ev c ky :
  (exists k, cache_wf k c) ->
  exists r c', kv_get ev c ky = Some (r, c') /\ (exists k, cache_wf k c') /\ (forall v, r = Some v -> Z.of_nat (length v) <= 65535).
Proof.
  intros (k & Hwf). destruct (lookup_lt_is_Some_2 (c_shards c) (home ky)) as [s Hs].
  { rewrite (cwf_len _ _ Hwf). apply home_lt. }
  destruct (get_answer_spec k c ev ky s Hwf Hs) as (o & s' & E & H1 & H2 & _).
  cbn [kv_get vc_cache_kv]. unfold cache_get. rewrite (vc_get_eq k c ev ky s Hwf Hs), E. cbn [mbind option_bind].
  eexists _, _. split; [done|]. split; [exists k; by eapply update_wf|]. intros v Hv. destruct o as [r|]; [|done].
  apply Some_inj in Hv as <-. pose proof (get_answer_short k c ev ky s r s' Hwf Hs E).
  pose proof (deref_length (h_bytes (c_heap c)) (go_entry r) (go_val r) (go_len r)) as Hl. unfold out_bytes. cbn [with_shards c_heap]. lia.
Qed.

Definition cache_can_set (ev : env) (c : vc_cache) (ky val : list Z) : Prop :=
  env_fresh c ev ky val /\ log_room (c_wal c) (set_logged ky val).

Definition cache_can_del (c : vc_cache) (ky : list Z) : Prop := log_room (c_wal c) (Z.of_nat (length ky)).

Lemma cache_safe_set ev c ky val ttl :
  (exists k, cache_wf k c) -> (ky <> [] -> val <> [] -> cache_can_set ev c ky val) ->
  exists err c', kv_set ev c ky val ttl = Some (err, c') /\ (exists k, cache_wf k c').
Proof.
  intros (k & Hwf) Hf. cbn [kv_set vc_cache_kv].
  destruct (decide (ky = [])) as [->|Hky]; [rewrite vc_set_guard by auto; eauto|].
  destruct (decide (val = [])) as [->|Hval]; [rewrite vc_set_guard by auto; eauto|].
  destruct (Z.lt_ge_cases (Z.of_nat (length ky)) (2 ^ 32)) as [Hl|Hl].
  - destruct (Hf Hky Hval) as [Hfresh Hlog].
    destruct (vc_set_spec k c ev ky val ttl Hwf Hfresh Hky Hval Hl Hlog) as (err & c' & -> & Hwf' & _). eauto.
  - rewrite vc_set_guard; [eauto|]. right. right. unfold UINT32_MAX. lia.
Qed.

Lemma cache_safe_del ev c ky :
  (exists k, cache_wf k c) -> (ky <> [] -> cache_can_del c ky) ->
  exists err c', kv_del ev c ky = Some (err, c') /\ (exists k, cache_wf k c').
Proof.
  intros (k & Hwf) Hl. destruct (vc_del_spec k c ev ky Hwf) as (err & c' & s & s' & E & Hwf' & _).
  - destruct (decide (ky = [])) as [->|Hky]; [by right|]. eapply log_room_le; [|by apply Hl].
    unfold klen32, u32. apply Z.mod_le; lia.
  - exists err, c'. split; [exact E | by exists k].
Qed.

#[export] Instance vc_cache_safe : KvSafe vc_cache.
Proof.
  refine {| kv_wf := fun c => exists k, cache_wf k c; kv_can_set := cache_can_set; kv_can_del := cache_can_del |}.
  - apply cache_safe_get.
  - apply cache_safe_set.
  - apply cache_safe_del.
  - intros c (k & Hwf). destruct (vc_flush_spec k c Hwf) as (c' & E & Hok & _). exists c'. split; [exact E|].
    exists k. by apply cok_wf.
Defined.

(** ** Safe runs of a handler *)

Section Safe.
Context {C : Type} {KV : Kv C} {KS : KvSafe C}.
Context (strtod : list Z -> list Z) (print_g : list Z -> list Z).
(** A double has eight bytes. *)
Context (Hdouble : forall t, length (strtod t) = 8%nat).

Abbreviation dispatch := (vc_dispatch strtod print_g).
Abbreviation table := (cmd_table strtod print_g).

(** The stores that a command may have reached from [c] before its operation [i]; the
    operations of a command are numbered upwards, and not every number is used. *)
Inductive before (e : cenv) (c : C) : nat -> C -> Prop :=
| bf_start : before e c 0 c
| bf_skip i c1 : before e c i c1 -> before e c (S i) c1
| bf_get i c1 k r c2 : before e c i c1 -> kv_get (ce_ev e i) c1 k = Some (r, c2) -> before e c (S i) c2
| bf_set i c1 k v ttl r c2 : before e c i c1 -> kv_set (ce_ev e i) c1 k v ttl = Some (r, c2) -> before e c (S i) c2
| bf_del i c1 k r c2 : before e c i c1 -> kv_del (ce_ev e i) c1 k = Some (r, c2) -> before e c (S i) c2.

(** The bytes of the arguments, and the most that a command can store under a key: a value
    read from the store (at most 65535 bytes) and an argument, or a number with its header. *)
Definition args_len (argv : list (list Z)) : Z := Z.of_nat (length (concat argv)).
Definition value_max (argv : list (list Z)) : Z := 65560 + args_len argv.

(** The allocator answers every SET of the command with unused memory, and the records of
    the command fit in the log, if there is one. *)
Definition fresh_memory (e : cenv) (c : C) (argv : list (list Z)) : Prop :=
  forall i c1 k, before e c i c1 -> k ∈ argv -> k <> [] ->
    kv_can_del c1 k /\
    (forall v, v <> [] -> Z.of_nat (length v) <= value_max argv -> kv_can_set (ce_ev e i) c1 k v).

Lemma elem_args_len (a : list Z) argv : a ∈ argv -> Z.of_nat (length a) <= args_len argv.
Proof.
  unfold args_len. induction argv as [|b argv IH]; [by intros H%elem_of_nil|]. cbn [concat]. rewrite length_app.
  intros [->|H]%elem_of_cons; [lia|]. specialize (IH H). lia.
Qed.

Lemma before_mono e c i j c1 : before e c i c1 -> (i <= j)%nat -> before e c j c1.
Proof. intros H Hj. induction Hj; [done | by apply bf_skip]. Qed.

(** A command that began at store [c0] has come to operation [i]. *)
Definition at_op (e : cenv) (c0 : C) (i : nat) (s : server C) : Prop := kv_wf (sv_cache s) /\ before e c0 i (sv_cache s).

Definition safe (r : option (server C * conn)) : Prop := exists s' c', r = Some (s', c') /\ kv_wf (sv_cache s').

Lemma say_safe e c0 i s c out : at_op e c0 i s -> safe (say s c out).
Proof. intros [H _]. by eexists _, _. Qed.

Lemma guarded_safe e c0 i acl s c r : at_op e c0 i s -> safe r -> safe (guarded acl s c r).
Proof. intros Hs Hr. unfold guarded. case_match; [by eapply say_safe | done]. Qed.

Lemma argc_check_safe e c0 i mn mx argv s c r : at_op e c0 i s -> safe r -> safe (argc_check mn mx argv s c r).
Proof. intros Hs Hr. unfold argc_check. cbv zeta. case_match; [by eapply say_safe | done]. Qed.

Lemma argc_min_safe e c0 i mn argv s c r : at_op e c0 i s -> safe r -> safe (argc_min mn argv s c r).
Proof. intros Hs Hr. unfold argc_min. case_match; [by eapply say_safe | done]. Qed.

Lemma do_get_safe e c0 i j s k :
  at_op e c0 i s -> (i <= j)%nat ->
  exists r s', do_get e j s k = Some (r, s') /\ at_op e c0 (S j) s' /\ (forall v, r = Some v -> Z.of_nat (length v) <= 65535).
Proof.
  intros [Hw Hb] Hj. destruct (kv_safe_get (ce_ev e j) (sv_cache s) k Hw) as (r & c' & E & Hw' & Hl).
  unfold do_get. rewrite E. cbn [mbind option_bind]. eexists _, _. split; [done|]. split; [|done].
  split; [done|]. cbn. eapply bf_get; [by eapply before_mono | exact E].
Qed.

Lemma do_del_safe e c0 i j s argv k :
  at_op e c0 i s -> (i <= j)%nat -> fresh_memory e c0 argv -> k ∈ argv \/ k = [] ->
  exists r s', do_del e j s k = Some (r, s') /\ at_op e c0 (S j) s'.
Proof.
  intros [Hw Hb] Hj Hf Hk. destruct (kv_safe_del (ce_ev e j) (sv_cache s) k Hw) as (r & c' & E & Hw').
  { intros H1. destruct Hk as [Hk|Hk]; [|done]. by apply (Hf j _ k (before_mono _ _ _ _ _ Hb Hj)). }
  unfold do_del. rewrite E. cbn [mbind option_bind]. eexists _, _. split; [done|].
  split; [done|]. cbn. eapply bf_del; [by eapply before_mono | exact E].
Qed.

Lemma do_set_safe e c0 i j s argv k v ttl :
  at_op e c0 i s -> (i <= j)%nat -> fresh_memory e c0 argv -> k ∈ argv \/ k = [] -> Z.of_nat (length v) <= value_max argv ->
  exists r s', do_set e j s k v ttl = Some (r, s') /\ at_op e c0 (S j) s'.
Proof.
  intros [Hw Hb] Hj Hf Hk Hv. pose proof (before_mono _ _ _ _ _ Hb Hj) as Hb'.
  destruct (kv_safe_set (ce_ev e j) (sv_cache s) k v ttl Hw) as (r & c' & E & Hw').
  { intros H1 H2. destruct Hk as [Hk|Hk]; [by apply (Hf j _ k) | done]. }
  unfold do_set. rewrite E. cbn [mbind option_bind]. eexists _, _. split; [done|].
  split; [done|]. cbn. by eapply bf_set; [|exact E].
Qed.

Lemma argn_elem argv i : argn argv i ∈ argv \/ argn argv i = [].
Proof. unfold argn. destruct (argv !! i) eqn:E; [left; by eapply list_elem_of_lookup_2 | by right]. Qed.

(** ** When a command is undefined *)

(** The value that the first read of a command returns. *)
Definition value_held (e : cenv) (s : server C) (k : list Z) : option (list Z) :=
  match kv_get (ce_ev e 0) (sv_cache s) k with Some (r, _) => r | None => None end.

(** The key is its own copy by [strndup]. *)
Definition nul_free (k : list Z) : bool := bool_decide (cstr k = k).

(** Every key of a listing has such a copy: no [strndup] fails and no key holds a NUL. *)
Fixpoint copied (granted : nat -> bool) (i : nat) (ks : list (list Z)) : bool :=
  match ks with
  | [] => true
  | k :: ks => granted i && nul_free k && copied granted (S i) ks
  end.

(** A typed value whose payload is shorter than VCGET reads: a float of less than 8 bytes or
    a boolean without a byte. *)
Definition cut_short (v : list Z) : bool :=
  has_magic v &&
  (((nth 4 v 0 =? VC_TYPE_FLOAT64) && (length v <? 13)%nat) || ((nth 4 v 0 =? VC_TYPE_BOOL) && (length v <? 6)%nat)).

(** The counter leaves [int64_t]; [delta] is the step when none is given. *)
Definition overflows (e : cenv) (s : server C) (argv : list (list Z)) (delta : Z) : bool :=
  ((length argv =? 2) || (length argv =? 3))%nat &&
  negb (in_int64 (match value_held e s (argn argv 1) with Some v => int_of_value v | None => 0 end +
                  (if Z.of_nat (length argv) =? 3 then parse_out (argn argv 2) else delta))).

Definition named (n : list Z) (m : list Z) : bool := bool_decide (n = m).

(** KEYS and SCAN when a listed key holds a NUL or its copy is refused, SCAN of some key
    without memory for the list, VCGET on a typed value that is cut short, a counter that overflows, DECRBY of the least integer, CONFIG GET with an empty pattern. *)
Definition undefined_in (n : list Z) (e : cenv) (s : server C) (argv : list (list Z)) : bool :=
  if named n (bs "KEYS") then
    (length argv =? 2)%nat && ce_malloc e && negb (copied (ce_dup e) 0 (take MAX_KEYS (live_keys (kv_slots (sv_cache s)))))
  else if named n (bs "SCAN") then
    let cursor := if 2 <=? Z.of_nat (length argv) then parse_out (argn argv 1) else 0 in
    let ks := (scan (kv_slots (sv_cache s)) cursor (scan_count argv)).2 in
    (negb (ce_malloc e) && negb (bool_decide (ks = []))) || negb (copied (ce_dup e) 0 ks)
  else if named n (bs "VCGET") then
    (length argv =? 2)%nat &&
    match value_held e s (argn argv 1) with Some v => cut_short v | None => false end
  else if named n (bs "INCR") then overflows e s argv 1
  else if named n (bs "DECR") then overflows e s argv (-1)
  else if named n (bs "INCRBY") then overflows e s argv 0
  else if named n (bs "DECRBY") then
    ((length argv =? 3)%nat && (parse_out (argn argv 2) =? INT64_MIN)) || overflows e s argv 0
  else if named n (bs "CONFIG") then
    strcaseeq (argn argv 1) (bs "GET") && (3 <=? Z.of_nat (length argv)) && bool_decide (cstr (argn argv 2) = [])
  else false.

Definition hazard (e : cenv) (s : server C) (c : conn) (argv : list (list Z)) : bool :=
  match find_command (argn argv 0) table with
  | Some x => ((ce_acl x =? 0) || bool_decide (need_auth s c (ce_acl x) = None)) && undefined_in (ce_name x) e s argv
  | None => false
  end.

Definition verdict (u : bool) (r : option (server C * conn)) : Prop := if u then r = None else safe r.

(** A command starts. *)
Record started (e : cenv) (s : server C) (argv : list (list Z)) : Prop := {
  sta_wf : kv_wf (sv_cache s);
  sta_fresh : fresh_memory e (sv_cache s) argv;
  sta_short : Forall short argv
}.

Lemma started_at e s argv : started e s argv -> at_op e (sv_cache s) 0 s.
Proof. intros H. split; [apply H | apply bf_start]. Qed.

(** ** Handlers that are always defined *)

Lemma get_safe e c0 i j s k (next : option (list Z) * server C -> option (server C * conn)) :
  at_op e c0 i s -> (i <= j)%nat ->
  (forall r s', at_op e c0 (S j) s' -> (forall v, r = Some v -> Z.of_nat (length v) <= 65535) -> safe (next (r, s'))) ->
  safe (do_get e j s k ≫= next).
Proof. intros Hs Hj Hn. destruct (do_get_safe e c0 i j s k Hs Hj) as (r & s' & -> & Hs' & Hl). by apply Hn. Qed.

Lemma del_safe e c0 i j s argv n (next : vc_err * server C -> option (server C * conn)) :
  at_op e c0 i s -> (i <= j)%nat -> fresh_memory e c0 argv ->
  (forall r s', at_op e c0 (S j) s' -> safe (next (r, s'))) ->
  safe (do_del e j s (argn argv n) ≫= next).
Proof.
  intros Hs Hj Hf Hn. destruct (do_del_safe e c0 i j s argv (argn argv n) Hs Hj Hf (argn_elem argv n)) as (r & s' & -> & Hs').
  by apply Hn.
Qed.

Lemma set_safe e c0 i j s argv n v ttl (next : vc_err * server C -> option (server C * conn)) :
  at_op e c0 i s -> (i <= j)%nat -> fresh_memory e c0 argv -> Z.of_nat (length v) <= value_max argv ->
  (forall r s', at_op e c0 (S j) s' -> safe (next (r, s'))) ->
  safe (do_set e j s (argn argv n) v ttl ≫= next).
Proof.
  intros Hs Hj Hf Hv Hn. destruct (do_set_safe e c0 i j s argv (argn argv n) v ttl Hs Hj Hf (argn_elem argv n) Hv) as (r & s' & -> & Hs').
  by apply Hn.
Qed.

Lemma mget_safe e c0 i s c keys : at_op e c0 i s -> safe (mget_loop e i s c keys).
Proof.
  revert i s c. induction keys as [|k keys IH]; intros i s c Hs; cbn [mget_loop]; [eexists _, _; split; [done | apply Hs]|].
  eapply get_safe; [exact Hs | lia|]. intros r s' Hs' _. by apply IH.
Qed.

Lemma exists_safe e c0 i s keys n : at_op e c0 i s -> exists m s', exists_loop e i s keys n = Some (m, s') /\ kv_wf (sv_cache s').
Proof.
  revert i s n. induction keys as [|k keys IH]; intros i s n Hs; cbn [exists_loop]; [eexists _, _; split; [done | apply Hs]|].
  destruct (do_get_safe e c0 i i s k Hs) as (r & s' & -> & Hs' & _); [lia|]. by apply IH.
Qed.

Lemma del_loop_safe e c0 argv i s keys n : fresh_memory e c0 argv -> (forall k, k ∈ keys -> k ∈ argv) -> at_op e c0 i s ->
  exists m s', del_loop e i s keys n = Some (m, s') /\ kv_wf (sv_cache s').
Proof.
  intros Hf. revert i s n.
  induction keys as [|k keys IH]; intros i s n Hin Hs; cbn [del_loop]; [eexists _, _; split; [done | apply Hs]|].
  destruct (do_del_safe e c0 i i s argv k Hs) as (r & s' & -> & Hs'); [lia | done | left; apply Hin; left|].
  apply IH; [|done]. intros a Ha. apply Hin. by right.
Qed.

Lemma mset_safe e c0 argv m : fresh_memory e c0 argv ->
  forall i s pairs, (length pairs <= m)%nat -> (forall a, a ∈ pairs -> a ∈ argv) -> at_op e c0 i s ->
  exists s', mset_loop e i s pairs = Some s' /\ kv_wf (sv_cache s').
Proof.
  intros Hf. induction m as [|m IH]; intros i s [|k [|v pairs]] Hm Hin Hs; cbn [mset_loop];
    try (eexists; split; [done | apply Hs]); try (cbn [length] in Hm; lia).
  destruct (do_set_safe e c0 i i s argv k v 0 Hs) as (r & s' & -> & Hs'); [lia | done | left; apply Hin; left | |].
  - unfold value_max. pose proof (elem_args_len v argv) as Hv.
    assert (v ∈ argv) by (apply Hin; right; left). specialize (Hv ltac:(done)). lia.
  - apply IH; [cbn [length] in Hm; lia | | done]. intros a Ha. apply Hin. by do 2 right.
Qed.

Lemma argn_bound argv i : Z.of_nat (length (argn argv i)) <= args_len argv.
Proof.
  destruct (argn_elem argv i) as [H|H]; [by apply elem_args_len|]. rewrite H. unfold args_len. cbn [length]. lia.
Qed.

Lemma set_value_bound v : Z.of_nat (length (set_value v)) <= Z.of_nat (length v) + 1.
Proof. unfold set_value. case_decide; cbn [length]; lia. Qed.

Lemma wire_bound t val p : Z.of_nat (length val) < 2 ^ 32 -> bulk_payload (vcset_wire strtod t val) = Some p ->
  Z.of_nat (length p) <= Z.of_nat (length val) + 16.
Proof.
  intros Hv. assert (Hb : forall ty q, Z.of_nat (length q) <= Z.of_nat (length val) + 8 -> bulk_payload (r_typed ty q) = Some p ->
    Z.of_nat (length p) <= Z.of_nat (length val) + 16).
  { intros ty q Hq. unfold r_typed.
    assert (Z.of_nat (length (VC_WIRE_MAGIC ++ [ty] ++ q)) <= Z.of_nat (length val) + 16) by (rewrite !length_app; cbn; lia).
    rewrite bulk_payload_enc by lia. by intros [= <-]. }
  unfold vcset_wire. repeat case_match; apply Hb; rewrite ?Hdouble, ?length_int64_bytes; cbn [length]; lia.
Qed.

(** The guards first, then the operations in their order, then the reply. *)
Ltac safe_step :=
  first [ eapply say_safe; eassumption
        | eapply guarded_safe; [eassumption|]
        | eapply argc_check_safe; [eassumption|]
        | eapply argc_min_safe; [eassumption|]
        | eapply get_safe; [eassumption | lia | let Hl := fresh "Hlen" in intros ?r ?s' ?Hop Hl]
        | eapply del_safe; [eassumption | lia | eassumption | intros ?r ?s' ?Hop]
        | progress cbv zeta beta ].
Ltac start Hs := intros e s c argv Hs; pose proof (started_at _ _ _ Hs) as Hop; pose proof (sta_fresh _ _ _ Hs) as Hfr;
  pose proof (sta_short _ _ _ Hs) as Hsh.

Definition total (h : cenv -> server C -> conn -> list (list Z) -> option (server C * conn)) : Prop :=
  forall e s c argv, started e s argv -> safe (h e s c argv).

Lemma harmless_total h : harmless h -> total h.
Proof. intros Hh e s c argv Hs. destruct (Hh e s c argv) as (c' & -> & _). eexists _, _. split; [done | apply Hs]. Qed.

Lemma set_total : total cmd_set.
Proof.
  start Hs. unfold cmd_set. do 2 safe_step.
  set (o := set_options _ _ _ _).
  assert (Z.of_nat (length (set_value (argn argv 2))) <= value_max argv) as Hv.
  { pose proof (set_value_bound (argn argv 2)). pose proof (argn_bound argv 2). unfold value_max. lia. }
  assert (Hg : forall (b : bool) i j s0 k (f : option (list Z) -> server C -> option (server C * conn)), at_op e (sv_cache s) i s0 -> (i <= j)%nat ->
    (forall r s', at_op e (sv_cache s) (S j) s' -> safe (f r s')) ->
    safe ('(r, s') ← (if b then do_get e j s0 k else Some (None, s0)); f r s')).
  { intros b i j s0 k f H0 Hj Hf. destruct b; [eapply get_safe; [exact H0 | done | intros; by apply Hf]|].
    apply Hf. split; [apply H0|]. eapply before_mono; [apply H0 | lia]. }
  eapply (Hg _ 0%nat 0%nat); [exact Hop | lia|]. intros r1 s1 H1. case_match; [by eapply say_safe|].
  eapply (Hg _ 1%nat 1%nat); [exact H1 | lia|]. intros r2 s2 H2. case_match; [by eapply say_safe|].
  eapply set_safe; [exact H2 | lia | exact Hfr | exact Hv|]. intros r s' H3. case_match; by eapply say_safe.
Qed.

Lemma value_fits (argv : list (list Z)) (v : list Z) : Z.of_nat (length v) <= 65535 -> Z.of_nat (length v) <= value_max argv.
Proof. unfold value_max, args_len. lia. Qed.

Lemma reset_ttl_total e s c argv n ttl : started e s argv -> safe (reset_ttl e s c (argn argv n) ttl).
Proof.
  intros Hs. pose proof (started_at _ _ _ Hs) as Hop. unfold reset_ttl. safe_step. destruct r as [v|]; [|safe_step].
  case_match; [safe_step|]. pose proof (value_fits argv v (Hlen v eq_refl)). eapply set_safe; [eassumption | lia | apply Hs | done|].
  intros r s2 H2. safe_step.
Qed.

Lemma append_total : total cmd_append.
Proof.
  start Hs. unfold cmd_append. do 3 safe_step. pose proof (argn_bound argv 2).
  destruct r as [v|].
  - case_match; [safe_step|]. pose proof (Hlen v eq_refl).
    eapply set_safe; [eassumption | lia | done | rewrite length_app; unfold value_max; lia|]. intros r s2 H2. safe_step.
  - eapply set_safe; [eassumption | lia | done | unfold value_max; lia|]. intros r s2 H2. safe_step.
Qed.

Lemma rename_total : total cmd_rename.
Proof.
  start Hs. unfold cmd_rename. do 3 safe_step. destruct r as [v|]; [|safe_step]. case_match; [safe_step|].
  pose proof (value_fits argv v (Hlen v eq_refl)). safe_step. eapply set_safe; [eassumption | lia | done | done|]. intros r2 s2 H2. safe_step.
Qed.

Lemma vcset_total : total (cmd_vcset strtod).
Proof.
  start Hs. unfold cmd_vcset. safe_step. case_match; [safe_step|]. destruct (type_byte _) as [t|]; [|safe_step].
  case_match; [safe_step|]. destruct (bulk_payload _) as [p|] eqn:Ep; [|safe_step].
  apply wire_bound in Ep; [|by apply argn_short]. pose proof (argn_bound argv 3).
  eapply set_safe; [exact Hop | lia | done | unfold value_max; lia|]. intros r s2 H2. safe_step.
Qed.

Lemma drop_elem (argv : list (list Z)) a : a ∈ drop 1 argv -> a ∈ argv.
Proof. intros Ha. destruct argv; [by apply elem_of_nil in Ha | by right]. Qed.

Lemma mset_total : total cmd_mset.
Proof.
  start Hs. unfold cmd_mset. safe_step. case_match; [safe_step|].
  destruct (mset_safe e (sv_cache s) argv (length (drop 1 argv)) Hfr 0 s (drop 1 argv)) as (s' & -> & Hw); [done | | done|].
  - apply drop_elem.
  - by eexists _, _.
Qed.

Lemma del_total : total cmd_del.
Proof.
  start Hs. unfold cmd_del. do 2 safe_step.
  destruct (del_loop_safe e (sv_cache s) argv 0 s (drop 1 argv) 0 Hfr (drop_elem argv) Hop) as (n & s' & -> & Hw). by eexists _, _.
Qed.

Lemma exists_total : total cmd_exists.
Proof.
  start Hs. unfold cmd_exists. do 2 safe_step.
  destruct (exists_safe e (sv_cache s) 0 s (drop 1 argv) 0 Hop) as (n & s' & -> & Hw). by eexists _, _.
Qed.

Lemma flush_total : total cmd_flushdb.
Proof.
  start Hs. unfold cmd_flushdb. safe_step. destruct (kv_safe_flush (sv_cache s) (sta_wf _ _ _ Hs)) as (k & -> & Hw). by eexists _, _.
Qed.

(** ** Handlers that can be undefined *)

Lemma dup_keys_exact granted i ks : dup_keys granted i ks = if copied granted i ks then Some ks else None.
Proof.
  revert i. induction ks as [|k ks IH]; intros i; [done|]. cbn [dup_keys copied]. rewrite IH. unfold dup_key, nul_free.
  destruct (granted i); cbn [andb]; [|done].
  case_decide as Hk; [rewrite bool_decide_true by done | rewrite bool_decide_false by done; done].
  cbn [mbind option_bind andb]. by destruct (copied _ _ ks).
Qed.

(** The value read is the one [value_held] tells of. *)
Lemma do_get_held e s k : kv_wf (sv_cache s) ->
  exists s', do_get e 0 s k = Some (value_held e s k, s') /\ at_op e (sv_cache s) 1 s'.
Proof.
  intros Hw. destruct (do_get_safe e (sv_cache s) 0 0 s k) as (r & s' & E & Hs' & _); [by split; [|apply bf_start] | lia|].
  exists s'. split; [|done]. rewrite E. f_equal. f_equal. unfold value_held. unfold do_get in E.
  destruct (kv_get _ _ _) as [[r' c']|]; [|done]. by injection E as -> _.
Qed.

Definition passes (acl : Z) (s : server C) (c : conn) : Prop := acl = 0 \/ need_auth s c acl = None.

Definition judged (n : list Z) (acl : Z) (h : cenv -> server C -> conn -> list (list Z) -> option (server C * conn)) : Prop :=
  forall e s c argv, started e s argv -> passes acl s c -> verdict (undefined_in n e s argv) (h e s c argv).

Lemma guarded_passes acl s c r : acl <> 0 -> passes acl s c -> guarded acl s c r = r.
Proof. intros Hn [?|H]; [done|]. unfold guarded. by rewrite H. Qed.

Lemma keys_judged : judged (bs "KEYS") VC_ACL_READ cmd_keys.
Proof.
  start Hs. intros Hp. unfold cmd_keys. rewrite guarded_passes by done. change (undefined_in _ _ _ _) with
    ((length argv =? 2)%nat && ce_malloc e && negb (copied (ce_dup e) 0 (take MAX_KEYS (live_keys (kv_slots (sv_cache s)))))).
  unfold argc_check. cbv zeta. rewrite dup_keys_exact.
  destruct (Nat.eqb_spec (length argv) 2) as [Hl|Hl]; cbn [andb].
  - rewrite Hl. cbn [Z.of_nat Pos.of_succ_nat Pos.succ Z.sub Z.add Z.opp Z.ltb Z.compare Pos.compare Pos.compare_cont orb].
    destruct (ce_malloc e); cbn [andb negb]; [|eapply say_safe; exact Hop].
    destruct (copied _ _ _); cbn [negb verdict]; [eapply say_safe; exact Hop | done].
  - replace (_ || _) with true; [eapply say_safe; exact Hop|]. symmetry. apply orb_true_iff. rewrite !Z.ltb_lt. lia.
Qed.

Lemma scan_judged : judged (bs "SCAN") VC_ACL_READ cmd_scan.
Proof.
  start Hs. intros Hp. unfold cmd_scan. rewrite guarded_passes by done. cbv zeta.
  set (cur := if 2 <=? Z.of_nat (length argv) then parse_out (argn argv 1) else 0).
  change (undefined_in _ _ _ _) with (let ks := (scan (kv_slots (sv_cache s)) cur (scan_count argv)).2 in
    (negb (ce_malloc e) && negb (bool_decide (ks = []))) || negb (copied (ce_dup e) 0 ks)).
  destruct (scan _ _ _) as [next ks]. cbn [snd]. cbv zeta. destruct (negb (ce_malloc e) && _); cbn [orb]; [done|].
  rewrite dup_keys_exact. destruct (copied _ _ ks); cbn [negb verdict mbind option_bind]; [eapply say_safe; exact Hop | done].
Qed.

Lemma vcget_defined v : if cut_short v then vcget_reply print_g v = None else exists out, vcget_reply print_g v = Some out.
Proof.
  unfold cut_short, vcget_reply. cbv zeta. destruct (has_magic v) eqn:Hm; cbn [andb]; [|by eexists].
  assert (Hv : exists a b c d t p, v = a :: b :: c :: d :: t :: p).
  { unfold has_magic in Hm. destruct v as [|a [|b [|c [|d [|t p]]]]]; try (by vm_compute in Hm); eauto 10. }
  destruct Hv as (a & b & c & d & t & p & ->). cbn [nth length]. change (drop 5 _) with p.
  destruct (Z.eqb_spec t VC_TYPE_INT64) as [->|]; [by eexists|].
  destruct (Z.eqb_spec t VC_TYPE_FLOAT64) as [->|]; cbn [andb orb].
  { change (VC_TYPE_FLOAT64 =? VC_TYPE_BOOL) with false. cbn [andb]. rewrite orb_false_r.
    change (S (S (S (S (S (length p))))) <? 13)%nat with (length p <? 8)%nat.
    destruct (length p <? 8)%nat; [done | by eexists]. }
  destruct (Z.eqb_spec t VC_TYPE_BOOL) as [->|]; cbn [andb]; [destruct p; [done | by eexists]|].
  case_match; by eexists.
Qed.

Lemma vcget_judged : judged (bs "VCGET") VC_ACL_READ (cmd_vcget print_g).
Proof.
  start Hs. intros Hp. unfold cmd_vcget. rewrite guarded_passes by done. change (undefined_in _ _ _ _) with
    ((length argv =? 2)%nat &&
     match value_held e s (argn argv 1) with Some v => cut_short v | None => false end).
  destruct (do_get_held e s (argn argv 1) (sta_wf _ _ _ Hs)) as (s' & E & Hs'). unfold argc_check. cbv zeta.
  destruct (Nat.eqb_spec (length argv) 2) as [Hl|Hl]; cbn [andb].
  - rewrite Hl. cbn [Z.of_nat Pos.of_succ_nat Pos.succ Z.sub Z.add Z.opp Z.ltb Z.compare Pos.compare Pos.compare_cont orb].
    rewrite E. cbn [mbind option_bind]. destruct (value_held _ _ _) as [v|]; [|eapply say_safe; exact Hs'].
    pose proof (vcget_defined v) as Hd. destruct (cut_short v); [by rewrite Hd|].
    destruct Hd as [out ->]. eapply say_safe; exact Hs'.
  - replace (_ || _) with true; [eapply say_safe; exact Hop|]. symmetry. apply orb_true_iff. rewrite !Z.ltb_lt. lia.
Qed.

Lemma incrby_judged e s c argv delta : started e s argv -> passes VC_ACL_WRITE s c ->
  verdict (overflows e s argv delta) (cmd_incrby e s c argv delta).
Proof.
  intros Hs Hp. pose proof (started_at _ _ _ Hs) as Hop. unfold cmd_incrby, overflows. rewrite guarded_passes by done. unfold argc_check. cbv zeta.
  destruct (do_get_held e s (argn argv 1) (sta_wf _ _ _ Hs)) as (s' & E & Hs').
  destruct ((length argv =? 2) || (length argv =? 3))%nat eqn:Hl; cbn [andb].
  - replace (_ || _) with false. 2: { apply orb_true_iff in Hl as [->%Nat.eqb_eq| ->%Nat.eqb_eq]; done. }
    rewrite E. cbn [mbind option_bind]. set (cur := _ + _). destruct (in_int64 cur); cbn [negb verdict]; [|done].
    eapply set_safe; [exact Hs' | lia | apply Hs | apply value_fits; unfold int_value; rewrite !length_app, length_int64_bytes; cbn; lia|]. intros r s2 H2. by eapply say_safe.
  - replace (_ || _) with true; [eapply say_safe; exact Hop|]. symmetry.
    apply orb_false_iff in Hl as [Hl2%Nat.eqb_neq Hl3%Nat.eqb_neq]. apply orb_true_iff. rewrite !Z.ltb_lt. lia.
Qed.

Lemma decrby_judged : judged (bs "DECRBY") VC_ACL_WRITE cmd_decrby.
Proof.
  start Hs. intros Hp. change (undefined_in _ _ _ _) with
    (((length argv =? 3)%nat && (parse_out (argn argv 2) =? INT64_MIN)) || overflows e s argv 0).
  unfold cmd_decrby. cbv zeta. destruct (Nat.eqb_spec (length argv) 3) as [Hl|Hl].
  - rewrite (proj2 (Z.eqb_eq (Z.of_nat (length argv)) 3)) by lia. destruct (parse_out _ =? INT64_MIN); cbn [andb orb]; [done|].
    assert (Eo : overflows e s argv 0 = overflows e s argv (- parse_out (argn argv 2))).
    { unfold overflows. by rewrite (proj2 (Z.eqb_eq (Z.of_nat (length argv)) 3)) by lia. }
    rewrite Eo. by apply incrby_judged.
  - rewrite (proj2 (Z.eqb_neq (Z.of_nat (length argv)) 3)) by lia. cbn [andb orb]. by apply (incrby_judged e s c argv 0).
Qed.

Lemma incrby2_judged : judged (bs "INCRBY") VC_ACL_WRITE cmd_incrby2.
Proof.
  start Hs. intros Hp. change (undefined_in _ _ _ _) with (overflows e s argv 0). unfold cmd_incrby2.
  assert (Eo : overflows e s argv 0 = overflows e s argv (if Z.of_nat (length argv) =? 3 then parse_out (argn argv 2) else 0)).
  { unfold overflows. by destruct (Z.of_nat (length argv) =? 3). }
  rewrite Eo. by apply incrby_judged.
Qed.

Lemma cfg_select_defined pat l : cstr pat <> [] -> exists r, cfg_select pat l = Some r.
Proof.
  intros Hp. induction l as [|kv l [r IH]]; cbn [cfg_select]; [by eexists|]. rewrite IH.
  assert (exists m, cfg_match pat kv.1 = Some m) as [m ->] by (unfold cfg_match; cbv zeta; case_match; [by eexists|]; case_decide; [done|]; by eexists).
  by eexists.
Qed.

Lemma config_judged : judged (bs "CONFIG") VC_ACL_ADMIN cmd_config.
Proof.
  start Hs. intros _. change (undefined_in _ _ _ _) with
    (strcaseeq (argn argv 1) (bs "GET") && (3 <=? Z.of_nat (length argv)) && bool_decide (cstr (argn argv 2) = [])).
  unfold cmd_config, argc_min. destruct (Z.ltb_spec (Z.of_nat (length argv)) 2) as [Hl|Hl].
  { rewrite (proj2 (Z.leb_gt 3 (Z.of_nat (length argv)))) by lia. rewrite andb_false_r. eapply say_safe; exact Hop. }
  destruct (strcaseeq _ _ && _); cbn [andb].
  - destruct (decide (cstr (argn argv 2) = [])) as [Hp|Hp].
    + rewrite bool_decide_true by done. cbn [verdict]. unfold config_entries. cbn [cfg_select].
      unfold cfg_match. cbv zeta. rewrite Hp. reflexivity.
    + rewrite bool_decide_false by done. destruct (cfg_select_defined (argn argv 2) (config_entries s) Hp) as [r ->].
      eapply say_safe; exact Hop.
  - repeat case_match; eapply say_safe; exact Hop.
Qed.

(** ** Every handler *)

Lemma total_judged n acl h : (forall e s argv, undefined_in n e s argv = false) -> total h -> judged n acl h.
Proof. intros Hn Hh e s c argv Hs _. rewrite Hn. by apply Hh. Qed.

Ltac by_steps := apply total_judged; [reflexivity|]; let H := fresh "Hs" in start H; repeat first [safe_step | case_match].

Lemma table_judged : Forall (fun x => judged (ce_name x) (ce_acl x) (ce_fn x)) table.
Proof.
  pose proof (proj1 (Forall_forall _ _) (quiet_handlers strtod print_g)) as Hq.
  apply Forall_forall. intros x Hx. destruct (decide (ce_acl x = 0)) as [H0|H0].
  - apply total_judged; [|by apply harmless_total, Hq]. intros e s argv. clear Hq.
    unfold cmd_table in Hx. repeat (apply elem_of_cons in Hx as [->|Hx]; [first [reflexivity | done]|]). by apply elem_of_nil in Hx.
  - clear Hq. enough (HF : Forall (fun x => ce_acl x <> 0 -> judged (ce_name x) (ce_acl x) (ce_fn x)) table).
    { exact (proj1 (Forall_forall _ _) HF x Hx H0). }
    clear x Hx H0. unfold cmd_table.
    repeat apply Forall_cons_2; try apply Forall_nil_2; cbn [ce_name ce_acl ce_fn]; intros H0; try done.
    + unfold cmd_get. by_steps.
    + apply total_judged; [reflexivity|]. start Hs. unfold cmd_mget. do 2 safe_step. by eapply mget_safe.
    + apply total_judged; [reflexivity | apply exists_total].
    + unfold cmd_ttl. by_steps.
    + unfold cmd_pttl, cmd_ttl. by_steps.
    + unfold cmd_type. by_steps.
    + unfold cmd_dbsize. by_steps.
    + apply keys_judged.
    + apply scan_judged.
    + unfold cmd_info. by_steps.
    + apply total_judged; [reflexivity | apply set_total].
    + apply total_judged; [reflexivity | apply mset_total].
    + apply total_judged; [reflexivity | apply del_total].
    + apply total_judged; [reflexivity|]. start Hs. unfold cmd_expire. do 2 safe_step. by apply reset_ttl_total.
    + apply total_judged; [reflexivity|]. start Hs. unfold cmd_persist. do 2 safe_step. by apply reset_ttl_total.
    + apply total_judged; [reflexivity | apply rename_total].
    + apply total_judged; [reflexivity | apply append_total].
    + intros e s c argv Hs Hp. by apply incrby_judged.
    + intros e s c argv Hs Hp. by apply incrby_judged.
    + apply incrby2_judged.
    + apply decrby_judged.
    + apply total_judged; [reflexivity | apply flush_total].
    + apply total_judged; [reflexivity | apply flush_total].
    + apply config_judged.
    + unfold cmd_debug. by_steps.
    + apply total_judged; [reflexivity | apply vcset_total].
    + apply vcget_judged.
    + unfold cmd_vcinfo. by_steps.
    + unfold cmd_latency. by_steps.
    + unfold cmd_slowlog. by_steps.
    + unfold cmd_object. by_steps.
    + unfold cmd_xlen. by_steps.
    + unfold cmd_srandmember. by_steps.
Qed.

Lemma dispatch_judged e s c argv : started e s argv -> verdict (hazard e s c argv) (dispatch e s c argv).
Proof.
  intros Hs. unfold hazard. pose proof (started_at _ _ _ Hs) as Hop. destruct argv as [|name args].
  { eexists _, _. split; [reflexivity | apply Hs]. }
  cbn [vc_dispatch]. change (argn (name :: args) 0) with name.
  destruct (find_command name table) as [x|] eqn:Ef; [|eapply say_safe; exact Hop].
  apply find_command_in in Ef as [Hx _]. pose proof (proj1 (Forall_forall _ _) table_judged x Hx) as Hj.
  assert (Hrun : passes (ce_acl x) s c -> verdict (undefined_in (ce_name x) e s (name :: args))
    ('(s, c) ← ce_fn x e s c (name :: args); Some (count_command s, c))).
  { intros Hp. specialize (Hj e s c (name :: args) Hs Hp). destruct (undefined_in _ _ _ _); cbn [verdict] in *; [by rewrite Hj|].
    destruct Hj as (s' & c' & -> & Hw). by eexists _, _. }
  cbv zeta. destruct (Z.eqb_spec (ce_acl x) 0) as [H0|H0]; cbn [orb andb]; [apply Hrun; by left|].
  destruct (need_auth s c (ce_acl x)) as [err|] eqn:En.
  - rewrite bool_decide_false by done. eapply say_safe; exact Hop.
  - rewrite bool_decide_true by done. apply Hrun. by right.
Qed.


Lemma hazard_free e s c argv x :
  find_command (argn argv 0) table = Some x -> undefined_in (ce_name x) e s argv = false -> hazard e s c argv = false.
Proof. intros Hx Hu. unfold hazard. by rewrite Hx, Hu, andb_false_r. Qed.

(** ** Sessions *)

(** Along the session, no command is a hazard and memory is unused when it is given out. *)
Fixpoint session_clear (s : server C) (c : conn) (cmds : list (cenv * list (list Z))) : Prop :=
  match cmds with
  | [] => True
  | (e, argv) :: cmds =>
      fresh_memory e (sv_cache s) argv /\ Forall short argv /\ hazard e s c argv = false /\
      forall s' c', dispatch e s c argv = Some (s', c') -> session_clear s' c' cmds
  end.

(** A session of any user is safe.  From a well-formed store, any sequence of commands
    that avoids the listed situations runs to its end, also on full shards, over expired
    bindings and without memory, and the store is well-formed after it. *)
Theorem session_safe s c cmds :
  kv_wf (sv_cache s) -> session_clear s c cmds ->
  exists s' c', session strtod print_g s c cmds = Some (s', c') /\ kv_wf (sv_cache s').
Proof.
  revert s c. induction cmds as [|[e argv] cmds IH]; intros s c Hw Hc; cbn [session]; [by exists s, c|].
  destruct Hc as (Hf & Hsh & Hz & Hn). pose proof (dispatch_judged e s c argv (Build_started _ _ _ Hw Hf Hsh)) as Hv.
  rewrite Hz in Hv. destruct Hv as (s1 & c1 & E & Hw1). rewrite E. cbn [mbind option_bind]. apply IH; [done | by apply Hn].
Qed.
End Safe.

(** ** On the small cache *)

Lemma mini_wf : kv_wf mini.
Proof. destruct mini_ok as (k & Hok & _). exists k. by apply cok_wf. Qed.

(** Arguments of up to 32 MB: the records of the command fit in any log. *)
Definition small_args (argv : list (list Z)) : Prop := args_len argv <= 2 ^ 25 - 2 ^ 16.

Lemma small_fresh e c argv :
  (forall i c1 k v, before e c i c1 -> env_fresh c1 (ce_ev e i) k v) -> small_args argv -> fresh_memory e c argv.
Proof.
  unfold small_args. intros Hf Hs i c1 k Hb Hk _. pose proof (elem_args_len k argv Hk) as Hl.
  assert (2 ^ 26 = VC_WAL_RING_SIZE) by reflexivity. split; [right; lia|]. intros v _ Hv. split; [by apply Hf|]. right.
  unfold value_max in Hv. unfold set_logged. assert (u32 (Z.of_nat (length v)) <= Z.of_nat (length v)) by (apply Z.mod_le; lia). lia.
Qed.

Lemma mini_fresh now c argv : small_args argv -> fresh_memory (mini_cenv now) c argv.
Proof. apply small_fresh. intros. apply clock_fresh. Qed.

Lemma no_strtod_double t : length (no_strtod t) = 8%nat.
Proof. done. Qed.

Abbreviation open_server := (mini_server (AuthDb [] false)).


(** A counter, a value that is renamed and extended, and a flush. *)
Lemma session_safe_witness :
  exists s' c', session no_strtod no_print_g open_server (mini_conn None)
    [(mini_cenv 1, [bs "INCR"; bs "n"]); (mini_cenv 2, [bs "SET"; bs "k"; bs "v"; bs "EX"; bs "9"]);
     (mini_cenv 3, [bs "RENAME"; bs "k"; bs "m"]); (mini_cenv 4, [bs "APPEND"; bs "m"; bs "w"]);
     (mini_cenv 5, [bs "FLUSHALL"])] = Some (s', c') /\ kv_wf (sv_cache s').
Proof.
  apply (session_safe no_strtod no_print_g no_strtod_double open_server (mini_conn None)); [exact mini_wf|].
  split; [by apply mini_fresh; vm_compute|]. split; [by repeat constructor|]. split; [vm_compute; reflexivity|]. intros s1 c1 _.
  do 4 (split; [by apply mini_fresh; vm_compute|]; split; [by repeat constructor|];
        split; [eapply hazard_free; [reflexivity | reflexivity]|]; intros ? ? _).
  exact I.
Defined.
