(* ===== verification/Scan.v ===== *)
(** * SCAN

    The cursor of SCAN ([src/net/commands.c], [cmd_scan]) against the order in which
    KEYS walks the tables: one call returns the next live keys, and a non-zero
    cursor resumes exactly after them.  A zero cursor, which tells the client that
    the walk is complete, is also returned when the last key asked for sits in the
    last slot of a shard. *)

From S2P Require Import Prelude Hash Slab Entry Shard Wal Cache CacheInv CacheSafe CacheSpec.
From S2P Require Import Proto ProtoSpec Auth Kv Commands.

Abbreviation slots_t := (list (option (list Z))).

(** The live keys at and after a slot of a shard. *)
Definition live_from (tables : list slots_t) (shard slot : Z) : list (list Z) :=
  omap id (drop (Z.to_nat slot) (default [] (tables !! Z.to_nat shard))) ++
  live_keys (drop (S (Z.to_nat shard)) tables).

Definition cursor_of (shard slot : Z) : Z := Z.lor (Z.shiftl shard 20) slot.

Lemma omap_drop_step (slots : slots_t) i x :
  slots !! i = Some x ->
  omap id (drop i slots) = match x with Some k => k :: omap id (drop (S i) slots) | None => omap id (drop (S i) slots) end.
Proof. intros H. rewrite (drop_S _ _ _ H). by destruct x. Qed.

Lemma scan_slots_spec fuel (slots : slots_t) slot nk count sl ks :
  scan_slots fuel slots slot nk count = (sl, ks) -> 0 <= slot -> nk <= count ->
  Z.of_nat (length slots) - slot < Z.of_nat fuel ->
  slot <= sl /\ omap id (drop (Z.to_nat slot) slots) = ks ++ omap id (drop (Z.to_nat sl) slots) /\
  nk + Z.of_nat (length ks) <= count /\
  (Z.of_nat (length slots) <= sl \/ nk + Z.of_nat (length ks) = count) /\
  (slot < sl -> sl <= Z.of_nat (length slots)) /\ (nk < count -> slot < Z.of_nat (length slots) -> slot < sl).
Proof.
  revert slot nk ks. induction fuel as [|fuel IH]; intros slot nk ks E Hs Hn Hf; cbn [scan_slots] in E.
  { injection E as <- <-. cbn. repeat split; lia. }
  destruct (Z.ltb_spec slot (Z.of_nat (length slots))) as [Hl|Hl]; cbn [andb] in E;
    [|injection E as <- <-; cbn; repeat split; try lia; left; lia].
  destruct (Z.ltb_spec nk count) as [Hc|Hc]; [|injection E as <- <-; cbn; repeat split; lia].
  destruct (lookup_lt_is_Some_2 slots (Z.to_nat slot)) as [x Hx]; [lia|]. rewrite Hx in E.
  rewrite (omap_drop_step _ _ _ Hx). replace (S (Z.to_nat slot)) with (Z.to_nat (slot + 1)) by lia.
  destruct x as [k|].
  - destruct (scan_slots fuel slots (slot + 1) (nk + 1) count) as [sl' ks'] eqn:E'. injection E as <- <-.
    destruct (IH _ _ _ E') as (H1 & H2 & H3 & H4 & H5 & H6); [lia | lia | lia|]. cbn [app length].
    rewrite H2. repeat split; try lia.
  - destruct (IH _ _ _ E) as (H1 & H2 & H3 & H4 & H5 & H6); [lia | lia | lia|].
    rewrite H2. repeat split; lia.
Qed.

Lemma live_from_next tables shard :
  0 <= shard -> live_from tables (shard + 1) 0 = live_keys (drop (S (Z.to_nat shard)) tables).
Proof.
  intros Hs. unfold live_from. replace (Z.to_nat (shard + 1)) with (S (Z.to_nat shard)) by lia.
  change (Z.to_nat 0) with 0%nat. rewrite drop_0. destruct (tables !! S (Z.to_nat shard)) as [t|] eqn:E.
  - rewrite (drop_S _ _ _ E). unfold live_keys. cbn [concat default]. by rewrite omap_app.
  - apply lookup_ge_None in E. rewrite !drop_ge by lia. done.
Qed.

Lemma live_from_past tables shard slot :
  0 <= shard -> Z.of_nat (length (default [] (tables !! Z.to_nat shard))) <= slot ->
  live_from tables shard slot = live_from tables (shard + 1) 0.
Proof. intros Hs Hl. rewrite live_from_next by done. unfold live_from. rewrite drop_ge by lia. done. Qed.

(** What one call returns, from a position on. *)
Definition scanned (tables : list slots_t) (shard slot nk count next : Z) (ks : list (list Z)) : Prop :=
  exists rest, live_from tables shard slot = ks ++ rest /\ nk + Z.of_nat (length ks) <= count /\
    ((next = 0 /\ (rest = [] \/ nk + Z.of_nat (length ks) = count)) \/
     exists shard' slot', next = cursor_of shard' slot' /\ rest = live_from tables shard' slot' /\
       shard <= shard' < VC_NUM_SHARDS /\
       0 <= slot' < Z.of_nat (length (default [] (tables !! Z.to_nat shard'))) /\
       nk + Z.of_nat (length ks) = count).

Lemma scan_shards_spec fuel tables shard slot nk count next ks :
  scan_shards fuel tables shard slot nk count = (next, ks) ->
  length tables = Z.to_nat VC_NUM_SHARDS -> 0 <= shard -> 0 <= slot -> nk <= count ->
  VC_NUM_SHARDS - shard < Z.of_nat fuel ->
  scanned tables shard slot nk count next ks.
Proof.
  intros E Hlen. revert shard slot nk ks E. induction fuel as [|fuel IH];
    intros shard slot nk ks E Hs Hsl Hn Hf; cbn [scan_shards] in E; unfold VC_NUM_SHARDS in *.
  { injection E as <- <-. exists []. unfold live_from. rewrite lookup_ge_None_2 by lia.
    rewrite !drop_ge by (cbn; lia). cbn. split; [done|]. split; [lia|]. left. split; [done | by left]. }
  destruct (Z.ltb_spec shard 64) as [Hsh|Hsh]; cbn [andb] in E.
  2: { injection E as <- <-. exists []. unfold live_from. rewrite lookup_ge_None_2 by lia.
       rewrite !drop_ge by (cbn; lia). cbn. split; [done|]. split; [lia|]. left. split; [done | by left]. }
  destruct (Z.ltb_spec nk count) as [Hc|Hc].
  2: { injection E as <- <-. exists (live_from tables shard slot). cbn. split; [done|]. split; [lia|].
       left. split; [done|]. right. lia. }
  set (slots := default [] (tables !! Z.to_nat shard)) in *.
  destruct (scan_slots _ _ _ _ _) as [sl ks1] eqn:E1.
  destruct (scan_slots_spec _ _ _ _ _ _ _ E1 Hsl) as (H1 & H2 & H3 & H4 & H5 & H6); [lia | lia|].
  assert (Hsplit : live_from tables shard slot = ks1 ++ live_from tables shard sl).
  { unfold live_from. fold slots. by rewrite H2, <- app_assoc. }
  destruct (Z.leb_spec (Z.of_nat (length slots)) sl) as [Hend|Hend].
  - destruct (scan_shards fuel tables (shard + 1) 0 (nk + Z.of_nat (length ks1)) count) as [cur ks2] eqn:E2.
    injection E as <- <-.
    destruct (IH _ _ _ _ E2) as (rest & Hr & Hle & Hnext); [lia | lia | lia | lia|].
    exists rest. rewrite Hsplit, live_from_past, Hr, app_assoc by done. split; [done|]. rewrite length_app.
    split; [lia|]. destruct Hnext as [[-> Hx]|(sh' & sl' & -> & -> & ? & ? & ?)].
    + left. split; [done|]. destruct Hx; [by left | right; lia].
    + right. exists sh', sl'. unfold VC_NUM_SHARDS in *. repeat split; lia.
  - injection E as <- <-. exists (live_from tables shard sl). split; [done|]. split; [lia|]. right.
    exists shard, sl. fold slots. unfold VC_NUM_SHARDS in *. repeat split; lia.
Qed.

(** The live keys at and after a cursor. *)
Definition live_at (tables : list slots_t) (cursor : Z) : list (list Z) :=
  live_from tables (Z.land (Z.shiftr cursor 20) 0x3F) (Z.land cursor 0xFFFFF).

Lemma cursor_decode shard slot :
  0 <= shard < 64 -> 0 <= slot < 2 ^ 20 ->
  Z.land (Z.shiftr (cursor_of shard slot) 20) 0x3F = shard /\ Z.land (cursor_of shard slot) 0xFFFFF = slot.
Proof.
  intros Hs Hl. assert (E : cursor_of shard slot = shard * 2 ^ 20 + slot).
  { assert (Hz : Z.land (shard * 2 ^ 20) slot = 0).
    { apply Z.bits_inj'. intros i Hi. rewrite Z.land_spec, Z.bits_0. destruct (Z.ltb_spec i 20).
      - by rewrite Z.mul_pow2_bits_low by lia.
      - rewrite <- (Z.mod_small slot (2 ^ 20)) by lia. rewrite Z.mod_pow2_bits_high by lia. apply andb_false_r. }
    unfold cursor_of. rewrite Z.shiftl_mul_pow2 by lia. by rewrite <- Z.lxor_lor, <- Z.add_nocarry_lxor by done. }
  change 0x3F with (Z.ones 6). change 0xFFFFF with (Z.ones 20).
  rewrite !Z.land_ones, Z.shiftr_div_pow2, E by lia. split.
  - rewrite Z.div_add_l, Z.div_small, Z.mod_small by lia. lia.
  - rewrite Z.add_comm, Z.mod_add, Z.mod_small by lia. lia.
Qed.

(** A call of SCAN returns the next live keys after its cursor in the order of
    the tables, at most COUNT of them; a non-zero cursor stands exactly after the
    last key returned, and a zero cursor comes back only when no key is left or COUNT
    keys were returned. *)
Theorem scan_resumes tables cursor count :
  length tables = Z.to_nat VC_NUM_SHARDS -> Forall (fun t => Z.of_nat (length t) <= 2 ^ 20) tables ->
  0 <= count < 2 ^ 31 ->
  exists next ks rest, scan tables cursor count = (next, ks) /\ live_at tables cursor = ks ++ rest /\
    Z.of_nat (length ks) <= count /\
    (next <> 0 -> rest = live_at tables next /\ Z.of_nat (length ks) = count) /\
    (next = 0 -> rest = [] \/ Z.of_nat (length ks) = count).
Proof.
  intros Hlen Hcap Hc. destruct (scan tables cursor count) as [next ks] eqn:E. unfold scan in E.
  replace (s32 count) with count in E by (unfold s32; rewrite Z.mod_small by lia; lia).
  assert (H6 : 0 <= Z.land (Z.shiftr cursor 20) 0x3F).
  { apply Z.land_nonneg. right. lia. }
  assert (H20 : 0 <= Z.land cursor 0xFFFFF) by (apply Z.land_nonneg; right; lia).
  destruct (scan_shards_spec _ _ _ _ _ _ _ _ E Hlen H6 H20) as (rest & Hr & Hle & Hn);
    [lia | unfold VC_NUM_SHARDS; lia|].
  exists next, ks, rest. split; [done|]. split; [done|]. split; [done|].
  destruct Hn as [[-> Hn]|(sh & sl & -> & -> & Hsh & Hsl & Hn)]; [by split; [done|]|].
  split; [intros _ | by right]. split; [|done]. unfold live_at.
  assert (Hsl' : sl < 2 ^ 20).
  { destruct (tables !! Z.to_nat sh) as [t|] eqn:Et; cbn [default] in Hsl; [|cbn in Hsl; lia].
    pose proof (Forall_lookup_1 _ _ _ _ Hcap Et). cbn in *. lia. }
  unfold VC_NUM_SHARDS in Hsh. by destruct (cursor_decode sh sl) as [-> ->]; [lia | lia|].
Qed.

Lemma scan_resumes_witness :
  exists next ks rest, scan (replicate 64 [None; Some (bs "a"); None]) 0 2 = (next, ks) /\
    live_at (replicate 64 [None; Some (bs "a"); None]) 0 = ks ++ rest /\ Z.of_nat (length ks) <= 2 /\
    (next <> 0 -> rest = live_at (replicate 64 [None; Some (bs "a"); None]) next /\ Z.of_nat (length ks) = 2) /\
    (next = 0 -> rest = [] \/ Z.of_nat (length ks) = 2).
Proof.
  apply (scan_resumes (replicate 64 [None; Some (bs "a"); None]) 0 2); [reflexivity | | lia].
  apply Forall_replicate. by compute.
Defined.

(** The walk can stop early: when the COUNT-th key is in the last slot of a shard
    the cursor is 0 although a later shard holds a key, and the client, told that
    the walk is complete, never sees it. *)
Theorem scan_stops_early :
  let tables := [None; Some (bs "a")] :: [Some (bs "b"); None] :: replicate 62 [None; None] in
  scan tables 0 1 = (0, [bs "a"]) /\ live_keys tables = [bs "a"; bs "b"].
Proof. vm_compute. done. Qed.
