(* ===== verification/Server.v ===== *)
(** * Connections

    [src/net/server.c]: the connection pool, the read-parse-dispatch loop, the
    flushing of replies, the handling of readiness events and the idle sweep, and the
    part of [vcserver_create] that sets up authentication.  What [read], [write] (or
    their TLS counterparts) and the allocator answer are arguments.  An inline
    argument that holds a NUL is taken as undefined for every command, since its
    block is shorter than its length.  A connection's
    write buffer is [cn_out] of its [conn]; [k_wpos] is the [rpos] of that buffer. *)

From S2P Require Import Prelude Hash Slab Entry Shard Wal Cache CacheInv CacheSafe CacheSpec.
From S2P Require Import Proto ProtoSpec Auth Kv Commands.

Definition VC_MAX_CONNS : nat := Z.to_nat 16384.
Definition VC_RBUF_INIT : Z := 16 * 1024.
Definition VC_CONN_TIMEOUT_S : Z := 300.

(** A slot of the pool: the connection, whether [ssl] is set, its buffers ([None]:
    NULL), the time of the last read. *)
Record slot := Slot {
  k_conn : conn;
  k_tls : bool;
  k_rbuf : option vc_buf;
  k_wpos : option Z;
  k_last_active : Z
}.

Definition set_out (o : list Z) (c : conn) : conn :=
  Conn (cn_fd c) (cn_state c) (cn_resp3 c) (cn_user c) (cn_token c) (cn_db_idx c)
    (cn_peer_addr c) (cn_peer_port c) o.

Definition k_state (k : slot) : conn_state := cn_state (k_conn k).
Definition with_conn (c : conn) (k : slot) : slot :=
  Slot c (k_tls k) (k_rbuf k) (k_wpos k) (k_last_active k).

(** ** The pool *)

Definition conn_reset (rbuf : option vc_buf) (wpos : option Z) (now : Z) (k : slot) : slot :=
  let c := k_conn k in
  Slot (Conn (cn_fd c) VC_CONN_CONNECTED false None (cn_token c) 0 (cn_peer_addr c) (cn_peer_port c) [])
    false rbuf wpos now.

(** The first FREE slot from index [i] on. *)
Fixpoint alloc_loop (i : nat) (l : list slot) : option nat :=
  match l with
  | [] => None
  | k :: l => if bool_decide (k_state k = VC_CONN_FREE) then Some i else alloc_loop (S i) l
  end.

(** [wbuf_ok] is the second [vc_buf_new]. *)
Definition conn_alloc (alloc_ok : allocator) (wbuf_ok : bool) (now : Z) (pool : list slot)
    : option (nat * list slot) :=
  i ← alloc_loop 0 pool;
  k ← pool !! i;
  Some (i, <[i := conn_reset (vc_buf_new alloc_ok VC_RBUF_INIT) (if wbuf_ok then Some 0 else None) now k]> pool).

Definition conn_close (k : slot) : slot :=
  if bool_decide (k_state k = VC_CONN_FREE) then k else
  let c := k_conn k in
  Slot (Conn (-1) VC_CONN_FREE (cn_resp3 c) (cn_user c) (cn_token c) (cn_db_idx c)
          (cn_peer_addr c) (cn_peer_port c) [])
    false None None (k_last_active k).

(** The idle sweep. *)
Definition idle_sweep (now : Z) (pool : list slot) : list slot :=
  (fun k => if bool_decide (k_state k = VC_CONN_FREE) || (cn_fd (k_conn k) <? 0) then k
            else if VC_CONN_TIMEOUT_S * 1000000000 <? now - k_last_active k then conn_close k else k) <$> pool.

(** ** Writing *)

(** A return value of [write], or an error that does or does not mean try again. *)
Inductive wr_result := Wr (n : Z) | WrErr (again : bool).

Inductive flush_status := FlushOk | FlushError | FlushAgain.

(** The loop of [conn_flush]: status, new [rpos], bytes sent.  Every round but the
    last advances [rpos]. *)
Fixpoint flush_loop (fuel : nat) (w : nat -> wr_result) (j : nat) (data : list Z) (rpos : Z)
    : flush_status * Z * list Z :=
  match fuel with
  | O => (FlushError, rpos, [])
  | S fuel =>
      if rpos <? Z.of_nat (length data) then
        match w j with
        | Wr n =>
            if 0 <? n then
              let '(st, r, sent) := flush_loop fuel w (S j) data (rpos + n) in
              (st, r, take (Z.to_nat n) (drop (Z.to_nat rpos) data) ++ sent)
            else (FlushError, rpos, [])
        | WrErr true => (FlushAgain, rpos, [])
        | WrErr false => (FlushError, rpos, [])
        end
      else (FlushOk, rpos, [])
  end.

(** [None]: the buffer is NULL. *)
Definition conn_flush (w : nat -> wr_result) (k : slot) : option (flush_status * list Z * slot) :=
  rpos ← k_wpos k;
  let data := cn_out (k_conn k) in
  let '(st, r, sent) := flush_loop (S (length data)) w 0 data rpos in
  match st with
  | FlushOk => Some (st, sent, Slot (set_out [] (k_conn k)) (k_tls k) (k_rbuf k) (Some 0) (k_last_active k))
  | _ => Some (st, sent, Slot (k_conn k) (k_tls k) (k_rbuf k) (Some r) (k_last_active k))
  end.

(** ** Reading *)

Inductive rd_result := RdBytes (l : list Z) | RdEof | RdAgain | RdError.

(** The read loop: [Some None] closes the connection.  No [read] returns more than it
    was asked for. *)
Fixpoint read_loop (alloc_ok : allocator) (rs : list rd_result) (b : vc_buf) : option (option vc_buf) :=
  match rs with
  | [] => None
  | r :: rs =>
      '(ok, b) ← vc_buf_grow alloc_ok b 4096;
      if negb ok then Some None
      else match r with
           | RdBytes l =>
               if b_cap b - b_len b <? Z.of_nat (length l) then None
               else read_loop alloc_ok rs (Buf (b_data b ++ l) (b_cap b) (b_rpos b))
           | RdAgain => Some (Some b)
           | RdEof | RdError => Some None
           end
  end.

Definition read_any (rs : list rd_result) : bool := match rs with RdBytes _ :: _ => true | _ => false end.

(** The bytes a handler reads of an argument; [None] when they are not all in its
    block. *)
Definition arg_bytes (a : arg) : option (list Z) :=
  if a_len a <? Z.of_nat (length (a_buf a)) then Some (take (Z.to_nat (a_len a)) (a_buf a)) else None.

Section Process.
Context {C : Type} {KV : Kv C}.
Context (strtod : list Z -> list Z) (print_g : list Z -> list Z).
Context (alloc_ok : allocator).

(** How the loop over the complete commands ends. *)
Inductive loop_end := LoopIdle | LoopProtocolError | LoopClosing.

(** [E i]: what the system answers while command [i] runs; the result has the number
    of the next command. *)
Fixpoint cmd_loop (fuel : nat) (E : nat -> cenv) (i : nat) (s : server C) (c : conn) (b : vc_buf)
    : option (loop_end * nat * server C * conn * vc_buf) :=
  match fuel with
  | O => Some (LoopIdle, i, s, c, b)
  | S fuel =>
      if 0 <? b_len b then
        match resp_parse_command alloc_ok (b_data b) with
        | RESP_PARSE_MORE => Some (LoopIdle, i, s, c, b)
        | RESP_PARSE_ERR => Some (LoopProtocolError, i, s, c, b)
        | RESP_PARSE_OK cmd consumed =>
            argv ← mapM arg_bytes (cmd_args cmd);
            '(s, c) ← vc_dispatch strtod print_g (E i) s c argv;
            let b := vc_buf_consume b consumed in
            if bool_decide (cn_state c = VC_CONN_CLOSING) then Some (LoopClosing, S i, s, c, b)
            else cmd_loop fuel E (S i) s c b
        end
      else Some (LoopIdle, i, s, c, b)
  end.

(** Everything a readiness event changes: the number of the next command, the server,
    the slot, and the bytes that went out. *)
Record outcome := Outcome { o_next : nat; o_srv : server C; o_slot : slot; o_sent : list Z }.

Definition process_conn (E : nat -> cenv) (i : nat) (now : Z) (rs : list rd_result) (w : nat -> wr_result)
    (s : server C) (k : slot) : option outcome :=
  b ← k_rbuf k;
  r ← read_loop alloc_ok rs b;
  match r with
  | None => Some (Outcome i s (conn_close k) [])
  | Some b =>
      let active := if read_any rs then now else k_last_active k in
      _ ← k_wpos k;
      '(e, i, s, c, b) ← cmd_loop (S (length (b_data b))) E i s (k_conn k) b;
      let k := Slot c (k_tls k) (Some b) (k_wpos k) active in
      match e with
      | LoopProtocolError =>
          let k := with_conn (cn_write (r_err (bs "protocol error")) c) k in
          '(_, sent, k) ← conn_flush w k; Some (Outcome i s (conn_close k) sent)
      | LoopClosing => '(_, sent, k) ← conn_flush w k; Some (Outcome i s (conn_close k) sent)
      | LoopIdle =>
          if decide (cn_out c = []) then Some (Outcome i s k [])
          else '(st, sent, k) ← conn_flush w k;
               match st with
               | FlushError => Some (Outcome i s (conn_close k) sent)
               | _ => Some (Outcome i s k sent)
               end
      end
  end.

(** ** Events *)

Definition count_conn (s : server C) : server C :=
  Server (sv_cache s) (sv_auth s) (sv_node_id s) (u64 (sv_total_conns s + 1)) (sv_total_commands s)
    (sv_cluster_enabled s) (sv_announce_addr s) (sv_announce_port s) (sv_port s).

(** A connection accepted by a worker gets a slot, or is closed at once.  [peer]: the
    address and port of an IPv4 or IPv6 client. *)
Definition accept_conn (wbuf_ok : bool) (now : Z) (tls : bool) (cfd : Z) (peer : option (list Z * Z))
    (s : server C) (pool : list slot) : server C * list slot :=
  match conn_alloc alloc_ok wbuf_ok now pool with
  | None => (s, pool)
  | Some (i, pool) =>
      (count_conn s,
       alter (fun k =>
         let c := k_conn k in
         let '(addr, port) := default (cn_peer_addr c, cn_peer_port c) peer in
         Slot (Conn cfd (if tls then VC_CONN_TLS_HAND else cn_state c) (cn_resp3 c) (cn_user c) (cn_token c)
                 (cn_db_idx c) addr port (cn_out c))
           tls (k_rbuf k) (k_wpos k) (k_last_active k)) i pool)
  end.

(** What [SSL_accept] answers: done, want more, failed. *)
Inductive tls_result := TlsDone | TlsWant | TlsFailed.

Definition tls_do_handshake (r : tls_result) (s : server C) (k : slot) : slot :=
  match r with
  | TlsDone => with_conn (cn_set_state (if db_require_auth (sv_auth s) then VC_CONN_CONNECTED else VC_CONN_AUTHED)
                            (k_conn k)) k
  | TlsWant => k
  | TlsFailed => conn_close k
  end.

(** A readiness event on an open connection, with the system's answers. *)
Record event := Event {
  ev_hup : bool;               (** EPOLLRDHUP, EPOLLHUP or EPOLLERR *)
  ev_out : bool;               (** EPOLLOUT *)
  ev_in : bool;                (** EPOLLIN *)
  ev_now : Z;
  ev_reads : list rd_result;
  ev_resume : nat -> wr_result; (** writes of the pending bytes *)
  ev_writes : nat -> wr_result;
  ev_tls : tls_result
}.

Definition on_event (E : nat -> cenv) (ev : event) (i : nat) (s : server C) (k : slot) : option outcome :=
  if bool_decide (k_state k = VC_CONN_FREE) then Some (Outcome i s k [])
  else if ev_hup ev then Some (Outcome i s (conn_close k) [])
  else if bool_decide (k_state k = VC_CONN_TLS_HAND)
       then Some (Outcome i s (tls_do_handshake (ev_tls ev) s k) [])
  else
    '(st, sent, k) ← (if ev_out ev then conn_flush (ev_resume ev) k else Some (FlushOk, [], k));
    match st with
    | FlushError => Some (Outcome i s (conn_close k) sent)
    | _ =>
        if ev_in ev then
          o ← process_conn E i (ev_now ev) (ev_reads ev) (ev_writes ev) s k;
          Some (Outcome (o_next o) (o_srv o) (o_slot o) (sent ++ o_sent o))
        else Some (Outcome i s k sent)
    end.

(** The events of one connection, one after the other. *)
Fixpoint serve (E : nat -> cenv) (evs : list event) (i : nat) (s : server C) (k : slot) : option outcome :=
  match evs with
  | [] => Some (Outcome i s k [])
  | ev :: evs =>
      o ← on_event E ev i s k;
      o' ← serve E evs (o_next o) (o_srv o) (o_slot o);
      Some (Outcome (o_next o') (o_srv o') (o_slot o') (o_sent o ++ o_sent o'))
  end.
End Process.

(** ** Authentication set up at start *)

(** The user table of [vcserver_create]: the ACL file, then the password of the
    configuration.  [None]: the server refuses to start. *)
Definition create_auth (junk : nat -> Z) (path : option (list Z)) (file : option (list Z))
    (requirepass : option (list Z)) : option vc_auth_db :=
  match vc_auth_load junk path file with
  | inl _ => None
  | inr db =>
      match requirepass with
      | Some (ch :: pw) =>
          Some (vc_auth_add_user true db (bs "default") (ch :: pw)
                  (Z.lor (Z.lor VC_ACL_READ VC_ACL_WRITE) VC_ACL_ADMIN)).2
      | _ => Some db
      end
  end.
