(* ===== verification/ServerThm.v ===== *)
(** * Connections: theorems

    Replies do not depend on what the write buffer already holds; the stream of
    bytes of a client can be cut anywhere without changing which commands run or
    what is sent back; flushing neither loses nor repeats bytes; a new connection
    has no user. *)

From S2P Require Import Prelude Hash Slab Entry Shard Wal Cache CacheInv CacheSafe CacheSpec CacheThm.
From S2P Require Import Proto ProtoSpec Auth Kv Commands CommandsSpec Server.

Section Framing.
Context {C : Type} {KV : Kv C}.
Context (strtod : list Z -> list Z) (print_g : list Z -> list Z).

(** ** Replies are appended *)

(** The result with [o] in front of what was written. *)
Definition prefix_out (o : list Z) (r : option (server C * conn)) : option (server C * conn) :=
  '(s, c) ← r; Some (s, set_out (o ++ cn_out c) c).

(** [r] is what the same handler does from an empty write buffer, after [o]. *)
Definition framed (h : cenv -> server C -> conn -> list (list Z) -> option (server C * conn)) : Prop :=
  forall e s c argv, h e s c argv = prefix_out (cn_out c) (h e s (set_out [] c) argv).

Lemma frame_say s c out : say s c out = prefix_out (cn_out c) (say s (set_out [] c) out).
Proof. done. Qed.

Lemma frame_guarded acl s c r r' :
  r = prefix_out (cn_out c) r' -> guarded acl s c r = prefix_out (cn_out c) (guarded acl s (set_out [] c) r').
Proof. intros ->. unfold guarded. change (need_auth s (set_out [] c) acl) with (need_auth s c acl). by case_match. Qed.

Lemma frame_check mn mx argv s c r r' :
  r = prefix_out (cn_out c) r' ->
  argc_check mn mx argv s c r = prefix_out (cn_out c) (argc_check mn mx argv s (set_out [] c) r').
Proof. intros ->. unfold argc_check. cbv zeta. by case_match. Qed.

Lemma frame_min mn argv s c r r' :
  r = prefix_out (cn_out c) r' ->
  argc_min mn argv s c r = prefix_out (cn_out c) (argc_min mn argv s (set_out [] c) r').
Proof. intros ->. unfold argc_min. by case_match. Qed.

Lemma frame_bind {A} (m : option A) c (f g : A -> option (server C * conn)) :
  (forall x, f x = prefix_out (cn_out c) (g x)) -> (m ≫= f) = prefix_out (cn_out c) (m ≫= g).
Proof. intros H. destruct m; [apply H | done]. Qed.

Ltac frame_step :=
  first [ apply frame_say | apply frame_guarded | apply frame_check | apply frame_min
        | apply frame_bind; intros [? ?] | apply frame_bind; intros ? | reflexivity | case_match ].
Ltac frame_tac := intros e s c argv; repeat (cbv zeta; frame_step).

Lemma mget_loop_framed e i s c keys :
  mget_loop e i s c keys = prefix_out (cn_out c) (mget_loop e i s (set_out [] c) keys).
Proof.
  revert i s c. induction keys as [|k keys IH]; intros i s c; cbn [mget_loop].
  { cbn. rewrite app_nil_r. by destruct c. }
  apply frame_bind. intros [r s']. rewrite IH. rewrite (IH _ _ (cn_write _ _)).
  set (x := match r with Some _ => _ | None => _ end). change (set_out [] (cn_write _ (set_out [] c))) with (set_out [] (cn_write x c)).
  destruct (mget_loop _ _ _ _ _) as [[s2 c2]|]; [|done]. cbn. by rewrite <- app_assoc.
Qed.

Lemma hello_auth_framed fuel e (s : server C) c argv i :
  hello_auth fuel e s (set_out [] c) argv i =
  ((hello_auth fuel e s c argv i).1, set_out [] (hello_auth fuel e s c argv i).2).
Proof.
  revert c i. induction fuel as [|fuel IH]; intros c i; cbn [hello_auth]; [done|].
  case_match; [|done]. case_match; [|apply IH]. case_match; [|done]. apply (IH (cn_login _ _ c)).
Qed.

(** The AUTH options of HELLO write nothing and leave the state of the connection. *)
Lemma hello_auth_keeps fuel e (s : server C) c argv i :
  cn_out (hello_auth fuel e s c argv i).2 = cn_out c /\ cn_state (hello_auth fuel e s c argv i).2 = cn_state c.
Proof.
  revert c i. induction fuel as [|fuel IH]; intros c i; cbn [hello_auth]; [done|].
  case_match; [|done]. case_match; [|apply IH]. case_match; [|done]. apply (IH (cn_login _ _ c)).
Qed.

Lemma hello_framed : framed cmd_hello.
Proof.
  intros e s c argv. unfold cmd_hello. cbv zeta.
  generalize (if 2 <=? Z.of_nat (length argv) then s32 (parse_out (argn argv 1)) else 2). intros pr.
  case_match; [done|]. rewrite hello_auth_framed.
  pose proof (proj1 (hello_auth_keeps (length argv) e s c argv 2)) as Ho.
  destruct (hello_auth _ _ _ _ _ _) as [[] c1]; cbn [fst snd] in *;
    unfold say, prefix_out, cn_write, cn_set_resp3, set_out; cbn; by rewrite Ho.
Qed.

Lemma auth_framed : framed cmd_auth.
Proof.
  intros e s c argv. unfold cmd_auth. cbv zeta. case_match; [done|].
  destruct (if Z.of_nat (length argv) =? 2 then _ else _) as [uname upass]. case_match; [done|]. by case_match.
Qed.

Lemma mget_framed : framed cmd_mget.
Proof.
  intros e s c argv. unfold cmd_mget. apply frame_guarded, frame_min.
  rewrite mget_loop_framed, (mget_loop_framed _ _ _ (cn_write _ (set_out [] c))).
  set (x := r_array _). change (set_out [] (cn_write x (set_out [] c))) with (set_out [] (cn_write x c)).
  destruct (mget_loop _ _ _ _ _) as [[s2 c2]|]; [|done]. cbn. by rewrite <- app_assoc.
Qed.

Lemma incrby_framed e s c argv delta :
  cmd_incrby e s c argv delta = prefix_out (cn_out c) (cmd_incrby e s (set_out [] c) argv delta).
Proof.
  unfold cmd_incrby. apply frame_guarded, frame_check. cbv zeta. apply frame_bind. intros [r s1].
  case_match; [done|]. apply frame_bind. intros [err s2]. unfold say, prefix_out, cn_write, set_out. cbn.
  by rewrite <- app_assoc.
Qed.

Lemma table_framed : Forall (fun x => framed (ce_fn x)) (cmd_table strtod print_g).
Proof.
  unfold cmd_table. repeat apply Forall_cons_2; try apply Forall_nil_2; cbn [ce_fn];
    try first [apply hello_framed | apply auth_framed | apply mget_framed]; unfold framed.
  all: unfold cmd_ping, cmd_select, cmd_quit, cmd_client, cmd_get, cmd_exists, cmd_pttl, cmd_ttl, cmd_type,
    cmd_dbsize, cmd_keys, cmd_scan, cmd_info, cmd_set, cmd_mset, cmd_del, cmd_expire, cmd_persist, reset_ttl,
    cmd_rename, cmd_append, cmd_incr, cmd_decr, cmd_incrby2, cmd_decrby, cmd_flushdb, cmd_config, cmd_debug,
    cmd_command, cmd_cluster, cmd_vcset, cmd_vcget, cmd_vcinfo, cmd_reset, cmd_acl, cmd_latency, cmd_slowlog,
    cmd_object, cmd_wait, cmd_xlen, cmd_srandmember.
  all: intros e s c argv; repeat (cbv zeta; first [apply incrby_framed | frame_step]).
Qed.

Lemma dispatch_framed e s c argv :
  vc_dispatch strtod print_g e s c argv = prefix_out (cn_out c) (vc_dispatch strtod print_g e s (set_out [] c) argv).
Proof.
  destruct argv as [|name args]; cbn [vc_dispatch]; [cbn; rewrite app_nil_r; by destruct c|].
  destruct (find_command _ _) as [x|] eqn:Ef; [|apply frame_say]. cbv zeta.
  change (need_auth s (set_out [] c) (ce_acl x)) with (need_auth s c (ce_acl x)).
  case_match; [apply frame_say|].
  rewrite (proj1 (Forall_forall _ _) table_framed x (proj1 (find_command_in _ _ _ Ef))).
  destruct (ce_fn x e s (set_out [] c) (name :: args)) as [[s' c']|]; done.
Qed.

(** ** Commands keep the connection open or mark it for closing *)

Definition stays (c : conn) (r : option (server C * conn)) : Prop :=
  match r with
  | Some (_, c') => cn_state c' = cn_state c \/ cn_state c' = VC_CONN_CLOSING
  | None => True
  end.

Lemma stays_say s c c' out : cn_state c' = cn_state c -> stays c (say s c' out).
Proof. by left. Qed.

Lemma stays_bind {A} c (m : option A) (f : A -> option (server C * conn)) :
  (forall x, stays c (f x)) -> stays c (m ≫= f).
Proof. intros H. destruct m; [apply H | done]. Qed.

Lemma stays_mget e i s c c0 keys : cn_state c = cn_state c0 -> stays c0 (mget_loop e i s c keys).
Proof.
  revert i s c. induction keys as [|k keys IH]; intros i s c Hc; cbn [mget_loop]; [by left|].
  apply stays_bind. intros [r s']. by apply IH.
Qed.

Lemma stays_guarded acl s c r : stays c r -> stays c (guarded acl s c r).
Proof. intros H. unfold guarded. case_match; [by left | done]. Qed.

Lemma stays_check mn mx argv s c r : stays c r -> stays c (argc_check mn mx argv s c r).
Proof. intros H. unfold argc_check. cbv zeta. case_match; [by left | done]. Qed.

Lemma stays_min mn argv s c r : stays c r -> stays c (argc_min mn argv s c r).
Proof. intros H. unfold argc_min. case_match; [by left | done]. Qed.

Ltac stays_step :=
  first [ apply stays_say; reflexivity | apply stays_guarded | apply stays_check | apply stays_min
        | apply stays_bind; intros [? ?] | apply stays_bind; intros ?
        | match goal with |- stays _ None => exact I end | case_match ].

Lemma hello_stays e s c argv : stays c (cmd_hello (C := C) e s c argv).
Proof.
  unfold cmd_hello. cbv zeta.
  generalize (if 2 <=? Z.of_nat (length argv) then s32 (parse_out (argn argv 1)) else 2). intros pr.
  case_match; [by left|]. pose proof (proj2 (hello_auth_keeps (length argv) e s c argv 2)) as Hk.
  destruct (hello_auth _ _ _ _ _ _) as [[] c1]; by left.
Qed.

Lemma auth_stays e s c argv : stays c (cmd_auth (C := C) e s c argv).
Proof.
  unfold cmd_auth. cbv zeta. case_match; [by left|].
  destruct (if Z.of_nat (length argv) =? 2 then _ else _) as [uname upass]. repeat stays_step.
Qed.

Lemma incrby_stays e s c argv delta : stays c (cmd_incrby (C := C) e s c argv delta).
Proof. unfold cmd_incrby. repeat (cbv zeta; stays_step). Qed.

Lemma mget_stays e s c argv : stays c (cmd_mget (C := C) e s c argv).
Proof. unfold cmd_mget. apply stays_guarded, stays_min. by apply stays_mget. Qed.

Lemma table_stays : Forall (fun x => forall e s c argv, stays c (ce_fn x e s c argv)) (cmd_table strtod print_g).
Proof.
  unfold cmd_table. repeat apply Forall_cons_2; try apply Forall_nil_2; cbn [ce_fn];
    try first [apply hello_stays | apply auth_stays | apply mget_stays].
  all: unfold cmd_ping, cmd_select, cmd_client, cmd_get, cmd_exists, cmd_pttl, cmd_ttl, cmd_type,
    cmd_dbsize, cmd_keys, cmd_scan, cmd_info, cmd_set, cmd_mset, cmd_del, cmd_expire, cmd_persist, reset_ttl,
    cmd_rename, cmd_append, cmd_incr, cmd_decr, cmd_incrby2, cmd_decrby, cmd_flushdb, cmd_config, cmd_debug,
    cmd_command, cmd_cluster, cmd_vcset, cmd_vcget, cmd_vcinfo, cmd_reset, cmd_acl, cmd_latency, cmd_slowlog,
    cmd_object, cmd_wait, cmd_xlen, cmd_srandmember.
  all: try (intros e s c argv; right; reflexivity).
  all: intros e s c argv; repeat (cbv zeta; first [apply incrby_stays | stays_step]).
Qed.

Lemma dispatch_stays e s c argv : stays c (vc_dispatch strtod print_g e s c argv).
Proof.
  destruct argv as [|name args]; cbn [vc_dispatch]; [by left|].
  destruct (find_command _ _) as [x|] eqn:Ef; [|by left]. cbv zeta. case_match; [by left|].
  pose proof (proj1 (Forall_forall _ _) table_stays x (proj1 (find_command_in _ _ _ Ef)) e s c (name :: args)) as Hs.
  destruct (ce_fn x e s c (name :: args)) as [[s' c']|]; done.
Qed.
End Framing.

(** ** Flushing *)

(** The bytes of the write buffer that are not sent yet. *)
Definition unsent (k : slot) : list Z :=
  match k_wpos k with Some r => drop (Z.to_nat r) (cn_out (k_conn k)) | None => [] end.

(** The socket failed, and not only for the moment. *)
Definition broken (w : nat -> wr_result) : Prop := exists j, w j = WrErr false \/ exists n, w j = Wr n /\ n <= 0.

Lemma flush_loop_conserves fuel w j data rpos st r sent :
  flush_loop (S fuel) w j data rpos = (st, r, sent) -> 0 <= rpos ->
  Z.of_nat (length data) - rpos <= Z.of_nat fuel ->
  sent ++ drop (Z.to_nat r) data = drop (Z.to_nat rpos) data /\
  (st = FlushOk -> drop (Z.to_nat r) data = []) /\ (st = FlushError -> broken w) /\
  (st = FlushAgain -> 0 <= r < Z.of_nat (length data) /\ exists i, w i = WrErr true).
Proof.
  revert j rpos st r sent. induction fuel as [|fuel IH]; intros j rpos st r sent Hfl Hr Hf; cbn [flush_loop] in Hfl;
    (destruct (Z.ltb_spec rpos (Z.of_nat (length data))) as [Hlt|Hge];
     [|injection Hfl as <- <- <-; split; [done|]; split; [intros _; by rewrite drop_ge by lia | done]]); [lia|].
  destruct (w j) as [n|[]] eqn:Ew.
  - destruct (Z.ltb_spec 0 n).
    2: { injection Hfl as <- <- <-. split; [done|]. split; [done|]. split; [|done]. intros _. exists j. right. by exists n. }
    destruct (flush_loop (S fuel) w (S j) data (rpos + n)) as [[st1 r1] sent1] eqn:E1. cbn [flush_loop] in E1.
    rewrite E1 in Hfl. injection Hfl as <- <- <-.
    destruct (IH (S j) (rpos + n) st1 r1 sent1) as (H1 & H2 & H3); [cbn [flush_loop]; exact E1 | lia | lia|].
    split; [|done]. rewrite <- app_assoc, H1. rewrite Z2Nat.inj_add by lia. rewrite <- drop_drop. apply take_drop.
  - injection Hfl as <- <- <-. split; [done|]. split; [done|]. split; [done|]. intros _. split; [lia | by exists j].
  - injection Hfl as <- <- <-. split; [done|]. split; [done|]. split; [|done]. intros _. exists j. by left.
Qed.

(** A flush neither loses nor repeats a byte: what was sent followed by what is left
    is what was waiting; a complete flush leaves nothing, and an error is reported only
    when the socket failed. *)
Theorem flush_conserves w k :
  (exists r, k_wpos k = Some r /\ 0 <= r) ->
  exists st sent k', conn_flush w k = Some (st, sent, k') /\ sent ++ unsent k' = unsent k /\
    (st = FlushOk -> unsent k' = []) /\ (st = FlushError -> broken w).
Proof.
  intros (r & Hk & Hr). unfold conn_flush, unsent. rewrite Hk. cbn [mbind option_bind].
  destruct (flush_loop _ w 0 _ r) as [[st r'] sent] eqn:Ef.
  destruct (flush_loop_conserves _ _ _ _ _ _ _ _ Ef Hr) as (H1 & H2 & H3 & _); [lia|].
  destruct st; eexists _, sent, _; (split; [reflexivity|]); cbn [k_wpos k_conn set_out cn_out]; [|done..].
  rewrite H2 in H1 by done. rewrite drop_nil. done.
Qed.

(** ** Commands cut out of the byte stream *)

Section Pipeline.
Context {C : Type} {KV : Kv C}.
Context (strtod : list Z -> list Z) (print_g : list Z -> list Z).
Context (alloc_ok : allocator) (Halloc : forall n, alloc_ok n = true).
Context (E : nat -> cenv).

Abbreviation dispatch := (vc_dispatch strtod print_g).
Abbreviation loop := (cmd_loop strtod print_g alloc_ok).

(** A command a client may send. *)
Definition fits (cmd : list (list Z)) : Prop := Z.of_nat (length cmd) <= VC_MAX_ARGS /\ Forall arg_fits cmd.

(** What the dispatcher sees of it. *)
Definition received (cmd : list (list Z)) : list (list Z) :=
  match cmd with [] => [] | name :: args => upper_first name :: args end.

Definition stream (cmds : list (list (list Z))) : list Z := concat (enc_command <$> cmds).

Definition closing (c : conn) : bool := bool_decide (cn_state c = VC_CONN_CLOSING).

(** The commands one after the other, up to one that closes the connection. *)
Fixpoint session_until (i : nat) (s : server C) (c : conn) (cmds : list (list (list Z)))
    : option (nat * server C * conn) :=
  match cmds with
  | [] => Some (i, s, c)
  | cmd :: cmds =>
      '(s, c) ← dispatch (E i) s c (received cmd);
      if closing c then Some (S i, s, c) else session_until (S i) s c cmds
  end.

Lemma session_until_app i s c l1 l2 :
  closing c = false ->
  session_until i s c (l1 ++ l2) =
  '(i', s', c') ← session_until i s c l1;
  if closing c' then Some (i', s', c') else session_until i' s' c' l2.
Proof.
  revert i s c. induction l1 as [|cmd l1 IH]; intros i s c Hc; cbn [app session_until].
  { cbn [mbind option_bind]. by rewrite Hc. }
  destruct (dispatch _ _ _ _) as [[s1 c1]|]; cbn [mbind option_bind]; [|done].
  destruct (closing c1) eqn:E1; [cbn [mbind option_bind]; by rewrite E1 | by apply IH].
Qed.

Lemma session_until_framed i s c l :
  session_until i s c l =
  '(i', s', c') ← session_until i s (set_out [] c) l; Some (i', s', set_out (cn_out c ++ cn_out c') c').
Proof.
  revert i s c. induction l as [|cmd l IH]; intros i s c; cbn [session_until].
  { cbn. rewrite app_nil_r. by destruct c. }
  rewrite dispatch_framed. destruct (dispatch (E i) s (set_out [] c) (received cmd)) as [[s1 c1]|];
    cbn [mbind option_bind prefix_out]; [|done].
  change (closing (set_out _ c1)) with (closing c1). destruct (closing c1); [done|].
  rewrite IH, (IH _ _ c1). change (set_out [] (set_out _ c1)) with (set_out [] c1).
  destruct (session_until _ _ _ _) as [[[i' s'] c']|]; cbn; [|done]. by rewrite <- app_assoc.
Qed.

Lemma arg_bytes_as_arg a : arg_bytes (as_arg a) = Some a.
Proof.
  unfold arg_bytes, as_arg. cbn [a_len a_buf]. rewrite length_app. cbn [length].
  destruct (Z.ltb_spec (Z.of_nat (length a)) (Z.of_nat (length a + 1))); [|lia].
  by rewrite Nat2Z.id, take_app_length.
Qed.

Lemma mapM_as_arg args : mapM arg_bytes (as_arg <$> args) = Some args.
Proof.
  induction args as [|a args IH]; [done|]. cbn [fmap list_fmap mapM]. rewrite arg_bytes_as_arg.
  cbn [mbind option_bind]. by rewrite IH.
Qed.

Lemma mapM_enc_args cmd : mapM arg_bytes (enc_args cmd) = Some (received cmd).
Proof. destruct cmd as [|a args]; [done|]. apply (mapM_as_arg (upper_first a :: args)). Qed.

Lemma enc_command_pos cmd : (4 <= length (enc_command cmd))%nat \/ VC_MAX_ARGS < Z.of_nat (length cmd).
Proof.
  destruct (Z.le_gt_cases (Z.of_nat (length cmd)) VC_MAX_ARGS) as [Hl|]; [left|by right].
  destruct (command_header cmd [] Hl) as [H4 _]. by rewrite app_nil_r in H4.
Qed.

Lemma consume_data b n :
  b_data (vc_buf_consume b n) = drop (Z.to_nat n) (b_data b) \/ n < 0.
Proof.
  destruct (Z.ltb_spec n 0); [by right|]. left. unfold vc_buf_consume.
  destruct (Z.leb_spec (b_len b) n); [|done]. unfold b_len in *. cbn. by rewrite drop_ge by lia.
Qed.

Lemma consume_cap b n : b_cap (vc_buf_consume b n) = b_cap b.
Proof. unfold vc_buf_consume. by case_match. Qed.

(** The unread bytes are the start of the stream of the commands left. *)
Definition pending (data : list Z) (cmds : list (list (list Z))) (fut : list Z) : Prop :=
  data ++ fut = stream cmds /\
  match cmds with [] => True | cmd :: _ => (length data < length (enc_command cmd))%nat end.

Lemma cmd_loop_spec fuel i s c b cmds fut :
  Forall fits cmds -> b_data b ++ fut = stream cmds -> (length (b_data b) < fuel)%nat -> closing c = false ->
  exists l1 l2, cmds = l1 ++ l2 /\
    match session_until i s c l1 with
    | None => loop fuel E i s c b = None
    | Some (i', s', c') => exists b',
        loop fuel E i s c b = Some (if closing c' then LoopClosing else LoopIdle, i', s', c', b') /\
        b_cap b' = b_cap b /\ (length (b_data b') <= length (b_data b))%nat /\
        (closing c' = false -> pending (b_data b') l2 fut)
    end.
Proof.
  intros Hf. revert fuel i s c b. induction Hf as [|cmd cmds Hcmd Hf IH]; intros fuel i s c b Hs Hl Hc;
    (destruct fuel as [|fuel]; [lia|]); cbn [cmd_loop].
  { exists [], []. split; [done|]. cbn [session_until].
    apply app_eq_nil in Hs as [Hd Hfut]. unfold b_len. rewrite Hd. cbn. rewrite Hc.
    exists b. rewrite Hd, Hfut. by repeat split. }
  change (stream (cmd :: cmds)) with (enc_command cmd ++ stream cmds) in Hs.
  destruct Hcmd as [Hn Ha]. destruct (enc_command_pos cmd) as [H4|]; [|lia].
  destruct (Nat.lt_ge_cases (length (b_data b)) (length (enc_command cmd))) as [Hlt|Hge].
  { exists [], (cmd :: cmds). split; [done|]. cbn [session_until]. rewrite Hc. exists b. split; [|by repeat split].
    destruct (0 <? b_len b); [|done]. rewrite (command_partial alloc_ok (fun n _ => Halloc n) cmd); try done.
    exists (drop (length (b_data b)) (enc_command cmd)).
    pose proof (f_equal (take (length (b_data b))) Hs) as Ht.
    rewrite take_app_length, take_app_le in Ht by lia. rewrite Ht at 1. by rewrite take_drop. }
  assert (exists d, b_data b = enc_command cmd ++ d /\ d ++ fut = stream cmds) as (d & Hd & Hfut).
  { exists (drop (length (enc_command cmd)) (b_data b)).
    pose proof (f_equal (take (length (enc_command cmd))) Hs) as Ht.
    rewrite take_app_length, take_app_le in Ht by done. split; [rewrite <- Ht at 1; by rewrite take_drop|].
    pose proof (f_equal (drop (length (enc_command cmd))) Hs) as Hdr.
    by rewrite drop_app_length, drop_app_le in Hdr by done. }
  assert (Hpos : 0 < b_len b) by (unfold b_len; lia).
  destruct (Z.ltb_spec 0 (b_len b)); [|lia].
  assert (Hp : resp_parse_command alloc_ok (b_data b) =
    RESP_PARSE_OK (Cmd (enc_args cmd) 0) (Z.of_nat (length (enc_command cmd)))).
  { rewrite Hd. by apply (parse_command_ok alloc_ok (fun n _ => Halloc n)). }
  rewrite Hp. cbn [cmd_args]. rewrite mapM_enc_args. cbn [mbind option_bind].
  set (b1 := vc_buf_consume b (Z.of_nat (length (enc_command cmd)))).
  assert (Hb1 : b_data b1 = d).
  { unfold b1. destruct (consume_data b (Z.of_nat (length (enc_command cmd)))) as [->|]; [|lia].
    by rewrite Nat2Z.id, Hd, drop_app_length. }
  assert (Hcap : b_cap b1 = b_cap b) by apply consume_cap.
  assert (Hlen : length (b_data b) = (length (enc_command cmd) + length d)%nat) by (rewrite Hd, length_app; done).
  destruct (dispatch (E i) s c (received cmd)) as [[s1 c1]|] eqn:Ed; cbn [mbind option_bind].
  2: { exists [cmd], cmds. split; [done|]. cbn [session_until]. by rewrite Ed. }
  fold (closing c1). destruct (closing c1) eqn:Ec.
  - exists [cmd], cmds. split; [done|]. cbn [session_until]. rewrite Ed. cbn [mbind option_bind]. rewrite Ec, Ec.
    exists b1. rewrite Hb1. split; [done|]. split; [done|]. split; [lia | done].
  - destruct (IH fuel (S i) s1 c1 b1) as (l1 & l2 & -> & Hr); [by rewrite Hb1 | rewrite Hb1; lia | done|].
    exists (cmd :: l1), l2. split; [done|]. cbn [session_until]. rewrite Ed. cbn [mbind option_bind]. rewrite Ec.
    destruct (session_until (S i) s1 c1 l1) as [[[i' s'] c']|]; [|done].
    destruct Hr as (b' & Hr & H1 & H2 & H3). exists b'. rewrite Hb1 in H2.
    split; [done|]. split; [congruence|]. split; [lia | done].
Qed.

Lemma session_until_stays i s c l i' s' c' :
  session_until i s c l = Some (i', s', c') -> closing c' = false -> cn_state c' = cn_state c.
Proof.
  revert i s c. induction l as [|cmd l IH]; intros i s c; cbn [session_until]; [by intros [= <- <- <-]|].
  pose proof (dispatch_stays strtod print_g (E i) s c (received cmd)) as Hst.
  destruct (dispatch (E i) s c (received cmd)) as [[s1 c1]|]; cbn [mbind option_bind]; [|done].
  destruct (closing c1) eqn:E1; [intros [= <- <- <-]; by rewrite E1|].
  intros Hr Hc. rewrite (IH _ _ _ Hr Hc). destruct Hst as [->|Hx]; [done|].
  unfold closing in E1. by rewrite bool_decide_true in E1.
Qed.

(** ** Reads *)

(** The reads of one event: none returns more bytes than the room it was offered. *)
Fixpoint reads_fit (b : vc_buf) (chunks : list (list Z)) : Prop :=
  match chunks with
  | [] => True
  | l :: chunks =>
      match vc_buf_grow alloc_ok b 4096 with
      | Some (true, b) =>
          Z.of_nat (length l) <= u64 (b_cap b - b_len b) /\
          reads_fit (Buf (b_data b ++ l) (b_cap b) (b_rpos b)) chunks
      | _ => True
      end
  end.

Lemma grow_loop_room fuel nc len need r : grow_loop fuel nc len need = Some r -> need <= u64 (r - len).
Proof.
  revert nc. induction fuel as [|fuel IH]; intros nc; cbn [grow_loop]; [done|].
  destruct (Z.ltb_spec (u64 (nc - len)) need) as [Hl|Hl]; [apply IH|]. by intros [= <-].
Qed.

(** There is always room for 4096 bytes. *)
Lemma small_reads_fit b chunks : Forall (fun l : list Z => Z.of_nat (length l) <= 4096) chunks -> reads_fit b chunks.
Proof.
  intros Hc. revert b. induction Hc as [|l chunks Hl Hc IH]; intros b; cbn [reads_fit]; [done|].
  destruct (vc_buf_grow alloc_ok b 4096) as [[[] b1]|] eqn:Eg; [|done..]. split; [|apply IH].
  unfold vc_buf_grow in Eg. destruct (Z.leb_spec 4096 (u64 (b_cap b - b_len b))); [injection Eg as <-; lia|].
  destruct (grow_loop _ _ _ _) as [nc|] eqn:En; [|done]. cbn [mbind option_bind] in Eg.
  apply grow_loop_room in En. destruct (alloc_ok nc); [|done]. injection Eg as <-.
  unfold b_len in *. cbn [b_cap b_data]. lia.
Qed.

Lemma read_loop_spec chunks b :
  reads_fit b chunks -> buf_ok b -> b_len b + Z.of_nat (length (concat chunks)) <= 2 ^ 60 ->
  exists b', read_loop alloc_ok ((RdBytes <$> chunks) ++ [RdAgain]) b = Some (Some b') /\
    b_data b' = b_data b ++ concat chunks /\ buf_ok b'.
Proof.
  revert b. induction chunks as [|l chunks IH]; intros b Hc Hb Hlen; cbn [fmap list_fmap app read_loop reads_fit concat] in *;
    rewrite ?length_app in Hlen;
    (destruct (vc_buf_grow_spec alloc_ok b 4096 Hb) as (ok & b1 & Eg & Hd & Hb1 & Hok); [lia | lia|]);
    rewrite Eg in *; cbn [mbind option_bind];
    (destruct ok; [|by destruct Hok as [_ [n Hn]]; rewrite Halloc in Hn]); cbn [negb].
  - exists b1. split; [done|]. split; [by rewrite Hd, app_nil_r | done].
  - assert (El : b_len b1 = b_len b) by (unfold b_len; by rewrite Hd). destruct Hc as [Hl Hc].
    destruct (Hb1) as [Hlb Hcap]. rewrite u64_id in Hl by (unfold b_len in *; lia).
    destruct (Z.ltb_spec (b_cap b1 - b_len b1) (Z.of_nat (length l))); [lia|].
    destruct (IH _ Hc) as (b' & -> & Hd' & Hb').
    + split; [|done]. unfold b_len in *. cbn [b_cap b_data]. rewrite length_app. lia.
    + unfold b_len in *. cbn [b_data]. rewrite length_app. lia.
    + exists b'. split; [done|]. split; [|done]. rewrite Hd'. cbn [b_data]. by rewrite Hd, <- app_assoc.
Qed.

(** ** Writes *)

(** A socket that takes at least one byte of every [write]. *)
Definition accepting (w : nat -> wr_result) : Prop := forall j, exists n, w j = Wr n /\ 0 < n.

(** An open connection with [data] waiting to be parsed; the write buffer may hold bytes
    that are not sent yet. *)
Record ready (k : slot) (data : list Z) : Prop := {
  rd_state : k_state k = VC_CONN_CONNECTED \/ k_state k = VC_CONN_AUTHED;
  rd_wpos : exists r, k_wpos k = Some r /\ 0 <= r <= Z.of_nat (length (cn_out (k_conn k)));
  rd_rbuf : exists b, k_rbuf k = Some b /\ b_data b = data /\ buf_ok b
}.

Lemma ready_open k data : ready k data -> closing (k_conn k) = false.
Proof.
  intros Hr. unfold closing. apply bool_decide_false. pose proof (rd_state _ _ Hr) as Hs. unfold k_state in Hs.
  intros E'. rewrite E' in Hs. by destruct Hs.
Qed.

(** A flush on a socket that does not fail. *)
Lemma flush_ready w k data :
  ~ broken w -> ready k data ->
  exists st sent k', conn_flush w k = Some (st, sent, k') /\ st <> FlushError /\ sent ++ unsent k' = unsent k /\
    set_out [] (k_conn k') = set_out [] (k_conn k) /\ ready k' data /\ (accepting w -> unsent k' = []).
Proof.
  intros Hw [Hst (r & Hr & Hr1) Hb]. unfold conn_flush, unsent. rewrite Hr. cbn [mbind option_bind].
  destruct (flush_loop _ w 0 _ r) as [[st r'] sent] eqn:Ef.
  destruct (flush_loop_conserves _ _ _ _ _ _ _ _ Ef (proj1 Hr1)) as (H1 & H2 & H3 & H4); [lia|].
  destruct st; [| by destruct Hw; apply H3 |]; eexists _, sent, _; (split; [reflexivity|]); (split; [done|]);
    cbn [k_wpos k_conn set_out cn_out].
  - rewrite H2 in H1 by done. rewrite drop_nil. split; [done|]. split; [done|]. split; [|done].
    constructor; [done | exists 0; cbn; split; [done | lia] | done].
  - split; [done|]. split; [done|]. destruct (H4 eq_refl) as [Hr' [j Hj]]. split.
    + constructor; [done | exists r'; cbn; split; [done | lia] | done].
    + intros Ha. destruct (Ha j) as (n & Hn & _). by rewrite Hj in Hn.
Qed.

(** ** One event *)

(** The commands [l1] have run, to the result [r] from an empty write buffer, and [l2] are
    left; [sent] went out and [rest] did not. *)
Definition stepped (w : nat -> wr_result) (k : slot) (c' : conn) (l2 : list (list (list Z))) (fut : list Z)
    (k' : slot) (sent : list Z) : Prop :=
  exists rest, sent ++ rest = unsent k ++ cn_out c' /\ (accepting w -> unsent k = [] -> rest = []) /\
    if closing c' then k_state k' = VC_CONN_FREE
    else set_out [] (k_conn k') = set_out [] c' /\ unsent k' = rest /\
         exists data', ready k' data' /\ pending data' l2 fut.

Lemma close_free k : k_state (conn_close k) = VC_CONN_FREE.
Proof. unfold conn_close, k_state. case_bool_decide as Hx; [exact Hx | done]. Qed.

Lemma process_step now chunks w i s k data cmds fut :
  Forall fits cmds -> (forall b, k_rbuf k = Some b -> reads_fit b chunks) -> ~ broken w -> ready k data ->
  data ++ concat chunks ++ fut = stream cmds -> Z.of_nat (length (stream cmds)) <= 2 ^ 60 ->
  exists l1 l2, cmds = l1 ++ l2 /\
    forall i' s' c', session_until i s (set_out [] (k_conn k)) l1 = Some (i', s', c') ->
    exists k' sent, process_conn strtod print_g alloc_ok E i now ((RdBytes <$> chunks) ++ [RdAgain]) w s k =
        Some (Outcome i' s' k' sent) /\ stepped w k c' l2 fut k' sent.
Proof.
  intros Hf Hch Hw Hk Hst Hlen. pose proof (ready_open _ _ Hk) as Hopen.
  destruct (rd_rbuf _ _ Hk) as (b & Hb & Hd & Hbok). destruct (rd_wpos _ _ Hk) as (r0 & Hr0 & Hr0l).
  rewrite <- Hst, !length_app in Hlen.
  destruct (read_loop_spec chunks b (Hch b Hb) Hbok) as (b1 & Er & Hd1 & Hb1).
  { unfold b_len. rewrite Hd. lia. }
  rewrite Hd in Hd1. unfold process_conn. rewrite Hb. cbn [mbind option_bind]. rewrite Er. cbn [mbind option_bind].
  rewrite Hr0. cbn [mbind option_bind].
  destruct (cmd_loop_spec (S (length (b_data b1))) i s (k_conn k) b1 cmds fut Hf)
    as (l1 & l2 & Hl & Hr); [by rewrite Hd1, <- app_assoc | lia | done|].
  exists l1, l2. split; [done|]. intros i' s' c' Es.
  rewrite session_until_framed, Es in Hr. cbn [mbind option_bind] in Hr.
  set (c2 := set_out (cn_out (k_conn k) ++ cn_out c') c') in *. change (closing c2) with (closing c') in Hr.
  destruct Hr as (b' & -> & Hcap & Hlb & Hp). cbn [mbind option_bind].
  set (active := if read_any _ then now else _). set (k1 := Slot c2 (k_tls k) (Some b') (Some r0) active).
  assert (Hbok' : buf_ok b') by (destruct Hb1 as [H1 H2]; split; [unfold b_len in *; lia | by rewrite Hcap]).
  assert (Hu : unsent k1 = unsent k ++ cn_out c').
  { unfold unsent, k1. cbn [k_wpos k_conn c2 set_out cn_out]. rewrite Hr0. apply drop_app_le. lia. }
  destruct (closing c') eqn:Ec.
  - unfold conn_flush at 1. change (k_wpos k1) with (Some r0). change (k_conn k1) with c2. cbn [mbind option_bind].
    destruct (flush_loop _ w 0 (cn_out c2) r0) as [[st r'] sent] eqn:Ef.
    destruct (flush_loop_conserves _ _ _ _ _ _ _ _ Ef (proj1 Hr0l)) as (H1 & H2 & H3 & H4); [lia|].
    exists (conn_close (match st with FlushOk => Slot (set_out [] c2) (k_tls k) (Some b') (Some 0) active
                                    | _ => Slot c2 (k_tls k) (Some b') (Some r') active end)), sent.
    split; [by destruct st|]. exists (drop (Z.to_nat r') (cn_out c2)). rewrite Ec.
    split; [rewrite H1; rewrite <- Hu; done|]. split; [|apply close_free].
    intros Ha _. destruct st; [by apply H2 | by destruct Hw; apply H3 |].
    destruct (H4 eq_refl) as [_ [j Hj]]. destruct (Ha j) as (n & Hn & _). by rewrite Hj in Hn.
  - specialize (Hp eq_refl).
    assert (Hst' : cn_state c' = VC_CONN_CONNECTED \/ cn_state c' = VC_CONN_AUTHED).
    { rewrite (session_until_stays _ _ _ _ _ _ _ Es Ec). apply Hk. }
    assert (Hk1 : ready k1 (b_data b')).
    { constructor; [done | | by exists b']. exists r0. split; [done|]. cbn [k1 k_conn c2 set_out cn_out].
      rewrite length_app. lia. }
    destruct (decide (cn_out c2 = [])) as [Ho|Ho].
    + exists k1, []. split; [done|]. exists (unsent k1). rewrite Ec. split; [done|].
      split; [intros _ _; unfold unsent; cbn [k1 k_wpos k_conn]; by rewrite Ho, drop_nil|].
      split; [done|]. split; [done|]. by exists (b_data b').
    + destruct (flush_ready w k1 _ Hw Hk1) as (st & sent & k2 & -> & Hne & Hs & Hc2 & Hk2 & Ha). cbn [mbind option_bind].
      exists k2, sent. split; [by destruct st|]. exists (unsent k2). rewrite Ec. rewrite Hs. split; [done|].
      split; [intros H _; by apply Ha|]. split; [by rewrite Hc2|]. split; [done|]. by exists (b_data b').
Qed.

(** ** Any number of events *)

(** A readiness event that delivers these chunks, each of at least one byte, if it is one to
    read; it may also be one to write.  The socket does not fail: a [write] takes some bytes
    or has to be tried again. *)
Definition delivers (ev : event) (chunks : list (list Z)) : Prop :=
  ev_hup ev = false /\ ~ broken (ev_resume ev) /\ ~ broken (ev_writes ev) /\
  Forall (fun l => l <> []) chunks /\
  if ev_in ev then ev_reads ev = (RdBytes <$> chunks) ++ [RdAgain] else chunks = [].

(** No [read] returns more than it was asked for. *)
Fixpoint reads_obey (evs : list event) (chunkss : list (list (list Z))) (i : nat) (s : server C) (k : slot) : Prop :=
  match evs, chunkss with
  | ev :: evs, chunks :: chunkss =>
      (forall b, k_rbuf k = Some b -> reads_fit b chunks) /\
      forall o, on_event strtod print_g alloc_ok E ev i s k = Some o ->
        reads_obey evs chunkss (o_next o) (o_srv o) (o_slot o)
  | _, _ => True
  end.

Lemma small_reads_obey evs chunkss i s k :
  Forall (Forall (fun l : list Z => Z.of_nat (length l) <= 4096)) chunkss -> reads_obey evs chunkss i s k.
Proof.
  intros Hc. revert evs i s k. induction Hc as [|chunks chunkss Hc _ IH]; intros [|ev evs] i s k; cbn [reads_obey]; try done.
  split; [intros b _; by apply small_reads_fit | intros o _; apply IH].
Qed.

Lemma serve_free evs i s k :
  k_state k = VC_CONN_FREE -> serve strtod print_g alloc_ok E evs i s k = Some (Outcome i s k []).
Proof.
  intros Hk. induction evs as [|ev evs IH]; cbn [serve]; [done|].
  unfold on_event. rewrite bool_decide_true by done. cbn [mbind option_bind o_next o_srv o_slot]. by rewrite IH.
Qed.

(** One event: the pending bytes first, then the reads. *)
Lemma event_step ev chunks i s k data cmds fut :
  delivers ev chunks -> Forall fits cmds -> (forall b, k_rbuf k = Some b -> reads_fit b chunks) -> ready k data ->
  pending data cmds (concat chunks ++ fut) -> Z.of_nat (length (stream cmds)) <= 2 ^ 60 ->
  exists l1 l2, cmds = l1 ++ l2 /\
    forall i' s' c', session_until i s (set_out [] (k_conn k)) l1 = Some (i', s', c') ->
    exists k' sent, on_event strtod print_g alloc_ok E ev i s k = Some (Outcome i' s' k' sent) /\
      stepped (ev_writes ev) k c' l2 fut k' sent.
Proof.
  intros (H1 & H2 & H3 & H4 & H5) Hf Hfit Hk [Hp1 Hp2] Hlen. unfold on_event.
  rewrite !bool_decide_false by (destruct (rd_state _ _ Hk) as [-> | ->]; done). rewrite H1.
  assert (exists st sent k1, (if ev_out ev then conn_flush (ev_resume ev) k else Some (FlushOk, [], k)) = Some (st, sent, k1) /\
    st <> FlushError /\ sent ++ unsent k1 = unsent k /\ set_out [] (k_conn k1) = set_out [] (k_conn k) /\
    ready k1 data /\ k_rbuf k1 = k_rbuf k) as (st & sent & k1 & -> & Hne & Hs & Hc & Hk1 & Hb1).
  { destruct (ev_out ev); [|by exists FlushOk, [], k].
    destruct (flush_ready (ev_resume ev) k data H2 Hk) as (st & sent & k1 & Ef & G1 & G2 & G3 & G4 & _).
    exists st, sent, k1. repeat (split; [done|]). unfold conn_flush in Ef. destruct (k_wpos k); [|done].
    cbn [mbind option_bind] in Ef. destruct (flush_loop _ _ _ _ _) as [[[] ?] ?]; by injection Ef as _ _ <-. }
  cbn [mbind option_bind].
  destruct (ev_in ev).
  - destruct (process_step (ev_now ev) chunks (ev_writes ev) i s k1 data cmds fut Hf) as (l1 & l2 & Hl & Hstep);
      [by rewrite Hb1 | done | done | done | done|].
    exists l1, l2. split; [done|]. intros i' s' c' Es. rewrite Hc in Hstep.
    destruct (Hstep i' s' c' Es) as (k' & sent' & Ep & rest & G1 & G2 & G3).
    rewrite H5, Ep. exists k', (sent ++ sent'). split; [by destruct st|].
    exists rest. rewrite <- app_assoc, G1, app_assoc, Hs. split; [done|]. split; [|exact G3].
    intros Ha Hu. apply G2; [done|]. rewrite Hu in Hs. by apply app_eq_nil in Hs as [_ ->].
  - subst chunks. exists [], cmds. split; [done|]. intros i' s' c' [= <- <- <-].
    exists k1, sent. split; [by destruct st|]. exists (unsent k1). rewrite app_nil_r. split; [done|].
    split; [intros _ Hu; rewrite Hu in Hs; by apply app_eq_nil in Hs as [_ ->]|].
    change (closing (set_out [] (k_conn k))) with (closing (k_conn k)). rewrite (ready_open _ _ Hk).
    split; [done|]. split; [done|]. by exists data.
Qed.

Lemma serve_spec evs chunkss i s k data cmds i' s' c' :
  Forall2 delivers evs chunkss -> reads_obey evs chunkss i s k ->
  Forall fits cmds -> Z.of_nat (length (stream cmds)) <= 2 ^ 60 ->
  ready k data -> pending data cmds (concat (concat chunkss)) ->
  session_until i s (set_out [] (k_conn k)) cmds = Some (i', s', c') ->
  exists k' sent rest, serve strtod print_g alloc_ok E evs i s k = Some (Outcome i' s' k' sent) /\
    sent ++ rest = unsent k ++ cn_out c' /\
    (unsent k = [] -> Forall (fun ev => accepting (ev_writes ev)) evs -> rest = []) /\
    (if closing c' then k_state k' = VC_CONN_FREE else set_out [] (k_conn k') = set_out [] c' /\ unsent k' = rest).
Proof.
  intros He. revert i s k data cmds i' s' c'.
  induction He as [|ev chunks evs chunkss Hev He IH]; intros i s k data cmds i' s' c' Hob Hf Hlen Hk Hp Hs; cbn [serve].
  { destruct Hp as [Hp1 Hp2]. destruct cmds as [|cmd cmds].
    - injection Hs as <- <- <-. exists k, [], (unsent k). rewrite app_nil_r. split; [done|]. split; [done|].
      split; [done|]. change (closing _) with (closing (k_conn k)). by rewrite (ready_open _ _ Hk).
    - change (data ++ [] = enc_command cmd ++ stream cmds) in Hp1. rewrite app_nil_r in Hp1. subst data.
      rewrite length_app in Hp2. lia. }
  destruct Hob as [Hfit Hob]. cbn [concat] in Hp. rewrite concat_app in Hp.
  destruct (event_step ev chunks i s k data cmds (concat (concat chunkss)) Hev Hf Hfit Hk Hp Hlen) as (l1 & l2 & -> & Hstep).
  rewrite session_until_app in Hs by (by eapply (ready_open _ _ Hk)).
  destruct (session_until i s (set_out [] (k_conn k)) l1) as [[[i1 s1] c1]|] eqn:E1; [|done]. cbn [mbind option_bind] in Hs.
  destruct (Hstep i1 s1 c1 eq_refl) as (k1 & sent1 & Ep & rest1 & G1 & G2 & G3). specialize (Hob _ Ep). rewrite Ep.
  cbn [mbind option_bind o_next o_srv o_slot o_sent] in *. destruct (closing c1) eqn:Ec1.
  - injection Hs as <- <- <-. rewrite serve_free by done. cbn [mbind option_bind o_next o_srv o_slot o_sent].
    exists k1, sent1, rest1. rewrite app_nil_r, Ec1. split; [done|]. split; [done|]. split; [|done].
    intros Hu Ha. apply G2; [|done]. by inversion Ha.
  - destruct G3 as (Ek1 & Hu1 & data' & Hr' & Hp'). rewrite session_until_framed in Hs.
    destruct (session_until i1 s1 (set_out [] c1) l2) as [[[i2 s2] c2]|] eqn:E2; [|done].
    cbn [mbind option_bind] in Hs. injection Hs as <- <- <-. rewrite <- Ek1 in E2.
    apply Forall_app in Hf as [_ Hf2].
    assert (Hlen2 : Z.of_nat (length (stream l2)) <= 2 ^ 60).
    { unfold stream in *. rewrite fmap_app, concat_app, length_app in Hlen. lia. }
    destruct (IH i1 s1 k1 data' l2 i2 s2 c2 Hob Hf2 Hlen2 Hr' Hp' E2) as (k2 & sent2 & rest2 & -> & F1 & F2 & F3).
    cbn [mbind option_bind o_next o_srv o_slot o_sent]. exists k2, (sent1 ++ sent2), rest2. split; [done|].
    split; [by rewrite <- app_assoc, F1, Hu1, (app_assoc sent1), G1, <- app_assoc|]. split; [|exact F3].
    intros Hu [Ha1 Ha2]%Forall_cons. apply F2; [|done]. rewrite Hu1. by apply G2.
Qed.

(** C5: the bytes of a client may arrive cut anywhere, one command over many reads and
    readiness events or many commands in one read, and its socket may take the replies
    piece by piece or ask to be tried again: the server runs exactly the commands sent, in
    order, up to one that closes the connection, and their replies are, in order, the bytes
    that were waiting before, the bytes sent and the bytes that still wait: nothing is lost
    or sent twice, except that a closing connection drops what its last flush could not
    send.  If the socket takes bytes at every write, everything is sent.  The commands are
    RESP arrays within the limits of the parser whose handlers are defined, buffers get the
    memory they ask for, and no read or write fails. *)
Theorem stream_cut evs chunkss i s k cmds i' s' c' :
  Forall2 delivers evs chunkss -> reads_obey evs chunkss i s k -> concat (concat chunkss) = stream cmds ->
  Forall fits cmds -> Z.of_nat (length (stream cmds)) <= 2 ^ 60 -> ready k [] ->
  session_until i s (set_out [] (k_conn k)) cmds = Some (i', s', c') ->
  exists k' sent rest, serve strtod print_g alloc_ok E evs i s k = Some (Outcome i' s' k' sent) /\
    sent ++ rest = unsent k ++ cn_out c' /\
    (unsent k = [] -> Forall (fun ev => accepting (ev_writes ev)) evs -> rest = []) /\
    (if closing c' then k_state k' = VC_CONN_FREE else set_out [] (k_conn k') = set_out [] c' /\ unsent k' = rest).
Proof.
  intros He Hob Hc Hf Hlen Hk. apply (serve_spec evs chunkss i s k [] cmds); try done.
  split; [done|]. destruct cmds as [|cmd cmds]; [done|]. apply Forall_cons in Hf as [[Hn _] _].
  destruct (enc_command_pos cmd); cbn; lia.
Qed.
End Pipeline.

(** ** The pool *)

Lemma alloc_loop_spec i pool :
  match alloc_loop i pool with
  | Some j => exists n k, j = (i + n)%nat /\ pool !! n = Some k /\ k_state k = VC_CONN_FREE
  | None => Forall (fun k => k_state k <> VC_CONN_FREE) pool
  end.
Proof.
  revert i. induction pool as [|k pool IH]; intros i; cbn [alloc_loop]; [done|]. case_bool_decide as Hk.
  - exists 0%nat, k. by rewrite Nat.add_0_r.
  - specialize (IH (S i)). destruct (alloc_loop (S i) pool); [|by constructor].
    destruct IH as (n' & k' & -> & Hn & Hs). exists (S n'), k'. split; [lia | done].
Qed.

(** The slot given to a new connection was free, and the connection starts with no
    user, no protocol choice and nothing of the last client in its buffers; the other
    connections are untouched.  It is refused only when no slot is free. *)
Theorem conn_alloc_fresh alloc_ok wbuf_ok now pool :
  match conn_alloc alloc_ok wbuf_ok now pool with
  | Some (i, pool') =>
      (exists k, pool !! i = Some k /\ k_state k = VC_CONN_FREE) /\
      (forall j, j <> i -> pool' !! j = pool !! j) /\
      exists k', pool' !! i = Some k' /\ k_state k' = VC_CONN_CONNECTED /\ cn_user (k_conn k') = None /\
        cn_resp3 (k_conn k') = false /\ unsent k' = [] /\ (forall b, k_rbuf k' = Some b -> b_data b = [])
  | None => Forall (fun k => k_state k <> VC_CONN_FREE) pool
  end.
Proof.
  unfold conn_alloc. pose proof (alloc_loop_spec 0 pool) as Ha. destruct (alloc_loop 0 pool) as [i|]; [|done].
  destruct Ha as (n & k & -> & Hn & Hs). cbn [Nat.add mbind option_bind]. rewrite Hn. cbn [mbind option_bind].
  split; [by exists k|]. split; [intros j Hj; by apply list_lookup_insert_ne|].
  eexists. split; [apply list_lookup_insert_eq; by eapply lookup_lt_Some|]. split; [done|]. split; [done|].
  split; [done|]. split; [by destruct wbuf_ok|]. intros b. cbn [conn_reset k_rbuf]. unfold vc_buf_new.
  destruct (alloc_ok _); [|done]. by intros [= <-].
Qed.

(** A server configured with an ACL file or a password refuses to start or requires
    authentication; a configured password alone opens the account default with the
    read, write and admin rights. *)
Theorem create_auth_closed junk path file requirepass db :
  create_auth junk path file requirepass = Some db ->
  (exists ch l, path = Some (ch :: l)) \/ (exists ch l, requirepass = Some (ch :: l)) ->
  db_require_auth db = true /\
  (forall ch l, path = None -> requirepass = Some (ch :: l) -> cstr (ch :: l) = ch :: l ->
   exists u, vc_auth_verify true db (bs "default") (ch :: l) = Some u /\
     vc_acl_check (Some u) VC_ACL_READ = true /\ vc_acl_check (Some u) VC_ACL_WRITE = true /\
     vc_acl_check (Some u) VC_ACL_ADMIN = true).
Proof.
  unfold create_auth. intros Hc Hor. split.
  - assert (Hdb : forall db0, vc_auth_load junk path file = inr db0 ->
      db_require_auth db0 = true \/ (db0 = AuthDb [] false /\ exists ch l, requirepass = Some (ch :: l))).
    { intros db0. unfold vc_auth_load. destruct path as [[|ch l]|]; [| destruct file; by intros [= <-]; left |];
        intros [= <-]; right; (split; [done|]); by destruct Hor as [(? & ? & ?)|?]. }
    destruct (vc_auth_load junk path file) as [u|db0]; [done|]. destruct (Hdb db0 eq_refl) as [Hr|(-> & ch & l & ->)].
    + destruct requirepass as [[|ch l]|]; injection Hc as <-; try done.
      unfold vc_auth_add_user. by case_match.
    + injection Hc as <-. done.
  - intros ch l -> -> Hl. cbn [vc_auth_load] in Hc. apply Some_inj in Hc. subst db.
    unfold vc_auth_add_user. change (_ <=? _) with false. cbv iota. cbn [snd].
    unfold vc_auth_verify. cbn [db_require_auth negb db_users app verify_loop u_enabled u_username u_pw_sha256].
    rewrite Hl, !bool_decide_true by done. cbn [negb]. eexists. by repeat split.
Qed.

(** ** Examples *)

Definition demo_slot : slot := Slot (mini_conn None) false (Some (Buf [] 16384 0)) (Some 0) 0.
Definition demo_cmds : list (list (list Z)) := [[bs "ping"]; [bs "echo"; bs "hi"]; [bs "QUIT"]].
Definition demo_event (w : nat -> wr_result) (chunks : list (list Z)) : event :=
  Event false true true 1 ((RdBytes <$> chunks) ++ [RdAgain]) (fun _ => Wr 1) w TlsWant.
Definition demo_chunks : list (list (list Z)) :=
  [[take 16 (stream demo_cmds)]; [take 20 (drop 16 (stream demo_cmds)); drop 36 (stream demo_cmds)]].
Definition demo_writes : list (nat -> wr_result) :=
  [(fun j => match j with O => Wr 2 | _ => WrErr true end); (fun _ => Wr 7)].

Lemma demo_slot_ready : ready demo_slot [].
Proof.
  constructor; [by left | exists 0; cbn; split; [done | lia] |].
  eexists. split; [done|]. split; [done|]. split; vm_compute; [done|by split].
Qed.

(** The socket takes two bytes of the first reply, then one byte when it is writable again,
    and the rest later. *)
Lemma stream_cut_witness :
  exists i' s' c' k' sent rest, serve no_strtod no_print_g granting (fun _ => mini_cenv 0) (zip_with demo_event demo_writes demo_chunks) 0
      (mini_server (AuthDb [] false)) demo_slot = Some (Outcome i' s' k' sent) /\
    sent ++ rest = unsent demo_slot ++ cn_out c' /\
    (unsent demo_slot = [] -> Forall (fun ev => accepting (ev_writes ev)) (zip_with demo_event demo_writes demo_chunks) -> rest = []) /\
    (if closing c' then k_state k' = VC_CONN_FREE else set_out [] (k_conn k') = set_out [] c' /\ unsent k' = rest).
Proof.
  eexists _, _, _.
  apply (stream_cut no_strtod no_print_g granting (fun _ => eq_refl) (fun _ => mini_cenv 0)
           (zip_with demo_event demo_writes demo_chunks) demo_chunks 0 (mini_server (AuthDb [] false)) demo_slot demo_cmds).
  - assert (Hw : forall w, w ∈ demo_writes -> ~ broken w).
    { intros w Hw [j Hj]. unfold demo_writes in Hw. repeat (apply elem_of_cons in Hw as [->|Hw]; [|]);
        [destruct j as [|[|j]].. | by apply elem_of_nil in Hw]; naive_solver lia. }
    assert (Hone : ~ broken (fun _ => Wr 1)) by (intros [j Hj]; naive_solver lia).
    unfold demo_chunks, demo_writes in *. cbn [zip_with]. repeat apply Forall2_cons_2; try apply Forall2_nil_2;
      (split; [done|]; split; [done|]; split; [apply Hw; set_solver|]; split; [by repeat constructor | done]).
  - apply small_reads_obey. unfold demo_chunks. repeat constructor; vm_compute; congruence.
  - vm_compute. reflexivity.
  - repeat constructor; vm_compute; congruence.
  - vm_compute. congruence.
  - apply demo_slot_ready.
  - reflexivity.
Defined.

Lemma flush_witness :
  exists st sent k', conn_flush (fun j => match j with O => Wr 2 | _ => WrErr true end)
      (Slot (cn_write (bs "+PONG") (mini_conn None)) false None (Some 1) 0) = Some (st, sent, k') /\
    sent ++ unsent k' = unsent (Slot (cn_write (bs "+PONG") (mini_conn None)) false None (Some 1) 0) /\
    (st = FlushOk -> unsent k' = []) /\
    (st = FlushError -> broken (fun j => match j with O => Wr 2 | _ => WrErr true end)).
Proof.
  apply (flush_conserves (fun j => match j with O => Wr 2 | _ => WrErr true end)
           (Slot (cn_write (bs "+PONG") (mini_conn None)) false None (Some 1) 0)).
  exists 1. split; [reflexivity | lia].
Defined.

Lemma create_auth_witness :
  db_require_auth (AuthDb [User (bs "default") (vc_sha256 true (bs "pw")) 7 true] true) = true /\
  (forall ch l, @None (list Z) = None -> Some (bs "pw") = Some (ch :: l) -> cstr (ch :: l) = ch :: l ->
   exists u, vc_auth_verify true (AuthDb [User (bs "default") (vc_sha256 true (bs "pw")) 7 true] true)
       (bs "default") (ch :: l) = Some u /\
     vc_acl_check (Some u) VC_ACL_READ = true /\ vc_acl_check (Some u) VC_ACL_WRITE = true /\
     vc_acl_check (Some u) VC_ACL_ADMIN = true).
Proof.
  apply (create_auth_closed (fun _ => 0) None None (Some (bs "pw"))); [reflexivity|].
  right. by exists 112, [119].
Defined.
