(* ===== verification/Worker.v ===== *)
(** * The worker loop

    [worker_thread] of [src/net/server.c]: what a worker does with the events of one
    [epoll_wait] over the whole connection pool, and the idle sweep of every tenth round. *)

From S2P Require Import Prelude Hash Slab Entry Shard Wal Cache CacheInv CacheSafe CacheSpec.
From S2P Require Import Proto ProtoSpec Auth Kv Commands Server.

(** A connection that [accept4] returns, with the answers while it is set up. *)
Record accepted := Accepted {
  ac_fd : Z;
  ac_peer : option (list Z * Z);
  ac_now : Z;
  ac_wbuf : bool                  (** the second [vc_buf_new] *)
}.

(** An event: the listening socket is ready and [accept4] gives these connections before it
    fails, or slot [j] of the pool is ready. *)
Inductive ready_event :=
| OnListen (l : list accepted)
| OnConn (j : nat) (ev : event).

(** One round: the events of [epoll_wait] ([None]: it failed with EINTR), and the time read
    by the sweep. *)
Record round := Round { rn_events : option (list ready_event); rn_now : Z }.

Section Worker.
Context {C : Type} {KV : Kv C}.
Context (strtod : list Z -> list Z) (print_g : list Z -> list Z).
Context (alloc_ok : allocator).
Context (tls : bool).

(** [ws_next] numbers the commands; [ws_sweep] is [sweep_count]. *)
Record wstate := WState { ws_next : nat; ws_srv : server C; ws_pool : list slot; ws_sweep : nat }.

Definition with_pool (s : server C) (pool : list slot) (w : wstate) : wstate := WState (ws_next w) s pool (ws_sweep w).

(** The accept loop; a connection without a free slot is closed and the loop goes on. *)
Fixpoint accept_loop (l : list accepted) (s : server C) (pool : list slot) : server C * list slot :=
  match l with
  | [] => (s, pool)
  | a :: l =>
      let '(s, pool) := accept_conn alloc_ok (ac_wbuf a) (ac_now a) tls (ac_fd a) (ac_peer a) s pool in
      accept_loop l s pool
  end.

Definition handle (E : nat -> cenv) (e : ready_event) (w : wstate) : option wstate :=
  match e with
  | OnListen l => let '(s, pool) := accept_loop l (ws_srv w) (ws_pool w) in Some (with_pool s pool w)
  | OnConn j ev =>
      match ws_pool w !! j with
      | None => Some w
      | Some k =>
          o ← on_event strtod print_g alloc_ok E ev (ws_next w) (ws_srv w) k;
          Some (WState (o_next o) (o_srv o) (<[j := o_slot o]> (ws_pool w)) (ws_sweep w))
      end
  end.

Fixpoint handle_all (E : nat -> cenv) (l : list ready_event) (w : wstate) : option wstate :=
  match l with
  | [] => Some w
  | e :: l => w ← handle E e w; handle_all E l w
  end.

(** The sweep of every tenth round; a round that was interrupted does not count. *)
Definition sweep (now : Z) (w : wstate) : wstate :=
  if (10 <=? S (ws_sweep w))%nat then WState (ws_next w) (ws_srv w) (idle_sweep now (ws_pool w)) 0
  else WState (ws_next w) (ws_srv w) (ws_pool w) (S (ws_sweep w)).

Definition worker_round (E : nat -> cenv) (r : round) (w : wstate) : option wstate :=
  match rn_events r with
  | None => Some w
  | Some l => w ← handle_all E l w; Some (sweep (rn_now r) w)
  end.

Fixpoint worker_thread (E : nat -> cenv) (rs : list round) (w : wstate) : option wstate :=
  match rs with
  | [] => Some w
  | r :: rs => w ← worker_round E r w; worker_thread E rs w
  end.

(** The loop condition: [running j] is what is read of [srv->running] before round [j], false
    also when the [epoll_wait] of that round fails with an error other than EINTR.
    [Some None]: no end within [fuel] rounds. *)
Fixpoint worker_while (fuel : nat) (running : nat -> bool) (rounds : nat -> round) (E : nat -> cenv) (j : nat) (w : wstate)
    : option (option wstate) :=
  match fuel with
  | O => Some None
  | S fuel =>
      if running j then w ← worker_round E (rounds j) w; worker_while fuel running rounds E (S j) w
      else Some (Some w)
  end.

(** A worker ends at the first round before which [running] is false. *)
Lemma worker_stops n running rounds E j w :
  (forall i, (j <= i < j + n)%nat -> running i = true) -> running (j + n)%nat = false ->
  worker_while (S n) running rounds E j w = (w' ← worker_thread E (rounds <$> seq j n) w; Some (Some w')).
Proof.
  revert j w. induction n as [|n IH]; intros j w Hr Hn; cbn [worker_while seq fmap list_fmap worker_thread].
  - rewrite Nat.add_0_r in Hn. by rewrite Hn.
  - rewrite (Hr j) by lia. destruct (worker_round E (rounds j) w) as [w1|]; cbn [mbind option_bind]; [|done].
    apply IH; [intros i Hi; apply Hr; lia|]. by replace (S j + n)%nat with (j + S n)%nat by lia.
Qed.
End Worker.
Arguments WState {C}.
Arguments ws_next {C}.
Arguments ws_srv {C}.
Arguments ws_pool {C}.
Arguments ws_sweep {C}.
