(* ===== verification/WorkerSafe.v ===== *)
(** * The worker loop under an invariant

    A worker is fed rounds of events.  When every command that can be read from the bytes
    that arrive is defined and keeps an invariant of the server, the worker comes to the end
    of the rounds without undefined behaviour and the invariant holds.  What the commands do
    is a hypothesis of the section; [WorkerThm.v] has two instances of it. *)

From S2P Require Import Prelude Hash Slab Entry Shard Wal Cache CacheInv CacheSafe CacheSpec CacheThm.
From S2P Require Import Proto ProtoSpec Auth Kv Commands CommandsSpec Server ServerThm Worker.

(** ** Pieces of a byte string *)

Definition part (x l : list Z) : Prop := exists a b, l = a ++ x ++ b.

Lemma part_refl x : part x x.
Proof. exists [], []. by rewrite app_nil_r. Qed.

Lemma part_trans x y z : part x y -> part y z -> part x z.
Proof. intros (a & b & ->) (c & d & ->). exists (c ++ a), (b ++ d). by rewrite !app_assoc. Qed.

Lemma part_take n l : part (take n l) l.
Proof. exists [], (drop n l). by rewrite app_nil_l, take_drop. Qed.

Lemma part_drop n l : part (drop n l) l.
Proof. exists (take n l), []. by rewrite app_nil_r, take_drop. Qed.

Lemma part_app_l x l r : part x l -> part x (l ++ r).
Proof. intros (a & b & ->). exists a, (b ++ r). by rewrite !app_assoc. Qed.

Lemma part_app_r x l r : part x r -> part x (l ++ r).
Proof. intros (a & b & ->). exists (l ++ a), b. by rewrite !app_assoc. Qed.

(** A piece before [f] stays a piece before it. *)
Lemma part_suffix n l f : part (drop n l ++ f) (l ++ f).
Proof. exists (take n l), []. by rewrite app_nil_r, app_assoc, take_drop. Qed.

Lemma part_notin c x l : part x l -> c ∉ l -> c ∉ x.
Proof. intros (a & b & ->). set_solver. Qed.

#[export] Hint Resolve part_refl part_take part_drop part_app_l part_app_r : vc.

(** ** Arguments are pieces of the input *)

Lemma part_len x l : part x l -> (length x <= length l)%nat.
Proof. intros (a & b & ->). rewrite !length_app. lia. Qed.

(** Byte strings that are pieces of [l] and have together no more bytes. *)
Definition cut_from (l : list Z) (xs : list (list Z)) : Prop :=
  Forall (fun x => part x l) xs /\ (length (concat xs) <= length l)%nat.

Lemma cut_nil l : cut_from l [].
Proof. split; [done | cbn; lia]. Qed.

Lemma cut_cons l a b x xs : l = a ++ b -> part x a -> cut_from b xs -> cut_from l (x :: xs).
Proof.
  intros -> Hx [Hp Hl]. pose proof (part_len _ _ Hx). split.
  - constructor; [by apply part_app_l|]. eapply Forall_impl; [exact Hp|]. intros y. apply part_app_r.
  - cbn [concat]. rewrite !length_app. lia.
Qed.

Lemma cut_part l m xs : part m l -> cut_from m xs -> cut_from l xs.
Proof.
  intros Hm [Hp Hl]. pose proof (part_len _ _ Hm). split; [|lia].
  eapply Forall_impl; [exact Hp|]. intros x Hx. exact (part_trans _ _ _ Hx Hm).
Qed.

Lemma strip_vc_part p : part (strip_vc p).2 p.
Proof. unfold strip_vc. destruct (_ && _); cbn [snd]; auto with vc. Qed.

Lemma parse_bulks_parts alloc_ok n i p vt args rest ty :
  parse_bulks alloc_ok n i p vt = inl (args, rest, ty) -> exists xs, args = as_arg <$> xs /\ cut_from p xs.
Proof.
  revert i p vt args rest ty. induction n as [|n IH]; intros i p vt args rest ty E.
  { cbn in E. simplify_eq. exists []. split; [done | apply cut_nil]. }
  cbn [parse_bulks] in E. repeat (case_match; try discriminate).
  all: simplify_eq; match goal with H : parse_bulks _ _ _ _ _ = _ |- _ => apply IH in H as (xs & -> & Hxs) end.
  all: match goal with H : strip_vc (take ?m ?q) = (_, ?pl) |- _ => exists (pl :: xs); split; [done|];
         apply (cut_part _ q); [apply part_drop|];
         apply (cut_cons q (take (m + 2) q) (drop (m + 2) q)); [by rewrite take_drop | | exact Hxs];
         pose proof (strip_vc_part (take m q)) as Hs; rewrite H in Hs; cbn [snd] in Hs;
         eapply part_trans; [exact Hs|]; rewrite <- (Nat.min_l m (m + 2)) at 1 by lia; rewrite <- take_take; apply part_take end.
Qed.

Lemma skip_blank_part l : part (skip_blank l) l.
Proof. induction l as [|c l IH]; cbn [skip_blank]; [apply part_refl|]. destruct (is_blank c); [|apply part_refl]. by apply (part_app_r _ [c]). Qed.

Lemma take_word_app l : l = (take_word l).1 ++ (take_word l).2.
Proof.
  induction l as [|c l IH]; cbn [take_word]; [done|]. destruct (is_blank c); [done|].
  destruct (take_word l) as [w r]. cbn in *. by rewrite <- IH.
Qed.

Lemma inline_parts alloc_ok fuel n l : exists ws, inline_args alloc_ok fuel n l = strndup_arg alloc_ok <$> ws /\ cut_from l ws.
Proof.
  revert n l. induction fuel as [|fuel IH]; intros n l; cbn [inline_args]; [exists []; split; [done | apply cut_nil]|].
  assert (Hnil : exists ws : list (list Z), [] = strndup_arg alloc_ok <$> ws /\ cut_from l ws)
    by (exists []; split; [done | apply cut_nil]).
  case_decide; [done|]. destruct (VC_MAX_ARGS <=? n); [done|]. cbv zeta. case_decide; [done|].
  pose proof (take_word_app (skip_blank l)) as Hw. destruct (take_word (skip_blank l)) as [w r]. cbn [fst snd] in *.
  destruct (IH (n + 1) r) as (ws & -> & Hws). exists (w :: ws). split; [done|].
  eapply cut_part; [apply skip_blank_part|]. by apply (cut_cons _ w r); [done | apply part_refl | done].
Qed.

(** A command whose arguments are pieces of [l] and have together no more bytes; its name is
    a piece too, perhaps in upper case. *)
Definition read_from (l : list Z) (argv : list (list Z)) : Prop :=
  Forall (fun a => part a l) (tail argv) /\ (length (concat argv) <= length l)%nat /\
  forall name, head argv = Some name -> exists x, part x l /\ (name = x \/ name = upper_first x).

Lemma read_from_cut l xs : cut_from l xs -> read_from l xs /\ (forall x xs', xs = x :: xs' -> read_from l (upper_first x :: xs')).
Proof.
  intros [Hp Hl]. split.
  - split; [by apply Forall_tail|]. split; [done|]. intros name Hn. destruct xs as [|x xs]; [done|]. injection Hn as <-.
    apply Forall_cons in Hp as [Hx _]. eauto.
  - intros x xs' ->. apply Forall_cons in Hp as [Hx Hp]. split; [done|]. split.
    + cbn [concat] in *. rewrite length_app in *. unfold upper_first. rewrite length_app, length_fmap, <- length_app, take_drop. done.
    + intros name [= <-]. eauto.
Qed.

(** Every [strndup] of an inline argument is granted. *)
Definition dups (alloc_ok : allocator) : Prop := forall n, al_dup alloc_ok n = true.

Lemma parsed_parts alloc_ok buf cmd n :
  dups alloc_ok -> 0 ∉ buf -> resp_parse_command alloc_ok buf = RESP_PARSE_OK cmd n ->
  exists argv, mapM arg_bytes (cmd_args cmd) = Some argv /\ read_from buf argv.
Proof.
  intros Hdup H0 E. unfold resp_parse_command in E. destruct buf as [|c buf]; [done|]. destruct (negb (c =? 42)).
  - unfold parse_inline in E. destruct (find_nl _) as [[nl sk]|]; [|done]. cbv zeta in E. case_decide; [done|]. injection E as <- _.
    destruct (inline_parts alloc_ok nl 0 (take nl (c :: buf))) as (ws & -> & Hws). cbn [cmd_args].
    apply (cut_part (c :: buf)) in Hws; [|apply part_take].
    replace (strndup_arg alloc_ok <$> ws) with (as_arg <$> ws).
    + rewrite mapM_as_arg. exists ws. split; [done|]. by apply read_from_cut.
    + apply list_fmap_ext. intros i w Hw. unfold strndup_arg, as_arg. rewrite Hdup, cstr_id; [done|].
      eapply part_notin; [|exact H0]. destruct Hws as [Hp _]. rewrite Forall_lookup in Hp. by eapply Hp.
  - destruct (_ <? 4); [done|]. destruct (find_crlf _) as [j|]; [|done]. destruct (parse_int64 _) as [argc|]; [|done].
    destruct (_ || _); [done|]. destruct (parse_bulks _ _ _ _ _) as [[[args rest] ty]|e] eqn:Ep.
    + injection E as <- _. apply parse_bulks_parts in Ep as (xs & -> & Hxs). cbn [cmd_args].
      apply (cut_part (c :: buf)) in Hxs; [|apply part_drop]. apply read_from_cut in Hxs as [_ Hxs].
      destruct xs as [|x xs]; [exists []; split; [done|]; apply read_from_cut, cut_nil|]. cbn [fmap list_fmap]. rewrite upper_name_as_arg.
      change (as_arg (upper_first x) :: (as_arg <$> xs)) with (as_arg <$> (upper_first x :: xs)). rewrite mapM_as_arg.
      eexists. split; [reflexivity|]. by apply (Hxs x xs).
    + subst e. exfalso. by eapply parse_bulks_not_ok.
Qed.

(** ** What arrives *)

(** The bytes that a sequence of reads delivers; each read fits in the 4096 bytes that are
    always free, and the last one says that there is no more. *)
Fixpoint rd_bytes (rs : list rd_result) : list Z :=
  match rs with RdBytes l :: rs => l ++ rd_bytes rs | _ => [] end.

Fixpoint reads_ok (rs : list rd_result) : Prop :=
  match rs with
  | [] => False
  | RdBytes l :: rs => Z.of_nat (length l) <= 4096 /\ reads_ok rs
  | _ => True
  end.

Definition event_bytes (ev : event) : list Z := if ev_in ev then rd_bytes (ev_reads ev) else [].

Section Kept.
Context {C : Type} {KV : Kv C}.
Context (strtod : list Z -> list Z) (print_g : list Z -> list Z).
Context (alloc_ok : allocator) (Hdups : dups alloc_ok).
Context (tls : bool).
Context (E : nat -> cenv).

(** The bytes that may arrive. *)
Context (fine : list Z -> Prop).
Hypothesis fine_part : forall x l, part x l -> fine l -> fine x.
Hypothesis fine_nul : forall l, fine l -> 0 ∉ l.
Hypothesis fine_len : forall l, fine l -> Z.of_nat (length l) <= 2 ^ 60.

(** What holds of the server before command [i], and of the user of an open connection. *)
Context (Inv : nat -> server C -> Prop) (who : option vc_user -> Prop).
Hypothesis who_none : who None.
Hypothesis inv_accept : forall i s, Inv i s -> Inv i (count_conn s).
Hypothesis inv_command : forall i s c argv l, Inv i s -> who (cn_user c) -> fine l -> read_from l argv ->
  exists s' c', vc_dispatch strtod print_g (E i) s c argv = Some (s', c') /\ Inv (S i) s' /\ who (cn_user c').

Lemma cmd_loop_kept fuel i s c b :
  Inv i s -> who (cn_user c) -> fine (b_data b) ->
  exists e i' s' c' b' n, cmd_loop strtod print_g alloc_ok fuel E i s c b = Some (e, i', s', c', b') /\
    Inv i' s' /\ who (cn_user c') /\ b_data b' = drop n (b_data b) /\ b_cap b' = b_cap b /\
    (e <> LoopClosing -> cn_state c' = cn_state c).
Proof.
  revert i s c b. induction fuel as [|fuel IH]; intros i s c b Hr Hu Hs; cbn [cmd_loop].
  { eexists _, _, _, _, _, 0%nat. done. }
  destruct (0 <? b_len b); [|by eexists _, _, _, _, _, 0%nat].
  destruct (resp_parse_command alloc_ok (b_data b)) as [cmd n| |] eqn:Ep; [|by eexists _, _, _, _, _, 0%nat..].
  destruct (parsed_parts _ _ _ _ Hdups (fine_nul _ Hs) Ep) as (argv & Em & Hp). rewrite Em. cbn [mbind option_bind].
  destruct (inv_command i s c argv (b_data b) Hr Hu Hs Hp) as (s1 & c1 & Ed & Hr1 & Hu1).
  pose proof (dispatch_stays strtod print_g (E i) s c argv) as Hst. rewrite Ed in Hst |- *. cbn [mbind option_bind].
  assert (Hd : exists m, b_data (vc_buf_consume b n) = drop m (b_data b)).
  { unfold vc_buf_consume. destruct (_ <=? n); [exists (length (b_data b)); by rewrite drop_all | by eexists]. }
  destruct Hd as [m Hd]. case_bool_decide as Hcl.
  { eexists _, _, _, _, _, m. split; [reflexivity|]. split; [done|]. split; [done|]. split; [exact Hd|]. split; [apply consume_cap | done]. }
  destruct (IH (S i) s1 c1 (vc_buf_consume b n)) as (e & i' & s' & c' & b' & m' & E' & Hun & Hu' & Hd' & Hcap & Hstate); [done | done | |].
  { rewrite Hd. eapply fine_part; [apply part_drop | exact Hs]. }
  eexists e, i', s', c', b', (m + m')%nat. split; [exact E'|]. split; [exact Hun|]. split; [done|].
  split; [by rewrite Hd', Hd, drop_drop|]. split; [by rewrite Hcap, consume_cap|].
  intros He. rewrite Hstate by done. by destruct Hst as [Hst|Hst].
Qed.

Lemma read_loop_kept rs b :
  reads_ok rs -> buf_ok b -> b_len b + Z.of_nat (length (rd_bytes rs)) <= 2 ^ 60 ->
  exists r, read_loop alloc_ok rs b = Some r /\
    match r with None => True | Some b' => b_data b' = b_data b ++ rd_bytes rs /\ buf_ok b' end.
Proof.
  revert b. induction rs as [|r rs IH]; intros b Hr Hb Hl; [done|]. cbn [read_loop].
  assert (Hlb : b_len b + 4096 <= 2 ^ 61) by lia.
  destruct (vc_buf_grow_spec alloc_ok b 4096 Hb ltac:(lia) Hlb) as (ok & b1 & -> & Hd & Hb1 & Hok).
  cbn [mbind option_bind]. destruct ok; cbn [negb]; [|by eexists].
  destruct r as [l| | |]; [|by eexists| |by eexists].
  - cbn [reads_ok rd_bytes] in *. rewrite length_app in Hl. destruct Hr as [Hl1 Hr].
    assert (El : b_len b1 = b_len b) by (unfold b_len; by rewrite Hd).
    destruct (Z.ltb_spec (b_cap b1 - b_len b1) (Z.of_nat (length l))); [lia|].
    set (b2 := Buf (b_data b1 ++ l) (b_cap b1) (b_rpos b1)).
    assert (E2 : b_len b2 = b_len b + Z.of_nat (length l)) by (unfold b_len, b2; cbn [b_data]; rewrite length_app, Hd; lia).
    destruct (IH b2 Hr) as (res & -> & Hres).
    { destruct Hb1 as [_ Hcap]. split; [rewrite E2; cbn [b2 b_cap]; lia | done]. } { lia. }
    exists res. split; [done|]. destruct res as [b'|]; [|done]. destruct Hres as [-> ?]. split; [|done].
    cbn [b2 b_data]. by rewrite Hd, <- app_assoc.
  - eexists. split; [reflexivity|]. cbn [rd_bytes]. rewrite app_nil_r. done.
Qed.

Lemma conn_flush_total w k r : k_wpos k = Some r ->
  exists st sent k', conn_flush w k = Some (st, sent, k') /\ cn_user (k_conn k') = cn_user (k_conn k) /\
    k_state k' = k_state k /\ k_rbuf k' = k_rbuf k /\ is_Some (k_wpos k').
Proof.
  intros Hk. unfold conn_flush. rewrite Hk. cbn [mbind option_bind]. cbv zeta.
  destruct (flush_loop _ _ _ _ _) as [[st p] sent]. destruct st; eexists _, _, _; split; try reflexivity; done.
Qed.

Lemma conn_close_free k : k_state (conn_close k) = VC_CONN_FREE.
Proof. unfold conn_close. case_bool_decide; done. Qed.

(** ** One connection *)

(** A slot before the bytes [f] arrive on it. *)
Record calm (f : list Z) (k : slot) : Prop := {
  cm_future : fine f;
  cm_open : k_state k <> VC_CONN_FREE ->
    who (cn_user (k_conn k)) /\ is_Some (k_wpos k) /\
    exists b, k_rbuf k = Some b /\ buf_ok b /\ fine (b_data b ++ f) /\
      (k_state k = VC_CONN_TLS_HAND -> b_data b = [])
}.

Lemma calm_free f k : fine f -> k_state k = VC_CONN_FREE -> calm f k.
Proof. intros Hf Hk. by split. Qed.

Lemma calm_open f k b : who (cn_user (k_conn k)) -> is_Some (k_wpos k) -> k_rbuf k = Some b -> buf_ok b ->
  fine (b_data b ++ f) -> (k_state k = VC_CONN_TLS_HAND -> b_data b = []) -> calm f k.
Proof.
  intros Hu Hw Hb Hok Hs Ht. split; [eapply fine_part; [|exact Hs]; auto with vc|]. intros _. eauto 10.
Qed.

Lemma process_kept i now rs w s k f b :
  Inv i s -> who (cn_user (k_conn k)) -> is_Some (k_wpos k) -> k_rbuf k = Some b -> buf_ok b ->
  k_state k <> VC_CONN_TLS_HAND -> reads_ok rs -> fine (b_data b ++ rd_bytes rs ++ f) ->
  exists o, process_conn strtod print_g alloc_ok E i now rs w s k = Some o /\ Inv (o_next o) (o_srv o) /\
    calm f (o_slot o).
Proof.
  intros Hr Hu [p Hw] Hb Hok Ht Hrs Hs.
  assert (Hf : fine f) by (eapply fine_part; [|exact Hs]; auto with vc).
  unfold process_conn. rewrite Hb. cbn [mbind option_bind].
  destruct (read_loop_kept rs b Hrs Hok) as (r & -> & Hres).
  { pose proof (fine_len _ Hs) as Hl. rewrite !length_app in Hl. unfold b_len. lia. }
  cbn [mbind option_bind]. destruct r as [b1|].
  2: { eexists. split; [reflexivity|]. split; [done|]. apply calm_free; [done | apply conn_close_free]. }
  destruct Hres as [Hd1 Hok1]. cbv zeta. rewrite Hw. cbn [mbind option_bind].
  rewrite app_assoc, <- Hd1 in Hs.
  destruct (cmd_loop_kept (S (length (b_data b1))) i s (k_conn k) b1 Hr Hu) as (e & i' & s' & c' & b' & m & -> & Hun & Hu' & Hd & Hcap & Hst).
  { eapply fine_part; [|exact Hs]. auto with vc. }
  cbn [mbind option_bind].
  set (k1 := Slot c' (k_tls k) (Some b') (Some p) (if read_any rs then now else k_last_active k)).
  assert (Hk1 : e <> LoopClosing -> forall k', cn_user (k_conn k') = cn_user (k_conn k1) -> k_state k' = k_state k1 -> k_rbuf k' = k_rbuf k1 ->
    is_Some (k_wpos k') -> calm f k').
  { intros He k' Hu2 Hs2 Hb2 Hw2. apply calm_open with b'; [by rewrite Hu2 | done | by rewrite Hb2 | | |].
    - destruct Hok1 as [Hl1 Hc1]. split; [|by rewrite Hcap]. rewrite Hcap. unfold b_len in *. rewrite Hd, length_drop. lia.
    - rewrite Hd. eapply fine_part; [apply part_suffix | exact Hs].
    - rewrite Hs2. unfold k_state, k1. cbn [k_conn]. rewrite (Hst He). intros Hx. by destruct Ht. }
  assert (Hclosed : forall k', calm f (conn_close k')) by (intros; apply calm_free; [done | apply conn_close_free]).
  destruct e.
  - case_decide as Ho.
    + eexists. split; [reflexivity|]. split; [done|]. by apply Hk1.
    + destruct (conn_flush_total w k1 p eq_refl) as (st & sent & k' & -> & H1 & H2 & H3 & H4). cbn [mbind option_bind].
      destruct st; (eexists; split; [reflexivity|]; split; [done|]); [by apply Hk1 | apply Hclosed | by apply Hk1].
  - destruct (conn_flush_total w (with_conn (cn_write (r_err (bs "protocol error")) c') k1) p eq_refl) as (st & sent & k' & -> & _).
    eexists. split; [reflexivity|]. split; [done | apply Hclosed].
  - destruct (conn_flush_total w k1 p eq_refl) as (st & sent & k' & -> & _). eexists. split; [reflexivity|]. split; [done | apply Hclosed].
Qed.

Lemma event_kept ev i s k f :
  Inv i s -> reads_ok (ev_reads ev) -> calm (event_bytes ev ++ f) k ->
  exists o, on_event strtod print_g alloc_ok E ev i s k = Some o /\ Inv (o_next o) (o_srv o) /\ calm f (o_slot o).
Proof.
  intros Hr Hrs [Hfut Hop].
  assert (Hf : fine f) by (eapply fine_part; [|exact Hfut]; auto with vc).
  assert (Hclosed : forall k', calm f (conn_close k')) by (intros; apply calm_free; [done | apply conn_close_free]).
  unfold on_event. case_bool_decide as Hfree; [eexists; split; [reflexivity|]; split; [done | by apply calm_free]|].
  destruct (Hop Hfree) as (Hu & [p Hw] & b & Hb & Hok & Hs & Ht).
  destruct (ev_hup ev); [eexists; split; [reflexivity|]; split; [done | apply Hclosed]|].
  case_bool_decide as Htls.
  { specialize (Ht Htls). rewrite Ht in Hs. eexists. split; [reflexivity|]. split; [done|]. cbn [o_slot].
    destruct (ev_tls ev); cbn [tls_do_handshake]; [..|apply Hclosed].
    - apply calm_open with b; [done | by exists p | done | done | by rewrite Ht | done].
    - apply calm_open with b; [done | by exists p | done | done | by rewrite Ht | done]. }
  assert (Hfl : exists st sent k', (if ev_out ev then conn_flush (ev_resume ev) k else Some (FlushOk, [], k)) = Some (st, sent, k') /\
    who (cn_user (k_conn k')) /\ k_state k' = k_state k /\ k_rbuf k' = Some b /\ is_Some (k_wpos k')).
  { destruct (ev_out ev); [|eexists _, _, _; split; [reflexivity|]; by rewrite Hw].
    destruct (conn_flush_total (ev_resume ev) k p Hw) as (st & sent & k' & -> & H1 & H2 & H3 & H4).
    exists st, sent, k'. by rewrite H1, H2, H3. }
  destruct Hfl as (st & sent & k' & -> & Hu' & Hst' & Hb' & Hw'). cbn [mbind option_bind].
  assert (Hgo : exists o, (if ev_in ev then
          o ← process_conn strtod print_g alloc_ok E i (ev_now ev) (ev_reads ev) (ev_writes ev) s k';
          Some (Outcome (o_next o) (o_srv o) (o_slot o) (sent ++ o_sent o))
        else Some (Outcome i s k' sent)) = Some o /\ Inv (o_next o) (o_srv o) /\ calm f (o_slot o)).
  { unfold event_bytes in Hs. destruct (ev_in ev).
    - destruct (process_kept i (ev_now ev) (ev_reads ev) (ev_writes ev) s k' f b) as (o & -> & Hun & Hc); try done; [by rewrite Hst'|].
      eexists. split; [reflexivity|]. done.
    - eexists. split; [reflexivity|]. split; [done|]. cbn [o_slot]. apply calm_open with b; try done. rewrite Hst'. by intros. }
  destruct st; [exact Hgo | | exact Hgo]. eexists. split; [reflexivity|]. split; [done | apply Hclosed].
Qed.
(** ** The pool *)

(** The bytes that arrive on slot [j]. *)
Definition input (j : nat) (l : list ready_event) : list Z :=
  concat ((fun e => match e with OnConn i ev => if decide (i = j) then event_bytes ev else [] | OnListen _ => [] end) <$> l).

Definition ready_event_ok (e : ready_event) : Prop :=
  match e with OnConn _ ev => reads_ok (ev_reads ev) | OnListen l => Forall (fun a => ac_wbuf a = true) l end.

Definition calm_pool (l : list ready_event) (pool : list slot) : Prop :=
  forall j k, pool !! j = Some k -> calm (input j l) k.

Hypothesis rbuf_ok : alloc_ok VC_RBUF_INIT = true.

Lemma accept_kept l i s pool f :
  Inv i s -> Forall (fun a => ac_wbuf a = true) l -> (forall j k, pool !! j = Some k -> calm (f j) k) ->
  Inv i (accept_loop alloc_ok tls l s pool).1 /\
  (forall j k, (accept_loop alloc_ok tls l s pool).2 !! j = Some k -> calm (f j) k).
Proof.
  intros Hi Hl. revert s pool Hi. induction Hl as [|a l Ha Hl IH]; intros s pool Hi Hp; cbn [accept_loop]; [done|].
  unfold accept_conn, conn_alloc. pose proof (alloc_loop_spec 0 pool) as Hspec. destruct (alloc_loop 0 pool) as [n|]; [|by apply IH].
  destruct Hspec as (m & k & -> & Hn & Hfree). cbn [Nat.add mbind option_bind]. rewrite Hn. cbn [mbind option_bind].
  apply IH; [by apply inv_accept|]. intros j k' Hk'. destruct (decide (j = m)) as [->|Hne].
  - rewrite list_lookup_alter_eq, list_lookup_insert_eq in Hk' by (by eapply lookup_lt_Some). cbn [fmap option_fmap option_map] in Hk'.
    pose proof (cm_future _ _ (Hp m k Hn)) as Hf. unfold vc_buf_new in Hk'. rewrite rbuf_ok, Ha in Hk'. cbv zeta in Hk'.
    destruct (default _ (ac_peer a)) as [addr port]. injection Hk' as <-.
    by apply calm_open with (Buf [] VC_RBUF_INIT 0).
  - rewrite list_lookup_alter_ne, list_lookup_insert_ne in Hk' by done. by apply Hp.
Qed.

Definition kept (l : list ready_event) (w : wstate (C := C)) : Prop := Inv (ws_next w) (ws_srv w) /\ calm_pool l (ws_pool w).

Lemma handle_kept e l w :
  ready_event_ok e -> kept (e :: l) w -> exists w', handle strtod print_g alloc_ok tls E e w = Some w' /\ kept l w'.
Proof.
  intros He [Hr Hp]. destruct e as [acc|i ev]; cbn [handle].
  - destruct (accept_kept acc (ws_next w) (ws_srv w) (ws_pool w) (fun j => input j l) Hr He Hp) as [Hu Hc].
    destruct (accept_loop alloc_ok tls acc (ws_srv w) (ws_pool w)) as [s pool]. eexists. split; [reflexivity|]. by split.
  - destruct (ws_pool w !! i) as [k|] eqn:Ek.
    + pose proof (Hp i k Ek) as Hk. unfold input in Hk. cbn [fmap list_fmap concat] in Hk. rewrite decide_True in Hk by done.
      destruct (event_kept ev (ws_next w) (ws_srv w) k _ Hr He Hk) as (o & -> & Hu & Hc).
      cbn [mbind option_bind]. eexists. split; [reflexivity|]. split; [done|]. intros j k' Hk'. cbn [ws_pool] in Hk'.
      destruct (decide (j = i)) as [->|Hne].
      * rewrite list_lookup_insert_eq in Hk' by (by eapply lookup_lt_Some). injection Hk' as <-. exact Hc.
      * rewrite list_lookup_insert_ne in Hk' by done. specialize (Hp j k' Hk'). unfold input in Hp. cbn [fmap list_fmap concat] in Hp.
        by rewrite decide_False in Hp.
    + eexists. split; [reflexivity|]. split; [done|]. intros j k' Hk'. specialize (Hp j k' Hk'). unfold input in Hp.
      cbn [fmap list_fmap concat] in Hp. rewrite decide_False in Hp; [exact Hp|]. intros ->. congruence.
Qed.

Lemma handle_all_kept evs l w :
  Forall ready_event_ok evs -> kept (evs ++ l) w -> exists w', handle_all strtod print_g alloc_ok tls E evs w = Some w' /\ kept l w'.
Proof.
  intros Hev. revert w. induction Hev as [|e evs He _ IH]; intros w Hw; cbn [handle_all]; [by exists w|].
  destruct (handle_kept e (evs ++ l) w He Hw) as (w1 & -> & H1). by apply IH.
Qed.

Lemma sweep_kept l now w : kept l w -> kept l (sweep now w).
Proof.
  intros [Hr Hp]. unfold sweep. destruct (10 <=? _)%nat; [|done]. split; [done|]. cbn [ws_pool]. intros j k Hk. unfold idle_sweep in Hk.
  rewrite list_lookup_fmap in Hk. destruct (ws_pool w !! j) as [k0|] eqn:E0; [|done]. injection Hk as <-.
  specialize (Hp j k0 E0). destruct (_ || _); [done|]. destruct (_ <? _); [|done].
  apply calm_free; [apply Hp | apply conn_close_free].
Qed.

(** All events of some rounds. *)
Definition events_of (rs : list round) : list ready_event := concat ((fun r => default [] (rn_events r)) <$> rs).

Lemma worker_kept rs w :
  Forall ready_event_ok (events_of rs) -> kept (events_of rs) w ->
  exists w', worker_thread strtod print_g alloc_ok tls E rs w = Some w' /\ kept [] w'.
Proof.
  revert w. induction rs as [|r rs IH]; intros w Hev Hw; cbn [worker_thread]; [by exists w|].
  unfold events_of in Hev, Hw. cbn [fmap list_fmap concat] in Hev, Hw. fold (events_of rs) in Hev, Hw. apply Forall_app in Hev as [He1 He2].
  assert (H1 : exists w1, worker_round strtod print_g alloc_ok tls E r w = Some w1 /\ kept (events_of rs) w1).
  { unfold worker_round. destruct (rn_events r) as [evs|]; [|by exists w].
    destruct (handle_all_kept evs (events_of rs) w He1 Hw) as (w1 & -> & Hp1). cbn [mbind option_bind].
    eexists. split; [reflexivity | by apply sweep_kept]. }
  destruct H1 as (w1 & -> & H1). by apply IH.
Qed.
End Kept.
