(* ===== verification/WorkerThm.v ===== *)
(** * What clients can do to a worker

    Two instances of [WorkerSafe.v].  On a server that requires authentication, whatever
    bytes arrive on whatever connections, as long as no piece of them is an accepted password
    the store stays as it is.  And whoever the clients are, as long as they stay away from the
    commands of [Session.v] that can be undefined, nothing goes wrong and the store stays
    well-formed. *)

From S2P Require Import Prelude Hash Slab Entry Shard Wal Cache CacheInv CacheSafe CacheSpec CacheThm.
From S2P Require Import Proto ProtoSpec Auth Kv Commands CommandsSpec Session Server ServerThm Worker WorkerSafe.

(** ** Strangers *)

(** No piece is an accepted password, whether the digest finds memory or not, and there is no
    NUL byte: an inline command with one is undefined. *)
Definition no_secret (db : vc_auth_db) (l : list Z) : Prop :=
  (0 ∉ l) /\ (forall digest name x, part x l -> vc_auth_verify digest db name x = None) /\ Z.of_nat (length l) <= 2 ^ 60.

Lemma no_secret_part db x l : part x l -> no_secret db l -> no_secret db x.
Proof.
  intros Hp (H0 & Hs & Hl). split; [by eapply part_notin|]. split.
  - intros digest name y Hy. apply Hs. by eapply part_trans.
  - destruct Hp as (a & b & ->). rewrite !length_app in Hl. lia.
Qed.

Lemma no_secret_argv db l argv u : no_secret db l -> read_from l argv -> ~ presents db argv u.
Proof.
  intros (H0 & Hs & _) [Hp _] (digest & name & pw & Hv & _ & a & Ha & Hpw). rewrite Forall_forall in Hp. specialize (Hp a Ha).
  rewrite cstr_id in Hpw by (by eapply part_notin). assert (pw = a) as -> by tauto. by rewrite Hs in Hv.
Qed.

Section Clients.
Context {C : Type} {KV : Kv C}.
Context (strtod : list Z -> list Z) (print_g : list Z -> list Z).
Context (alloc_ok : allocator) (Hdups : dups alloc_ok).
Context (tls : bool).
Context (E : nat -> cenv).
Hypothesis rbuf_ok : alloc_ok VC_RBUF_INIT = true.

(** The store and the users are those of before. *)
Definition untouched (s s' : server C) : Prop := sv_cache s' = sv_cache s /\ sv_auth s' = sv_auth s.

(** No user is logged in, and no secret has come or will come. *)
Definition anonymous (db : vc_auth_db) : list ready_event -> list slot -> Prop := calm_pool (no_secret db) (fun u => u = None).


(** ** Everyone *)

Context {KS : KvSafe C}.
Hypothesis Hdouble : forall t, length (strtod t) = 8%nat.

(** The commands that can be undefined. *)
Definition fragile : list (list Z) :=
  [bs "KEYS"; bs "SCAN"; bs "VCGET"; bs "INCR"; bs "DECR"; bs "INCRBY"; bs "DECRBY"; bs "CONFIG"].

(** The most bytes that arrive on one connection. *)
Context (limit : Z) (Hlimit : limit < 2 ^ 32).

(** No piece names one of them, in upper or lower case, and there is no NUL byte. *)
Definition plain_bytes (l : list Z) : Prop :=
  (0 ∉ l) /\ (forall x, part x l -> existsb (strcaseeq x) fragile = false) /\ Z.of_nat (length l) <= limit.

Lemma plain_part x l : part x l -> plain_bytes l -> plain_bytes x.
Proof.
  intros Hp (H0 & Hs & Hl). split; [by eapply part_notin|]. split.
  - intros y Hy. apply Hs. by eapply part_trans.
  - destruct Hp as (a & b & ->). rewrite !length_app in Hl. lia.
Qed.

Lemma lower_upper c : lower (upper c) = lower c.
Proof.
  unfold lower, upper.
  destruct (Z.leb_spec 97 c), (Z.leb_spec c 122); cbn [andb];
    repeat match goal with |- context [?a <=? ?b] => destruct (Z.leb_spec a b) end; cbn [andb]; lia.
Qed.

Lemma upper_first_case x n : 0 ∉ x -> strcaseeq (upper_first x) n = strcaseeq x n.
Proof.
  intros H0. assert (Hu : 0 ∉ upper_first x).
  { unfold upper_first. rewrite elem_of_app, list_elem_of_fmap. intros [(y & Hy & Hin)|Hin].
    - assert (y = 0) as -> by (unfold upper in Hy; case_match eqn:Eb; [apply andb_true_iff in Eb as [?%Z.leb_le ?%Z.leb_le]; lia | done]).
      apply H0. by eapply subseteq_take.
    - apply H0. by eapply subseteq_drop. }
  unfold strcaseeq. rewrite !(cstr_id (upper_first x)), !(cstr_id x) by done.
  assert (Eq : lower <$> upper_first x = lower <$> x); [|by rewrite Eq]. unfold upper_first.
  rewrite fmap_app, <- list_fmap_compose, (list_fmap_ext _ lower _ (fun _ c _ => lower_upper c)), <- fmap_app. by rewrite take_drop.
Qed.

Lemma undefined_fragile n e (s : server C) argv : undefined_in n e s argv = true -> n ∈ fragile.
Proof.
  intros H. unfold undefined_in, named in H.
  repeat match type of H with
         | context [bool_decide (n = ?m)] =>
             let Hn := fresh in destruct (decide (n = m)) as [->|Hn];
             [apply (bool_decide_unpack _); vm_compute; exact I | rewrite (bool_decide_eq_false_2 (n = m) Hn) in H]
         end. done.
Qed.

Lemma plain_no_hazard l e s c argv : plain_bytes l -> read_from l argv -> hazard strtod print_g e s c argv = false.
Proof.
  intros (H0 & Hs & _) (_ & _ & Hn). unfold hazard. destruct (find_command _ _) as [x|] eqn:Ef; [|done].
  apply andb_false_iff. right. destruct (undefined_in _ _ _ _) eqn:Eu; [|done]. apply undefined_fragile in Eu.
  apply find_command_in in Ef as [_ Ec]. destruct argv as [|name args].
  { exfalso. unfold fragile in Eu. repeat (apply elem_of_cons in Eu as [Eu|Eu]; [rewrite Eu in Ec; by vm_compute in Ec|]). by apply elem_of_nil in Eu. }
  destruct (Hn name eq_refl) as (y & Hy & Hny). change (argn (name :: args) 0) with name in Ec.
  assert (Hey : strcaseeq y (ce_name x) = true).
  { destruct Hny as [->| ->]; [done|]. by rewrite upper_first_case in Ec by (by eapply part_notin). }
  specialize (Hs y Hy). assert (Ht : existsb (strcaseeq y) fragile = true); [|congruence].
  apply existsb_exists. exists (ce_name x). split; [by apply list_elem_of_In | done].
Qed.

Lemma plain_short l argv : plain_bytes l -> read_from l argv -> args_len argv <= limit /\ Forall short argv.
Proof.
  intros (_ & _ & Hl) (_ & Hc & _). assert (args_len argv <= limit) as Ha by (unfold args_len; lia). split; [done|].
  apply Forall_forall. intros x Hx%elem_args_len. unfold short. lia.
Qed.

(** The servers that a worker can have before command [i], whatever the commands are. *)
Inductive reached (w : wstate (C := C)) : nat -> server C -> Prop :=
| rc_start : reached w (ws_next w) (ws_srv w)
| rc_accept i s : reached w i s -> reached w i (count_conn s)
| rc_command i s c argv s' c' :
    reached w i s -> vc_dispatch strtod print_g (E i) s c argv = Some (s', c') -> reached w (S i) s'.

End Clients.

(** ** A stranger *)

(** Bob's password is not among the words sent. *)
Definition knock : list Z := bs "AUTH x" ++ [10].
Definition knock_event : event := Event false false true 7 [RdBytes knock; RdAgain] (fun _ => Wr 1) (fun _ => Wr 100) TlsWant.
Definition knock_rounds : list round :=
  [Round (Some [OnListen [Accepted 9 None 5 true]]) 6; Round None 6; Round (Some [OnConn 0 knock_event]) 8].

Definition pieces (l : list Z) : list (list Z) :=
  concat ((fun i => (fun n => take n (drop i l)) <$> seq 0 (S (length l - i))) <$> seq 0 (S (length l))).

Lemma part_pieces x l : part x l -> x ∈ pieces l.
Proof.
  intros (a & b & ->). unfold pieces. apply list_elem_of_In, in_concat.
  exists ((fun n => take n (drop (length a) (a ++ x ++ b))) <$> seq 0 (S (length (a ++ x ++ b) - length a))). rewrite !length_app. split.
  - apply list_elem_of_In, list_elem_of_fmap. exists (length a). split; [done|]. apply elem_of_seq. lia.
  - apply list_elem_of_In, list_elem_of_fmap. exists (length x). rewrite drop_app_length, take_app_length. split; [done|]. apply elem_of_seq. lia.
Qed.

Lemma knock_wrong : Forall (fun x => forall digest, vc_sha256 digest x <> u_pw_sha256 bob) (pieces knock).
Proof.
  assert (Hf : Forall (fun x => vc_sha256 true x <> u_pw_sha256 bob) (pieces knock)) by (apply (bool_decide_unpack _); by vm_compute).
  eapply Forall_impl; [exact Hf|]. intros x Hx []; [exact Hx|]. vm_compute. congruence.
Qed.

Lemma knock_no_secret : no_secret (AuthDb [bob] true) knock.
Proof.
  split; [vm_compute; set_solver|]. split; [|vm_compute; congruence]. intros digest name x Hx. unfold vc_auth_verify. cbn [db_require_auth negb db_users].
  destruct (verify_loop [bob] name (vc_sha256 digest x)) as [u|] eqn:Ev; [|done]. apply verify_loop_some in Ev as (Hu & _ & _ & Hh).
  apply list_elem_of_singleton in Hu as ->. pose proof knock_wrong as Hk. rewrite Forall_forall in Hk. by destruct (Hk x (part_pieces _ _ Hx) digest).
Qed.


(** ** A client that writes *)

Definition note : list Z := bs "SET k v" ++ [10].
Definition note_event : event := Event false false true 7 [RdBytes note; RdAgain] (fun _ => Wr 1) (fun _ => Wr 100) TlsWant.
Definition note_rounds : list round :=
  [Round (Some [OnListen [Accepted 9 None 5 true]]) 6; Round (Some [OnConn 0 note_event]) 8].
Definition note_worker : wstate :=
  WState 0 (mini_server (AuthDb [] false)) (replicate 2 (Slot (Conn 0 VC_CONN_FREE false None [] 0 [] 0 []) false None None 0)) 0.

Lemma note_plain : plain_bytes (2 ^ 20) note.
Proof.
  split; [vm_compute; set_solver|]. split; [|vm_compute; congruence]. intros x Hx. apply part_pieces in Hx.
  assert (Hf : Forall (fun x => existsb (strcaseeq x) fragile = false) (pieces note)).
  { apply (bool_decide_unpack _). vm_compute. exact I. }
  rewrite Forall_forall in Hf. by apply Hf.
Qed.

