(* ===== verification/SeqLock.v ===== *)
(** * The sequence lock over several threads

    [shard_lock], [shard_unlock], [seq_read_begin], [seq_read_retry], [seq_write_begin],
    [seq_write_end] of [src/src/voidcache.c] as steps of interleaved threads: writers run
    the critical section of [vc_set] and [vc_del], readers the two paths of [vc_get].
    The words of a shard's entry are read and written one at a time, in the order of a
    sequentially consistent memory.  A step is one access to shared memory.  The words are
    those of the entry that a reader looks up and copies; what the lookup reads only decides
    how it goes on, so it may end either way.  A locked read that finds an inline value
    returns a pointer into the live entry and no words.  The clock bit of the entry, which
    readers set, is not one of the words. *)

From S2P Require Import Prelude Hash Slab Entry Shard Wal Cache.

(** ** State *)

(** [ver] counts the changes of the counter [seq], which keeps its low 64 bits; [owner] is
    the thread that has set [wlock].  Both say more than the memory holds, and are only used
    through [seq] and [wlock] in the conditions of the steps. *)
Record shared := Shared { owner : option nat; ver : Z; words : list Z }.

Definition seq_word (m : shared) : Z := u64 (ver m).
Definition wlock (m : shared) : Z := match owner m with None => 0 | Some _ => 1 end.

(** Where a thread is.  [tries] counts the rounds of the fast path that are left, this one
    included; [b] is the value of [ver] when the round began. *)
Inductive pc : Type :=
| Idle
| WLock (ws : list (nat * Z))                        (* in [shard_lock]; the words to write *)
| WBegin (ws : list (nat * Z))
| WWrite (ws : list (nat * Z))                       (* between begin and end of the section *)
| WUnlock
| RBegin (tries : nat)                               (* in [seq_read_begin] *)
| RFind (tries : nat) (seq b : Z)                    (* in [_shard_find] *)
| RMiss (tries : nat) (seq b : Z)                    (* nothing found, before [seq_read_retry] *)
| RRead (tries : nat) (seq b : Z) (snap : list Z)
| RCheck (tries : nat) (seq b : Z) (snap : list Z)   (* before [seq_read_retry] *)
| GLock                                              (* in [shard_lock] of the locked path *)
| GFind                                              (* in [_shard_find] of the locked path *)
| GRead (snap : list Z)
| GUnlock (snap : list Z)
| GFound                                             (* an inline value or no value, before the unlock *)
| Done (snap : list Z)                               (* returned these words *)
| Ret.                                               (* returned a pointer into the entry, or nothing *)

Definition again (tries : nat) : pc := match tries with O | S O => GLock | S n => RBegin n end.

(** One access of thread [i]. *)
Inductive step (i : nat) : shared -> pc -> shared -> pc -> Prop :=
| st_set m ws : step i m Idle m (WLock ws)
| st_get m : step i m Idle m (RBegin VC_SEQLOCK_RETRY)
(* the compare-and-swap fails, also spuriously, or takes the lock *)
| st_wspin m ws : step i m (WLock ws) m (WLock ws)
| st_wlock m ws : wlock m = 0 -> step i m (WLock ws) (Shared (Some i) (ver m) (words m)) (WBegin ws)
| st_wbegin m ws : step i m (WBegin ws) (Shared (owner m) (ver m + 1) (words m)) (WWrite ws)
| st_write m k v ws : step i m (WWrite ((k, v) :: ws)) (Shared (owner m) (ver m) (<[k := v]> (words m))) (WWrite ws)
| st_wend m : step i m (WWrite []) (Shared (owner m) (ver m + 1) (words m)) WUnlock
| st_wunlock m : step i m WUnlock (Shared None (ver m) (words m)) Idle
| st_rspin m n : Z.land (seq_word m) 1 <> 0 -> step i m (RBegin n) m (RBegin n)
| st_rbegin m n : Z.land (seq_word m) 1 = 0 -> step i m (RBegin n) m (RFind n (seq_word m) (ver m))
| st_find m n s b : step i m (RFind n s b) m (RFind n s b)
| st_hit m n s b : step i m (RFind n s b) m (RRead n s b [])
| st_miss m n s b : step i m (RFind n s b) m (RMiss n s b)
(* the value is inline: no validation, the locked path *)
| st_inline m n s b : step i m (RFind n s b) m GLock
| st_missed m n s b : seq_word m = s -> step i m (RMiss n s b) m Ret
| st_miss_retry m n s b : seq_word m <> s -> step i m (RMiss n s b) m (again n)
| st_read m n s b snap v : words m !! length snap = Some v ->
    step i m (RRead n s b snap) m (RRead n s b (snap ++ [v]))
| st_full m n s b snap : length snap = length (words m) -> step i m (RRead n s b snap) m (RCheck n s b snap)
| st_valid m n s b snap : seq_word m = s -> step i m (RCheck n s b snap) m (Done snap)
| st_retry m n s b snap : seq_word m <> s -> step i m (RCheck n s b snap) m (again n)
| st_gspin m : step i m GLock m GLock
| st_glock m : wlock m = 0 -> step i m GLock (Shared (Some i) (ver m) (words m)) GFind
| st_gfind m : step i m GFind m GFind
| st_ghit m : step i m GFind m (GRead [])
| st_gfound m : step i m GFind m GFound
| st_gread m snap v : words m !! length snap = Some v -> step i m (GRead snap) m (GRead (snap ++ [v]))
| st_gfull m snap : length snap = length (words m) -> step i m (GRead snap) m (GUnlock snap)
| st_gunlock m snap : step i m (GUnlock snap) (Shared None (ver m) (words m)) (Done snap)
| st_gret m : step i m GFound (Shared None (ver m) (words m)) Ret.

(** The threads interleave. *)
Definition config : Type := shared * list pc.

Inductive run1 : config -> config -> Prop :=
| run_step m ts i p m' p' : ts !! i = Some p -> step i m p m' p' -> run1 (m, ts) (m', <[i := p']> ts).

Inductive runs : config -> config -> Prop :=
| runs_refl c : runs c c
| runs_step c1 c2 c3 : run1 c1 c2 -> runs c2 c3 -> runs c1 c3.

Definition start (c : config) : Prop := owner c.1 = None /\ ver c.1 = 0 /\ Forall (eq Idle) c.2.

(** ** The invariant *)

Definition holds (p : pc) : Prop :=
  match p with WBegin _ | WWrite _ | WUnlock | GFind | GRead _ | GUnlock _ | GFound => True | _ => False end.

Definition writing (p : pc) : Prop := match p with WWrite _ => True | _ => False end.

(** What a thread knows about the words. *)
Definition knows (m : shared) (p : pc) : Prop :=
  match p with
  | RFind _ s b | RMiss _ s b => s = u64 b /\ Z.even b = true /\ b <= ver m
  | RRead _ s b snap =>
      s = u64 b /\ Z.even b = true /\ b <= ver m /\ (length snap <= length (words m))%nat /\
      (ver m = b -> snap = take (length snap) (words m))
  | RCheck _ s b snap => s = u64 b /\ Z.even b = true /\ b <= ver m /\ (ver m = b -> snap = words m)
  | GRead snap => snap = take (length snap) (words m)
  | GUnlock snap => snap = words m
  | _ => True
  end.

Record good (c : config) : Prop := {
  g_own : forall i p, c.2 !! i = Some p -> holds p <-> owner c.1 = Some i;
  g_in : forall i, owner c.1 = Some i -> is_Some (c.2 !! i);
  g_odd : Z.odd (ver c.1) = true <-> exists i p, c.2 !! i = Some p /\ writing p;
  g_knows : forall i p, c.2 !! i = Some p -> knows c.1 p;
}.

Lemma start_good c : start c -> good c.
Proof.
  destruct c as [m ts]. intros (Ho & Hv & Hf). cbn in *.
  assert (Hi : forall i p, ts !! i = Some p -> p = Idle) by (intros i p E; symmetry; exact (Forall_lookup_1 _ _ _ _ Hf E)).
  split; cbn; rewrite ?Ho, ?Hv; [|done| |].
  - intros i p E. apply Hi in E as ->. by split.
  - split; [done|]. intros (i & p & E & Hw). by apply Hi in E as ->.
  - intros i p E. by apply Hi in E as ->.
Qed.

(** How a step may change the lock, the counter and the words. *)
Lemma step_effect i m p m' p' : step i m p m' p' ->
  (owner m' = owner m /\ (holds p <-> holds p') \/
   owner m = None /\ owner m' = Some i /\ ~ holds p /\ holds p' \/
   holds p /\ owner m' = None /\ ~ holds p') /\
  (ver m' = ver m /\ (writing p <-> writing p') \/
   ver m' = ver m + 1 /\ holds p /\ holds p' /\ (writing p' <-> ~ writing p)) /\
  (words m' = words m \/ ver m' = ver m /\ writing p) /\ length (words m') = length (words m).
Proof.
  assert (Hl : wlock m = 0 -> owner m = None) by (unfold wlock; by destruct (owner m)).
  destruct 1; cbn; rewrite ?length_insert; try tauto; try (specialize (Hl ltac:(done)); tauto).
  all: destruct n as [|[|n]]; cbn; tauto.
Qed.

Lemma knows_frame m m' q :
  knows m q -> ver m <= ver m' -> (ver m' = ver m \/ ver m' = ver m + 1) ->
  (words m' = words m \/ Z.odd (ver m) = true /\ ~ holds q) -> length (words m') = length (words m) -> knows m' q.
Proof.
  intros Hk Hle Hv Hw Hl. destruct q as [| | | | | |n s b|n s b|n s b snap|n s b snap| | |snap|snap| | |]; cbn [knows holds] in *; try done.
  - destruct Hk as (Hs & He & Hb). repeat split; [done|done|lia].
  - destruct Hk as (Hs & He & Hb). repeat split; [done|done|lia].
  - destruct Hk as (Hs & He & Hb & Hlen & Hk). repeat split; [done|done|lia|lia|]. intros Heq.
    destruct Hw as [Hw|[Ho _]]; [rewrite Hw; apply Hk; lia|].
    assert (b = ver m) as -> by lia. rewrite <- Z.negb_even, He in Ho. done.
  - destruct Hk as (Hs & He & Hb & Hk). repeat split; [done|done|lia|]. intros Heq.
    destruct Hw as [Hw|[Ho _]]; [rewrite Hw; apply Hk; lia|].
    assert (b = ver m) as -> by lia. rewrite <- Z.negb_even, He in Ho. done.
  - destruct Hw as [->|[_ Hn]]; [done|]. by destruct Hn.
  - destruct Hw as [->|[_ Hn]]; [done|]. by destruct Hn.
Qed.

Lemma u64_land1 v : Z.land (u64 v) 1 = v mod 2.
Proof.
  unfold u64. change 1 with (2 ^ 1 - 1) at 1. rewrite land_mask by lia. change (2 ^ 1) with 2.
  change (2 ^ 64) with (2 * 2 ^ 63). rewrite Z.rem_mul_r by lia. rewrite (Z.mul_comm 2), Z.mod_add by lia.
  apply Z.mod_mod. lia.
Qed.

Lemma even_seq v : Z.land (u64 v) 1 = 0 <-> Z.even v = true.
Proof. rewrite u64_land1, Zeven_mod. destruct (Z.eqb_spec (v mod 2) 0); split; done. Qed.

Lemma knows_step i m p m' p' : step i m p m' p' -> knows m p -> knows m' p'.
Proof.
  destruct 1; cbn [knows]; try done.
  - intros _. repeat split; [by apply even_seq|lia].
  - intros (Hs & He & Hb). repeat split; [done|done|done|cbn; lia].
  - by destruct n as [|[|n]].
  - intros (Hs & He & Hb & Hl & Hk). rewrite length_app. cbn [length].
    repeat split; try done; [apply lookup_lt_Some in H; lia|]. intros Heq. rewrite Nat.add_1_r, (take_S_r _ _ v) by done. by rewrite <- Hk.
  - intros (Hs & He & Hb & Hl & Hk). repeat split; try done. intros Heq. rewrite (Hk Heq). apply take_ge. lia.
  - by destruct n as [|[|n]].
  - intros Hk. rewrite length_app. cbn [length]. rewrite Nat.add_1_r, (take_S_r _ _ v) by done. by rewrite <- Hk.
  - intros ->. apply take_ge. lia.
Qed.

Lemma run1_good c c' : good c -> run1 c c' -> good c'.
Proof.
  intros [Hown Hin Hodd Hkn] Hr. destruct Hr as [m ts i p m' p' Ei Hst]. cbn in *.
  destruct (step_effect _ _ _ _ _ Hst) as (Ho & Hv & Hw & Hlen).
  pose proof (Hown i p Ei) as Hpi. pose proof (lookup_lt_Some _ _ _ Ei) as Hlt.
  assert (Hoth : forall j q, j <> i -> ts !! j = Some q -> holds q <-> owner m' = Some j).
  { intros j q Hne Ej. rewrite (Hown j q Ej). destruct Ho as [[-> _]|[(Hn & -> & _)|(Hp & -> & _)]]; [done| |].
    - rewrite Hn. split; [done|]. by intros [= ->].
    - apply Hpi in Hp. rewrite Hp. split; [|done]. by intros [= ->]. }
  split; cbn.
  - intros j q Ej. apply list_insert_cases in Ej as [[-> ->]|[Hne Ej]]; [|by apply Hoth].
    destruct Ho as [[-> Hpp]|[(_ & -> & _ & Hp')|(_ & -> & Hn)]]; [by rewrite <- Hpp|done|done].
  - intros j Hj. destruct (decide (j = i)) as [->|Hne]; [by rewrite list_lookup_insert_eq|].
    rewrite list_lookup_insert_ne by done. apply Hin.
    destruct Ho as [[Ho' _]|[(_ & Ho' & _)|(_ & Ho' & _)]]; congruence.
  - assert (Hex : (exists j q, <[i := p']> ts !! j = Some q /\ writing q) <->
                  writing p' \/ exists j q, j <> i /\ ts !! j = Some q /\ writing q).
    { split.
      - intros (j & q & Ej & Hq). apply list_insert_cases in Ej as [[-> ->]|[Hne Ej]]; [by left|right; by exists j, q].
      - intros [Hp'|(j & q & Hne & Ej & Hq)].
        + exists i, p'. by rewrite list_lookup_insert_eq.
        + exists j, q. by rewrite list_lookup_insert_ne. }
    assert (Hex0 : (exists j q, ts !! j = Some q /\ writing q) <->
                   writing p \/ exists j q, j <> i /\ ts !! j = Some q /\ writing q).
    { split.
      - intros (j & q & Ej & Hq). destruct (decide (j = i)) as [->|]; [left; congruence|right; by exists j, q].
      - intros [Hp|(j & q & _ & Ej & Hq)]; [by exists i, p|by exists j, q]. }
    rewrite Hex. rewrite Hex0 in Hodd. destruct Hv as [[-> Hpp]|(-> & Hp & _ & Hww)]; [by rewrite <- Hpp|].
    assert (Hno : ~ exists j q, j <> i /\ ts !! j = Some q /\ writing q).
    { intros (j & q & Hne & Ej & Hq). assert (Hh : holds q) by by destruct q.
      apply (Hown j q Ej) in Hh. apply Hpi in Hp. congruence. }
    rewrite Z.odd_add. cbn [Z.odd xorb]. rewrite xorb_true_r, negb_true_iff, <- not_true_iff_false, Hodd. tauto.
  - intros j q Ej. apply list_insert_cases in Ej as [[-> ->]|[Hne Ej]]; [by apply (knows_step _ _ _ _ _ Hst), Hkn with i|].
    apply (knows_frame m); [by apply Hkn with j|destruct Hv as [[? _]|[? _]]; lia|destruct Hv as [[? _]|[? _]]; lia| |done].
    destruct Hw as [Hw|[_ Hwp]]; [by left|]. right. split; [apply Hodd; by exists i, p|].
    intros Hh. apply (Hown j q Ej) in Hh. assert (Hp : holds p) by by destruct p. apply Hpi in Hp. congruence.
Qed.

Lemma runs_good c c' : runs c c' -> good c -> good c'.
Proof. induction 1 as [|c1 c2 c3 H1 _ IH]; intros Hg; [done|]. by apply IH, (run1_good c1). Qed.

(** ** Progress *)

(** Steps of one thread while the others rest. *)
Inductive goes (i : nat) : shared -> pc -> shared -> pc -> Prop :=
| goes_refl m p : goes i m p m p
| goes_step m1 p1 m2 p2 m3 p3 : step i m1 p1 m2 p2 -> goes i m2 p2 m3 p3 -> goes i m1 p1 m3 p3.

Lemma goes_trans i m1 p1 m2 p2 m3 p3 : goes i m1 p1 m2 p2 -> goes i m2 p2 m3 p3 -> goes i m1 p1 m3 p3.
Proof. induction 1; [done|]. intros. eapply goes_step; eauto. Qed.

Lemma runs_trans c1 c2 c3 : runs c1 c2 -> runs c2 c3 -> runs c1 c3.
Proof. induction 1; [done|]. intros. eapply runs_step; eauto. Qed.

Lemma goes_runs i m p m' p' ts : goes i m p m' p' -> ts !! i = Some p -> runs (m, ts) (m', <[i := p']> ts).
Proof.
  intros Hg. revert ts. induction Hg as [m p|m1 p1 m2 p2 m3 p3 Hs _ IH]; intros ts E.
  - rewrite list_insert_id by done. apply runs_refl.
  - eapply runs_step; [by apply (run_step _ _ i p1 m2 p2)|].
    pose proof (lookup_lt_Some _ _ _ E).
    rewrite <- (list_insert_insert_eq ts i p3 p2). apply IH. by rewrite list_lookup_insert_eq.
Qed.

Definition finished (p : pc) : Prop := match p with Idle | Done _ | Ret => True | _ => False end.

(** The thread that has the lock finishes by itself and frees it. *)
Lemma writes_finish i m ws : exists m', goes i m (WWrite ws) m' Idle /\ owner m' = None.
Proof.
  revert m. induction ws as [|[k v] ws IH]; intros m.
  - exists (Shared None (ver m + 1) (words m)). split; [|done]. eapply goes_step; [apply st_wend|].
    eapply goes_step; [apply st_wunlock|]. apply goes_refl.
  - destruct (IH (Shared (owner m) (ver m) (<[k := v]> (words m)))) as (m' & Hg & Ho).
    exists m'. split; [|done]. eapply goes_step; [apply st_write|done].
Qed.

Lemma locked_read_finishes i m snap :
  (length snap <= length (words m))%nat ->
  exists m' snap', goes i m (GRead snap) m' (Done snap') /\ owner m' = None.
Proof.
  remember (length (words m) - length snap)%nat as d eqn:Hd. revert snap Hd.
  induction d as [|d IH]; intros snap Hd Hl.
  - exists (Shared None (ver m) (words m)), snap. split; [|done]. eapply goes_step; [apply st_gfull; lia|].
    eapply goes_step; [apply st_gunlock|]. apply goes_refl.
  - destruct (lookup_lt_is_Some_2 (words m) (length snap)) as [v Ev]; [lia|].
    destruct (IH (snap ++ [v])) as (m' & snap' & Hg & Ho); [rewrite length_app; simpl; lia..|].
    exists m', snap'. split; [|done]. eapply goes_step; [by apply st_gread|done].
Qed.

Lemma holder_finishes i m p : holds p -> knows m p ->
  exists m' p', goes i m p m' p' /\ finished p' /\ owner m' = None.
Proof.
  assert (HF : forall m : shared, exists m', goes i m GFound m' Ret /\ owner m' = None).
  { intros m0. exists (Shared None (ver m0) (words m0)). split; [|done]. eapply goes_step; [apply st_gret|apply goes_refl]. }
  intros Hh Hk. destruct p as [| |ws|ws| | | | | | | | |snap|snap| | |]; try done; cbn [knows] in Hk.
  - destruct (writes_finish i (Shared (owner m) (ver m + 1) (words m)) ws) as (m' & Hg & Ho).
    exists m', Idle. split; [|done]. eapply goes_step; [apply st_wbegin|done].
  - destruct (writes_finish i m ws) as (m' & Hg & Ho). by exists m', Idle.
  - exists (Shared None (ver m) (words m)), Idle. split; [|done]. eapply goes_step; [apply st_wunlock|apply goes_refl].
  - destruct (HF m) as (m' & Hg & Ho). exists m', Ret. split; [|done]. eapply goes_step; [apply st_gfound|done].
  - destruct (locked_read_finishes i m snap) as (m' & s' & Hg & Ho); [|by exists m', (Done s')].
    apply (f_equal length) in Hk. rewrite length_take in Hk. lia.
  - exists (Shared None (ver m) (words m)), (Done snap). split; [|done]. eapply goes_step; [apply st_gunlock|apply goes_refl].
  - destruct (HF m) as (m' & Hg & Ho). by exists m', Ret.
Qed.

(** Reading the words of a round, up to its check. *)
Lemma reads_finish i m n s b snap :
  (length snap <= length (words m))%nat -> exists snap', goes i m (RRead n s b snap) m (RCheck n s b snap').
Proof.
  remember (length (words m) - length snap)%nat as d eqn:Hd. revert snap Hd.
  induction d as [|d IH]; intros snap Hd Hl.
  - exists snap. eapply goes_step; [apply st_full; lia|apply goes_refl].
  - destruct (lookup_lt_is_Some_2 (words m) (length snap)) as [v Ev]; [lia|].
    destruct (IH (snap ++ [v])) as (snap' & Hg); [rewrite length_app; simpl; lia..|].
    exists snap'. eapply goes_step; [by apply st_read|done].
Qed.

(** With the lock free a thread finishes by itself: a reader passes its next check. *)
Lemma free_finishes i m p : owner m = None -> Z.even (ver m) = true -> ~ holds p -> knows m p ->
  exists m' p', goes i m p m' p' /\ finished p'.
Proof.
  intros Ho He Hh Hk. assert (Hw : wlock m = 0) by (unfold wlock; by rewrite Ho).
  assert (HG : exists m' p', goes i m GLock m' p' /\ finished p').
  { destruct (locked_read_finishes i (Shared (Some i) (ver m) (words m)) []) as (m' & s' & Hg & _); [cbn; lia|].
    exists m', (Done s'). split; [|done]. eapply goes_step; [by apply st_glock|]. eapply goes_step; [apply st_ghit|done]. }
  assert (HR : forall n, exists m' p', goes i m (RBegin n) m' p' /\ finished p').
  { intros n. destruct (reads_finish i m n (seq_word m) (ver m) []) as (snap & Hg); [cbn; lia|].
    exists m, (Done snap). split; [|done]. eapply goes_step; [apply st_rbegin; by apply even_seq|].
    eapply goes_step; [apply st_hit|]. eapply goes_trans; [done|]. eapply goes_step; [by apply st_valid|apply goes_refl]. }
  assert (HA : forall n, exists m' p', goes i m (again n) m' p' /\ finished p') by (intros [|[|n]]; [done|done|apply HR]).
  assert (HC : forall n s b snap, exists m' p', goes i m (RCheck n s b snap) m' p' /\ finished p').
  { intros n s b snap. destruct (decide (seq_word m = s)) as [Hs|Hs].
    - exists m, (Done snap). split; [|done]. eapply goes_step; [by apply st_valid|apply goes_refl].
    - destruct (HA n) as (m' & p' & Hg & Hf). exists m', p'. split; [|done]. eapply goes_step; [by apply st_retry|done]. }
  destruct p as [|ws| | | |n|n s b|n s b|n s b snap|n s b snap| | | | | |snap|]; cbn [holds] in Hh; try (exfalso; tauto).
  - exists m, Idle. split; [apply goes_refl|done].
  - destruct (writes_finish i (Shared (Some i) (ver m + 1) (words m)) ws) as (m' & Hg & _).
    exists m', Idle. split; [|done]. eapply goes_step; [by apply st_wlock|]. eapply goes_step; [apply st_wbegin|done].
  - apply HR.
  - destruct (reads_finish i m n s b []) as (snap' & Hg); [cbn; lia|].
    destruct (HC n s b snap') as (m' & p' & Hg' & Hf). exists m', p'. split; [|done].
    eapply goes_step; [apply st_hit|]. by eapply goes_trans.
  - destruct (decide (seq_word m = s)) as [Hs|Hs].
    + exists m, Ret. split; [|done]. eapply goes_step; [by apply st_missed|apply goes_refl].
    + destruct (HA n) as (m' & p' & Hg & Hf). exists m', p'. split; [|done]. eapply goes_step; [by apply st_miss_retry|done].
  - destruct Hk as (_ & _ & _ & Hl & _). destruct (reads_finish i m n s b snap Hl) as (snap' & Hg).
    destruct (HC n s b snap') as (m' & p' & Hg' & Hf). exists m', p'. split; [by eapply goes_trans|done].
  - apply HC.
  - exact HG.
  - exists m, (Done snap). split; [apply goes_refl|done].
  - exists m, Ret. split; [apply goes_refl|done].
Qed.

Lemma good_finishes c i p : good c -> c.2 !! i = Some p ->
  exists c' p', runs c c' /\ c'.2 !! i = Some p' /\ finished p'.
Proof.
  destruct c as [m ts]. intros Hg E. cbn in E.
  assert (Hfree : forall m ts p, good (m, ts) -> owner m = None -> ts !! i = Some p ->
    exists c' p', runs (m, ts) c' /\ c'.2 !! i = Some p' /\ finished p').
  { clear. intros m ts p Hg Ho E. pose proof (lookup_lt_Some _ _ _ E).
    assert (Hn : forall j q, ts !! j = Some q -> ~ holds q).
    { intros j q Ej Hh. apply (g_own _ Hg j q Ej) in Hh. cbn in Hh. congruence. }
    assert (He : Z.even (ver m) = true).
    { rewrite <- Z.negb_odd, negb_true_iff, <- not_true_iff_false. intros Ho'. apply (g_odd _ Hg) in Ho' as (j & q & Ej & Hw).
      apply (Hn j q Ej). by destruct q. }
    destruct (free_finishes i m p Ho He (Hn i p E) (g_knows _ Hg i p E)) as (m' & p' & Hgo & Hf).
    exists (m', <[i := p']> ts), p'. split; [by apply (goes_runs i m p)|]. cbn. by rewrite list_lookup_insert_eq. }
  destruct (owner m) as [j|] eqn:Eo; [|by apply (Hfree m ts p)].
  destruct (g_in _ Hg j Eo) as [q Ej]. cbn in Ej.
  assert (Hq : holds q) by (by apply (g_own _ Hg j q Ej)).
  destruct (holder_finishes j m q Hq (g_knows _ Hg j q Ej)) as (m' & q' & Hgo & Hf & Ho').
  pose proof (goes_runs _ _ _ _ _ _ Hgo Ej) as Hr. pose proof (runs_good _ _ Hr Hg) as Hg'.
  destruct (decide (j = i)) as [->|Hne].
  - exists (m', <[i := q']> ts), q'. split; [done|]. cbn. rewrite list_lookup_insert_eq; [done|]. by apply lookup_lt_Some in Ej.
  - destruct (Hfree m' (<[j := q']> ts) p Hg' Ho') as (c' & p' & Hr' & E' & Hf'); [by rewrite list_lookup_insert_ne|].
    exists c', p'. split; [by eapply runs_trans|done].
Qed.

(** ** Theorems *)

(** C10: the spin lock excludes.  In every interleaving of any number of threads at most one
    thread is between [shard_lock] and [shard_unlock], and while one is, [wlock] is 1; the
    counter is odd exactly while a writer is between [seq_write_begin] and [seq_write_end]. *)
Theorem lock_exclusive c c' i j p q :
  start c -> runs c c' -> c'.2 !! i = Some p -> c'.2 !! j = Some q -> holds p -> holds q ->
  i = j /\ wlock c'.1 = 1 /\ (writing p <-> Z.odd (ver c'.1) = true).
Proof.
  intros Hs Hr Ei Ej Hp Hq. pose proof (runs_good _ _ Hr (start_good _ Hs)) as Hg.
  pose proof (proj1 (g_own _ Hg i p Ei) Hp) as Hi. pose proof (proj1 (g_own _ Hg j q Ej) Hq) as Hj.
  split; [congruence|]. split; [unfold wlock; by rewrite Hi|]. rewrite (g_odd _ Hg). split.
  - intros Hw. by exists i, p.
  - intros (k & r & Ek & Hw). assert (Hr' : holds r) by by destruct r.
    apply (g_own _ Hg k r Ek) in Hr'. congruence.
Qed.

(** C9: a reader returns a value that was there.  When a [vc_get] returns the words of a
    value in a slab or a mapping, by its lock-free path or under the lock, the words it
    returns, which it read one at a time, are the words of the entry at that moment: no torn
    or mixed value passes the check.  The 64-bit counter must not have gone around during the
    read.  For an inline value the locked path returns a pointer into the live entry, and no
    words. *)
Theorem snapshot_consistent c m ts i p m' snap :
  start c -> runs c (m, ts) -> ts !! i = Some p -> step i m p m' (Done snap) ->
  (forall n s b snap', p = RCheck n s b snap' -> ver m < b + 2 ^ 64) ->
  snap = words m'.
Proof.
  intros Hs Hr Ei Hst Hwrap. pose proof (runs_good _ _ Hr (start_good _ Hs)) as Hg.
  pose proof (g_knows _ Hg i p Ei) as Hk. cbn in Hk. inversion Hst; subst; try done.
  - by destruct n as [|[|n]].
  - specialize (Hwrap _ _ _ _ eq_refl). destruct Hk as (Hseq & _ & Hb & Hk). apply Hk.
    unfold seq_word, u64 in Hseq. pose proof (Z.mod_divide (ver m' - b) (2 ^ 64) ltac:(lia)) as Hd.
    rewrite Zminus_mod, Hseq, Z.sub_diag in Hd. destruct (proj1 Hd) as [k Hk']; [done|nia].
  - by destruct n as [|[|n]].
Qed.

(** C19: no operation gets stuck.  From every state that an interleaving reaches, every
    thread can still be brought to the end of its operation: the thread that has the lock
    frees it by itself, and then any waiting writer, spinning reader or retrying reader
    finishes by itself. *)
Theorem operation_can_finish c c' i p :
  start c -> runs c c' -> c'.2 !! i = Some p ->
  exists c'' p', runs c' c'' /\ c''.2 !! i = Some p' /\ finished p'.
Proof. intros Hs Hr. apply good_finishes. by apply (runs_good c), start_good. Qed.

(** ** A run: a writer changes two words while a reader reads them *)

Definition two_threads : config := (Shared None 0 [1; 2], [Idle; Idle]).

Lemma two_threads_start : start two_threads.
Proof. split; [done|]. split; [done|]. repeat constructor. Qed.

(** The writer has written the first word; the reader has read the first word before that. *)
Definition in_between : config :=
  (Shared (Some 0%nat) 1 [10; 2], [WWrite [(1%nat, 20)]; RRead 8 0 0 [1]]).

Lemma reach_in_between : runs two_threads in_between.
Proof.
  eapply runs_step; [apply (run_step _ _ 1 Idle); [done|apply st_get]|].
  eapply runs_step; [apply (run_step _ _ 1 (RBegin 8)); [done|by apply st_rbegin]|].
  eapply runs_step; [apply (run_step _ _ 1 (RFind 8 0 0)); [done|apply st_hit]|].
  eapply runs_step; [apply (run_step _ _ 1 (RRead 8 0 0 [])); [done|by apply (st_read 1 _ 8 0 0 [] 1)]|].
  eapply runs_step; [apply (run_step _ _ 0 Idle); [done|apply (st_set 0 _ [(0%nat, 10); (1%nat, 20)])]|].
  eapply runs_step; [apply (run_step _ _ 0 (WLock [(0%nat, 10); (1%nat, 20)])); [done|by apply st_wlock]|].
  eapply runs_step; [apply (run_step _ _ 0 (WBegin [(0%nat, 10); (1%nat, 20)])); [done|apply st_wbegin]|].
  eapply runs_step; [apply (run_step _ _ 0 (WWrite [(0%nat, 10); (1%nat, 20)])); [done|apply st_write]|].
  apply runs_refl.
Qed.

Lemma lock_exclusive_witness : wlock in_between.1 = 1 /\ Z.odd (ver in_between.1) = true.
Proof.
  destruct (lock_exclusive two_threads in_between 0 0 (WWrite [(1%nat, 20)]) (WWrite [(1%nat, 20)])
              two_threads_start reach_in_between eq_refl eq_refl I I) as (_ & Hw & Ho).
  split; [exact Hw|]. by apply Ho.
Defined.

(** A reader that runs without disturbance. *)
Definition before_check : config := (Shared None 0 [1; 2], [Idle; RCheck 8 0 0 [1; 2]]).

Lemma reach_before_check : runs two_threads before_check.
Proof.
  eapply runs_step; [apply (run_step _ _ 1 Idle); [done|apply st_get]|].
  eapply runs_step; [apply (run_step _ _ 1 (RBegin 8)); [done|by apply st_rbegin]|].
  eapply runs_step; [apply (run_step _ _ 1 (RFind 8 0 0)); [done|apply st_hit]|].
  eapply runs_step; [apply (run_step _ _ 1 (RRead 8 0 0 [])); [done|by apply (st_read 1 _ 8 0 0 [] 1)]|].
  eapply runs_step; [apply (run_step _ _ 1 (RRead 8 0 0 [1])); [done|by apply (st_read 1 _ 8 0 0 [1] 2)]|].
  eapply runs_step; [apply (run_step _ _ 1 (RRead 8 0 0 [1; 2])); [done|by apply st_full]|].
  apply runs_refl.
Qed.

Lemma snapshot_witness : [1; 2] = words before_check.1.
Proof.
  apply (snapshot_consistent two_threads before_check.1 before_check.2 1 (RCheck 8 0 0 [1; 2]) before_check.1 [1; 2]
           two_threads_start reach_before_check eq_refl).
  - by apply st_valid.
  - intros n s b snap [= _ _ <- _]. cbn. lia.
Defined.

Lemma operation_can_finish_witness :
  exists c p, runs in_between c /\ c.2 !! 1%nat = Some p /\ finished p.
Proof.
  exact (operation_can_finish two_threads in_between 1 (RRead 8 0 0 [1]) two_threads_start reach_in_between eq_refl).
Defined.
