(* ===== verification/Treiber.v ===== *)
(** * The free list of the slab allocator over several threads

    [slab_alloc] and [slab_free] of [src/src/voidcache.c] pop and push blocks with a
    compare-and-swap on the head of the list.  A step of a thread is one access to shared
    memory.  While at most one thread is inside [slab_alloc] no block is given out twice;
    two threads inside it suffice for a block to be given out twice. *)

From S2P Require Import Prelude.

(** ** State *)

(** The head (0 is NULL) and the first word of every block. *)
Record stack := Stack { head : Z; next : gmap Z Z }.
Definition next_of (m : stack) (p : Z) : Z := default 0 (next m !! p).

Inductive pc : Type :=
| Ready
| PLoad                          (* [slab_alloc]: before loading the head *)
| PNext (h : Z)                  (* before loading [head->next] *)
| PCas (h n : Z)
| FLoad (p : Z)                  (* [slab_free]: before loading the head *)
| FStore (p h : Z)               (* before storing [node->next] *)
| FCas (p h : Z).

(** A thread and the blocks it has been given. *)
Record thread := Thread { t_pc : pc; t_own : list Z }.

Inductive step : stack -> thread -> stack -> thread -> Prop :=
| st_alloc m own : step m (Thread Ready own) m (Thread PLoad own)
| st_empty m own : head m = 0 -> step m (Thread PLoad own) m (Thread Ready own)
| st_load m own : head m <> 0 -> step m (Thread PLoad own) m (Thread (PNext (head m)) own)
| st_next m h own : step m (Thread (PNext h) own) m (Thread (PCas h (next_of m h)) own)
| st_pop m h n own : head m = h -> step m (Thread (PCas h n) own) (Stack n (next m)) (Thread Ready (h :: own))
(* the weak compare-and-swap may also fail when the head is unchanged *)
| st_pop_fail m h n own : step m (Thread (PCas h n) own) m (Thread PLoad own)
| st_write m p v own : p ∈ own -> step m (Thread Ready own) (Stack (head m) (<[p := v]> (next m))) (Thread Ready own)
| st_free m p own own' : own ≡ₚ p :: own' -> step m (Thread Ready own) m (Thread (FLoad p) own')
| st_fload m p own : step m (Thread (FLoad p) own) m (Thread (FStore p (head m)) own)
| st_fstore m p h own : step m (Thread (FStore p h) own) (Stack (head m) (<[p := h]> (next m))) (Thread (FCas p h) own)
| st_push m p h own : head m = h -> step m (Thread (FCas p h) own) (Stack p (next m)) (Thread Ready own)
| st_push_fail m p h own : step m (Thread (FCas p h) own) m (Thread (FLoad p) own).

Definition config : Type := stack * list thread.

Inductive run1 : config -> config -> Prop :=
| run_step m ts i t m' t' : ts !! i = Some t -> step m t m' t' -> run1 (m, ts) (m', <[i := t']> ts).

(** In the middle of a pop. *)
Definition popping (t : thread) : Prop := match t_pc t with PNext _ | PCas _ _ => True | _ => False end.

Definition serial (ts : list thread) : Prop :=
  forall i j t u, ts !! i = Some t -> ts !! j = Some u -> popping t -> popping u -> i = j.

(** All interleavings, and those with one thread at a time inside [slab_alloc]. *)
Inductive runs : config -> config -> Prop :=
| runs_refl c : runs c c
| runs_step c1 c2 c3 : run1 c1 c2 -> runs c2 c3 -> runs c1 c3.

Inductive serial_runs : config -> config -> Prop :=
| sruns_refl c : serial_runs c c
| sruns_step c1 c2 c3 : run1 c1 c2 -> serial c2.2 -> serial_runs c2 c3 -> serial_runs c1 c3.

(** ** The invariant *)

(** The list in memory. *)
Fixpoint chain (m : gmap Z Z) (h : Z) (l : list Z) : Prop :=
  match l with
  | [] => h = 0
  | x :: l => h = x /\ x <> 0 /\ chain m (default 0 (m !! x)) l
  end.

(** The blocks a thread has, the one it is giving back included. *)
Definition held (t : thread) : list Z :=
  match t_pc t with FLoad p | FStore p _ | FCas p _ => p :: t_own t | _ => t_own t end.

(** What a thread knows: the block it is popping is in the list. *)
Definition knows (m : stack) (l : list Z) (t : thread) : Prop :=
  match t_pc t with
  | PNext h => h ∈ l
  | PCas h n => h ∈ l /\ next_of m h = n
  | FCas p h => next_of m p = h
  | _ => True
  end.

Definition blocks (ts : list thread) : list Z := ts ≫= held.

(** The list [l] and the blocks of the threads make up the blocks [l0]. *)
Record good (l0 : list Z) (c : config) (l : list Z) : Prop := {
  g_chain : chain (next c.1) (head c.1) l;
  g_nodup : NoDup l0;
  g_all : l ++ blocks c.2 ≡ₚ l0;
  g_zero : 0 ∉ blocks c.2;
  g_knows : forall i t, c.2 !! i = Some t -> knows c.1 l t;
}.

Lemma blocks_insert ts i t : ts !! i = Some t ->
  exists rest, blocks ts ≡ₚ held t ++ rest /\ (forall t', blocks (<[i := t']> ts) ≡ₚ held t' ++ rest) /\
    forall j u, j <> i -> ts !! j = Some u -> forall x, x ∈ held u -> x ∈ rest.
Proof.
  intros E. exists (blocks (take i ts ++ drop (S i) ts)).
  assert (Hs : ts = take i ts ++ t :: drop (S i) ts) by (symmetry; by apply take_drop_middle).
  assert (Hp : forall t', blocks (take i ts ++ t' :: drop (S i) ts) ≡ₚ held t' ++ blocks (take i ts ++ drop (S i) ts)).
  { intros t'. unfold blocks. rewrite !bind_app, bind_cons. rewrite !app_assoc. by rewrite (Permutation_app_comm (held t')). }
  split; [by rewrite Hs at 1|]. split.
  - intros t'. rewrite insert_take_drop by (by apply lookup_lt_Some in E). apply Hp.
  - intros j u Hne Ej x Hx. unfold blocks. apply list_elem_of_bind. exists u. split; [done|].
    apply elem_of_app. destruct (decide (j < i)%nat).
    + left. apply (list_elem_of_lookup_2 _ j). by rewrite lookup_take_lt.
    + right. apply (list_elem_of_lookup_2 _ (j - S i)). rewrite lookup_drop. rewrite <- Ej. f_equal. lia.
Qed.

(** Writing outside the list does not change it. *)
Lemma chain_write m h l p v : p ∉ l -> chain m h l -> chain (<[p := v]> m) h l.
Proof.
  revert h. induction l as [|x l IH]; intros h Hp; [done|]. cbn [chain]. intros (-> & Hx & Hc).
  split; [done|]. split; [done|]. rewrite lookup_insert_ne by set_solver. apply IH; [set_solver|done].
Qed.

(** The new configuration, thread by thread. *)
Lemma good_insert l0 (ts : list thread) i m' t' l' rest :
  NoDup l0 -> (forall t'', blocks (<[i := t'']> ts) ≡ₚ held t'' ++ rest) ->
  chain (next m') (head m') l' -> l' ++ held t' ++ rest ≡ₚ l0 -> 0 ∉ held t' ++ rest -> knows m' l' t' ->
  (forall j u, j <> i -> ts !! j = Some u -> knows m' l' u) ->
  good l0 (m', <[i := t']> ts) l'.
Proof.
  intros Hn Hb Hc Ha H0 Hk Ho. split; cbn.
  - done.
  - done.
  - by rewrite Hb.
  - by rewrite Hb.
  - intros j u Ej. apply list_insert_cases in Ej as [[-> ->]|[Hne Ej]]; [done|by apply (Ho j)].
Qed.

(** A write to a block of thread [i] leaves what the others know. *)
Lemma knows_write (ts : list thread) i t rest l m j u p v :
  (forall j u, j <> i -> ts !! j = Some u -> forall x, x ∈ held u -> x ∈ rest) ->
  NoDup (l ++ held t ++ rest) -> p ∈ held t -> j <> i -> ts !! j = Some u ->
  knows m l u -> knows (Stack (head m) (<[p := v]> (next m))) l u.
Proof.
  intros Hr Hn Hp Hne Ej. apply NoDup_app in Hn as (_ & Hd & Hn). apply NoDup_app in Hn as (_ & Hd2 & _).
  specialize (Hr j u Hne Ej). unfold knows, next_of, held in *. cbn [next].
  destruct (t_pc u) as [| | |h n| | |p' h]; try done.
  - intros [Hh Hk]. split; [done|]. rewrite lookup_insert_ne; [done|].
    intros ->. apply (Hd _ Hh). set_solver.
  - intros Hk. rewrite lookup_insert_ne; [done|]. intros ->. apply (Hd2 p' Hp). apply Hr. set_solver.
Qed.

Lemma step_good l0 m ts l i t m' t' :
  good l0 (m, ts) l -> serial ts -> ts !! i = Some t -> step m t m' t' -> exists l', good l0 (m', <[i := t']> ts) l'.
Proof.
  intros [Hc Hn0 Ha H0 Hk] Hs Ei Hst. cbn in *. destruct (blocks_insert ts i t Ei) as (rest & Hb & Hb' & Hr).
  rewrite Hb in Ha, H0. pose proof (Hk i t Ei) as Hki.
  assert (Hn : NoDup (l ++ held t ++ rest)) by (by rewrite Ha).
  assert (Hsame : forall t'', held t'' ≡ₚ held t -> knows m l t'' -> good l0 (m, <[i := t'']> ts) l).
  { intros t'' Hh Hkn. apply (good_insert l0 ts i m t'' l rest); [done|done|done|by rewrite Hh|by rewrite Hh|done|].
    intros j u _ Ej. by apply (Hk j). }
  assert (Hpl : forall p, p ∈ held t -> p ∉ l).
  { intros p Hp Hl. apply NoDup_app in Hn as (_ & Hd & _). apply (Hd p Hl). set_solver. }
  destruct Hst as [m own|m own He|m own He|m h own|m h n own He|m h n own|m p v own Hp|m p own own' Hp|m p own|m p h own|m p h own He|m p h own].
  - exists l. by apply Hsame.
  - exists l. by apply Hsame.
  - exists l. apply Hsame; [done|]. cbn. destruct l as [|x l]; cbn in Hc; [done|]. destruct Hc as (-> & _). set_solver.
  - exists l. apply Hsame; [done|]. by split.
  - destruct Hki as [Hh Hnx]. cbn in Hh, Hnx. destruct l as [|x l]; [set_solver|]. destruct Hc as (Hx & Hx0 & Hc).
    assert (h = x) as -> by congruence. exists l. apply (good_insert l0 ts i _ _ l rest); [done|done| | | |done|].
    + cbn. unfold next_of in Hnx. by rewrite <- Hnx.
    + cbn [held t_pc t_own] in *. rewrite <- Ha. cbn. by rewrite <- Permutation_middle.
    + cbn [held t_pc t_own] in *. set_solver.
    + intros j u Hne Ej. specialize (Hk j u Ej). unfold knows, next_of in *. cbn [next].
      destruct (t_pc u) as [| |h'|h' n'| | |p' h'] eqn:Eu; try done;
        destruct Hne; apply (Hs j i u _ Ej Ei); unfold popping; cbn; by rewrite ?Eu.
  - exists l. by apply Hsame.
  - exists l. apply (good_insert l0 ts i _ _ l rest); [done|done| |done|done|done|].
    + cbn. apply chain_write; [by apply Hpl|done].
    + intros j u Hne Ej. by apply (knows_write ts i (Thread Ready own) rest l m j u); [..|apply (Hk j)].
  - exists l. apply Hsame; [|done]. cbn. by rewrite Hp.
  - exists l. by apply Hsame.
  - exists l. apply (good_insert l0 ts i _ _ l rest); [done|done| |done|done| |].
    + cbn. apply chain_write; [apply Hpl; cbn; set_solver|done].
    + cbn. unfold next_of. cbn. by rewrite lookup_insert_eq.
    + intros j u Hne Ej. apply (knows_write ts i (Thread (FStore p h) own) rest l m j u); [done|done|cbn; set_solver|done|done|].
      by apply (Hk j).
  - cbn in Hki. exists (p :: l). apply (good_insert l0 ts i _ _ (p :: l) rest); [done|done| | | |done|].
    + cbn. split; [done|]. cbn [held t_pc] in *. split; [set_solver|]. unfold next_of in Hki. rewrite Hki. by rewrite <- He.
    + cbn [held t_pc t_own] in *. rewrite <- Ha. cbn. by rewrite <- Permutation_middle.
    + cbn [held t_pc t_own] in *. set_solver.
    + intros j u Hne Ej. specialize (Hk j u Ej). unfold knows, next_of in *. cbn [next].
      destruct (t_pc u); set_solver.
  - exists l. by apply Hsame.
Qed.

(** ** Theorems *)

Lemma serial_good l0 c c' : serial_runs c c' -> serial c.2 -> forall l, good l0 c l -> exists l', good l0 c' l'.
Proof.
  induction 1 as [c|c1 c2 c3 H1 Hs _ IH]; intros Hser l Hg; [by exists l|].
  destruct H1 as [m ts i t m' t' Ei Hst]. destruct (step_good _ _ _ _ _ _ _ _ Hg Hser Ei Hst) as [l' Hg'].
  by apply (IH Hs l').
Qed.

(** A free list in memory and threads that have no block. *)
Definition fresh (c : config) (l : list Z) : Prop :=
  chain (next c.1) (head c.1) l /\ NoDup l /\ Forall (fun t => t = Thread Ready []) c.2.

Lemma fresh_good c l : fresh c l -> good l c l /\ serial c.2.
Proof.
  intros (Hc & Hn & Hf).
  assert (Hi : forall i t, c.2 !! i = Some t -> t = Thread Ready []) by (intros i t E; exact (Forall_lookup_1 _ _ _ _ Hf E)).
  assert (Hb : blocks c.2 = []).
  { unfold blocks. clear Hi. induction Hf as [|t ts -> _ IH]; [done|]. rewrite bind_cons, IH. done. }
  split.
  - split; [done|done|by rewrite Hb, app_nil_r|rewrite Hb; set_solver|]. intros i t E. by rewrite (Hi i t E).
  - intros i j t u Ei Ej Ht. rewrite (Hi i t Ei) in Ht. done.
Qed.

(** C17: no block is lost or given out twice while allocations do not overlap.  Over any
    number of threads that allocate, write to their blocks and free them, with at most one
    inside [slab_alloc] at any time and any number inside [slab_free], the list in memory
    and the blocks of the threads are always together the blocks of the arena, each once. *)
Theorem alloc_serial_safe c c' l :
  fresh c l -> serial_runs c c' ->
  exists l', chain (next c'.1) (head c'.1) l' /\ l' ++ blocks c'.2 ≡ₚ l /\ NoDup (l' ++ blocks c'.2).
Proof.
  intros Hf Hr. destruct (fresh_good c l Hf) as [Hg Hs].
  destruct (serial_good l c c' Hr Hs l Hg) as [l' [Hc Hn Ha _ _]].
  exists l'. split; [done|]. split; [done|]. by rewrite Ha.
Qed.

(** ** Two allocations at once *)

Definition three_blocks : config :=
  (Stack 64 {[64 := 128; 128 := 192; 192 := 0]}, [Thread Ready []; Thread Ready []]).

Lemma three_blocks_fresh : fresh three_blocks [64; 128; 192].
Proof.
  split; [by repeat split|]. split; [|by repeat constructor].
  by apply (bool_decide_unpack (NoDup [64; 128; 192])).
Qed.

(** One step of thread [i]. *)
Ltac thread_step i c := eapply runs_step; [eapply (run_step _ _ i); [reflexivity|c]|].

(** C36: two threads inside [slab_alloc] can get the same block.  The first loads the head
    and its successor; the second pops both blocks and frees the first of them; the
    compare-and-swap of the first thread then succeeds, since the head is again the block
    it saw, and makes the second thread's block the head of the free list; the next
    allocation returns it. *)
Theorem alloc_aba :
  fresh three_blocks [64; 128; 192] /\
  exists c t0 t1, runs three_blocks c /\ c.2 = [t0; t1] /\ 128 ∈ t_own t0 /\ 128 ∈ t_own t1.
Proof.
  split; [exact three_blocks_fresh|]. eexists _, (Thread Ready [128; 64]), (Thread Ready [128]). split; [|].
  - thread_step 0%nat ltac:(apply st_alloc). thread_step 0%nat ltac:(by apply st_load). thread_step 0%nat ltac:(apply st_next).
    thread_step 1%nat ltac:(apply st_alloc). thread_step 1%nat ltac:(by apply st_load). thread_step 1%nat ltac:(apply st_next).
    thread_step 1%nat ltac:(by apply st_pop).
    thread_step 1%nat ltac:(apply st_alloc). thread_step 1%nat ltac:(by apply st_load). thread_step 1%nat ltac:(apply st_next).
    thread_step 1%nat ltac:(by apply st_pop).
    thread_step 1%nat ltac:(apply (st_free _ 64 _ [128]); apply perm_swap).
    thread_step 1%nat ltac:(apply st_fload). thread_step 1%nat ltac:(apply st_fstore). thread_step 1%nat ltac:(by apply st_push).
    thread_step 0%nat ltac:(by apply st_pop).
    thread_step 0%nat ltac:(apply st_alloc). thread_step 0%nat ltac:(by apply st_load). thread_step 0%nat ltac:(apply st_next).
    thread_step 0%nat ltac:(by apply st_pop). apply runs_refl.
  - split; [reflexivity|]. cbn. set_solver.
Qed.

(** A serial run: one allocation. *)
Lemma alloc_serial_witness :
  exists c' l', serial_runs three_blocks c' /\ blocks c'.2 = [64] /\
    chain (next c'.1) (head c'.1) l' /\ l' ++ blocks c'.2 ≡ₚ [64; 128; 192].
Proof.
  set (c' := (Stack 128 {[64 := 128; 128 := 192; 192 := 0]}, [Thread Ready [64]; Thread Ready []]) : config).
  assert (Hser : forall t, serial [t; Thread Ready []]).
  { intros t i j a b Ei Ej Ha Hb. destruct i as [|[|i]], j as [|[|j]]; simplify_eq/=; done. }
  assert (Hr : serial_runs three_blocks c').
  { eapply sruns_step; [eapply (run_step _ _ 0); [reflexivity|apply st_alloc]|apply Hser|].
    eapply sruns_step; [eapply (run_step _ _ 0); [reflexivity|by apply st_load]|apply Hser|].
    eapply sruns_step; [eapply (run_step _ _ 0); [reflexivity|apply st_next]|apply Hser|].
    eapply sruns_step; [eapply (run_step _ _ 0); [reflexivity|by apply st_pop]|apply Hser|]. apply sruns_refl. }
  destruct (alloc_serial_safe three_blocks c' [64; 128; 192] three_blocks_fresh Hr) as (l' & Hc & Ha & _).
  exists c', l'. split; [exact Hr|]. split; [reflexivity|]. split; [exact Hc | exact Ha].
Defined.
