(* ===== verification/Pool.v ===== *)
(** * The pool of connections under several workers

    [conn_alloc], [conn_close], the handling of an event and the idle sweep of
    [src/net/server.c] as steps of interleaved workers: the workers share the slots of the
    pool and the lock [conns_lock], which only [conn_alloc] takes.  A step is one access to
    shared memory or one call of the allocator; a buffer is one block.  What is done with the
    bytes is in [Server.v] and [Worker.v]; here is who may touch them. *)

From S2P Require Import Prelude.

(** ** State *)

(** A slot: whether its [state] is [VC_CONN_FREE], and its two buffers. *)
Record cslot := CSlot { cs_free : bool; cs_rbuf : option nat; cs_wbuf : option nat }.

(** The holder of [conns_lock], the slots, the live blocks with the next fresh one, and for a
    slot whose descriptor is in the epoll set of a worker, that worker. *)
Record pool := Pool {
  p_lock : option nat;
  p_slots : list cslot;
  p_live : gset nat;
  p_next : nat;
  p_epoll : gmap nat nat
}.

(** Where a worker is. *)
Inductive wpc : Type :=
| PIdle                         (* in [epoll_wait] or between events *)
| PLock                         (* [conn_alloc]: before it has the lock *)
| PScan (i : nat)               (* before the test of the state of slot [i] *)
| PTake (i : nat)               (* before [c->state = VC_CONN_CONNECTED] *)
| PRbuf (i : nat)               (* before the first [vc_buf_new] *)
| PWbuf (i : nat)               (* before the second *)
| PUnlock (r : option nat)
| PRegister (i : nat)           (* before [EPOLL_CTL_ADD] *)
| PEvent (i : nat)              (* before the test of the state *)
| PServe (i : nat)              (* in [process_conn] or [conn_flush] *)
| PSweep (i : nat)              (* in the sweep, before the test of the state *)
| PTest (i : nat)               (* [conn_close]: before its test of the state *)
| PDel (i : nat)                (* before [EPOLL_CTL_DEL] and [close] *)
| PFreeR (i : nat)
| PNullR (i : nat)
| PFreeW (i : nat)
| PNullW (i : nat)
| PMark (i : nat)               (* before [conn->state = VC_CONN_FREE] *)
| PBad.                         (* memory that is not live was used or freed *)

#[export] Instance wpc_eq_dec : EqDecision wpc.
Proof. solve_decision. Defined.

Definition with_slot (i : nat) (f : cslot -> cslot) (p : pool) : pool :=
  Pool (p_lock p) (alter f i (p_slots p)) (p_live p) (p_next p) (p_epoll p).

Definition with_lock (l : option nat) (p : pool) : pool := Pool l (p_slots p) (p_live p) (p_next p) (p_epoll p).

(** [vc_buf_new]; without memory it returns NULL, which [conn_alloc] stores as it is. *)
Definition new_block (granted : bool) (p : pool) : option nat * pool :=
  if granted
  then (Some (p_next p), Pool (p_lock p) (p_slots p) ({[p_next p]} ∪ p_live p) (S (p_next p)) (p_epoll p))
  else (None, p).

(** [vc_buf_free]; [None]: a block that is not live. *)
Definition free_block (b : option nat) (p : pool) : option pool :=
  match b with
  | None => Some p
  | Some b => if decide (b ∈ p_live p) then Some (Pool (p_lock p) (p_slots p) (p_live p ∖ {[b]}) (p_next p) (p_epoll p)) else None
  end.

Definition buf_live (b : option nat) (p : pool) : bool := match b with Some b => bool_decide (b ∈ p_live p) | None => false end.

Definition set_free (v : bool) (s : cslot) : cslot := CSlot v (cs_rbuf s) (cs_wbuf s).
Definition set_rbuf (b : option nat) (s : cslot) : cslot := CSlot (cs_free s) b (cs_wbuf s).
Definition set_wbuf (b : option nat) (s : cslot) : cslot := CSlot (cs_free s) (cs_rbuf s) b.

(** The next access of worker [w] where it has no choice; [None]: it waits for the lock, or
    there is none.  [granted] is the answer of the allocator if it is asked. *)
Definition pool_next (granted : bool) (w : nat) (p : pool) (q : wpc) : option (pool * wpc) :=
  match q with
  | PLock => match p_lock p with None => Some (with_lock (Some w) p, PScan 0) | Some _ => None end
  | PScan i =>
      match p_slots p !! i with
      | None => Some (p, PUnlock None)
      | Some s => Some (p, if cs_free s then PTake i else PScan (S i))
      end
  | PTake i => Some (with_slot i (set_free false) p, PRbuf i)
  | PRbuf i => let '(b, p) := new_block granted p in Some (with_slot i (set_rbuf b) p, PWbuf i)
  | PWbuf i => let '(b, p) := new_block granted p in Some (with_slot i (set_wbuf b) p, PUnlock (Some i))
  | PUnlock r => Some (with_lock None p, match r with Some i => PRegister i | None => PIdle end)
  | PRegister i => Some (Pool (p_lock p) (p_slots p) (p_live p) (p_next p) (<[i := w]> (p_epoll p)), PIdle)
  | PEvent i => s ← p_slots p !! i; Some (p, if cs_free s then PIdle else PServe i)
  | PTest i => s ← p_slots p !! i; Some (p, if cs_free s then PIdle else PDel i)
  | PDel i => Some (Pool (p_lock p) (p_slots p) (p_live p) (p_next p) (delete i (p_epoll p)), PFreeR i)
  | PFreeR i => s ← p_slots p !! i; Some (match free_block (cs_rbuf s) p with Some p => (p, PNullR i) | None => (p, PBad) end)
  | PNullR i => Some (with_slot i (set_rbuf None) p, PFreeW i)
  | PFreeW i => s ← p_slots p !! i; Some (match free_block (cs_wbuf s) p with Some p => (p, PNullW i) | None => (p, PBad) end)
  | PNullW i => Some (with_slot i (set_wbuf None) p, PMark i)
  | PMark i => Some (with_slot i (set_free true) p, PIdle)
  | PIdle | PServe _ | PSweep _ | PBad => None
  end.

(** One access of worker [w].  The sweep goes over all slots; without [foreign] it never finds
    a connection of another worker idle for longer than [VC_CONN_TIMEOUT_S].  Without [scarce]
    every buffer is granted. *)
Inductive pool_step (foreign scarce : bool) (w : nat) : pool -> wpc -> pool -> wpc -> Prop :=
| ps_accept p : pool_step foreign scarce w p PIdle p PLock
| ps_event p i : p_epoll p !! i = Some w -> pool_step foreign scarce w p PIdle p (PEvent i)
| ps_use p i s : p_slots p !! i = Some s ->
    pool_step foreign scarce w p (PServe i) p (if buf_live (cs_rbuf s) p && buf_live (cs_wbuf s) p then PServe i else PBad)
| ps_served p i : pool_step foreign scarce w p (PServe i) p PIdle
| ps_close p i : pool_step foreign scarce w p (PServe i) p (PTest i)
| ps_sweep p i : (i < length (p_slots p))%nat -> pool_step foreign scarce w p PIdle p (PSweep i)
| ps_swept p i s : p_slots p !! i = Some s -> pool_step foreign scarce w p (PSweep i) p PIdle
| ps_expired p i s : p_slots p !! i = Some s -> cs_free s = false -> foreign = true \/ p_epoll p !! i = Some w -> pool_step foreign scarce w p (PSweep i) p (PTest i)
| ps_next granted p q p' q' : granted = true \/ scarce = true -> pool_next granted w p q = Some (p', q') -> pool_step foreign scarce w p q p' q'.

Definition pconfig : Type := pool * list wpc.

Inductive pool_run1 (foreign scarce : bool) : pconfig -> pconfig -> Prop :=
| pr_step p ws w q p' q' : ws !! w = Some q -> pool_step foreign scarce w p q p' q' -> pool_run1 foreign scarce (p, ws) (p', <[w := q']> ws).

(** [m] slots as [calloc] leaves them, and [n] workers. *)
Definition pool_start (m n : nat) : pconfig :=
  (Pool None (replicate m (CSlot true None None)) ∅ 0 ∅, replicate n PIdle).

Definition pool_reach (foreign scarce : bool) (m n : nat) (c : pconfig) : Prop := rtc (pool_run1 foreign scarce) (pool_start m n) c.

(** ** The invariant *)

(** What stage of its life a slot is in, with the worker whose slot it is and its buffers. *)
Inductive stage : Type :=
| FFree
| FTaken (w : nat)
| FHalf (w b : nat)
| FFull (w b c : nat)
| FGone (w b c : nat)           (* the first buffer is freed, the pointer still there *)
| FNulled (w c : nat)
| FLast (w c : nat)
| FEmpty (w : nat).

Definition slot_of (f : stage) : cslot :=
  match f with
  | FFree => CSlot true None None
  | FTaken _ | FEmpty _ => CSlot false None None
  | FHalf _ b => CSlot false (Some b) None
  | FFull _ b c | FGone _ b c => CSlot false (Some b) (Some c)
  | FNulled _ c | FLast _ c => CSlot false None (Some c)
  end.

Definition blocks_of (f : stage) : list nat :=
  match f with
  | FHalf _ b => [b] | FFull _ b c => [b; c] | FGone _ _ c | FNulled _ c => [c]
  | _ => []
  end.

Definition stage_owner (f : stage) : option nat :=
  match f with
  | FFree => None
  | FTaken w | FHalf w _ | FFull w _ _ | FGone w _ _ | FNulled w _ | FLast w _ | FEmpty w => Some w
  end.

(** The slot a worker is at. *)
Definition at_slot (q : wpc) : option nat :=
  match q with
  | PTake i | PRbuf i | PWbuf i | PUnlock (Some i) | PRegister i | PEvent i | PServe i | PTest i | PDel i
  | PFreeR i | PNullR i | PFreeW i | PNullW i | PMark i => Some i
  | _ => None
  end.

(** What worker [w] at [q] needs of the stage and the registration of that slot. *)
Definition stage_fits (w : nat) (q : wpc) (f : stage) (e : option nat) : Prop :=
  match q with
  | PTake _ => f = FFree
  | PRbuf _ => f = FTaken w
  | PWbuf _ => exists b, f = FHalf w b
  | PUnlock (Some _) | PRegister _ | PFreeR _ => (exists b c, f = FFull w b c) /\ e = None
  | PEvent _ | PServe _ | PTest _ | PDel _ => (exists b c, f = FFull w b c) /\ e = Some w
  | PNullR _ => exists b c, f = FGone w b c
  | PFreeW _ => exists c, f = FNulled w c
  | PNullW _ => exists c, f = FLast w c
  | PMark _ => f = FEmpty w
  | _ => True
  end.

Definition has_lock (q : wpc) : bool :=
  match q with PScan _ | PTake _ | PRbuf _ | PWbuf _ | PUnlock _ => true | _ => false end.

(** The live blocks are those of the slots, each once. *)
Definition blocks_good (p : pool) (ph : list stage) : Prop :=
  let l := concat (blocks_of <$> ph) in
  NoDup l /\ (forall b, b ∈ p_live p <-> b ∈ l) /\ (forall b, b ∈ l -> (b < p_next p)%nat).

Record pool_good (p : pool) (ws : list wpc) (ph : list stage) : Prop := {
  pg_slots : p_slots p = slot_of <$> ph;
  pg_blocks : blocks_good p ph;
  pg_legal : forall w q, ws !! w = Some q -> q <> PBad;
  pg_lock : forall w q, ws !! w = Some q -> has_lock q = true <-> p_lock p = Some w;
  pg_fits : forall w q i, ws !! w = Some q -> at_slot q = Some i -> exists f, ph !! i = Some f /\ stage_fits w q f (p_epoll p !! i);
  pg_epoll : forall i w, p_epoll p !! i = Some w -> exists b c, ph !! i = Some (FFull w b c);
  pg_owned : forall i f w, ph !! i = Some f -> stage_owner f = Some w ->
    p_epoll p !! i = Some w \/ exists q, ws !! w = Some q /\ at_slot q = Some i;
}.

Lemma pool_start_good m n : pool_good (pool_start m n).1 (pool_start m n).2 (replicate m FFree).
Proof.
  assert (Hq : forall w q, replicate n PIdle !! w = Some q -> q = PIdle) by (intros w q E; by apply lookup_replicate in E as [-> _]).
  split; cbn.
  - by rewrite fmap_replicate.
  - unfold blocks_good. rewrite fmap_replicate. cbn. replace (concat (replicate m [])) with (@nil nat); [|by induction m].
    split; [constructor|]. split; [set_solver|]. set_solver.
  - intros w q E. by rewrite (Hq _ _ E).
  - intros w q E. by rewrite (Hq _ _ E).
  - intros w q i E. by rewrite (Hq _ _ E).
  - done.
  - intros i f w E. by apply lookup_replicate in E as [-> _].
Qed.

Lemma ws_cases {A} (ws : list A) w q' v q : <[w := q']> ws !! v = Some q -> (v = w /\ q = q') \/ (v <> w /\ ws !! v = Some q).
Proof. intros [(-> & -> & _) | [? ?]]%list_lookup_insert_Some; [left | right]; done. Qed.

Lemma stage_fits_owner w q f e i : at_slot q = Some i -> stage_fits w q f e -> stage_owner f = Some w \/ f = FFree /\ has_lock q = true.
Proof. destruct q as [| | | | | |[]| | | | | | | | | | | |]; cbn; intros Hi Hf; try done; naive_solver. Qed.

(** A step that changes no slot. *)
Lemma pool_move p ws ph w q p' q' : pool_good p ws ph -> ws !! w = Some q ->
  p_slots p' = p_slots p -> p_live p' = p_live p -> p_next p' = p_next p -> p_epoll p' = p_epoll p -> q' <> PBad ->
  (p_lock p' = p_lock p /\ has_lock q' = has_lock q \/
   p_lock p = None /\ p_lock p' = Some w /\ has_lock q' = true \/
   p_lock p = Some w /\ p_lock p' = None /\ has_lock q' = false) ->
  (forall i, at_slot q' = Some i -> exists f, ph !! i = Some f /\ stage_fits w q' f (p_epoll p !! i)) ->
  (forall i, at_slot q = Some i -> at_slot q' = Some i \/ p_epoll p !! i = Some w \/ ph !! i = Some FFree) ->
  pool_good p' (<[w := q']> ws) ph.
Proof.
  intros [Hs Hb Hl Hk Hf He Ho] Hw Es Elive En Ee Hq Hlk Hfit Hrel. assert (Hlen := lookup_lt_Some _ _ _ Hw).
  split; rewrite ?Es, ?Ee; auto.
  - unfold blocks_good in *. by rewrite Elive, En.
  - intros v x [[-> ->]|[Hv Hx]]%ws_cases; eauto.
  - intros v x [[-> ->]|[Hv Hx]]%ws_cases.
    + destruct Hlk as [[-> ->]|[(_ & -> & ->)|(_ & -> & ->)]]; [eauto|done|done].
    + rewrite (Hk _ _ Hx). destruct Hlk as [[-> _]|[(-> & -> & _)|(-> & -> & _)]]; split; intros; congruence.
  - intros v x i [[-> ->]|[Hv Hx]]%ws_cases; eauto.
  - intros i f v Hi Hfo. destruct (Ho _ _ _ Hi Hfo) as [|(x & Hx & Hxi)]; [by left|]. destruct (decide (w = v)) as [<-|Hn].
    + rewrite Hw in Hx. injection Hx as <-. destruct (Hrel _ Hxi) as [Hq'|[|Hfree]]; [|by left|rewrite Hi in Hfree; by injection Hfree as ->].
      right. exists q'. by rewrite list_lookup_insert_eq.
    + right. exists x. by rewrite list_lookup_insert_ne.
Qed.

(** A step at a slot of the worker, or at a free slot under the lock. *)
Lemma pool_update p ws ph w q p' q' i f0 f : pool_good p ws ph -> ws !! w = Some q -> ph !! i = Some f0 ->
  stage_owner f0 = Some w \/ f0 = FFree /\ has_lock q = true ->
  p_slots p' = <[i := slot_of f]> (p_slots p) -> blocks_good p' (<[i := f]> ph) -> q' <> PBad ->
  p_lock p' = p_lock p -> has_lock q' = has_lock q ->
  (forall j, j <> i -> p_epoll p' !! j = p_epoll p !! j) -> at_slot q = Some i ->
  at_slot q' = Some i /\ stage_fits w q' f (p_epoll p' !! i) \/ at_slot q' = None /\ (stage_owner f = None \/ p_epoll p' !! i = Some w) ->
  stage_owner f = None \/ stage_owner f = Some w ->
  (forall v, p_epoll p' !! i = Some v -> exists b c, f = FFull v b c) ->
  pool_good p' (<[w := q']> ws) (<[i := f]> ph).
Proof.
  intros [Hs Hb Hl Hk Hf He Ho] Hw Hi Hown Es Hb' Hq Elk Ehl Eep Hat Hfit Hof Hreg.
  assert (Hlen := lookup_lt_Some _ _ _ Hw). assert (Hleni := lookup_lt_Some _ _ _ Hi).
  split; auto.
  - by rewrite Es, Hs, list_fmap_insert.
  - intros v x [[-> ->]|[Hv Hx]]%ws_cases; eauto.
  - intros v x [[-> ->]|[Hv Hx]]%ws_cases; rewrite Elk, ?Ehl; eauto.
  - intros v x j [[-> ->]|[Hv Hx]]%ws_cases Hj.
    + destruct Hfit as [[Hji Hff]|[Hn _]]; [|congruence]. rewrite Hji in Hj. injection Hj as <-. exists f. by rewrite list_lookup_insert_eq.
    + destruct (Hf _ _ _ Hx Hj) as (g & Hg & Hfg). destruct (decide (i = j)) as [<-|Hn].
      2:{ exists g. rewrite list_lookup_insert_ne, Eep by done. done. }
      exfalso. rewrite Hi in Hg. injection Hg as <-.
      pose proof (stage_fits_owner _ _ _ _ _ Hj Hfg) as Hx'.
      destruct Hown as [Hown|[-> Hlq]], Hx' as [Hx'|[? Hlx]]; try congruence; try done; [by subst|].
      apply (Hk _ _ Hw) in Hlq. apply (Hk _ _ Hx) in Hlx. congruence.
  - intros j v Hj. destruct (decide (i = j)) as [<-|Hn].
    + destruct (Hreg _ Hj) as (b & c & ->). exists b, c. by rewrite list_lookup_insert_eq.
    + rewrite Eep in Hj by done. destruct (He _ _ Hj) as (b & c & Hj'). exists b, c. by rewrite list_lookup_insert_ne.
  - intros j g v Hg Hgo. destruct (decide (i = j)) as [<-|Hn].
    + rewrite list_lookup_insert_eq in Hg by done. injection Hg as <-. assert (v = w) as -> by naive_solver.
      destruct Hfit as [[Hq' _]|[_ [?|?]]]; [|congruence|by left]. right. exists q'. by rewrite list_lookup_insert_eq.
    + rewrite list_lookup_insert_ne in Hg by done. rewrite Eep by done. destruct (Ho _ _ _ Hg Hgo) as [|(x & Hx & Hxj)]; [by left|right].
      destruct (decide (w = v)) as [<-|Hnw]; [exfalso; congruence|]. exists x. by rewrite list_lookup_insert_ne.
Qed.

(** *** Blocks *)

Lemma stage_blocks_insert ph i f0 f : ph !! i = Some f0 -> exists l,
  concat (blocks_of <$> ph) ≡ₚ blocks_of f0 ++ l /\ concat (blocks_of <$> <[i := f]> ph) ≡ₚ blocks_of f ++ l.
Proof.
  intros Hi. destruct (insert_perm ph i f0 f Hi) as (l & E1 & E2). exists (concat (blocks_of <$> l)).
  split; [rewrite E1 | rewrite E2]; done.
Qed.

Lemma blocks_same p p' ph i f0 f : ph !! i = Some f0 -> blocks_of f = blocks_of f0 -> p_live p' = p_live p -> p_next p' = p_next p ->
  blocks_good p ph -> blocks_good p' (<[i := f]> ph).
Proof.
  intros Hi Hf El En (Hn & Hl & Hx). destruct (stage_blocks_insert ph i f0 f Hi) as (l & E1 & E2). rewrite Hf, <- E1 in E2.
  unfold blocks_good. rewrite El, En. split; [by rewrite E2|]. split; intros b; rewrite E2; auto.
Qed.

Lemma blocks_new p p' ph i f0 f : ph !! i = Some f0 -> blocks_of f ≡ₚ p_next p :: blocks_of f0 ->
  p_live p' = {[p_next p]} ∪ p_live p -> p_next p' = S (p_next p) -> blocks_good p ph -> blocks_good p' (<[i := f]> ph).
Proof.
  intros Hi Hf El En (Hn & Hl & Hx). destruct (stage_blocks_insert ph i f0 f Hi) as (l & E1 & E2).
  rewrite Hf in E2. cbn in E2. rewrite <- E1 in E2. unfold blocks_good. rewrite El, En. split; [rewrite E2; constructor; [|done]|split].
  - intros Hin. apply Hx in Hin. lia.
  - intros b. by rewrite E2, elem_of_union, elem_of_singleton, Hl, elem_of_cons.
  - intros b. rewrite E2. intros [->|Hb]%elem_of_cons; [lia|]. apply Hx in Hb. lia.
Qed.

Lemma blocks_freed p p' ph i f0 f b : ph !! i = Some f0 -> blocks_of f0 ≡ₚ b :: blocks_of f ->
  p_live p' = p_live p ∖ {[b]} -> p_next p' = p_next p -> blocks_good p ph -> blocks_good p' (<[i := f]> ph).
Proof.
  intros Hi Hf El En (Hn & Hl & Hx). destruct (stage_blocks_insert ph i f0 f Hi) as (l & E1 & E2).
  rewrite Hf in E1. cbn in E1. rewrite <- E2 in E1. rewrite E1 in Hn. apply NoDup_cons in Hn as [Hb Hn].
  unfold blocks_good. rewrite El, En. split; [done|]. split.
  - intros x. rewrite elem_of_difference, elem_of_singleton, Hl, E1, elem_of_cons. split; [naive_solver|]. intros Hxx. split; [by right|]. intros ->. done.
  - intros x Hxx. apply Hx. rewrite E1. by right.
Qed.

Lemma full_live p ws ph i w b c : pool_good p ws ph -> ph !! i = Some (FFull w b c) -> b ∈ p_live p /\ c ∈ p_live p.
Proof.
  intros Hg Hi. destruct (pg_blocks _ _ _ Hg) as (_ & Hl & _). rewrite !Hl.
  split; apply list_elem_of_In, in_concat; exists [b; c]; (split; [apply list_elem_of_In, list_elem_of_fmap; exists (FFull w b c); split; [done|by eapply list_elem_of_lookup_2]|cbn; auto]).
Qed.

(** *** Preservation *)

Lemma alter_slot {A} (g : A -> A) (l : list A) i s : l !! i = Some s -> alter g i l = <[i := g s]> l.
Proof.
  revert i. induction l as [|x l IH]; intros [|i] E; cbn in *; [done|done|by injection E as ->|]. f_equal. exact (IH _ E).
Qed.

Lemma slot_content p ws ph i f : pool_good p ws ph -> ph !! i = Some f -> p_slots p !! i = Some (slot_of f).
Proof. intros Hg Hi. rewrite (pg_slots _ _ _ Hg), list_lookup_fmap, Hi. done. Qed.

(** A step at slot [i] whose stage becomes [f]. *)
Lemma next_update p ws ph w q i f0 : pool_good p ws ph -> ws !! w = Some q -> at_slot q = Some i -> ph !! i = Some f0 ->
  stage_fits w q f0 (p_epoll p !! i) -> forall p' q', pool_next true w p q = Some (p', q') -> exists ph', pool_good p' (<[w := q']> ws) ph'.
Proof.
  intros Hg Hw Hat Hi Hfit p' q' E. pose proof (slot_content _ _ _ _ _ Hg Hi) as Hs. pose proof (pg_blocks _ _ _ Hg) as Hb.
  pose proof (pg_epoll _ _ _ Hg i) as He.
  assert (Hno : (forall w b c, f0 <> FFull w b c) -> p_epoll p !! i = None).
  { intros Hn. destruct (p_epoll p !! i) as [v|] eqn:Ev; [|done]. destruct (He v eq_refl) as (b & c & Hx). rewrite Hi in Hx. injection Hx as ->. by destruct (Hn v b c). }
  destruct q as [| | |j|j|j|[j|]|j|j|j|j|j|j|j|j|j|j|j|]; try done; injection Hat as ->; cbn in Hfit, E.
  - (* PTake *) subst f0. injection E as <- <-. exists (<[i := FTaken w]> ph).
    eapply pool_update; try done; cbn; [by right|by rewrite (alter_slot _ _ _ _ Hs)|(refine (blocks_same p _ _ _ _ _ Hi _ _ _ Hb); reflexivity)|by left|by right|].
    rewrite Hno; done.
  - (* PRbuf *) subst f0. injection E as <- <-. exists (<[i := FHalf w (p_next p)]> ph).
    eapply pool_update; try done; cbn; [by left|by rewrite (alter_slot _ _ _ _ Hs)|(refine (blocks_new p _ _ _ _ _ Hi _ _ _ Hb); reflexivity)|left; eauto|by right|].
    rewrite Hno; done.
  - (* PWbuf *) destruct Hfit as [b ->]. injection E as <- <-. exists (<[i := FFull w b (p_next p)]> ph).
    eapply pool_update; try done; cbn; [by left|by rewrite (alter_slot _ _ _ _ Hs)| | |by right|].
    + refine (blocks_new p _ _ _ _ _ Hi _ _ _ Hb); [apply perm_swap|reflexivity|reflexivity].
    + left. split; [done|]. rewrite Hno; eauto.
    + rewrite Hno; done.
  - (* PUnlock *) destruct Hfit as [(b & c & ->) He0]. injection E as <- <-. exists ph.
    eapply pool_move; try done; cbn.
    + right. right. split; [|done]. by apply (pg_lock _ _ _ Hg _ _ Hw).
    + intros k [= <-]. exists (FFull w b c). eauto 7.
    + intros k [= <-]. by left.
  - (* PRegister *) destruct Hfit as [(b & c & ->) He0]. injection E as <- <-. exists (<[i := FFull w b c]> ph).
    eapply pool_update; try done; cbn; [by left|by rewrite list_insert_id|(refine (blocks_same p _ _ _ _ _ Hi _ _ _ Hb); reflexivity)| | |by right|].
    + intros k Hk. by rewrite lookup_insert_ne.
    + right. split; [done|]. right. by rewrite lookup_insert_eq.
    + intros v. rewrite lookup_insert_eq. intros [= <-]. eauto.
  - (* PEvent *) destruct Hfit as [(b & c & ->) He0]. rewrite Hs in E. injection E as <- <-. exists ph.
    eapply pool_move; try done; cbn; [by left| |]; intros k [= <-]; [exists (FFull w b c); eauto 7|by left].
  - (* PTest *) destruct Hfit as [(b & c & ->) He0]. rewrite Hs in E. injection E as <- <-. exists ph.
    eapply pool_move; try done; cbn; [by left| |]; intros k [= <-]; [exists (FFull w b c); eauto 7|by left].
  - (* PDel *) destruct Hfit as [(b & c & ->) He0]. injection E as <- <-. exists (<[i := FFull w b c]> ph).
    eapply pool_update; try done; cbn; [by left|by rewrite list_insert_id|(refine (blocks_same p _ _ _ _ _ Hi _ _ _ Hb); reflexivity)| | |by right|].
    + intros k Hk. by rewrite lookup_delete_ne.
    + left. rewrite lookup_delete_eq. eauto.
    + intros v. by rewrite lookup_delete_eq.
  - (* PFreeR *) destruct Hfit as [(b & c & ->) He0]. rewrite Hs in E. cbn in E.
    destruct (full_live _ _ _ _ _ _ _ Hg Hi) as [Hbl _]. rewrite decide_True in E by done. injection E as <- <-.
    exists (<[i := FGone w b c]> ph).
    eapply pool_update; try done; cbn; [by left|by rewrite list_insert_id|(refine (blocks_freed p _ _ _ _ _ b Hi _ _ _ Hb); reflexivity)|left; eauto|by right|by rewrite He0].
  - (* PNullR *) destruct Hfit as (b & c & ->). injection E as <- <-. exists (<[i := FNulled w c]> ph).
    eapply pool_update; try done; cbn; [by left|by rewrite (alter_slot _ _ _ _ Hs)|(refine (blocks_same p _ _ _ _ _ Hi _ _ _ Hb); reflexivity)|left; eauto|by right|by rewrite Hno].
  - (* PFreeW *) destruct Hfit as [c ->]. rewrite Hs in E. cbn in E.
    assert (Hcl : c ∈ p_live p).
    { destruct Hb as (_ & Hl & _). apply Hl. destruct (stage_blocks_insert ph i _ FFree Hi) as (l & -> & _). by left. }
    rewrite decide_True in E by done. injection E as <- <-. exists (<[i := FLast w c]> ph).
    eapply pool_update; try done; cbn; [by left|by rewrite list_insert_id|(refine (blocks_freed p _ _ _ _ _ c Hi _ _ _ Hb); reflexivity)|left; eauto|by right|by rewrite Hno].
  - (* PNullW *) destruct Hfit as [c ->]. injection E as <- <-. exists (<[i := FEmpty w]> ph).
    eapply pool_update; try done; cbn; [by left|by rewrite (alter_slot _ _ _ _ Hs)|(refine (blocks_same p _ _ _ _ _ Hi _ _ _ Hb); reflexivity)|by left|by right|by rewrite Hno].
  - (* PMark *) subst f0. injection E as <- <-. exists (<[i := FFree]> ph).
    eapply pool_update; try done; cbn; [by left|by rewrite (alter_slot _ _ _ _ Hs)|(refine (blocks_same p _ _ _ _ _ Hi _ _ _ Hb); reflexivity)|right; auto|by left|by rewrite Hno].
Qed.

Lemma pool_step_good p ws ph w q p' q' : pool_good p ws ph -> ws !! w = Some q -> pool_step false false w p q p' q' ->
  exists ph', pool_good p' (<[w := q']> ws) ph'.
Proof.
  intros Hg Hw Hs. pose proof (pg_fits _ _ _ Hg w q) as Hf.
  assert (Hfull : forall i, at_slot q = Some i -> (exists f, ph !! i = Some f /\ stage_fits w q f (p_epoll p !! i)) ) by (intros i Hi; exact (Hf i Hw Hi)).
  destruct Hs as [p|p i Hi|p i s Hi|p i|p i|p i Hlt|p i s Hi|p i s Hi Hfr Ho|granted p q p' q' Hgr E].
  - exists ph. eapply pool_move; try done; cbn. by left.
  - exists ph. destruct (pg_epoll _ _ _ Hg _ _ Hi) as (b & c & Hp). eapply pool_move; try done; cbn; [by left|].
    intros k [= <-]. exists (FFull w b c). eauto 7.
  - exists ph. destruct (Hfull i eq_refl) as (f & Hp & (b & c & ->) & He). pose proof (slot_content _ _ _ _ _ Hg Hp) as Hs.
    rewrite Hi in Hs. injection Hs as ->. destruct (full_live _ _ _ _ _ _ _ Hg Hp) as [Hb Hc]. cbn. rewrite !bool_decide_true by done. cbn.
    eapply pool_move; try done; cbn; [by left|..]; intros k [= <-]; first [by auto | exists (FFull w b c); by eauto 7].
  - exists ph. destruct (Hfull i eq_refl) as (f & Hp & (b & c & ->) & He).
    eapply pool_move; try done; cbn; [by left|]; intros k [= <-]; auto.
  - exists ph. destruct (Hfull i eq_refl) as (f & Hp & (b & c & ->) & He).
    eapply pool_move; try done; cbn; [by left|..]; intros k [= <-]; first [by auto | exists (FFull w b c); by eauto 7].
  - exists ph. eapply pool_move; try done; cbn. by left.
  - exists ph. eapply pool_move; try done; cbn. by left.
  - exists ph. destruct Ho as [?|Ho]; [done|]. destruct (pg_epoll _ _ _ Hg _ _ Ho) as (b & c & Hp). eapply pool_move; try done; cbn; [by left|].
    intros k [= <-]. exists (FFull w b c). eauto 7.
  - assert (granted = true) as -> by (by destruct Hgr). destruct (at_slot q) as [i|] eqn:Hat.
    { destruct (Hfull i eq_refl) as (f & Hp & Hfit). by eapply next_update. }
    exists ph. destruct q as [| |j|j|j|j|[j|]|j|j|j|j|j|j|j|j|j|j|j|]; try done; cbn in E.
    + destruct (p_lock p) eqn:El; [done|]. injection E as <- <-. eapply pool_move; try done; cbn. right. by left.
    + destruct (p_slots p !! j) as [s|] eqn:Es; injection E as <- <-.
      * rewrite (pg_slots _ _ _ Hg), list_lookup_fmap in Es. destruct (ph !! j) as [f|] eqn:Hp; [|done]. injection Es as <-.
        destruct (cs_free (slot_of f)) eqn:Ef; eapply pool_move; try done; cbn; try (by left).
        intros k [= <-]. exists f. split; [done|]. by destruct f.
      * eapply pool_move; try done; cbn. by left.
    + injection E as <- <-. eapply pool_move; try done; cbn. right. right. split; [|done]. by apply (pg_lock _ _ _ Hg _ _ Hw).
Qed.

Lemma pool_reach_good m n c : pool_reach false false m n c -> exists ph, pool_good c.1 c.2 ph.
Proof.
  intros H. unfold pool_reach in H. assert (Hs : exists ph, pool_good (pool_start m n).1 (pool_start m n).2 ph) by eauto using pool_start_good.
  revert Hs. induction H as [|c1 c2 c3 Hr _ IH]; [done|]. intros [ph Hg]. apply IH. destruct Hr. cbn in *. by eapply pool_step_good.
Qed.

(** C18: the pool under several workers.  As long as no sweep finds a connection of another
    worker expired and the buffers are granted, then however accepts, events, sweeps and
    closes interleave, no worker uses or frees a buffer that is not live, and no two workers
    are at the same slot; whenever all workers are between events, the slots in use are
    those registered with a worker, each has its two buffers, and there are no other live
    blocks. *)
Theorem pool_exclusive m n p ws :
  pool_reach false false m n (p, ws) ->
  (PBad ∉ ws) /\
  (forall v w q r i, ws !! v = Some q -> ws !! w = Some r -> at_slot q = Some i -> at_slot r = Some i -> v = w) /\
  (Forall (eq PIdle) ws ->
    (forall i s, p_slots p !! i = Some s ->
      if cs_free s then p_epoll p !! i = None
      else is_Some (p_epoll p !! i) /\ buf_live (cs_rbuf s) p = true /\ buf_live (cs_wbuf s) p = true) /\
    forall b, b ∈ p_live p -> exists i s, p_slots p !! i = Some s /\ (cs_rbuf s = Some b \/ cs_wbuf s = Some b)).
Proof.
  intros Hr. destruct (pool_reach_good _ _ _ Hr) as [ph Hg]. cbn in Hg. split; [|split].
  - intros Hb. apply list_elem_of_lookup in Hb as [w Hw]. by apply (pg_legal _ _ _ Hg) in Hw.
  - intros v w q r i Hq Hr' Hqi Hri. destruct (pg_fits _ _ _ Hg _ _ _ Hq Hqi) as (f & Hf & Hfq). destruct (pg_fits _ _ _ Hg _ _ _ Hr' Hri) as (g & Hf' & Hfr).
    rewrite Hf in Hf'. injection Hf' as <-. apply (stage_fits_owner _ _ _ _ _ Hqi) in Hfq. apply (stage_fits_owner _ _ _ _ _ Hri) in Hfr.
    destruct Hfq as [Hfq|[-> Hlq]], Hfr as [Hfr|[? Hlr]]; try done; [congruence|by subst|].
    apply (pg_lock _ _ _ Hg _ _ Hq) in Hlq. apply (pg_lock _ _ _ Hg _ _ Hr') in Hlr. congruence.
  - intros Hidle. split.
    + intros i s Hs. rewrite (pg_slots _ _ _ Hg), list_lookup_fmap in Hs. destruct (ph !! i) as [f|] eqn:Hf; [|done]. injection Hs as <-.
      destruct (stage_owner f) as [w|] eqn:Ho.
      * destruct (pg_owned _ _ _ Hg _ _ _ Hf Ho) as [He|(q & Hq & Hqi)]; [|by rewrite <- (Forall_lookup_1 _ _ _ _ Hidle Hq) in Hqi].
        destruct (pg_epoll _ _ _ Hg _ _ He) as (b & c & Hf'). rewrite Hf in Hf'. injection Hf' as ->. cbn. rewrite He.
        destruct (full_live _ _ _ _ _ _ _ Hg Hf). rewrite !bool_decide_true by done. eauto.
      * destruct f; try done. cbn. destruct (p_epoll p !! i) as [w|] eqn:He; [|done]. destruct (pg_epoll _ _ _ Hg _ _ He) as (b & c & ?). congruence.
    + intros b Hb. destruct (pg_blocks _ _ _ Hg) as (_ & Hl & _). apply Hl, list_elem_of_In, in_concat in Hb as (l & Hl1 & Hl2).
      apply list_elem_of_In, list_elem_of_fmap in Hl1 as (f & -> & Hf). apply list_elem_of_lookup in Hf as [i Hi].
      exists i, (slot_of f). split; [exact (slot_content _ _ _ _ _ Hg Hi)|]. destruct f; cbn in *; naive_solver.
Qed.

(** ** Schedules *)

(** What a worker does where it has a choice. *)
Inductive choice := CAccept | CEvent (i : nat) | CSweep (i : nat) | CUse | CServed | CClose | CKeep | CExpire | CNext | CRefused.

Definition pool_do (foreign scarce : bool) (w : nat) (x : choice) (p : pool) (q : wpc) : option (pool * wpc) :=
  match x, q with
  | CAccept, PIdle => Some (p, PLock)
  | CEvent i, PIdle => if decide (p_epoll p !! i = Some w) then Some (p, PEvent i) else None
  | CSweep i, PIdle =>
      if decide (i < length (p_slots p))%nat then Some (p, PSweep i) else None
  | CUse, PServe i => s ← p_slots p !! i; Some (p, if buf_live (cs_rbuf s) p && buf_live (cs_wbuf s) p then PServe i else PBad)
  | CServed, PServe _ => Some (p, PIdle)
  | CClose, PServe i => Some (p, PTest i)
  | CKeep, PSweep i => _ ← p_slots p !! i; Some (p, PIdle)
  | CExpire, PSweep i =>
      s ← p_slots p !! i;
      if cs_free s then None
      else if decide (foreign = true \/ p_epoll p !! i = Some w) then Some (p, PTest i) else None
  | CNext, q => pool_next true w p q
  | CRefused, q => if scarce then pool_next false w p q else None
  | _, _ => None
  end.

Fixpoint pool_schedule (foreign scarce : bool) (l : list (nat * choice)) (c : pconfig) : option pconfig :=
  match l with
  | [] => Some c
  | (w, x) :: l => q ← c.2 !! w; '(p, q) ← pool_do foreign scarce w x c.1 q; pool_schedule foreign scarce l (p, <[w := q]> c.2)
  end.

Lemma pool_do_step foreign scarce w x p q p' q' :
  pool_do foreign scarce w x p q = Some (p', q') -> pool_step foreign scarce w p q p' q'.
Proof.
  destruct x as [|i|i| | | | | | |]; [destruct q; try done..| |]; cbn [pool_do].
  - intros [= <- <-]. constructor.
  - case_decide; [|done]. intros [= <- <-]. by constructor.
  - case_decide; [|done]. intros [= <- <-]. by constructor.
  - destruct (p_slots p !! _) as [s|] eqn:Hs; [|done]. intros [= <- <-]. by apply ps_use.
  - intros [= <- <-]. constructor.
  - intros [= <- <-]. constructor.
  - destruct (p_slots p !! _) as [s|] eqn:Hs; [|done]. intros [= <- <-]. by eapply ps_swept.
  - destruct (p_slots p !! _) as [s|] eqn:Hs; [|done]. cbn. destruct (cs_free s) eqn:Hf; [done|]. case_decide; [|done]. intros [= <- <-]. by eapply ps_expired.
  - intros E. apply (ps_next _ _ _ true); [by left | done].
  - destruct scarce eqn:Es; [|done]. intros E. apply (ps_next _ _ _ false); [by right | done].
Qed.

Lemma pool_schedule_runs foreign scarce l c c' : pool_schedule foreign scarce l c = Some c' -> rtc (pool_run1 foreign scarce) c c'.
Proof.
  revert c. induction l as [|[w x] l IH]; intros [p ws] H; cbn in H; [injection H as <-; constructor|].
  destruct (ws !! w) as [q|] eqn:Hw; [|done]. cbn in H. destruct (pool_do foreign scarce w x p q) as [[p' q']|] eqn:Hd; [|done]. cbn in H.
  eapply rtc_l; [|exact (IH _ H)]. eapply pr_step; [exact Hw|]. by eapply pool_do_step.
Qed.

(** Worker [w] accepts a connection into the first free slot, after [i] used ones. *)
Definition accept_run (w i : nat) : list (nat * choice) := (w, CAccept) :: replicate (i + 7) (w, CNext).

(** Two workers with a connection each, the first of them closing its own. *)
Lemma pool_exclusive_witness : exists p ws, pool_reach false false 2 2 (p, ws) /\ ws = [PNullR 0; PServe 1] /\ (PBad ∉ ws).
Proof.
  assert (H : exists c, pool_schedule false false (accept_run 0 0 ++ accept_run 1 1 ++
    [(0%nat, CEvent 0); (1%nat, CEvent 1); (0%nat, CNext); (1%nat, CNext); (0%nat, CClose); (1%nat, CUse); (0%nat, CNext); (0%nat, CNext); (0%nat, CNext)])
    (pool_start 2 2) = Some c /\ c.2 = [PNullR 0; PServe 1]) by (eexists; split; vm_compute; reflexivity).
  destruct H as ([p ws] & H & Hws). cbn in Hws. exists p, ws. apply pool_schedule_runs in H. split; [exact H|]. split; [exact Hws|].
  apply (pool_exclusive 2 2 p ws H).
Defined.

(** C37: the idle sweep of a worker closes connections of the others.  As the sweep is
    written, over all slots and without a lock, there is an interleaving of two workers in
    which one of them frees the read buffer of a connection that the other serves, which
    then uses it. *)
Theorem sweep_frees_foreign :
  exists p ws, pool_reach true false 1 2 (p, ws) /\ ws = [PBad; PNullR 0] /\ p_epoll p = ∅.
Proof.
  assert (H : exists c, pool_schedule true false (accept_run 0 0 ++
    [(0%nat, CEvent 0); (0%nat, CNext); (1%nat, CSweep 0); (1%nat, CExpire); (1%nat, CNext); (1%nat, CNext); (1%nat, CNext); (0%nat, CUse)])
    (pool_start 1 2) = Some c /\ c.2 = [PBad; PNullR 0] /\ p_epoll c.1 = ∅) by (eexists; split; [|split]; vm_compute; reflexivity).
  destruct H as ([p ws] & H & Hws & He). exists p, ws. apply pool_schedule_runs in H. auto.
Qed.

(** Without memory for the read buffer of a new connection, the first event on it makes the
    worker use NULL. *)
Lemma refused_buffer_used : exists p, pool_reach false true 1 1 (p, [PBad]).
Proof.
  assert (H : exists c, pool_schedule false true ([(0%nat, CAccept)] ++ replicate 3 (0%nat, CNext) ++ [(0%nat, CRefused)] ++
    replicate 3 (0%nat, CNext) ++ [(0%nat, CEvent 0); (0%nat, CNext); (0%nat, CUse)])
    (pool_start 1 1) = Some c /\ c.2 = [PBad]) by (eexists; split; vm_compute; reflexivity).
  destruct H as ([p ws] & H & Hws). cbn in Hws. subst ws. exists p. by apply pool_schedule_runs in H.
Qed.
