(* ===== verification/Resp.v ===== *)
(** * Replies on the wire

    The replies of the protocol as values, and their bytes: what a client that reads a
    stream of replies has to take apart.  [src/net/proto.c] writes these forms, but for sets
    and errors with a length, which the client also knows. *)

From S2P Require Import Prelude Proto ProtoSpec.

Inductive reply : Type :=
| RSimple (s : list Z)
| RError (s : list Z)
| RInt (n : Z)
| RBool (b : bool)
| RNull                              (* RESP3 *)
| RNil                               (* RESP2: a bulk string of length -1 *)
| RBulk (data : list Z)
| RArray (l : list reply)
| RMap (l : list (reply * reply))
| RSet (l : list reply)
| RDouble (s : list Z)
| RBlobError (data : list Z).

(** Induction through the nested lists. *)
Section ReplyInd.
Variable P : reply -> Prop.
Hypothesis HS : forall s, P (RSimple s).
Hypothesis HE : forall s, P (RError s).
Hypothesis HI : forall n, P (RInt n).
Hypothesis HB : forall b, P (RBool b).
Hypothesis HN : P RNull.
Hypothesis HN2 : P RNil.
Hypothesis HK : forall d, P (RBulk d).
Hypothesis HA : forall l, Forall P l -> P (RArray l).
Hypothesis HM : forall l, Forall (fun p => P p.1 /\ P p.2) l -> P (RMap l).
Hypothesis HSet : forall l, Forall P l -> P (RSet l).
Hypothesis HD : forall s, P (RDouble s).
Hypothesis HBE : forall d, P (RBlobError d).

Fixpoint reply_nested_ind (r : reply) : P r :=
  match r with
  | RSimple s => HS s | RError s => HE s | RInt n => HI n | RBool b => HB b
  | RNull => HN | RNil => HN2 | RBulk d => HK d
  | RArray l => HA l ((fix go l : Forall P l :=
      match l with [] => List.Forall_nil _ | x :: l => Forall_cons_2 _ _ _ (reply_nested_ind x) (go l) end) l)
  | RMap l => HM l ((fix go l : Forall (fun p => P p.1 /\ P p.2) l :=
      match l with
      | [] => List.Forall_nil _
      | (a, b) :: l => Forall_cons_2 _ (a, b) _ (conj (reply_nested_ind a) (reply_nested_ind b)) (go l)
      end) l)
  | RSet l => HSet l ((fix go l : Forall P l :=
      match l with [] => List.Forall_nil _ | x :: l => Forall_cons_2 _ _ _ (reply_nested_ind x) (go l) end) l)
  | RDouble s => HD s
  | RBlobError d => HBE d
  end.
End ReplyInd.

Definition header (c : Z) (n : Z) : list Z := c :: dec n ++ CRLF.

Fixpoint enc_reply (r : reply) : list Z :=
  match r with
  | RSimple s => 43 :: s ++ CRLF
  | RError s => 45 :: s ++ CRLF
  | RInt n => header 58 n
  | RBool b => [35; if b then 116 else 102] ++ CRLF
  | RNull => 95 :: CRLF
  | RNil => header 36 (-1)
  | RBulk d => enc_bulk d
  | RArray l => header 42 (Z.of_nat (length l)) ++ concat (enc_reply <$> l)
  | RMap l => header 37 (Z.of_nat (length l)) ++ concat ((fun p => enc_reply p.1 ++ enc_reply p.2) <$> l)
  | RSet l => header 126 (Z.of_nat (length l)) ++ concat (enc_reply <$> l)
  | RDouble s => 44 :: s ++ CRLF
  | RBlobError d => header 33 (Z.of_nat (length d)) ++ d ++ CRLF
  end.

(** A line of text that a reader with room for [n] bytes of it can take: no line end and
    no NUL in it. *)
Definition text_ok (n : nat) (s : list Z) : Prop := CR ∉ s /\ 0 ∉ s /\ (length s <= n)%nat.

(** The texts are short enough and the lengths are numbers the readers parse. *)
Fixpoint reply_ok (n : nat) (r : reply) : Prop :=
  match r with
  | RSimple s | RError s | RDouble s => text_ok n s
  | RInt v => - 2 ^ 63 <= v < 2 ^ 63
  | RBulk d | RBlobError d => Z.of_nat (length d) < 2 ^ 31 - 2
  | RArray l | RSet l => Z.of_nat (length l) < 2 ^ 31 /\ foldr (fun r Q => reply_ok n r /\ Q) True l
  | RMap l => Z.of_nat (length l) < 2 ^ 31 /\ foldr (fun p Q => (reply_ok n p.1 /\ reply_ok n p.2) /\ Q) True l
  | _ => True
  end.

Lemma foldr_and {A} (P : A -> Prop) l : foldr (fun x Q => P x /\ Q) True l <-> Forall P l.
Proof. induction l as [|x l IH]; simpl; [by rewrite Forall_nil|]. by rewrite Forall_cons, IH. Qed.

Lemma dec_text n : - 2 ^ 63 <= n < 2 ^ 63 -> text_ok 21 (dec n).
Proof.
  intros Hn. split; [by apply dec_no_cr|]. split; [|apply length_dec; done].
  intros H0. destruct (dec_spec n Hn) as (ds & E & _ & Hall & _). rewrite E in H0.
  apply elem_of_app in H0 as [H0|H0].
  - destruct (n <? 0); [|by apply elem_of_nil in H0]. apply list_elem_of_singleton in H0. done.
  - rewrite Forall_forall in Hall. apply Hall in H0. done.
Qed.

Lemma text_ok_mono n m s : text_ok n s -> (n <= m)%nat -> text_ok m s.
Proof. intros (? & ? & ?) ?. repeat split; try done. lia. Qed.

Lemma text_ok_cons n c s : text_ok n s -> c <> CR -> CR ∉ c :: s.
Proof. intros (? & _) ?. set_solver. Qed.

Lemma enc_bulk_header d : enc_bulk d = header 36 (Z.of_nat (length d)) ++ d ++ CRLF.
Proof. unfold enc_bulk, header. change (bs "$") with [36]. cbn [app]. by rewrite <- !app_assoc. Qed.

(** ** The first line of a reply *)

(** The elements of an array, a map or a set, the bytes of an error with a length. *)
Definition reply_left (r : reply) : list Z :=
  match r with
  | RArray l | RSet l => concat (enc_reply <$> l)
  | RMap l => concat ((fun p => enc_reply p.1 ++ enc_reply p.2) <$> l)
  | RBlobError d => d ++ CRLF
  | _ => []
  end.

(** The first line of a reply: its type and its text. *)
Definition reply_line (r : reply) : Z * list Z :=
  match r with
  | RSimple s => (43, s) | RError s => (45, s) | RInt n => (58, dec n)
  | RBool b => (35, [if b then 116 else 102]) | RNull => (95, []) | RNil => (36, dec (-1))
  | RBulk d => (36, dec (Z.of_nat (length d)))
  | RArray l => (42, dec (Z.of_nat (length l))) | RMap l => (37, dec (Z.of_nat (length l)))
  | RSet l => (126, dec (Z.of_nat (length l))) | RDouble s => (44, s)
  | RBlobError d => (33, dec (Z.of_nat (length d)))
  end.

(** What follows the first line. *)
Definition reply_tail (r : reply) : list Z :=
  match r with RBulk d => d ++ CRLF | _ => reply_left r end.

Lemma enc_reply_line r : enc_reply r = (reply_line r).1 :: (reply_line r).2 ++ CRLF ++ reply_tail r.
Proof.
  destruct r; cbn -[dec]; unfold enc_bulk, header; rewrite ?app_nil_r, <- ?app_assoc; try done.
Qed.

Lemma reply_line_ok n r : reply_ok n r -> (21 <= n)%nat -> text_ok n (reply_line r).2 /\ (reply_line r).1 <> CR /\ (reply_line r).1 <> 0.
Proof.
  intros Hr Hn. split; [|by destruct r]. destruct r; cbn [reply_line snd reply_ok] in *; try done;
    try (apply (text_ok_mono 21); [apply dec_text; lia | lia]).
  - split; [destruct b; set_solver|]. split; [destruct b; set_solver | simpl; lia].
  - split; [set_solver|]. split; [set_solver | simpl; lia].
Qed.
