(* ===== verification/Net.v ===== *)
(** * Sockets as the clients use them

    The clients of [src/net/cluster.c] and [src/cli/vcli.c] talk to the network through
    [send], [recv], [connect], [close], the TLS calls and a clock.  These are operations
    of a class over an arbitrary world; the code on top of them is written in a small
    state monad over that world, in which [None] is undefined behaviour.  A second class
    states what the theorems rely on: [send] takes at most what it is given, [recv]
    yields what the peer sent, in order. *)

From S2P Require Import Prelude Proto.

(** ** The monad *)

Definition io (W A : Type) : Type := W -> option (A * W).

#[export] Instance io_ret W : MRet (io W) := fun A a w => Some (a, w).
#[export] Instance io_bind W : MBind (io W) := fun A B f m w =>
  match m w with Some (a, w') => f a w' | None => None end.

(** Undefined behaviour. *)
Definition ub {W A} : io W A := fun _ => None.

(** A value that may be undefined. *)
Definition lift {W A} (o : option A) : io W A := fun w => option_map (fun a => (a, w)) o.

(** An operation of the environment. *)
Definition sys {W A} (f : W -> A * W) : io W A := fun w => Some (f w).

(** ** The operations *)

(** What [socket], [connect], [select] and [getsockopt] answer for one address. *)
Inductive attempt : Type :=
| SocketFailed
| ConnectNow (fd : Z)                       (* [connect] returned 0 *)
| ConnectFailed (fd : Z)                    (* an error other than [EINPROGRESS] *)
| ConnectLater (fd : Z) (ready : bool) (so_error : bool).

Class Net (W : Type) := {
  net_addrs : list Z -> Z -> W -> option (list attempt) * W;  (* [getaddrinfo], then each address *)
  net_close : Z -> W -> unit * W;
  net_ssl_connect : Z -> W -> bool * W;
  net_send : Z -> bool -> list Z -> Z -> W -> Z * W;          (* fd, TLS?, bytes, count *)
  net_recv : Z -> bool -> Z -> W -> list Z * W;               (* [] is a result <= 0 *)
  net_now : W -> Z * W;
}.

(** ** Buffers on the stack

    A [char buf[n]] is the list of its initialised bytes.  A string is read up to its
    NUL; without one among the initialised bytes the read is undefined. *)

Definition c_string (buf : list Z) : option (list Z) :=
  if decide (0 ∈ buf) then Some (cstr buf) else None.

(** ["%.*s"] with precision [n] stops after [n] bytes. *)
Definition c_string_n (n : nat) (buf : list Z) : option (list Z) :=
  if decide (0 ∈ buf \/ (n <= length buf)%nat) then Some (take n (cstr buf)) else None.

(** Overwriting the front of a buffer. *)
Definition overwrite (new old : list Z) : list Z := new ++ drop (length new) old.

(** [buf[i] = 0]; a gap before [i] stays uninitialised. *)
Definition put_nul (i : Z) (buf : list Z) : list Z :=
  if i <? Z.of_nat (length buf) then <[Z.to_nat i := 0]> buf
  else if i =? Z.of_nat (length buf) then buf ++ [0] else buf.

(** [atoll] and [atoi] on a string: glibc converts with [strtol] and truncates. *)
Definition atoll (s : list Z) : Z := (strtoll s).1.1.
Definition atoi (s : list Z) : Z := s32 (atoll s).

Section Sockets.
Context {W : Type} {N : Net W}.

(** The byte count is an [int] for the TLS calls. *)
Definition io_count (ssl : bool) (n : Z) : Z := if ssl then s32 n else n.

(** A [send] that claims to have taken more than it was given would wrap [len]. *)
Fixpoint sendall_loop (fuel : nat) (fd : Z) (ssl : bool) (buf : list Z) : io W bool :=
  match buf with
  | [] => mret true
  | _ :: _ =>
      match fuel with
      | O => ub
      | S fuel =>
          n ← sys (net_send fd ssl buf (io_count ssl (Z.of_nat (length buf))));
          if n <=? 0 then mret false
          else if Z.of_nat (length buf) <? n then ub
          else sendall_loop fuel fd ssl (drop (Z.to_nat n) buf)
      end
  end.

(** Every round sends at least one byte. *)
Definition sock_sendall (fd : Z) (ssl : bool) (buf : list Z) : io W bool :=
  sendall_loop (length buf) fd ssl buf.

Definition ends_crlf (l : list Z) : bool :=
  match reverse l with b :: a :: _ => (a =? CR) && (b =? LF) | _ => false end.

(** [n] is [maxlen - 1 - pos]. *)
Fixpoint readline_loop (n : nat) (fd : Z) (ssl : bool) (buf : list Z) : io W (bool * list Z) :=
  match n with
  | O => mret (false, buf)
  | S n =>
      r ← sys (net_recv fd ssl 1);
      match r with
      | [] => mret (false, buf)
      | c :: _ =>
          let buf := buf ++ [c] in
          if ends_crlf buf then mret (true, <[(length buf - 2)%nat := 0]> buf)
          else readline_loop n fd ssl buf
      end
  end.

(** Whether a line was read, and the buffer then; [old] is the buffer before. *)
Definition sock_readline (fd : Z) (ssl : bool) (old : list Z) (maxlen : nat) : io W (bool * list Z) :=
  '(ok, buf) ← readline_loop (maxlen - 1) fd ssl [];
  mret (ok, overwrite buf old).

Fixpoint readn_loop (fuel : nat) (fd : Z) (ssl : bool) (n : Z) (buf : list Z) : io W (bool * list Z) :=
  if n =? 0 then mret (true, buf)
  else match fuel with
       | O => ub
       | S fuel =>
           r ← sys (net_recv fd ssl (io_count ssl n));
           match r with
           | [] => mret (false, buf)
           | _ :: _ =>
               if n <? Z.of_nat (length r) then ub
               else readn_loop fuel fd ssl (n - Z.of_nat (length r)) (buf ++ r)
           end
       end.

(** Whether all [n] bytes came, and those that did.  Every round reads at least one. *)
Definition sock_readn (fd : Z) (ssl : bool) (n : Z) : io W (bool * list Z) :=
  readn_loop (Z.to_nat n) fd ssl n [].

(** [cfd] is the variable [fd] of the loop, -1 when no address has worked. *)
Fixpoint connect_loop (l : list attempt) (cfd : Z) : io W Z :=
  match l with
  | [] => mret cfd
  | SocketFailed :: l => connect_loop l (-1)
  | ConnectNow fd :: _ => mret fd
  | ConnectFailed fd :: l => _ ← sys (net_close fd); connect_loop l (-1)
  | ConnectLater fd ready so_error :: l =>
      if ready && negb so_error then mret fd
      else _ ← sys (net_close fd); connect_loop l (-1)
  end.

Definition tcp_connect (host : list Z) (port : Z) : io W Z :=
  o ← sys (net_addrs host port);
  match o with None => mret (-1) | Some l => connect_loop l (-1) end.

End Sockets.

(** ** Reasoning about runs

    [post m Q]: whenever [m] returns, its value satisfies [Q]. *)

Definition post {W A} (m : io W A) (Q : A -> Prop) : Prop :=
  forall w a w', m w = Some (a, w') -> Q a.

Section Post.
Context {W : Type}.

Lemma post_ret {A} (a : A) (Q : A -> Prop) : Q a -> post (W := W) (mret a) Q.
Proof. intros Ha w a' w' E. by injection E as <- _. Qed.

Lemma post_bind {A B} (m : io W A) (f : A -> io W B) (P : A -> Prop) (Q : B -> Prop) :
  post m P -> (forall a, P a -> post (f a) Q) -> post (m ≫= f) Q.
Proof.
  intros Hm Hf w b w' E. unfold mbind, io_bind in E.
  destruct (m w) as [[a w1]|] eqn:Em; [|done]. by apply (Hf a (Hm _ _ _ Em) w1 b w').
Qed.

Lemma post_any {A B} (m : io W A) (f : A -> io W B) (Q : B -> Prop) :
  (forall a, post (f a) Q) -> post (m ≫= f) Q.
Proof. intros Hf. apply (post_bind m f (fun _ => True)); [done|]. intros a _. apply Hf. Qed.

Lemma post_lift {A B} (o : option A) (f : A -> io W B) (Q : B -> Prop) :
  (forall a, o = Some a -> post (f a) Q) -> post (lift o ≫= f) Q.
Proof.
  intros Hf. apply (post_bind _ _ (fun a => o = Some a)).
  - intros w a w' E. unfold lift in E. destruct o; simplify_eq/=. done.
  - done.
Qed.

Lemma post_ub {A} (Q : A -> Prop) : post (W := W) ub Q.
Proof. intros w a w' E. done. Qed.

Lemma post_mono {A} (m : io W A) (P Q : A -> Prop) : post m P -> (forall a, P a -> Q a) -> post m Q.
Proof. intros Hm H w a w' E. by apply H, (Hm w a w'). Qed.

End Post.

#[export] Hint Resolve post_ret post_ub : vc.

(** ** What a run leaves alone

    [frames R m]: every run of [m] relates the worlds before and after by [R]. *)

Definition frames {W A} (R : W -> W -> Prop) (m : io W A) : Prop :=
  forall w a w', m w = Some (a, w') -> R w w'.

Section Frames.
Context {W : Type} {N : Net W} (R : W -> W -> Prop) {P : PreOrder R}.

Lemma frames_ret {A} (a : A) : frames R (mret a).
Proof. intros w a' w' [= _ <-]. reflexivity. Qed.

Lemma frames_ub {A} : frames R (@ub W A).
Proof. intros w a w' H. done. Qed.

Lemma frames_lift {A} (o : option A) : frames R (lift o).
Proof. intros w a w' H. destruct o; [|done]. injection H as _ <-. reflexivity. Qed.

Lemma frames_bind {A B} (m : io W A) (f : A -> io W B) :
  frames R m -> (forall a, frames R (f a)) -> frames R (m ≫= f).
Proof.
  intros Hm Hf w b w' H. unfold mbind, io_bind in H. destruct (m w) as [[a w1]|] eqn:Em; [|done].
  transitivity w1; [by apply (Hm _ _ _ Em) | by apply (Hf _ _ _ _ H)].
Qed.

(** Reading lines and bytes relates what a single [recv] relates. *)
Hypothesis Hrecv : forall fd ssl n w, R w (net_recv fd ssl n w).2.

Lemma frames_recv fd ssl n : frames R (sys (net_recv fd ssl n)).
Proof. intros w a w' [= H]. specialize (Hrecv fd ssl n w). by rewrite H in Hrecv. Qed.

Lemma frames_readline fd ssl old n : frames R (sock_readline fd ssl old n).
Proof.
  unfold sock_readline. apply frames_bind; [|intros [ok buf]; apply frames_ret].
  generalize (n - 1)%nat as m. intros m. generalize (@nil Z) as acc.
  induction m as [|m IH]; intros acc; [apply frames_ret|].
  cbn [readline_loop]. apply frames_bind; [apply frames_recv|]. intros [|x r]; [apply frames_ret|].
  destruct (ends_crlf _); [apply frames_ret|apply IH].
Qed.

Lemma frames_readn fd ssl n : frames R (sock_readn fd ssl n).
Proof.
  unfold sock_readn. generalize (Z.to_nat n) as fuel. intros fuel. generalize (@nil Z) as acc. revert n.
  induction fuel as [|fuel IH]; intros n acc; cbn [readn_loop];
    (destruct (n =? 0); [apply frames_ret|]); [apply frames_ub|].
  apply frames_bind; [apply frames_recv|]. intros [|x r]; [apply frames_ret|].
  destruct (_ <? _); [apply frames_ub|apply IH].
Qed.

End Frames.

(** Takes a run apart into its reads. *)
Ltac frames_tac :=
  repeat first [ assumption | apply frames_ret | apply frames_ub | apply frames_lift
    | apply frames_readline | apply frames_readn
    | apply frames_bind; [apply _| |intros ?]
    | apply _
    | match goal with
      | |- frames _ (if ?b then _ else _) => destruct b
      | |- frames _ (match ?x with (_, _) => _ end) => destruct x
      end ].

(** ** What the sockets promise *)

Class NetStream (W : Type) {N : Net W} := {
  (* the bytes the peer of a descriptor has sent and that have not been received *)
  net_in : W -> Z -> list Z;
  send_bound : forall fd ssl buf n w, (net_send fd ssl buf n w).1 <= Z.of_nat (length buf);
  recv_bound : forall fd ssl n w, Z.of_nat (length (net_recv fd ssl n w).1) <= Z.max 0 n;
  recv_order : forall fd ssl n w, 0 < n ->
    net_in w fd = (net_recv fd ssl n w).1 ++ net_in (net_recv fd ssl n w).2 fd;
  recv_some : forall fd ssl n w, 0 < n -> net_in w fd <> [] -> (net_recv fd ssl n w).1 <> [];
  recv_other : forall fd ssl n w fd', fd' <> fd -> net_in (net_recv fd ssl n w).2 fd' = net_in w fd';
}.

(** [s] has been received on [fd], and nothing on another descriptor. *)
Definition received_on {W} `{NetStream W} (fd : Z) (s : list Z) (w w' : W) : Prop :=
  net_in w fd = s ++ net_in w' fd /\ forall fd', fd' <> fd -> net_in w' fd' = net_in w fd'.

Section Laws.
Context {W : Type} {N : Net W} {NS : NetStream W}.
Implicit Types w : W.

Lemma received_nil fd w : received_on fd [] w w.
Proof. by split. Qed.

Lemma received_app fd s1 s2 w1 w2 w3 :
  received_on fd s1 w1 w2 -> received_on fd s2 w2 w3 -> received_on fd (s1 ++ s2) w1 w3.
Proof.
  intros [H1 O1] [H2 O2]. split; [by rewrite H1, H2, app_assoc|].
  intros fd' Hne. by rewrite O2, O1.
Qed.

Lemma recv_received fd ssl n w :
  0 < n -> received_on fd (net_recv fd ssl n w).1 w (net_recv fd ssl n w).2.
Proof. intros Hn. split; [by apply recv_order | intros; by apply recv_other]. Qed.

Lemma bind_some {A B} (m : io W A) (f : A -> io W B) w a w' :
  m w = Some (a, w') -> (m ≫= f) w = f a w'.
Proof. intros E. unfold mbind, io_bind. by rewrite E. Qed.

Lemma bind_lift {A B} (o : option A) (f : A -> io W B) w a : o = Some a -> (lift o ≫= f) w = f a w.
Proof. by intros ->. Qed.

(** Sending ends for every answer of the network. *)
Lemma sendall_total fd ssl buf w : exists b w', sock_sendall fd ssl buf w = Some (b, w').
Proof.
  unfold sock_sendall. generalize (le_n (length buf)).
  generalize (length buf) at 2 3 as fuel. intros fuel. revert buf w.
  induction fuel as [|fuel IH]; intros buf w Hf; destruct buf as [|c buf].
  1, 3: eexists _, _; reflexivity.
  { simpl in Hf. lia. }
  cbn [sendall_loop]. unfold mbind, io_bind, sys. set (l := c :: buf) in *.
  pose proof (send_bound fd ssl l (io_count ssl (Z.of_nat (length l))) w) as Hb.
  destruct (net_send _ _ _ _ _) as [n w']. cbn [fst] in Hb. destruct (Z.leb_spec n 0).
  { eexists _, _; reflexivity. }
  destruct (Z.ltb_spec (Z.of_nat (length l)) n); [lia|].
  apply IH. rewrite length_drop. unfold l in *. simpl in *. lia.
Qed.

(** A network that takes all the bytes at once. *)
Lemma sendall_once fd ssl buf w w' :
  buf <> [] -> net_send fd ssl buf (io_count ssl (Z.of_nat (length buf))) w = (Z.of_nat (length buf), w') ->
  sock_sendall fd ssl buf w = Some (true, w').
Proof.
  intros Hne Hs. unfold sock_sendall. destruct buf as [|c buf]; [done|]. set (l := c :: buf) in *.
  change (length l) with (S (length buf)) at 1. cbn [sendall_loop l]. fold l. unfold mbind, io_bind, sys. rewrite Hs.
  destruct (Z.leb_spec (Z.of_nat (length l)) 0); [cbn [length l] in *; lia|].
  destruct (Z.ltb_spec (Z.of_nat (length l)) (Z.of_nat (length l))); [lia|].
  rewrite Nat2Z.id, drop_all. by destruct buf.
Qed.

(** One byte of a stream that has one. *)
Lemma recv_one fd ssl w c rest :
  net_in w fd = c :: rest ->
  exists w', net_recv fd ssl 1 w = ([c], w') /\ received_on fd [c] w w'.
Proof.
  intros Hw. pose proof (recv_received fd ssl 1 w ltac:(lia)) as [Ho Hoth].
  pose proof (recv_bound fd ssl 1 w) as Hb.
  pose proof (recv_some fd ssl 1 w ltac:(lia)) as Hs.
  destruct (net_recv fd ssl 1 w) as [r w'] eqn:E. simpl in *.
  destruct r as [|c' [|? ?]].
  - by destruct Hs; rewrite ?Hw.
  - rewrite Hw in Ho. injection Ho as -> ->. exists w'. split; [done|]. by split.
  - simpl in Hb. lia.
Qed.

Lemma ends_crlf_snoc l c : ends_crlf (l ++ [c]) = true -> c = LF /\ last l = Some CR.
Proof.
  unfold ends_crlf. rewrite reverse_app, reverse_singleton. cbn [app].
  destruct (reverse l) as [|a r] eqn:E; [done|]. intros H. zreflect. split; [done|].
  rewrite <- (reverse_involutive l), E, reverse_cons, last_snoc. by f_equal.
Qed.

(** A line without CR before its end. *)
Lemma readline_loop_spec n fd ssl acc line rest w :
  net_in w fd = line ++ CRLF ++ rest -> CR ∉ line -> CR ∉ acc -> (length line + 2 <= n)%nat ->
  exists w', readline_loop n fd ssl acc w = Some ((true, acc ++ line ++ [0; LF]), w') /\
    received_on fd (line ++ CRLF) w w'.
Proof.
  revert acc line w. induction n as [|n IH]; intros acc line w Hw Hl Ha Hn; [lia|].
  cbn [readline_loop]. unfold mbind at 1, io_bind at 1, sys.
  assert (Hstep : forall c l', line ++ CRLF ++ rest = c :: l' -> ends_crlf (acc ++ [c]) = false).
  { intros c l' E. apply not_true_is_false. intros Hc. apply ends_crlf_snoc in Hc as [_ Hc].
    apply Ha. apply last_Some in Hc as [l'' ->]. set_solver. }
  destruct line as [|c line]; cbn [app CRLF] in Hw.
  - destruct (recv_one fd ssl w _ _ Hw) as (w1 & E1 & R1). rewrite E1.
    rewrite (Hstep CR _ eq_refl). assert (Hw1 : net_in w1 fd = LF :: rest).
    { destruct R1 as [R1 _]. rewrite Hw in R1. by injection R1. }
    destruct n as [|n]; [simpl in Hn; lia|]. cbn [readline_loop].
    unfold mbind, io_bind, sys. destruct (recv_one fd ssl w1 _ _ Hw1) as (w2 & E2 & R2).
    rewrite E2. unfold ends_crlf. rewrite !reverse_app, !reverse_singleton. cbn [app].
    rewrite !Z.eqb_refl. cbn [andb]. exists w2. split.
    + unfold mret, io_ret. do 3 f_equal. rewrite <- app_assoc. cbn [app].
      rewrite length_app. cbn [length]. replace (length acc + 2 - 2)%nat with (length acc + 0)%nat by lia.
      by rewrite insert_app_r.
    + by apply (received_app fd [CR] [LF] w w1 w2).
  - destruct (recv_one fd ssl w _ _ Hw) as (w1 & E1 & R1). rewrite E1.
    rewrite (Hstep c _ eq_refl). assert (Hw1 : net_in w1 fd = line ++ CRLF ++ rest).
    { destruct R1 as [R1 _]. rewrite Hw in R1. by injection R1. }
    destruct (IH (acc ++ [c]) line w1 Hw1) as (w' & E' & R'); [set_solver..|simpl in Hn; lia|].
    rewrite E'. exists w'. split; [by rewrite <- app_assoc|].
    by apply (received_app fd [c] (line ++ CRLF) w w1 w').
Qed.

Lemma readline_spec fd ssl old maxlen line rest w :
  net_in w fd = line ++ CRLF ++ rest -> CR ∉ line -> (length line + 3 <= maxlen)%nat ->
  exists w', sock_readline fd ssl old maxlen w = Some ((true, overwrite (line ++ [0; LF]) old), w') /\
    received_on fd (line ++ CRLF) w w' /\ net_in w' fd = rest.
Proof.
  intros Hw Hl Hm.
  destruct (readline_loop_spec (maxlen - 1) fd ssl [] line rest w) as (w' & E & R);
    [done|done|set_solver|lia|].
  exists w'. unfold sock_readline. rewrite (bind_some _ _ _ _ _ E). split; [done|]. split; [done|].
  destruct R as [R _]. rewrite Hw, app_assoc in R. by apply app_inv_head in R.
Qed.

Lemma cstr_nul (s rest : list Z) : 0 ∉ s -> cstr (s ++ 0 :: rest) = s.
Proof.
  intros H0. induction s as [|c s IH]; [done|]. cbn [cstr app].
  replace (c =? 0) with false by (symmetry; apply Z.eqb_neq; set_solver).
  f_equal. apply IH. set_solver.
Qed.

(** The string of a line that was read, and the string after its first byte. *)
Lemma line_string line old : 0 ∉ line -> c_string (overwrite (line ++ [0; LF]) old) = Some line.
Proof.
  intros H0. unfold c_string, overwrite. rewrite decide_True by set_solver.
  rewrite <- app_assoc. cbn [app]. by rewrite cstr_nul.
Qed.

Lemma line_rest c line old : 0 ∉ line -> c_string (drop 1 (overwrite ((c :: line) ++ [0; LF]) old)) = Some line.
Proof.
  intros H0. unfold c_string, overwrite. cbn [app drop]. rewrite drop_0, decide_True by set_solver.
  rewrite <- app_assoc. cbn [app]. by rewrite cstr_nul.
Qed.

(** The NUL that ends the payload of a bulk string goes over its CR. *)
Lemma put_nul_crlf (h : list Z) : put_nul (Z.of_nat (length h)) (h ++ CRLF) = h ++ [0; LF].
Proof.
  unfold put_nul. rewrite length_app. cbn [length CRLF].
  destruct (Z.ltb_spec (Z.of_nat (length h)) (Z.of_nat (length h + 2))); [|lia].
  rewrite Nat2Z.id. replace (length h) with (length h + 0)%nat at 1 by lia. by rewrite insert_app_r.
Qed.

Lemma readn_loop_spec fuel fd ssl n acc data rest w :
  net_in w fd = data ++ rest -> Z.of_nat (length data) = n -> (length data <= fuel)%nat ->
  (ssl = true -> n < 2 ^ 31) ->
  exists w', readn_loop fuel fd ssl n acc w = Some ((true, acc ++ data), w') /\
    received_on fd data w w'.
Proof.
  revert n acc data w. induction fuel as [|fuel IH]; intros n acc data w Hw Hn Hf Hs;
    cbn [readn_loop]; (destruct (Z.eqb_spec n 0) as [->|Hn0];
      [assert (data = []) as -> by (apply nil_length_inv; lia); rewrite app_nil_r;
       eexists; split; [reflexivity | apply received_nil]|]); [lia|].
  unfold mbind, io_bind, sys. assert (Hc : io_count ssl n = n).
  { unfold io_count. destruct ssl; [|done]. specialize (Hs eq_refl). unfold s32.
    rewrite Z.mod_small; lia. }
  rewrite Hc. pose proof (recv_received fd ssl n w ltac:(lia)) as R.
  pose proof (recv_bound fd ssl n w) as Hb.
  pose proof (recv_some fd ssl n w ltac:(lia)) as Hsome.
  destruct (net_recv fd ssl n w) as [r w1]. cbn [fst snd] in *.
  destruct r as [|c r]; [destruct Hsome; [|done]; rewrite Hw; by destruct data|].
  set (l := c :: r) in *. destruct (Z.ltb_spec n (Z.of_nat (length l))); [lia|].
  assert (data = l ++ drop (length l) data /\ net_in w1 fd = drop (length l) data ++ rest) as [Hd Hw1].
  { destruct R as [R _]. rewrite Hw in R.
    assert (E : take (length l) (data ++ rest) = l) by (rewrite R; apply take_app_length).
    rewrite take_app_le in E by lia. split; [rewrite <- E at 1; symmetry; apply take_drop|].
    rewrite <- (take_drop (length l) data), E, <- app_assoc in R. by apply app_inv_head in R. }
  destruct (IH (n - Z.of_nat (length l)) (acc ++ l) (drop (length l) data) w1 Hw1) as (w' & E' & R').
  { rewrite length_drop. lia. } { rewrite length_drop. unfold l in *. simpl in *. lia. }
  { intros Hssl. specialize (Hs Hssl). lia. }
  exists w'. rewrite E'. split; [by rewrite <- app_assoc, <- Hd|].
  rewrite Hd. by apply (received_app fd l _ w w1 w').
Qed.

Lemma readn_spec fd ssl data rest w :
  net_in w fd = data ++ rest -> (ssl = true -> Z.of_nat (length data) < 2 ^ 31) ->
  exists w', sock_readn fd ssl (Z.of_nat (length data)) w = Some ((true, data), w') /\
    received_on fd data w w' /\ net_in w' fd = rest.
Proof.
  intros Hw Hs. unfold sock_readn. rewrite Nat2Z.id.
  destruct (readn_loop_spec (length data) fd ssl (Z.of_nat (length data)) [] data rest w)
    as (w' & E & R); [done..|]. exists w'. split; [done|]. split; [done|].
  destruct R as [R _]. rewrite Hw in R. by apply app_inv_head in R.
Qed.

End Laws.
