(* ===== verification/NetScript.v ===== *)
(** * A scripted network

    An instance of the socket interface: every [send] takes all its bytes and makes the
    next line of the script arrive on the same descriptor; every connection attempt
    succeeds with the next descriptor; the clock stands still.  The theorems about
    clients are run on it. *)

From S2P Require Import Prelude Proto Net.

Record script := Script {
  sc_in : gmap Z (list Z);
  sc_script : list (list Z);
  sc_fd : Z;
  sc_now : Z;
}.

Definition sc_bytes (w : script) (fd : Z) : list Z := default [] (sc_in w !! fd).

#[export] Instance script_net : Net script := {
  net_addrs host port w :=
    (Some [ConnectNow (sc_fd w)], Script (sc_in w) (sc_script w) (sc_fd w + 1) (sc_now w));
  net_close fd w := ((), w);
  net_ssl_connect fd w := (true, w);
  net_send fd ssl buf n w :=
    (Z.of_nat (length buf),
     match sc_script w with
     | s :: ss => Script (<[fd := sc_bytes w fd ++ s]> (sc_in w)) ss (sc_fd w) (sc_now w)
     | [] => w
     end);
  net_recv fd ssl n w :=
    (take (Z.to_nat n) (sc_bytes w fd),
     Script (<[fd := drop (Z.to_nat n) (sc_bytes w fd)]> (sc_in w)) (sc_script w) (sc_fd w) (sc_now w));
  net_now w := (sc_now w, w);
}.

#[export] Instance script_stream : NetStream script.
Proof.
  refine {| net_in := sc_bytes |}; cbn [net_send net_recv script_net fst snd].
  - intros. done.
  - intros. rewrite length_take. lia.
  - intros fd ssl n w Hn. unfold sc_bytes at 3. cbn [sc_in].
    rewrite lookup_insert_eq. cbn [default]. symmetry. apply take_drop.
  - intros fd ssl n w Hn Hne. destruct (sc_bytes w fd) as [|c l]; [done|].
    destruct (Z.to_nat n) eqn:E; [lia | done].
  - intros fd ssl n w fd' Hne. unfold sc_bytes at 1. cbn [sc_in]. by rewrite lookup_insert_ne.
Defined.
