(* ===== verification/Cluster.v ===== *)
(** * Cluster client

    [src/net/cluster.c]: the slot of a key, the table of nodes with their connection
    pools, the reply reader, the topology parser, routing with redirections, the health
    check.  The locks of the source guard against other threads and are left out: the
    model is one thread's run.  [node_count] is the length of [cl_nodes]; the slot map
    holds the assigned slots only, every other slot is -1. *)

From S2P Require Import Prelude Proto ProtoSpec Net.

(** ** Slots *)

Definition crc16_tab : list Z := concat
  [[0x0000; 0x1021; 0x2042; 0x3063; 0x4084; 0x50a5; 0x60c6; 0x70e7];
   [0x8108; 0x9129; 0xa14a; 0xb16b; 0xc18c; 0xd1ad; 0xe1ce; 0xf1ef];
   [0x1231; 0x0210; 0x3273; 0x2252; 0x52b5; 0x4294; 0x72f7; 0x62d6];
   [0x9339; 0x8318; 0xb37b; 0xa35a; 0xd3bd; 0xc39c; 0xf3ff; 0xe3de];
   [0x2462; 0x3443; 0x0420; 0x1401; 0x64e6; 0x74c7; 0x44a4; 0x5485];
   [0xa56a; 0xb54b; 0x8528; 0x9509; 0xe5ee; 0xf5cf; 0xc5ac; 0xd58d];
   [0x3653; 0x2672; 0x1611; 0x0630; 0x76d7; 0x66f6; 0x5695; 0x46b4];
   [0xb75b; 0xa77a; 0x9719; 0x8738; 0xf7df; 0xe7fe; 0xd79d; 0xc7bc];
   [0x4864; 0x5845; 0x6826; 0x7807; 0x08e0; 0x18c1; 0x28a2; 0x38c3];
   [0xc92c; 0xd90d; 0xe96e; 0xf94f; 0x89a8; 0x99f9; 0xa9ba; 0xb99b];
   [0x5a65; 0x4a44; 0x7a27; 0x6a06; 0x1ae1; 0x0ac0; 0x3aa3; 0x2a82];
   [0xdb6d; 0xcb4c; 0xfb2f; 0xeb0e; 0x9be9; 0x8bc8; 0xbbab; 0xabda];
   [0x6c76; 0x7c57; 0x4c34; 0x5c15; 0x2cf2; 0x3cd3; 0x0cb0; 0x1c91];
   [0xed7e; 0xfd5f; 0xcd3c; 0xdd1d; 0xadfa; 0xbddb; 0x8db8; 0x9d99];
   [0x7e67; 0x6e46; 0x5e25; 0x4e04; 0x3ee3; 0x2ec2; 0x1ea1; 0x0e80];
   [0xff6f; 0xef4e; 0xdf2d; 0xcf0c; 0xbfeb; 0xafca; 0x9fa9; 0x8f88];
   [0x9188; 0x81a9; 0xb1ca; 0xa1eb; 0xd10c; 0xc12d; 0xf14e; 0xe16f];
   [0x1080; 0x00a1; 0x30c2; 0x20e3; 0x5004; 0x4025; 0x7046; 0x6067];
   [0x83b9; 0x9398; 0xa3fb; 0xb3da; 0xc33d; 0xd31c; 0xe37f; 0xf35e];
   [0x02b1; 0x1290; 0x22f3; 0x32d2; 0x4235; 0x5214; 0x6277; 0x7256];
   [0xb5ea; 0xa5cb; 0x95a8; 0x8589; 0xf56e; 0xe54f; 0xd52c; 0xc50d];
   [0x34e2; 0x24c3; 0x14a0; 0x0481; 0x7466; 0x6447; 0x5424; 0x4405];
   [0xa7db; 0xb7fa; 0x8799; 0x97b8; 0xe75f; 0xf77e; 0xc71d; 0xd73c];
   [0x26d3; 0x36f2; 0x0691; 0x16b0; 0x6657; 0x7676; 0x4615; 0x5634];
   [0xd94c; 0xc96d; 0xf90e; 0xe92f; 0x99c8; 0x89e9; 0xb98a; 0xa9ab];
   [0x5844; 0x4865; 0x7806; 0x6827; 0x18c0; 0x08e1; 0x38a2; 0x28a3];
   [0xcb7d; 0xdb5c; 0xeb3f; 0xfb1e; 0x8bf9; 0x9bd8; 0xabbb; 0xbb9a];
   [0x4a75; 0x5a54; 0x6a37; 0x7a16; 0x0af1; 0x1ad0; 0x2ab3; 0x3a92];
   [0xfd2e; 0xed0f; 0xdd6c; 0xcd4d; 0xbdaa; 0xad8b; 0x9de8; 0x8dc9];
   [0x7c26; 0x6c07; 0x5c64; 0x4c45; 0x3ca2; 0x2c83; 0x1ce0; 0x0cc1];
   [0xef1f; 0xff3e; 0xcf5d; 0xdf7c; 0xaf9b; 0xbfba; 0x8fd9; 0x9ff8];
   [0x6e17; 0x7e36; 0x4e55; 0x5e74; 0x2e93; 0x3eb2; 0x0ed1; 0x1ef0]].

Definition crc16_step (crc c : Z) : Z :=
  Z.lxor (u16 (Z.shiftl crc 8))
         (default 0 (crc16_tab !! Z.to_nat (Z.land (Z.lxor (Z.shiftr crc 8) c) 255))).

Definition vc_crc16 (key : list Z) : Z := fold_left crc16_step key 0.

Definition VC_CLUSTER_SLOTS : Z := 16384.

(** The bytes that are hashed: between the first opening brace and the next closing
    one, when there are any. *)
Definition hash_tag (key : list Z) : list Z :=
  match memchr 123 key with
  | Some s =>
      match memchr 125 (drop (S s) key) with
      | Some (S _ as e) => take e (drop (S s) key)
      | _ => key
      end
  | None => key
  end.

Definition vc_key_slot (key : list Z) : Z := Z.land (vc_crc16 (hash_tag key)) (VC_CLUSTER_SLOTS - 1).

(** ** State *)

Definition VC_CLUSTER_MAX_NODES : Z := 64.
Definition VC_CLUSTER_MAX_CONNS : nat := 8.
Definition VC_CLUSTER_MAX_RETRIES : nat := 3.

Inductive vc_cluster_err : Type :=
| VC_CLUSTER_OK | VC_CLUSTER_ERR_NONODE | VC_CLUSTER_ERR_NET
| VC_CLUSTER_ERR_PROTO | VC_CLUSTER_ERR_AUTH | VC_CLUSTER_ERR_MOVED.

(** [nc_ssl]: whether the pointer [ssl] is set. *)
Record vc_node_conn := NodeConn { nc_fd : Z; nc_ssl : bool; nc_in_use : bool; nc_last_used_ns : Z }.

(** The field [id] is never used.  [host] is the string. *)
Record vc_cluster_node := ClusterNode {
  n_host : list Z;
  n_port : Z;
  n_alive : bool;
  n_last_seen_ns : Z;
  n_backoff_ns : Z;
  n_conns : list vc_node_conn;
}.

Record vc_cluster := Cluster {
  cl_nodes : list vc_cluster_node;
  cl_slot_map : gmap Z Z;
  cl_running : bool;
  cl_ssl_ctx : bool;                (* whether the pointer is set *)
  cl_username : list Z;
  cl_password : list Z;
}.

Definition node_count (cl : vc_cluster) : Z := Z.of_nat (length (cl_nodes cl)).

Definition with_nodes (ns : list vc_cluster_node) (cl : vc_cluster) : vc_cluster :=
  Cluster ns (cl_slot_map cl) (cl_running cl) (cl_ssl_ctx cl) (cl_username cl) (cl_password cl).
Definition with_slots (m : gmap Z Z) (cl : vc_cluster) : vc_cluster :=
  Cluster (cl_nodes cl) m (cl_running cl) (cl_ssl_ctx cl) (cl_username cl) (cl_password cl).
Definition with_conns (cs : list vc_node_conn) (n : vc_cluster_node) : vc_cluster_node :=
  ClusterNode (n_host n) (n_port n) (n_alive n) (n_last_seen_ns n) (n_backoff_ns n) cs.
Definition set_alive (b : bool) (n : vc_cluster_node) : vc_cluster_node :=
  ClusterNode (n_host n) (n_port n) b (n_last_seen_ns n) (n_backoff_ns n) (n_conns n).
Definition set_seen (t : Z) (n : vc_cluster_node) : vc_cluster_node :=
  ClusterNode (n_host n) (n_port n) (n_alive n) t (n_backoff_ns n) (n_conns n).
Definition set_backoff (t : Z) (n : vc_cluster_node) : vc_cluster_node :=
  ClusterNode (n_host n) (n_port n) (n_alive n) (n_last_seen_ns n) t (n_conns n).

Definition upd_node (i : nat) (f : vc_cluster_node -> vc_cluster_node) (cl : vc_cluster) : vc_cluster :=
  with_nodes (alter f i (cl_nodes cl)) cl.
Definition upd_conn (i j : nat) (f : vc_node_conn -> vc_node_conn) (cl : vc_cluster) : vc_cluster :=
  upd_node i (fun n => with_conns (alter f j (n_conns n)) n) cl.

Definition no_conn : vc_node_conn := NodeConn (-1) false false 0.

(** ** Nodes *)

(** The string and the port of ["host:port"]: split at the last colon. *)
Fixpoint strrchr (c : Z) (l : list Z) : option nat :=
  match l with
  | [] => None
  | x :: l => match strrchr c l with
              | Some i => Some (S i)
              | None => if x =? c then Some O else None
              end
  end.

Definition parse_hostport (s : list Z) (hsz : nat) : option (list Z * Z) :=
  match strrchr 58 s with
  | None => None
  | Some hlen =>
      if (hsz <=? hlen)%nat then None
      else let port := u16 (atoi (drop (S hlen) s)) in
           if 0 <? port then Some (take hlen s, port) else None
  end.

Definition same_node (host : list Z) (port : Z) (n : vc_cluster_node) : Prop :=
  n_port n = port /\ n_host n = host.
#[export] Instance same_node_dec host port n : Decision (same_node host port n).
Proof. unfold same_node. apply _. Defined.

(** [strncpy] into the zeroed [host[64]] keeps 63 bytes. *)
Definition new_node (host : list Z) (port : Z) : vc_cluster_node :=
  ClusterNode (take 63 host) port true 0 100000000 (replicate VC_CLUSTER_MAX_CONNS no_conn).

(** The index, -1 when the table is full. *)
Definition node_find_or_add (cl : vc_cluster) (host : list Z) (port : Z) : Z * vc_cluster :=
  match list_find (same_node host port) (cl_nodes cl) with
  | Some (i, _) => (Z.of_nat i, cl)
  | None =>
      if VC_CLUSTER_MAX_NODES <=? node_count cl then (-1, cl)
      else (node_count cl, with_nodes (cl_nodes cl ++ [new_node host port]) cl)
  end.

(** ** Connection pool *)

Definition idle (c : vc_node_conn) : Prop := nc_in_use c = false /\ 0 <= nc_fd c.
#[export] Instance idle_dec c : Decision (idle c).
Proof. unfold idle. apply _. Defined.

Definition closed (c : vc_node_conn) : Prop := nc_fd c < 0.
#[export] Instance closed_dec c : Decision (closed c).
Proof. unfold closed. apply _. Defined.

Definition take_conn (now : Z) (c : vc_node_conn) : vc_node_conn :=
  NodeConn (nc_fd c) (nc_ssl c) true now.
Definition release (c : vc_node_conn) : vc_node_conn :=
  NodeConn (nc_fd c) (nc_ssl c) false (nc_last_used_ns c).

Definition node_conn_release (i j : nat) (cl : vc_cluster) : vc_cluster := upd_conn i j release cl.

(** The text of the AUTH command. *)
Definition auth_text (cl : vc_cluster) : list Z :=
  let u := cl_username cl in
  let p := cl_password cl in
  if decide (u = []) then
    bs "*2" ++ CRLF ++ bs "$4" ++ CRLF ++ bs "AUTH" ++ CRLF ++
    bs "$" ++ dec (Z.of_nat (length p)) ++ CRLF ++ p ++ CRLF
  else
    bs "*3" ++ CRLF ++ bs "$4" ++ CRLF ++ bs "AUTH" ++ CRLF ++
    bs "$" ++ dec (Z.of_nat (length u)) ++ CRLF ++ u ++ CRLF ++
    bs "$" ++ dec (Z.of_nat (length p)) ++ CRLF ++ p ++ CRLF.

(** What is sent of [char auth_cmd[256]] when [snprintf] returned the length of the
    text: past the buffer the read is undefined. *)
Definition printed (size : nat) (text : list Z) : option (list Z) :=
  if (length text <? size)%nat then Some text
  else if (length text =? size)%nat then Some (take (size - 1) text ++ [0])
  else None.

Section Client.
Context {W : Type} {N : Net W}.

Definition node_authenticate (fd : Z) (ssl : bool) (cl : vc_cluster) : io W unit :=
  if decide (cl_password cl = []) then mret ()
  else
    text ← lift (printed 256 (auth_text cl));
    _ ← sock_sendall fd ssl text;
    _ ← sock_readline fd ssl [] 64;
    mret ().

(** The index of the connection in the pool of node [i]. *)
Definition node_conn_get (i : nat) (cl : vc_cluster) : io W (option nat * vc_cluster) :=
  node ← lift (cl_nodes cl !! i);
  match list_find idle (n_conns node) with
  | Some (j, _) => now ← sys net_now; mret (Some j, upd_conn i j (take_conn now) cl)
  | None =>
      match list_find closed (n_conns node) with
      | None => mret (None, cl)
      | Some (j, _) =>
          fd ← tcp_connect (n_host node) (n_port node);
          if fd <? 0 then mret (None, cl)
          else
            tls ← (if cl_ssl_ctx cl then sys (net_ssl_connect fd) else mret true);
            if negb tls then _ ← sys (net_close fd); mret (None, cl)
            else
              now ← sys net_now;
              _ ← node_authenticate fd (cl_ssl_ctx cl) cl;
              mret (Some j, upd_conn i j (fun _ => NodeConn fd (cl_ssl_ctx cl) true now) cl)
      end
  end.

(** The connection [j] of node [i]. *)
Definition conn_at (i j : nat) (cl : vc_cluster) : option vc_node_conn :=
  n ← cl_nodes cl !! i; n_conns n !! j.

Definition node_conn_close (i j : nat) (cl : vc_cluster) : io W vc_cluster :=
  nc ← lift (conn_at i j cl);
  _ ← (if 0 <=? nc_fd nc then sys (net_close (nc_fd nc)) else mret ());
  mret (upd_conn i j (fun nc => NodeConn (if 0 <=? nc_fd nc then -1 else nc_fd nc) false false
                                         (nc_last_used_ns nc)) cl).

(** ** Replies *)

(** [strdup], with the answer of the [malloc] inside. *)
Definition strdup (malloc_ok : Z -> bool) (s : list Z) : option (list Z) :=
  if malloc_ok (Z.of_nat (length s) + 1) then Some s else None.

(** The bytes of the reply, [None] for NULL.  A string that is returned is read up to its
    NUL by the caller; [malloc_ok] is the answer of [malloc]. *)
Definition resp_read_reply (malloc_ok : Z -> bool) (fd : Z) (ssl : bool) : io W (option (list Z)) :=
  '(ok, line) ← sock_readline fd ssl [] 1024;
  if negb ok then mret None
  else
    let type := default 0 (line !! 0%nat) in
    if (type =? 43) || (type =? 45) || (type =? 58) then
      rest ← lift (c_string (drop 1 line)); mret (strdup malloc_ok rest)
    else if type =? 36 then
      rest ← lift (c_string (drop 1 line));
      let blen := atoll rest in
      if blen <? 0 then mret (strdup malloc_ok [])
      else if negb (malloc_ok (blen + 3)) then mret None
      else
        '(ok, buf) ← sock_readn fd ssl (blen + 2);
        if negb ok then mret None else mret (Some (take (Z.to_nat blen) buf))
    else if type =? 42 then
      rest ← lift (c_string (drop 1 line)); mret (strdup malloc_ok (bs "*" ++ dec (atoll rest)))
    else mret None.

(** ** Topology *)

(** One address of a range: [l] is the line that was read for it. *)
Definition read_addr (fd : Z) (ssl : bool) (l : list Z) : io W (list Z * Z * list Z) :=
  if default 0 (l !! 0%nat) =? 42 then
    '(_, tmp) ← sock_readline fd ssl [] 256;
    hl ← lift (c_string (drop 1 tmp));
    let hlen := u64 (atoll hl) in
    if 254 <? hlen then ub                        (* past [hbuf[256]] *)
    else
      '(_, h) ← sock_readn fd ssl (hlen + 2);
      '(_, tmp) ← sock_readline fd ssl tmp 256;
      p ← lift (c_string (drop 1 tmp));
      host ← lift (c_string_n 63 (put_nul hlen h));
      mret (host, u16 (atoll p), l)
  else
    host ← lift (c_string_n 63 (drop 1 l));
    '(_, l) ← sock_readline fd ssl l 256;
    p ← lift (c_string (drop 1 l));
    mret (host, u16 (atoll p), l).

(** The loop over the addresses of a range; [n] of them are left. *)
Fixpoint read_addrs (n : nat) (first : bool) (fd : Z) (ssl : bool) (l : list Z) (owner : Z)
  (cl : vc_cluster) : io W (Z * vc_cluster) :=
  match n with
  | O => mret (owner, cl)
  | S n =>
      '(ok, l) ← sock_readline fd ssl l 256;
      if negb ok then mret (owner, cl)
      else
        '(host, port, l) ← read_addr fd ssl l;
        let '(idx, cl) := node_find_or_add cl host port in
        read_addrs n false fd ssl l (if (0 <=? idx) && first then idx else owner) cl
  end.

Definition int8 (z : Z) : Z := (z + 128) mod 256 - 128.

(** [s], [s + 1], ... *)
Fixpoint zrange (s : Z) (n : nat) : list Z :=
  match n with O => [] | S n => s :: zrange (s + 1) n end.

Definition map_slots (s e v : Z) (m : gmap Z Z) : gmap Z Z :=
  fold_left (fun m i => <[i := v]> m) (zrange s (Z.to_nat (e - s + 1))) m.

(** One range; [None] when a line is missing. *)
Definition read_range (fd : Z) (ssl : bool) (cl : vc_cluster) : io W (option vc_cluster) :=
  '(ok, l) ← sock_readline fd ssl [] 256;
  if negb ok then mret None else
  '(ok, l) ← sock_readline fd ssl l 256;
  if negb ok then mret None else
  st ← lift (c_string (drop 1 l));
  '(ok, l) ← sock_readline fd ssl l 256;
  if negb ok then mret None else
  en ← lift (c_string (drop 1 l));
  '(ok, l) ← sock_readline fd ssl l 256;
  if negb ok then mret None else
  na ← lift (c_string (drop 1 l));
  '(owner, cl) ← read_addrs (Z.to_nat (atoi na)) true fd ssl l (-1) cl;
  let s := if 0 <? atoi st then atoi st else 0 in
  let e := if atoi en <? VC_CLUSTER_SLOTS then atoi en else VC_CLUSTER_SLOTS - 1 in
  mret (Some (if 0 <=? owner then with_slots (map_slots s e (int8 owner) (cl_slot_map cl)) cl else cl)).

Fixpoint read_ranges (n : nat) (fd : Z) (ssl : bool) (cl : vc_cluster) : io W vc_cluster :=
  match n with
  | O => mret cl
  | S n =>
      o ← read_range fd ssl cl;
      match o with None => mret cl | Some cl' => read_ranges n fd ssl cl' end
  end.

(** The nodes from [ni] on, [fuel] of them. *)
Fixpoint refresh_loop (fuel ni : nat) (cl : vc_cluster) : io W (bool * vc_cluster) :=
  match fuel with
  | O => mret (false, cl)
  | S fuel =>
      node ← lift (cl_nodes cl !! ni);
      if negb (n_alive node) then refresh_loop fuel (S ni) cl
      else
        '(oj, cl) ← node_conn_get ni cl;
        match oj with
        | None => refresh_loop fuel (S ni) cl
        | Some j =>
            nc ← lift (conn_at ni j cl);
            sent ← sock_sendall (nc_fd nc) (nc_ssl nc) (enc_command [bs "CLUSTER"; bs "SLOTS"]);
            if negb sent then
              cl ← node_conn_close ni j cl; refresh_loop fuel (S ni) (upd_node ni (set_alive false) cl)
            else
              '(ok, line) ← sock_readline (nc_fd nc) (nc_ssl nc) [] 256;
              if negb ok then cl ← node_conn_close ni j cl; refresh_loop fuel (S ni) cl
              else if negb (default 0 (line !! 0%nat) =? 42) then
                refresh_loop fuel (S ni) (node_conn_release ni j cl)
              else
                nr ← lift (c_string (drop 1 line));
                cl ← read_ranges (Z.to_nat (atoi nr)) (nc_fd nc) (nc_ssl nc) (with_slots ∅ cl);
                mret (true, node_conn_release ni j cl)
        end
  end.

(** Whether a topology was read. *)
Definition vc_cluster_refresh (cl : vc_cluster) : io W (bool * vc_cluster) :=
  refresh_loop (length (cl_nodes cl)) 0 cl.

(** ** Health check *)

Definition backoff (n : vc_cluster_node) : vc_cluster_node :=
  set_backoff (if n_backoff_ns n <? 3200000000 then n_backoff_ns n * 2 else 3200000000) n.

(** One node of one round. *)
Definition health_node (malloc_ok : Z -> bool) (i : nat) (cl : vc_cluster) : io W vc_cluster :=
  node ← lift (cl_nodes cl !! i);
  early ← (if n_alive node then mret false
           else now ← sys net_now; mret (now - n_last_seen_ns node <? n_backoff_ns node));
  if (early : bool) then mret cl
  else
    '(oj, cl) ← node_conn_get i cl;
    match oj with
    | None =>
        now ← sys net_now;
        '(_, cl) ← vc_cluster_refresh
                     (upd_node i (fun n => set_seen now (backoff (set_alive false n))) cl);
        mret cl
    | Some j =>
        nc ← lift (conn_at i j cl);
        sent ← sock_sendall (nc_fd nc) (nc_ssl nc) (enc_command [bs "PING"]);
        if negb sent then
          cl ← node_conn_close i j cl;
          '(_, cl) ← vc_cluster_refresh (upd_node i (fun n => backoff (set_alive false n)) cl);
          mret cl
        else
          _ ← resp_read_reply malloc_ok (nc_fd nc) (nc_ssl nc);
          now ← sys net_now;
          mret (node_conn_release i j
                  (upd_node i (fun n => set_backoff 100000000 (set_seen now (set_alive true n))) cl))
    end.

(** One round of the loop of [health_thread]: the node count is read anew each time, and
    a refresh may add nodes; [VC_CLUSTER_MAX_NODES] bounds it. *)
Fixpoint health_loop (fuel : nat) (malloc_ok : Z -> bool) (i : nat) (cl : vc_cluster) : io W vc_cluster :=
  if (length (cl_nodes cl) <=? i)%nat then mret cl
  else match fuel with
       | O => ub
       | S fuel => cl ← health_node malloc_ok i cl; health_loop fuel malloc_ok (S i) cl
       end.

Definition health_thread_round (malloc_ok : Z -> bool) (cl : vc_cluster) : io W vc_cluster :=
  health_loop (Z.to_nat VC_CLUSTER_MAX_NODES) malloc_ok 0 cl.

(** ** Public interface *)

(** [strtok(s, ",")] repeated: the non-empty pieces between commas. *)
Fixpoint strtok (cur : list Z) (l : list Z) : list (list Z) :=
  let piece := if decide (cur = []) then [] else [reverse cur] in
  match l with
  | [] => piece
  | c :: l => if c =? 44 then piece ++ strtok [] l else strtok (c :: cur) l
  end.

Definition add_seed (cl : vc_cluster) (tok : list Z) : vc_cluster :=
  match parse_hostport tok 64 with
  | Some (host, port) => (node_find_or_add cl host port).2
  | None => cl
  end.

(** [seeds_copy] has no room for the NUL of 1023 bytes or more.  [ctx_ok] is the answer of
    [SSL_CTX_new].  The started thread is {!health_thread_round} repeated. *)
Definition vc_cluster_connect (alloc_ok ctx_ok : bool) (seeds : list Z) (username password : option (list Z))
  (tls_ca : bool) : io W (option vc_cluster) :=
  if negb alloc_ok then mret None
  else if tls_ca && negb ctx_ok then mret None
  else if (1023 <=? length seeds)%nat then ub
  else
    let cl := Cluster [] ∅ true tls_ca (take 63 (default [] username)) (take 127 (default [] password)) in
    let cl := fold_left add_seed (strtok [] seeds) cl in
    if node_count cl =? 0 then mret None
    else
      '(ok, cl) ← vc_cluster_refresh cl;
      mret (Some (if (ok : bool) then cl
                  else if node_count cl =? 1 then with_slots (map_slots 0 (VC_CLUSTER_SLOTS - 1) 0 (cl_slot_map cl)) cl
                  else cl)).

Fixpoint close_all (js : list (nat * nat)) (cl : vc_cluster) : io W vc_cluster :=
  match js with
  | [] => mret cl
  | (i, j) :: js => cl ← node_conn_close i j cl; close_all js cl
  end.

(** After the thread has ended: every connection of every node. *)
Definition vc_cluster_destroy (cl : vc_cluster) : io W vc_cluster :=
  close_all (i ← seq 0 (length (cl_nodes cl)); j ← seq 0 VC_CLUSTER_MAX_CONNS; [(i, j)])
            (Cluster (cl_nodes cl) (cl_slot_map cl) false (cl_ssl_ctx cl) (cl_username cl) (cl_password cl)).

(** A slot outside the array is undefined. *)
Definition vc_cluster_node_for_slot (cl : vc_cluster) (slot : Z) : option Z :=
  if slot <? VC_CLUSTER_SLOTS then Some (default (-1) (cl_slot_map cl !! slot)) else None.

(** [strncmp(rep, "MOVED ", 6) == 0]. *)
Definition is_moved (rep : list Z) : bool := bool_decide (take 6 (cstr rep) = bs "MOVED ").

(** The address of a redirection, [None] when it cannot be read. *)
Definition moved_to (rep : list Z) : option (list Z * Z) :=
  let r := drop 6 (cstr rep) in
  sp ← memchr 32 r; parse_hostport (drop (S sp) r) 64.

(** The attempts that are left. *)
Fixpoint cmd_attempts (n : nat) (malloc_ok : Z -> bool) (ni : Z) (cmd : list Z) (cl : vc_cluster)
  : io W (vc_cluster_err * option (list Z) * vc_cluster) :=
  match n with
  | O => mret (VC_CLUSTER_ERR_NET, None, cl)
  | S n =>
      if (ni <? 0) || (node_count cl <=? ni) then mret (VC_CLUSTER_ERR_NONODE, None, cl)
      else
        node ← lift (cl_nodes cl !! Z.to_nat ni);
        let oi := if n_alive node then Some (Z.to_nat ni)
                  else fst <$> list_find (fun m => n_alive m = true) (cl_nodes cl) in
        match oi with
        | None => mret (VC_CLUSTER_ERR_NONODE, None, cl)
        | Some i =>
            '(oj, cl) ← node_conn_get i cl;
            match oj with
            | None => cmd_attempts n malloc_ok (Z.of_nat i) cmd (upd_node i (set_alive false) cl)
            | Some j =>
                nc ← lift (conn_at i j cl);
                sent ← sock_sendall (nc_fd nc) (nc_ssl nc) cmd;
                if negb sent then
                  cl ← node_conn_close i j cl;
                  cmd_attempts n malloc_ok (Z.of_nat i) cmd (upd_node i (set_alive false) cl)
                else
                  rep ← resp_read_reply malloc_ok (nc_fd nc) (nc_ssl nc);
                  let cl := node_conn_release i j cl in
                  match rep with
                  | None => cmd_attempts n malloc_ok (Z.of_nat i) cmd (upd_node i (set_alive false) cl)
                  | Some r =>
                      if is_moved r then
                        match moved_to r with
                        | Some (host, port) =>
                            let '(ni, cl) := node_find_or_add cl host port in
                            '(_, cl) ← vc_cluster_refresh cl;
                            cmd_attempts n malloc_ok ni cmd cl
                        | None => cmd_attempts n malloc_ok (Z.of_nat i) cmd cl
                        end
                      else mret (VC_CLUSTER_OK, Some r, cl)
                  end
            end
        end
  end.

Definition vc_cluster_cmd (malloc_ok : Z -> bool) (cl : vc_cluster) (key : option (list Z)) (cmd : list Z)
  : io W (vc_cluster_err * option (list Z) * vc_cluster) :=
  ni ← lift (vc_cluster_node_for_slot cl (match key with Some k => vc_key_slot k | None => 0 end));
  if ni <? 0 then mret (VC_CLUSTER_ERR_NONODE, None, cl)
  else cmd_attempts VC_CLUSTER_MAX_RETRIES malloc_ok ni cmd cl.

End Client.

(** ** Formatting a command *)

(** [snprintf(out + pos, outsz - pos, ...)]: the characters stored, and what is returned. *)
Definition stored (outsz pos : Z) (text : list Z) : list Z := take (Z.to_nat (outsz - pos - 1)) text.

Fixpoint format_loop (outsz : Z) (args : list (list Z)) (pos : Z) (out : list Z) : Z * list Z :=
  match args with
  | [] => (pos, out)
  | arg :: args =>
      if pos <? outsz then
        let text := bs "$" ++ dec (Z.of_nat (length arg)) ++ CRLF ++ arg ++ CRLF in
        format_loop outsz args (pos + Z.of_nat (length text)) (out ++ stored outsz pos text)
      else (pos, out)
  end.

(** The position and the characters of [out]; the arguments are strings. *)
Definition vc_resp_format (outsz : Z) (args : list (list Z)) : Z * list Z :=
  let text := bs "*" ++ dec (Z.of_nat (length args)) ++ CRLF in
  format_loop outsz args (Z.of_nat (length text)) (stored outsz 0 text).
