(* ===== verification/ClusterInv.v ===== *)
(** * Cluster client: slots, node table and the invariant of the handle

    Keys with the same hash tag share a slot; the table-driven checksum is the CCITT one
    as long as no lookup falls on one of the entries that differ from it; addresses are
    read back from their text; every history of operations keeps the handle well formed
    and every connection back in its pool. *)

From S2P Require Import Prelude Proto ProtoSpec Net Cluster.

(** ** The checksum *)

(** CRC16-CCITT (polynomial 0x1021, no reflection), one bit at a time. *)
Definition ccitt_bit (crc : Z) : Z :=
  if Z.testbit crc 15 then Z.lxor (u16 (Z.shiftl crc 1)) 0x1021 else u16 (Z.shiftl crc 1).

Definition ccitt_step (crc c : Z) : Z := Nat.iter 8 ccitt_bit (Z.lxor crc (Z.shiftl c 8)).

Definition ccitt (key : list Z) : Z := fold_left ccitt_step key 0.

(** The table index of the next byte. *)
Definition crc_index (crc c : Z) : Z := Z.land (Z.lxor (Z.shiftr crc 8) c) 255.

(** The entries of the table that are not the CCITT ones. *)
Definition bad_index (i : Z) : bool := ((64 <=? i) && (i <=? 127)) || (i =? 206).

Lemma tab_ccitt i : 0 <= i < 256 ->
  crc16_tab !! Z.to_nat i = Some (ccitt_step 0 i) <-> bad_index i = false.
Proof.
  intros Hi.
  assert (H : forallb (fun i => eqb (bool_decide (crc16_tab !! Z.to_nat i = Some (ccitt_step 0 i)))
                                    (negb (bad_index i))) (seqZ 0 256) = true) by (vm_compute; done).
  rewrite forallb_forall in H. specialize (H i).
  rewrite eqb_true_iff in H. rewrite <- (bool_decide_eq_true (_ = _)), H, negb_true_iff; [done|].
  apply list_elem_of_In, elem_of_seqZ. lia.
Qed.

Lemma ccitt_bit_lxor x y : ccitt_bit (Z.lxor x y) = Z.lxor (ccitt_bit x) (ccitt_bit y).
Proof.
  assert (U : forall a b, u16 (Z.shiftl (Z.lxor a b) 1) = Z.lxor (u16 (Z.shiftl a 1)) (u16 (Z.shiftl b 1))).
  { intros a b. unfold u16. rewrite <- !Z.land_ones by lia. rewrite Z.shiftl_lxor.
    apply Z.bits_inj'. intros n Hn. rewrite !Z.land_spec, !Z.lxor_spec, !Z.land_spec.
    by destruct (Z.testbit (Z.shiftl a 1) n), (Z.testbit (Z.shiftl b 1) n), (Z.testbit (Z.ones 16) n). }
  unfold ccitt_bit. rewrite Z.lxor_spec, U.
  destruct (Z.testbit x 15), (Z.testbit y 15); cbn [xorb];
    apply Z.bits_inj'; intros n Hn; rewrite !Z.lxor_spec;
    by destruct (Z.testbit (u16 (Z.shiftl x 1)) n), (Z.testbit (u16 (Z.shiftl y 1)) n), (Z.testbit 0x1021 n).
Qed.

Lemma iter_bit_lxor n x y :
  Nat.iter n ccitt_bit (Z.lxor x y) = Z.lxor (Nat.iter n ccitt_bit x) (Nat.iter n ccitt_bit y).
Proof. induction n as [|n IH]; simpl; [done|]. by rewrite IH, ccitt_bit_lxor. Qed.

(** A low byte only moves up. *)
Lemma iter_bit_low x : 0 <= x < 256 -> Nat.iter 8 ccitt_bit x = Z.shiftl x 8.
Proof.
  intros Hx.
  assert (H : forallb (fun x => Nat.iter 8 ccitt_bit x =? Z.shiftl x 8) (seqZ 0 256) = true)
    by (vm_compute; done).
  rewrite forallb_forall in H. apply Z.eqb_eq, H, list_elem_of_In, elem_of_seqZ. lia.
Qed.

Lemma testbit_high k z n : 0 <= z < 2 ^ k -> 0 <= k <= n -> Z.testbit z n = false.
Proof.
  intros Hz Hk. destruct (Z.eq_dec z 0) as [->|]; [apply Z.testbit_0_l|].
  apply Z.bits_above_log2; [lia|]. apply Z.log2_lt_pow2; [lia|].
  pose proof (Z.pow_le_mono_r 2 k n). lia.
Qed.

Lemma crc_index_byte crc c : 0 <= crc < 2 ^ 16 -> is_byte c ->
  crc_index crc c = Z.lxor (Z.shiftr crc 8) c /\ 0 <= crc_index crc c < 256.
Proof.
  unfold is_byte. intros Hcrc Hc. unfold crc_index. change 255 with (2 ^ 8 - 1). rewrite land_mask by lia.
  assert (Hr : 0 <= Z.shiftr crc 8 < 2 ^ 8).
  { rewrite Z.shiftr_div_pow2 by lia. split; [apply Z.div_pos; lia | apply Z.div_lt_upper_bound; lia]. }
  pose proof (lxor_range (Z.shiftr crc 8) c 8 ltac:(lia) Hr ltac:(lia)) as Hx.
  rewrite Z.mod_small by lia. split; [done | lia].
Qed.

(** One byte through the reference, as one table lookup. *)
Lemma ccitt_step_index crc c : 0 <= crc < 2 ^ 16 -> is_byte c ->
  ccitt_step crc c = Z.lxor (u16 (Z.shiftl crc 8)) (ccitt_step 0 (crc_index crc c)).
Proof.
  intros Hcrc Hc. destruct (crc_index_byte crc c Hcrc Hc) as [Ei Hi]. unfold ccitt_step.
  set (lo := crc mod 256).
  assert (Hlo : 0 <= lo < 256) by (apply Z.mod_pos_bound; lia).
  assert (E : Z.lxor crc (Z.shiftl c 8) = Z.lxor lo (Z.lxor 0 (Z.shiftl (crc_index crc c) 8))).
  { rewrite Z.lxor_0_l, Ei, Z.shiftl_lxor. rewrite <- Z.lxor_assoc. f_equal.
    unfold lo. change 256 with (2 ^ 8). rewrite <- Z.land_ones by lia.
    apply Z.bits_inj'. intros n Hn. rewrite Z.lxor_spec, Z.land_spec.
    destruct (Z.lt_ge_cases n 8).
    - rewrite Z.ones_spec_low, Z.shiftl_spec_low by lia. by destruct (Z.testbit crc n).
    - rewrite Z.ones_spec_high, Z.shiftl_spec, Z.shiftr_spec by lia.
      replace (n - 8 + 8) with n by lia. by destruct (Z.testbit crc n). }
  rewrite E, iter_bit_lxor. f_equal. rewrite iter_bit_low by done.
  unfold lo, u16. rewrite !Z.shiftl_mul_pow2 by lia. change (2 ^ 16) with (256 * 2 ^ 8).
  by rewrite Z.mul_mod_distr_r by lia.
Qed.

(** No lookup of the run over [key] falls on a differing entry. *)
Fixpoint clean (crc : Z) (key : list Z) : bool :=
  match key with
  | [] => true
  | c :: key => negb (bad_index (crc_index crc c)) && clean (ccitt_step crc c) key
  end.

Lemma crc16_step_clean crc c : 0 <= crc < 2 ^ 16 -> is_byte c -> bad_index (crc_index crc c) = false ->
  crc16_step crc c = ccitt_step crc c.
Proof.
  intros Hcrc Hc Hb. rewrite ccitt_step_index by done.
  destruct (crc_index_byte crc c Hcrc Hc) as [_ Hi]. apply (tab_ccitt _ Hi) in Hb.
  unfold crc16_step. change (Z.land _ 255) with (crc_index crc c). by rewrite Hb.
Qed.

Lemma tab_range i : 0 <= default 0 (crc16_tab !! i) < 2 ^ 16.
Proof.
  assert (H : Forall (fun x => 0 <= x < 2 ^ 16) crc16_tab).
  { apply Forall_forall. assert (Hb : forallb (fun x => (0 <=? x) && (x <? 65536)) crc16_tab = true)
      by (vm_compute; done).
    rewrite forallb_forall in Hb. intros x Hx. apply list_elem_of_In in Hx. specialize (Hb x Hx). lia. }
  destruct (crc16_tab !! i) eqn:E; simpl; [|lia]. by apply (Forall_lookup_1 _ _ _ _ H E).
Qed.

Lemma crc16_step_range crc c : 0 <= crc16_step crc c < 2 ^ 16.
Proof. apply lxor_range; [lia | apply u16_range | apply tab_range]. Qed.

Lemma crc16_range key : 0 <= vc_crc16 key < 2 ^ 16.
Proof.
  unfold vc_crc16. induction key as [|c key _] using rev_ind; [simpl; lia|].
  rewrite fold_left_app. apply crc16_step_range.
Qed.

Lemma crc16_clean_from crc key : 0 <= crc < 2 ^ 16 -> Forall is_byte key -> clean crc key = true ->
  fold_left crc16_step key crc = fold_left ccitt_step key crc.
Proof.
  intros Hcrc Hk. revert crc Hcrc. induction Hk as [|c key Hc _ IH]; intros crc Hcrc Hcl; [done|].
  cbn [clean] in Hcl. zreflect. cbn [fold_left]. rewrite <- crc16_step_clean in * by done.
  apply IH; [apply crc16_step_range | done].
Qed.

(** ** Slots *)

Lemma key_slot_range key : 0 <= vc_key_slot key < VC_CLUSTER_SLOTS.
Proof.
  unfold vc_key_slot, VC_CLUSTER_SLOTS. change (16384 - 1) with (2 ^ 14 - 1).
  rewrite land_mask by lia. change 16384 with (2 ^ 14). apply Z.mod_pos_bound. lia.
Qed.

Lemma hash_tag_braces pre tag post :
  123 ∉ pre -> 125 ∉ tag -> tag <> [] -> hash_tag (pre ++ 123 :: tag ++ 125 :: post) = tag.
Proof.
  intros Hp Ht Hne. unfold hash_tag. rewrite memchr_at by done.
  replace (S (length pre)) with (length (pre ++ [123])) by (rewrite length_app; simpl; lia).
  change (123 :: tag ++ 125 :: post) with ([123] ++ tag ++ 125 :: post).
  rewrite app_assoc, drop_app_length, memchr_at by done.
  destruct tag as [|c tag]; [done|]. cbn [length]. apply (take_app_length (c :: tag)).
Qed.

(** ** Addresses *)

Lemma strrchr_last c pre rest : c ∉ rest -> strrchr c (pre ++ c :: rest) = Some (length pre).
Proof.
  intros Hr. assert (H0 : strrchr c rest = None).
  { induction rest as [|x rest IH]; [done|]. cbn [strrchr]. rewrite IH by set_solver.
    destruct (Z.eqb_spec x c); [set_solver | done]. }
  induction pre as [|x pre IH]; cbn [app strrchr length]; [by rewrite H0, Z.eqb_refl|]. by rewrite IH.
Qed.

Lemma dec_chars n c : 0 <= n < 2 ^ 63 -> c ∈ dec n -> isdigit c = true.
Proof.
  intros Hn Hc. destruct (dec_spec n) as (ds & E & _ & Hall & _); [lia|]. rewrite E in Hc.
  replace (n <? 0) with false in Hc by lia. rewrite Forall_forall in Hall. by apply Hall.
Qed.

Lemma atoll_dec n : - 2 ^ 63 <= n < 2 ^ 63 -> atoll (dec n) = n.
Proof. intros Hn. unfold atoll. by rewrite strtoll_dec. Qed.

Lemma atoi_dec n : - 2 ^ 31 <= n < 2 ^ 31 -> atoi (dec n) = n.
Proof. intros Hn. unfold atoi. rewrite atoll_dec by lia. unfold s32. rewrite Z.mod_small; lia. Qed.

Definition addr_text (host : list Z) (port : Z) : list Z := host ++ bs ":" ++ dec port.

Lemma parse_addr_text host port hsz :
  (length host < hsz)%nat -> 0 < port < 2 ^ 16 -> parse_hostport (addr_text host port) hsz = Some (host, port).
Proof.
  intros Hh Hp. unfold parse_hostport, addr_text. change (bs ":" ++ dec port) with (58 :: dec port).
  rewrite strrchr_last.
  2: { intros Hin. apply dec_chars in Hin; [done | lia]. }
  destruct (Nat.leb_spec hsz (length host)); [lia|].
  replace (S (length host)) with (length (host ++ [58])) by (rewrite length_app; simpl; lia).
  change (58 :: dec port) with ([58] ++ dec port). rewrite app_assoc, drop_app_length, atoi_dec by lia.
  unfold u16. rewrite Z.mod_small by lia. destruct (Z.ltb_spec 0 port); [|lia].
  by rewrite <- app_assoc, take_app_length.
Qed.

(** ** Well-formed handles *)

Definition name (n : vc_cluster_node) : list Z * Z := (n_host n, n_port n).

(** An open descriptor, or a closed connection that nobody uses. *)
Definition conn_ok (c : vc_node_conn) : Prop := 0 <= nc_fd c \/ nc_fd c = -1 /\ nc_in_use c = false.

Record node_ok (n : vc_cluster_node) : Prop := {
  no_host : (length (n_host n) <= 63)%nat;
  no_port : 0 <= n_port n < 2 ^ 16;
  no_backoff : exists k, 0 <= k <= 5 /\ n_backoff_ns n = 100000000 * 2 ^ k;
  no_conns : length (n_conns n) = VC_CLUSTER_MAX_CONNS;
  no_conn_ok : Forall conn_ok (n_conns n);
}.

Record cluster_ok (cl : vc_cluster) : Prop := {
  co_nodes : Forall node_ok (cl_nodes cl);
  co_count : node_count cl <= VC_CLUSTER_MAX_NODES;
  co_names : NoDup (name <$> cl_nodes cl);
  co_slots : map_Forall (fun s i => 0 <= s < VC_CLUSTER_SLOTS /\ 0 <= i < node_count cl) (cl_slot_map cl);
  co_user : (length (cl_username cl) <= 63)%nat;
  co_pass : (length (cl_password cl) <= 127)%nat;
}.

(** Only the connection [b] may be in use. *)
Definition only_busy (b : option (nat * nat)) (cl : vc_cluster) : Prop :=
  forall i j c, conn_at i j cl = Some c -> nc_in_use c = true -> b = Some (i, j).

(** [cl] is well formed, keeps the nodes of [cl0] at their indices and its credentials. *)
Record inv (cl0 : vc_cluster) (b : option (nat * nat)) (cl : vc_cluster) : Prop := {
  inv_ok : cluster_ok cl;
  inv_busy : only_busy b cl;
  inv_names : (name <$> cl_nodes cl0) `prefix_of` (name <$> cl_nodes cl);
  inv_creds : cl_username cl = cl_username cl0 /\ cl_password cl = cl_password cl0 /\
              cl_ssl_ctx cl = cl_ssl_ctx cl0;
}.

Lemma inv_refl cl : cluster_ok cl -> only_busy None cl -> inv cl None cl.
Proof. intros. by split. Qed.

Lemma inv_trans cl0 cl1 b cl : inv cl0 None cl1 -> inv cl1 b cl -> inv cl0 b cl.
Proof.
  intros [_ _ Hn1 Hc1] [Hok Hb Hn2 Hc2]. split; [done|done|by etrans|].
  destruct Hc1 as (<- & <- & <-). exact Hc2.
Qed.

Lemma conn_at_upd i f cl i' j c :
  conn_at i' j (upd_node i f cl) = Some c ->
  (i' <> i /\ conn_at i' j cl = Some c) \/
  (i' = i /\ exists n, cl_nodes cl !! i = Some n /\ n_conns (f n) !! j = Some c).
Proof.
  unfold conn_at, upd_node. cbn [cl_nodes with_nodes]. destruct (decide (i' = i)) as [->|Hne].
  - rewrite list_lookup_alter_eq. destruct (cl_nodes cl !! i) as [n|] eqn:E; [|done]. simpl.
    intros Hc. right. split; [done|]. by exists n.
  - rewrite list_lookup_alter_ne by done. by left.
Qed.

Lemma names_upd i f (ns : list vc_cluster_node) :
  (forall n, ns !! i = Some n -> name (f n) = name n) -> name <$> alter f i ns = name <$> ns.
Proof.
  intros Hf. apply list_eq. intros k. rewrite !list_lookup_fmap. destruct (decide (k = i)) as [->|].
  - rewrite list_lookup_alter_eq. destruct (ns !! i) as [n|] eqn:E; [|done]. simpl. by rewrite Hf.
  - by rewrite list_lookup_alter_ne.
Qed.

(** A change of one node that keeps its name and its form. *)
Lemma inv_upd cl0 b b' i f cl :
  inv cl0 b cl ->
  (forall n, cl_nodes cl !! i = Some n -> node_ok n -> name (f n) = name n /\ node_ok (f n)) ->
  (forall j n c, cl_nodes cl !! i = Some n -> n_conns (f n) !! j = Some c -> nc_in_use c = true -> b' = Some (i, j)) ->
  (forall i' j, i' <> i -> b = Some (i', j) -> b' = Some (i', j)) ->
  inv cl0 b' (upd_node i f cl).
Proof.
  intros [[Hn Hc Hd Hs Hu Hp] Hb Hpre Hcr] Hf Hin Hout.
  assert (Hnames : name <$> alter f i (cl_nodes cl) = name <$> cl_nodes cl).
  { apply names_upd. intros n E. apply Hf; [done|]. by apply (Forall_lookup_1 _ _ _ _ Hn E). }
  split; [split|..]; unfold node_count in *; cbn [upd_node with_nodes cl_nodes cl_slot_map cl_username cl_password cl_ssl_ctx].
  - apply Forall_lookup. intros k n. destruct (decide (k = i)) as [->|].
    + rewrite list_lookup_alter_eq. intros E. apply fmap_Some in E as (n0 & E & ->).
      apply Hf; [done|]. by apply (Forall_lookup_1 _ _ _ _ Hn E).
    + rewrite list_lookup_alter_ne by done. by apply Forall_lookup.
  - by rewrite length_alter.
  - by rewrite Hnames.
  - by rewrite length_alter.
  - done.
  - done.
  - intros i' j c E Hu'. apply conn_at_upd in E as [[Hne E] | (-> & n & E & Ej)].
    + apply Hout; [done|]. by apply (Hb i' j c).
    + by apply (Hin j n c).
  - by rewrite Hnames.
  - done.
Qed.

(** The same for a change that leaves the connections alone. *)
Lemma inv_upd_same cl0 b i f cl :
  inv cl0 b cl ->
  (forall n, cl_nodes cl !! i = Some n -> node_ok n -> name (f n) = name n /\ node_ok (f n) /\ n_conns (f n) = n_conns n) ->
  inv cl0 b (upd_node i f cl).
Proof.
  intros Hi Hf. apply (inv_upd cl0 b); [done| | |done].
  - intros n E Hn. destruct (Hf n E Hn) as (? & ? & _). done.
  - intros j n c E Ej Hu. pose proof (Forall_lookup_1 _ _ _ _ (co_nodes _ (inv_ok _ _ _ Hi)) E) as Hn.
    destruct (Hf n E Hn) as (_ & _ & Hc). rewrite Hc in Ej.
    apply (inv_busy _ _ _ Hi i j c); [|done]. unfold conn_at. by rewrite E.
Qed.

Lemma node_ok_alive v n : node_ok n -> node_ok (set_alive v n).
Proof. intros []. by split. Qed.
Lemma node_ok_seen v n : node_ok n -> node_ok (set_seen v n).
Proof. intros []. by split. Qed.
Lemma node_ok_reset n : node_ok n -> node_ok (set_backoff 100000000 n).
Proof. intros []. split; try done. exists 0. simpl. lia. Qed.

(** The delay doubles up to 3.2 seconds and stays there. *)
Lemma node_ok_backoff n : node_ok n -> node_ok (backoff n).
Proof.
  intros [Hh Hp (k & Hk & Eb) Hc Ho]. split; try done. unfold backoff. cbn [n_backoff_ns set_backoff].
  rewrite Eb. destruct (Z.ltb_spec (100000000 * 2 ^ k) 3200000000) as [Hlt|Hge].
  - exists (k + 1). rewrite Z.pow_add_r by lia. split; [|lia].
    destruct (Z.eq_dec k 5) as [->|]; [|lia]. change (2 ^ 5) with 32 in Hlt. lia.
  - exists 5. split; [lia|]. reflexivity.
Qed.

Lemma node_ok_conn j f n : node_ok n -> (forall c, conn_ok c -> conn_ok (f c)) ->
  node_ok (with_conns (alter f j (n_conns n)) n).
Proof.
  intros [Hh Hp Hb Hc Ho] Hf. split; try done; cbn [with_conns n_conns]; [by rewrite length_alter|].
  apply Forall_alter; [done|]. intros c _ Hcc. by apply Hf.
Qed.

#[export] Hint Resolve node_ok_alive node_ok_seen node_ok_reset node_ok_backoff : vc.

(** Changing the connection that is in use, or taking one. *)
Lemma inv_upd_conn cl0 b b' i j f cl :
  inv cl0 b cl -> (b = None \/ b = Some (i, j)) -> (forall c, conn_ok c -> conn_ok (f c)) ->
  (forall c, nc_in_use (f c) = true -> b' = Some (i, j)) -> inv cl0 b' (upd_conn i j f cl).
Proof.
  intros Hi Hb Hok Hu. apply (inv_upd cl0 b); [done|..].
  - intros n E Hn. split; [done|]. by apply node_ok_conn.
  - intros j' n c E Ej Hc. cbn [with_conns n_conns] in Ej. destruct (decide (j' = j)) as [->|Hne].
    + rewrite list_lookup_alter_eq in Ej. apply fmap_Some in Ej as (c0 & _ & ->). by apply (Hu c0).
    + rewrite list_lookup_alter_ne in Ej by done.
      assert (Hx : b = Some (i, j')); [|by destruct Hb; simplify_eq].
      apply (inv_busy _ _ _ Hi i j' c); [|done]. unfold conn_at. by rewrite E.
  - intros i' j' Hne E. destruct Hb; simplify_eq.
Qed.

(** ** Operations keep handles well formed *)

Section Preserve.
Context {W : Type} {N : Net W}.

(** Steps through a run whose intermediate values do not matter. *)
Ltac post_skip :=
  repeat first
    [ apply post_ub
    | apply post_lift; intros ? ?
    | match goal with
      | |- post (if ?b then _ else _) _ => destruct b eqn:?
      | |- post (match ?x with (_, _) => _ end) _ => destruct x
      end
    | lazymatch goal with
      | |- post (read_addrs _ _ _ _ _ _ _ ≫= _) _ => fail
      | |- _ => apply post_any; intros ?
      end ].

Lemma inv_release cl0 i j cl : inv cl0 (Some (i, j)) cl -> inv cl0 None (node_conn_release i j cl).
Proof. intros Hi. apply (inv_upd_conn cl0 (Some (i, j))); [done|by right|by intros c [|[]]; [left|right]|done]. Qed.

Lemma inv_close cl0 i j cl :
  inv cl0 (Some (i, j)) cl -> post (W := W) (node_conn_close i j cl) (inv cl0 None).
Proof.
  intros Hi. unfold node_conn_close. apply post_lift. intros nc E. apply post_any. intros _. apply post_ret.
  apply (inv_upd_conn cl0 (Some (i, j))); [done|by right| |done].
  intros c Hc. right. cbn [nc_fd nc_in_use]. destruct Hc as [H|[-> _]]; [|done].
  by destruct (Z.leb_spec 0 (nc_fd c)); [|lia].
Qed.

Lemma inv_get cl0 i cl :
  inv cl0 None cl ->
  post (W := W) (node_conn_get i cl) (fun '(oj, cl') => inv cl0 (pair i <$> oj) cl').
Proof.
  intros Hi. unfold node_conn_get. apply post_lift. intros n En.
  pose proof (Forall_lookup_1 _ _ _ _ (co_nodes _ (inv_ok _ _ _ Hi)) En) as Hn.
  destruct (list_find idle (n_conns n)) as [[j c]|] eqn:E1.
  { apply post_any. intros now. apply post_ret. apply list_find_Some in E1 as (Ej & [Hu Hfd] & _).
    apply (inv_upd cl0 None); [done| | |done]; cbn [with_conns n_conns].
    - intros n' E' Hn'. rewrite En in E'. simplify_eq. split; [done|].
      destruct Hn' as [Hh Hp Hb Hc Ho]. split; try done; cbn [with_conns n_conns]; [by rewrite length_alter|].
      apply Forall_lookup. intros k c'. destruct (decide (k = j)) as [->|].
      + rewrite list_lookup_alter_eq, Ej. intros [= <-]. by left.
      + rewrite list_lookup_alter_ne by done. by apply Forall_lookup.
    - intros j' n' c' E' Ej' Hc'. rewrite En in E'. simplify_eq.
      destruct (decide (j' = j)) as [->|Hne]; [done|].
      rewrite list_lookup_alter_ne in Ej' by done.
      discriminate (inv_busy _ _ _ Hi i j' c' ltac:(unfold conn_at; by rewrite En) Hc'). }
  destruct (list_find closed (n_conns n)) as [[j c]|] eqn:E2; [|by apply post_ret].
  apply post_any. intros fd. destruct (Z.ltb_spec fd 0); [by apply post_ret|].
  apply post_any. intros tls. destruct (negb tls); [apply post_any; intros _; by apply post_ret|].
  apply post_any. intros now. apply post_any. intros _. apply post_ret.
  apply (inv_upd_conn cl0 None); [done|by left|by left|done].
Qed.

Lemma prefix_snoc {A} (l l' : list A) x : l `prefix_of` l' -> l `prefix_of` l' ++ [x].
Proof. intros [k ->]. exists (k ++ [x]). by rewrite app_assoc. Qed.

Lemma conn_at_snoc cl n i j c :
  conn_at i j (with_nodes (cl_nodes cl ++ [n]) cl) = Some c ->
  conn_at i j cl = Some c \/ n_conns n !! j = Some c.
Proof.
  unfold conn_at. cbn [with_nodes cl_nodes]. destruct (decide (i < length (cl_nodes cl))%nat).
  - rewrite lookup_app_l by done. by left.
  - rewrite lookup_app_r by lia. destruct (i - length (cl_nodes cl))%nat; [|done]. by right.
Qed.

Lemma inv_add cl0 b cl host port i cl' :
  inv cl0 b cl -> (length host <= 63)%nat -> 0 <= port < 2 ^ 16 ->
  node_find_or_add cl host port = (i, cl') ->
  inv cl0 b cl' /\ -1 <= i < node_count cl' /\ node_count cl <= node_count cl'.
Proof.
  intros Hi Hh Hp. unfold node_find_or_add. destruct (list_find _ _) as [[k n]|] eqn:E.
  { intros [= <- <-]. apply list_find_Some in E as (Ek & _). apply lookup_lt_Some in Ek.
    unfold node_count. split; [done|lia]. }
  destruct (Z.leb_spec VC_CLUSTER_MAX_NODES (node_count cl)) as [|Hlt]; intros [= <- <-].
  { unfold node_count. split; [done|lia]. }
  destruct Hi as [[Hn Hc Hd Hs Hu Hpw] Hb Hpre Hcr].
  assert (Hcnt : node_count (with_nodes (cl_nodes cl ++ [new_node host port]) cl) = node_count cl + 1).
  { unfold node_count. cbn [with_nodes cl_nodes]. rewrite length_app. simpl. lia. }
  rewrite Hcnt. split; [|unfold node_count; lia]. split; [split|..]; rewrite ?Hcnt; cbn [with_nodes cl_nodes cl_slot_map cl_username cl_password cl_ssl_ctx]; try done.
  - apply Forall_app. split; [done|]. apply Forall_singleton. split; cbn.
    + rewrite length_take. lia. + done. + exists 0. simpl. lia. + done.
    + apply (Forall_replicate conn_ok 8). by right.
  - lia.
  - rewrite fmap_app. apply NoDup_app. split; [done|]. split; [|apply NoDup_singleton].
    intros x Hx Hx'. apply list_elem_of_singleton in Hx'. subst x.
    apply list_elem_of_fmap in Hx as (n & En & Hnin). apply list_find_None in E.
    rewrite Forall_forall in E. apply (E n Hnin). unfold same_node, name in *. simpl in En.
    rewrite take_ge in En by lia. by injection En as -> ->.
  - eapply map_Forall_impl; [exact Hs|]. simpl. lia.
  - intros i j c E' Hc'. apply conn_at_snoc in E' as [E'|E']; [by apply (Hb i j c)|].
    cbn [new_node n_conns] in E'. apply lookup_replicate in E' as [-> _]. done.
  - rewrite fmap_app. by apply prefix_snoc.
Qed.

Lemma elem_of_zrange x s n : x ∈ zrange s n <-> s <= x < s + Z.of_nat n.
Proof.
  revert s. induction n as [|n IH]; intros s; cbn [zrange]; [rewrite elem_of_nil; lia|].
  rewrite elem_of_cons, IH. lia.
Qed.

Lemma map_slots_lookup s e v m k :
  map_slots s e v m !! k = if decide (s <= k <= e) then Some v else m !! k.
Proof.
  unfold map_slots.
  assert (H : forall l (m : gmap Z Z), fold_left (fun m i => <[i := v]> m) l m !! k = if decide (k ∈ l) then Some v else m !! k).
  { induction l as [|x l IH]; intros m'; cbn [fold_left]; [by rewrite decide_False by apply not_elem_of_nil|].
    rewrite IH, lookup_insert. repeat case_decide; set_solver. }
  rewrite H. repeat case_decide; rewrite ?elem_of_zrange in *; try done; lia.
Qed.

Lemma int8_small v : 0 <= v < 128 -> int8 v = v.
Proof. intros. unfold int8. rewrite Z.mod_small; lia. Qed.

Lemma inv_map cl0 b cl s e v :
  inv cl0 b cl -> 0 <= s -> e < VC_CLUSTER_SLOTS -> 0 <= v < node_count cl ->
  inv cl0 b (with_slots (map_slots s e v (cl_slot_map cl)) cl).
Proof.
  intros [[Hn Hc Hd Hs Hu Hp] Hb Hpre Hcr] H0 He Hv. split; [split|..]; try done.
  intros k i. cbn [with_slots cl_slot_map]. rewrite map_slots_lookup.
  change (node_count (with_slots _ _)) with (node_count cl).
  case_decide; [intros [= <-]; lia | apply Hs].
Qed.

Lemma inv_clear cl0 b cl : inv cl0 b cl -> inv cl0 b (with_slots ∅ cl).
Proof. intros [[Hn Hc Hd Hs Hu Hp] Hb Hpre Hcr]. split; [split|..]; try done. Qed.

Lemma read_addr_post fd ssl l :
  post (W := W) (read_addr fd ssl l) (fun '(host, port, _) => (length host <= 63)%nat /\ 0 <= port < 2 ^ 16).
Proof.
  assert (H : forall buf h, c_string_n 63 buf = Some h -> (length h <= 63)%nat).
  { intros buf h. unfold c_string_n. case_decide; [|done]. intros [= <-]. rewrite length_take. lia. }
  unfold read_addr. post_skip; apply post_ret; (split; [by eapply H | apply u16_range]).
Qed.

Lemma read_addrs_post cl0 b n first fd ssl l owner cl :
  inv cl0 b cl -> -1 <= owner < node_count cl ->
  post (W := W) (read_addrs n first fd ssl l owner cl)
    (fun '(o, cl') => inv cl0 b cl' /\ -1 <= o < node_count cl').
Proof.
  revert first l owner cl. induction n as [|n IH]; intros first l owner cl Hi Ho; cbn [read_addrs];
    [by apply post_ret|].
  apply post_any. intros [ok l1]. destruct (negb ok); [by apply post_ret|].
  eapply post_bind; [apply read_addr_post|]. intros [[host port] l2] [Hh Hp].
  destruct (node_find_or_add cl host port) as [idx cl'] eqn:E.
  destruct (inv_add _ _ _ _ _ _ _ Hi Hh Hp E) as (Hi' & Hidx & Hcnt). apply IH; [done|].
  destruct ((0 <=? idx) && first); lia.
Qed.

Lemma read_range_post cl0 b fd ssl cl :
  inv cl0 b cl -> post (W := W) (read_range fd ssl cl) (fun o => match o with Some cl' => inv cl0 b cl' | None => True end).
Proof.
  intros Hi. unfold read_range. post_skip; try by apply post_ret.
  eapply post_bind; [apply (read_addrs_post cl0 b); [done|unfold node_count; lia]|].
  intros [owner cl'] [Hi' Ho]. apply post_ret. destruct (Z.leb_spec 0 owner); [|done].
  pose proof (co_count _ (inv_ok _ _ _ Hi')). rewrite int8_small by (unfold VC_CLUSTER_MAX_NODES in *; lia).
  unfold VC_CLUSTER_SLOTS in *. apply inv_map; [done|..|lia]; repeat zcase; unfold VC_CLUSTER_SLOTS; lia.
Qed.

Lemma read_ranges_post cl0 b n fd ssl cl :
  inv cl0 b cl -> post (W := W) (read_ranges n fd ssl cl) (inv cl0 b).
Proof.
  revert cl. induction n as [|n IH]; intros cl Hi; cbn [read_ranges]; [by apply post_ret|].
  eapply post_bind; [by apply (read_range_post cl0 b)|]. intros [cl'|] Hi'; [by apply IH | by apply post_ret].
Qed.

Lemma inv_dead cl0 b i cl : inv cl0 b cl -> inv cl0 b (upd_node i (set_alive false) cl).
Proof. intros Hi. apply inv_upd_same; [done|]. intros n E Hn. split; [done|]. split; [by auto with vc|done]. Qed.

Lemma refresh_loop_post cl0 fuel ni cl :
  inv cl0 None cl -> post (W := W) (refresh_loop fuel ni cl) (fun '(_, cl') => inv cl0 None cl').
Proof.
  revert ni cl. induction fuel as [|fuel IH]; intros ni cl Hi; cbn [refresh_loop]; [by apply post_ret|].
  apply post_lift. intros node En. destruct (negb (n_alive node)); [by apply IH|].
  eapply post_bind; [by apply (inv_get cl0)|]. intros [[j|] cl1] Hi1; [|by apply IH].
  apply post_lift. intros nc Enc. apply post_any. intros sent. destruct (negb sent).
  { eapply post_bind; [by apply (inv_close cl0)|]. intros cl2 Hi2. by apply IH, inv_dead. }
  apply post_any. intros [ok line]. destruct (negb ok).
  { eapply post_bind; [by apply (inv_close cl0)|]. intros cl2 Hi2. by apply IH. }
  destruct (negb _); [by apply IH, inv_release|]. apply post_lift. intros nr Enr.
  eapply post_bind; [by apply (read_ranges_post cl0 (Some (ni, j))), inv_clear|].
  intros cl2 Hi2. by apply post_ret, inv_release.
Qed.

Lemma refresh_post cl0 cl :
  inv cl0 None cl -> post (W := W) (vc_cluster_refresh cl) (fun '(_, cl') => inv cl0 None cl').
Proof. apply refresh_loop_post. Qed.

Lemma health_node_post cl0 malloc_ok i cl :
  inv cl0 None cl -> post (W := W) (health_node malloc_ok i cl) (inv cl0 None).
Proof.
  intros Hi. unfold health_node. apply post_lift. intros node En. apply post_any. intros early.
  destruct early; [by apply post_ret|].
  eapply post_bind; [by apply (inv_get cl0)|]. intros [[j|] cl1] Hi1.
  - apply post_lift. intros nc Enc. apply post_any. intros sent. destruct (negb sent).
    + eapply post_bind; [by apply (inv_close cl0)|]. intros cl2 Hi2.
      eapply post_bind; [apply (refresh_post cl0)|intros [_ cl3] Hi3; by apply post_ret].
      apply inv_upd_same; [done|]. intros n E Hn. split; [done|]. split; [by auto with vc|done].
    + apply post_any. intros _. apply post_any. intros now. apply post_ret, inv_release.
      apply inv_upd_same; [done|]. intros n E Hn. split; [done|]. split; [by auto with vc|done].
  - apply post_any. intros now.
    eapply post_bind; [apply (refresh_post cl0)|intros [_ cl3] Hi3; by apply post_ret].
    apply inv_upd_same; [done|]. intros n E Hn. split; [done|]. split; [by auto with vc|done].
Qed.

Lemma health_loop_post cl0 fuel malloc_ok i cl :
  inv cl0 None cl -> post (W := W) (health_loop fuel malloc_ok i cl) (inv cl0 None).
Proof.
  revert i cl. induction fuel as [|fuel IH]; intros i cl Hi; cbn [health_loop];
    (destruct (_ <=? i)%nat; [by apply post_ret|]); [apply post_ub|].
  eapply post_bind; [by apply (health_node_post cl0)|]. intros cl' Hi'. by apply IH.
Qed.

Lemma parse_hostport_ok s hsz host port :
  parse_hostport s hsz = Some (host, port) -> (length host < hsz)%nat /\ 0 < port < 2 ^ 16.
Proof.
  unfold parse_hostport. destruct (strrchr 58 s) as [k|]; [|done].
  destruct (Nat.leb_spec hsz k); [done|]. destruct (Z.ltb_spec 0 (u16 (atoi (drop (S k) s)))); [|done].
  intros [= <- <-]. rewrite length_take. pose proof (u16_range (atoi (drop (S k) s))). lia.
Qed.

Lemma moved_to_ok rep host port :
  moved_to rep = Some (host, port) -> (length host <= 63)%nat /\ 0 <= port < 2 ^ 16.
Proof.
  unfold moved_to. intros E. apply bind_Some in E as (sp & _ & E).
  apply parse_hostport_ok in E. lia.
Qed.

Lemma cmd_attempts_post cl0 n malloc_ok ni cmd cl :
  inv cl0 None cl ->
  post (W := W) (cmd_attempts n malloc_ok ni cmd cl)
    (fun '(e, r, cl') => inv cl0 None cl' /\ (e = VC_CLUSTER_OK <-> is_Some r)).
Proof.
  assert (Herr : forall e (r : option (list Z)) cl', e <> VC_CLUSTER_OK -> r = None -> inv cl0 None cl' ->
    inv cl0 None cl' /\ (e = VC_CLUSTER_OK <-> is_Some r)).
  { intros e r cl' He -> Hi. split; [done|]. split; [done|]. by intros [? ?]. }
  revert ni cl. induction n as [|n IH]; intros ni cl Hi; cbn [cmd_attempts].
  { apply post_ret. by apply Herr. }
  destruct (_ || _); [apply post_ret; by apply Herr|]. apply post_lift. intros node En.
  destruct (if n_alive node then _ else _) as [i|]; [|apply post_ret; by apply Herr].
  eapply post_bind; [by apply (inv_get cl0)|]. intros [[j|] cl1] Hi1; [|by apply IH, inv_dead].
  apply post_lift. intros nc Enc. apply post_any. intros sent. destruct (negb sent).
  { eapply post_bind; [by apply (inv_close cl0)|]. intros cl2 Hi2. by apply IH, inv_dead. }
  apply post_any. intros [r|]; [|by apply IH, inv_dead, inv_release].
  destruct (is_moved r); [|apply post_ret; split; [by apply inv_release|by split]].
  destruct (moved_to r) as [[host port]|] eqn:Em; [|by apply IH, inv_release].
  destruct (moved_to_ok _ _ _ Em) as [Hh Hp].
  destruct (node_find_or_add _ host port) as [ni' cl2] eqn:Ef.
  destruct (inv_add _ _ _ _ _ _ _ (inv_release _ _ _ _ Hi1) Hh Hp Ef) as (Hi2 & _).
  eapply post_bind; [by apply (refresh_post cl0)|]. intros [_ cl3] Hi3. by apply IH.
Qed.

End Preserve.
