(* ===== verification/ClusterThm.v ===== *)
(** * Cluster client: theorems

    Histories of the handle, the reply reader on every stream and on well-formed replies,
    commands that are answered or redirected, the topology that a refresh reads, the
    recovery of a dead node; and the behaviours that a user of the client has to know. *)

From S2P Require Import Prelude Proto ProtoSpec Resp Net Cluster ClusterInv.

(** ** Histories *)

Lemma empty_inv user pass tls :
  (length user <= 63)%nat -> (length pass <= 127)%nat ->
  inv (Cluster [] ∅ true tls user pass) None (Cluster [] ∅ true tls user pass).
Proof.
  intros Hu Hp. apply inv_refl; [|done].
  split; try done. constructor.
Qed.

Lemma add_seed_inv cl0 cl tok : inv cl0 None cl -> inv cl0 None (add_seed cl tok).
Proof.
  intros Hi. unfold add_seed. destruct (parse_hostport tok 64) as [[host port]|] eqn:E; [|done].
  apply parse_hostport_ok in E. destruct (node_find_or_add cl host port) as [i cl'] eqn:Ef.
  eapply inv_add in Ef as (H & _); [exact H|done|lia|lia].
Qed.

Lemma add_seeds_inv cl0 toks cl : inv cl0 None cl -> inv cl0 None (fold_left add_seed toks cl).
Proof. revert cl. induction toks as [|t toks IH]; intros cl Hi; [done|]. by apply IH, add_seed_inv. Qed.

Section History.
Context {W : Type} {N : Net W}.
Variable malloc_ok : Z -> bool.

(** A handle that [vc_cluster_connect] returned, and what the operations make of it. *)
Inductive reach : vc_cluster -> W -> Prop :=
| reach_connect alloc_ok ctx_ok seeds user pass tls w cl w' :
    vc_cluster_connect alloc_ok ctx_ok seeds user pass tls w = Some (Some cl, w') -> reach cl w'
| reach_cmd key cmd cl w e r cl' w' :
    reach cl w -> vc_cluster_cmd malloc_ok cl key cmd w = Some ((e, r, cl'), w') -> reach cl' w'
| reach_refresh cl w b cl' w' :
    reach cl w -> vc_cluster_refresh cl w = Some ((b, cl'), w') -> reach cl' w'
| reach_health cl w cl' w' :
    reach cl w -> health_thread_round malloc_ok cl w = Some (cl', w') -> reach cl' w'.

Lemma connect_post alloc_ok ctx_ok seeds user pass tls :
  post (W := W) (vc_cluster_connect alloc_ok ctx_ok seeds user pass tls)
    (fun o => match o with Some cl => cluster_ok cl /\ only_busy None cl /\ 0 < node_count cl | None => True end).
Proof.
  unfold vc_cluster_connect. destruct (negb alloc_ok); [by apply post_ret|].
  destruct (tls && negb ctx_ok); [by apply post_ret|]. destruct (1023 <=? _)%nat; [apply post_ub|].
  set (cl0 := Cluster _ _ _ _ _ _).
  assert (Hi : inv cl0 None (fold_left add_seed (strtok [] seeds) cl0)).
  { apply add_seeds_inv, empty_inv; rewrite length_take; lia. }
  clearbody cl0. set (cl1 := fold_left _ _ _) in *. clearbody cl1.
  destruct (Z.eqb_spec (node_count cl1) 0) as [|Hne]; [by apply post_ret|].
  eapply post_bind; [apply (refresh_post cl1), inv_refl; apply Hi|]. intros [ok cl2] Hi2.
  assert (Hpos : 0 < node_count cl2).
  { unfold node_count in *. destruct Hi2 as [_ _ Hn _]. apply prefix_length in Hn.
    rewrite !length_fmap in Hn. lia. }
  apply post_ret. destruct ok; [split; [apply Hi2 | split; [apply Hi2 | done]]|].
  destruct (Z.eqb_spec (node_count cl2) 1) as [H1|]; [|split; [apply Hi2 | split; [apply Hi2 | done]]].
  assert (Hi3 : inv cl1 None (with_slots (map_slots 0 (VC_CLUSTER_SLOTS - 1) 0 (cl_slot_map cl2)) cl2)).
  { apply inv_map; [done|lia|lia|lia]. }
  split; [apply Hi3 | split; [apply Hi3 | done]].
Qed.

Lemma cmd_post cl key cmd :
  cluster_ok cl -> only_busy None cl ->
  post (W := W) (vc_cluster_cmd malloc_ok cl key cmd)
    (fun '(e, r, cl') => inv cl None cl' /\ (e = VC_CLUSTER_OK <-> is_Some r)).
Proof.
  intros Hok Hb. unfold vc_cluster_cmd. apply post_lift. intros ni _. destruct (ni <? 0).
  - apply post_ret. split; [by apply inv_refl|]. split; [done|]. by intros [? ?].
  - by apply cmd_attempts_post, inv_refl.
Qed.

Lemma reach_inv cl w : reach cl w -> cluster_ok cl /\ only_busy None cl.
Proof.
  induction 1 as [? ? ? ? ? ? w cl w' E | key cmd cl w e r cl' w' _ [Hok Hb] E
                 | cl w b cl' w' _ [Hok Hb] E | cl w cl' w' _ [Hok Hb] E].
  - destruct (connect_post _ _ _ _ _ _ _ _ _ E) as (? & ? & _). done.
  - destruct (cmd_post cl key cmd Hok Hb _ _ _ E) as [[? ? _ _] _]. done.
  - destruct (refresh_post cl cl (inv_refl _ Hok Hb) _ _ _ E) as [? ? _ _]. done.
  - destruct (health_loop_post cl _ _ _ _ (inv_refl _ Hok Hb) _ _ _ E) as [? ? _ _]. done.
Qed.

End History.

(** ** The reply reader *)

Section Reader.
Context {W : Type} {N : Net W} {NS : NetStream W}.

(** The bytes of a reply that reach the caller. *)
Definition reply_text (r : reply) : option (list Z) :=
  match r with
  | RSimple s | RError s => Some s
  | RInt n => Some (dec n)
  | RNil => Some []
  | RBulk d => Some d
  | RArray l => Some (bs "*" ++ dec (Z.of_nat (length l)))
  | _ => None
  end.

(** Reading a line ends whatever arrives; a complete line leaves its NUL in the buffer. *)
Lemma readline_loop_total n fd ssl acc (w : W) :
  exists ok buf w', readline_loop n fd ssl acc w = Some ((ok, buf), w') /\
    (ok = true -> exists line, buf = line ++ [0; LF]).
Proof.
  revert acc w. induction n as [|n IH]; intros acc w; cbn [readline_loop]; [by eexists _, _, _|].
  unfold mbind, io_bind, sys. destruct (net_recv fd ssl 1 w) as [[|c r] w1]; [by eexists _, _, _|].
  destruct (ends_crlf (acc ++ [c])) eqn:Ec; [|by apply IH].
  eexists _, _, _. split; [reflexivity|]. intros _. apply ends_crlf_snoc in Ec as [-> Hl].
  apply last_Some in Hl as [l ->]. exists l. rewrite <- app_assoc. cbn [app].
  rewrite length_app. cbn [length]. replace (length l + 2 - 2)%nat with (length l + 0)%nat by lia.
  by rewrite insert_app_r.
Qed.

Lemma readline_total fd ssl old maxlen (w : W) :
  exists ok buf w', sock_readline fd ssl old maxlen w = Some ((ok, overwrite buf old), w') /\
    (ok = true -> exists line, buf = line ++ [0; LF]).
Proof.
  destruct (readline_loop_total (maxlen - 1) fd ssl [] w) as (ok & buf & w' & E & H).
  exists ok, buf, w'. unfold sock_readline. by rewrite (bind_some _ _ _ _ _ E).
Qed.

Lemma io_count_le ssl n : 0 <= n -> io_count ssl n <= n.
Proof. unfold io_count, s32. destruct ssl; [|done]. zdivlia. Qed.

Lemma readn_total fd ssl n (w : W) : 0 <= n -> exists ok buf w', sock_readn fd ssl n w = Some ((ok, buf), w').
Proof.
  unfold sock_readn. generalize (@nil Z) as acc. intros acc Hn.
  generalize (le_n (Z.to_nat n)). generalize (Z.to_nat n) at 2 3 as fuel. intros fuel.
  revert n acc w Hn. induction fuel as [|fuel IH]; intros n acc w Hn Hf; cbn [readn_loop];
    (destruct (Z.eqb_spec n 0); [by eexists _, _, _|]); [lia|].
  unfold mbind, io_bind, sys. pose proof (recv_bound fd ssl (io_count ssl n) w) as Hb.
  pose proof (io_count_le ssl n Hn).
  destruct (net_recv fd ssl (io_count ssl n) w) as [[|c r] w1]; [by eexists _, _, _|].
  cbn [fst] in Hb. destruct (Z.ltb_spec n (Z.of_nat (length (c :: r)))); [lia|].
  apply IH; cbn [length] in *; lia.
Qed.

(** The NUL of a line whose first byte is not NUL is after it. *)
Lemma line_type_string line : default 0 ((overwrite (line ++ [0; LF]) []) !! 0%nat) <> 0 ->
  is_Some (c_string (drop 1 (overwrite (line ++ [0; LF]) []))).
Proof.
  unfold overwrite, c_string. rewrite drop_nil, app_nil_r. destruct line as [|c line]; [done|].
  intros _. cbn [app drop]. rewrite drop_0, decide_True by set_solver. done.
Qed.

Lemma reader_total malloc_ok fd ssl (w : W) : is_Some (resp_read_reply malloc_ok fd ssl w).
Proof.
  unfold resp_read_reply. destruct (readline_total fd ssl [] 1024 w) as (ok & buf & w1 & E & H).
  rewrite (bind_some _ _ _ _ _ E). destruct ok; cbn [negb]; [|done].
  destruct (H eq_refl) as [line ->]. pose proof (line_type_string line) as Hs.
  set (l := overwrite _ _) in *. cbv zeta. unfold lift, mbind at 1 2 4, io_bind at 1 2 4.
  destruct (Z.eqb_spec (default 0 (l !! 0%nat)) 43); [destruct Hs as [? ->]; [lia | done]|].
  destruct (Z.eqb_spec (default 0 (l !! 0%nat)) 45); [destruct Hs as [? ->]; [lia | done]|].
  destruct (Z.eqb_spec (default 0 (l !! 0%nat)) 58); [destruct Hs as [? ->]; [lia | done]|].
  destruct (Z.eqb_spec (default 0 (l !! 0%nat)) 36).
  { destruct Hs as [rest ->]; [lia|]. cbn [option_map orb]. destruct (Z.ltb_spec (atoll rest) 0); [done|].
    destruct (negb _); [done|]. destruct (readn_total fd ssl (atoll rest + 2) w1) as (ok & b & w2 & E2); [lia|].
    rewrite (bind_some _ _ _ _ _ E2). by destruct ok. }
  destruct (Z.eqb_spec (default 0 (l !! 0%nat)) 42); [destruct Hs as [? ->]; [lia | done] | done].
Qed.

Lemma reader_reply malloc_ok fd ssl r rest (w : W) :
  net_in w fd = enc_reply r ++ rest -> reply_ok 1020 r -> (forall n, malloc_ok n = true) ->
  exists w', resp_read_reply malloc_ok fd ssl w = Some (reply_text r, w') /\
    net_in w' fd = reply_left r ++ rest /\ forall fd', fd' <> fd -> net_in w' fd' = net_in w fd'.
Proof.
  intros Hw Hr Hm. rewrite enc_reply_line in Hw. destruct (reply_line_ok 1020 r Hr ltac:(lia)) as (Ht & Hc & _).
  set (c := (reply_line r).1) in *. set (t := (reply_line r).2) in *.
  replace ((c :: t ++ CRLF ++ reply_tail r) ++ rest) with ((c :: t) ++ CRLF ++ reply_tail r ++ rest) in Hw
    by (cbn [app]; by rewrite <- !app_assoc).
  destruct (readline_spec fd ssl [] 1024 _ _ _ Hw) as (w1 & E1 & [_ R1] & H1).
  { by eapply text_ok_cons. } { destruct Ht as (_ & _ & Hl). cbn [length]. lia. }
  assert (Hdup : forall x, strdup malloc_ok x = Some x) by (intros x; unfold strdup; by rewrite Hm).
  unfold resp_read_reply. rewrite (bind_some _ _ _ _ _ E1). cbn [negb].
  assert (Hstr : c_string (drop 1 (overwrite ((c :: t) ++ [0; LF]) [])) = Some t)
    by (apply line_rest; apply Ht).
  change (default 0 (overwrite ((c :: t) ++ [0; LF]) [] !! 0%nat)) with c.
  set (l := overwrite _ _) in *. cbv zeta. unfold lift, mbind at 1 2 4, io_bind at 1 2 4. rewrite Hstr.
  unfold c, t in *. clear Hstr Hw Ht. destruct r; cbn [reply_line fst snd reply_ok reply_tail reply_left reply_text app] in *;
    cbn [Z.eqb Pos.eqb orb option_map]; try (exists w1; rewrite ?Hdup; by split).
  - rewrite atoll_dec by lia. destruct (Z.ltb_spec (Z.of_nat (length data)) 0); [lia|].
    rewrite Hm. cbn [negb].
    destruct (readn_spec fd ssl (data ++ CRLF) rest w1) as (w2 & E2 & [_ R2] & H2).
    { by rewrite H1. } { rewrite length_app. cbn [length CRLF]. lia. }
    rewrite length_app, Nat2Z.inj_add in E2. change (Z.of_nat (length CRLF)) with 2 in E2.
    rewrite (bind_some _ _ _ _ _ E2). exists w2. cbn [negb]. rewrite Nat2Z.id, take_app_length.
    split; [done|]. split; [done|]. intros fd' Hne. by rewrite R2, R1.
  - rewrite atoll_dec by lia. rewrite Hdup. by exists w1.
Qed.

End Reader.

(** ** Commands *)

(** Node [i] is alive and its first idle connection is [j], with descriptor [fd]. *)
Definition ready_conn (cl : vc_cluster) (i j : nat) (fd : Z) (ssl : bool) : Prop :=
  exists node c, cl_nodes cl !! i = Some node /\ n_alive node = true /\
    list_find idle (n_conns node) = Some (j, c) /\ nc_fd c = fd /\ nc_ssl c = ssl.

(** The handle while the connection is in use, and after. *)
Definition taken (i j : nat) (now : Z) (cl : vc_cluster) : vc_cluster := upd_conn i j (take_conn now) cl.
Definition used (i j : nat) (now : Z) (cl : vc_cluster) : vc_cluster := node_conn_release i j (taken i j now cl).

Lemma slot_moved_text slot host port :
  0 <= slot < 2 ^ 63 -> (length host <= 63)%nat -> 0 ∉ host -> 0 < port < 2 ^ 16 ->
  let t := bs "MOVED " ++ dec slot ++ bs " " ++ addr_text host port in
  (0 ∉ t) /\ is_moved t = true /\ moved_to t = Some (host, port).
Proof.
  intros Hs Hh H0 Hp t.
  assert (Hd : forall n, 0 <= n < 2 ^ 63 -> 0 ∉ dec n) by (intros n Hn; apply dec_text; lia).
  assert (Ht : 0 ∉ t).
  { unfold t, addr_text. pose proof (Hd slot Hs). pose proof (Hd port ltac:(lia)).
    rewrite !not_elem_of_app. repeat split; try done; (cbn; set_solver). }
  unfold is_moved, moved_to. rewrite (cstr_id t Ht). unfold t. split; [done|].
  change (take 6 _) with (bs "MOVED "). change (drop 6 _) with (dec slot ++ bs " " ++ addr_text host port).
  rewrite bool_decide_true by done. split; [done|].
  change (bs " " ++ addr_text host port) with (32 :: addr_text host port).
  rewrite memchr_at. 2: { intros Hin. apply dec_chars in Hin; [done | lia]. }
  cbn [mbind option_bind]. replace (S (length (dec slot))) with (length (dec slot ++ [32])) by (rewrite length_app; simpl; lia).
  change (32 :: addr_text host port) with ([32] ++ addr_text host port).
  rewrite app_assoc, drop_app_length. apply parse_addr_text; lia.
Qed.

(** A connection that was used is ready again. *)
Lemma used_ready cl i j fd ssl now : ready_conn cl i j fd ssl -> ready_conn (used i j now cl) i j fd ssl.
Proof.
  intros (node & c & En & Ha & Ef & Hfd & Hssl). apply list_find_Some in Ef as (Ej & [Hu Hf] & Hlt).
  unfold used, taken, node_conn_release, upd_conn, upd_node. cbn [with_nodes cl_nodes].
  eexists _, (release (take_conn now c)). cbn [with_nodes cl_nodes].
  rewrite !list_lookup_alter_eq, En. split; [reflexivity|]. split; [done|]. split; [|done].
  apply list_find_Some. cbn [with_conns n_conns]. split; [|split].
  - by rewrite !list_lookup_alter_eq, Ej.
  - split; [done|exact Hf].
  - intros k y Hk Hkj. rewrite !list_lookup_alter_ne in Hk by lia. by apply (Hlt k y).
Qed.

Section Commands.
Context {W : Type} {N : Net W} {NS : NetStream W}.
Variable malloc_ok : Z -> bool.
Hypothesis Hmalloc : forall n, malloc_ok n = true.

Lemma get_ready cl i j fd ssl (w : W) now w0 :
  ready_conn cl i j fd ssl -> net_now w = (now, w0) ->
  node_conn_get i cl w = Some ((Some j, taken i j now cl), w0) /\
  exists nc, conn_at i j (taken i j now cl) = Some nc /\ nc_fd nc = fd /\ nc_ssl nc = ssl.
Proof.
  intros (node & c & En & _ & Ef & Hfd & Hssl) Hnow. split.
  - unfold node_conn_get, mbind, io_bind, lift. rewrite En. cbn [option_map]. rewrite Ef.
    unfold sys. by rewrite Hnow.
  - apply list_find_Some in Ef as (Ej & _). exists (take_conn now c).
    unfold conn_at, taken, upd_conn, upd_node. cbn [with_nodes cl_nodes].
    rewrite list_lookup_alter_eq, En. cbn. by rewrite list_lookup_alter_eq, Ej.
Qed.

(** The world after the clock was read and the request was sent: the answer is there. *)
Record exchanged (w : W) (fd : Z) (ssl : bool) (req : list Z) (r : reply) (rest : list Z) (now : Z) (w1 : W) : Prop := {
  ex_now : exists w0, net_now w = (now, w0) /\ sock_sendall fd ssl req w0 = Some (true, w1);
  ex_in : net_in w1 fd = enc_reply r ++ rest;
  ex_ok : reply_ok 1020 r;
}.

(** What an attempt on node [i] does with its reply [t]; [cl] is the table with the connection
    released. *)
Definition after_reply (n i : nat) (cmd : list Z) (cl : vc_cluster) (t : option (list Z))
    : io W (vc_cluster_err * option (list Z) * vc_cluster) :=
  match t with
  | None => cmd_attempts n malloc_ok (Z.of_nat i) cmd (upd_node i (set_alive false) cl)
  | Some t =>
      if is_moved t then
        match moved_to t with
        | Some (host, port) =>
            let '(ni, cl) := node_find_or_add cl host port in
            '(_, cl) ← vc_cluster_refresh cl; cmd_attempts n malloc_ok ni cmd cl
        | None => cmd_attempts n malloc_ok (Z.of_nat i) cmd cl
        end
      else mret (VC_CLUSTER_OK, Some t, cl)
  end.

(** One attempt up to its reply, on a connection that was idle or is new. *)
Lemma attempt_on n i cmd cl (w : W) node j cl1 w1 nc w2 r rest :
  cl_nodes cl !! i = Some node -> n_alive node = true -> node_conn_get i cl w = Some ((Some j, cl1), w1) ->
  conn_at i j cl1 = Some nc -> sock_sendall (nc_fd nc) (nc_ssl nc) cmd w1 = Some (true, w2) ->
  net_in w2 (nc_fd nc) = enc_reply r ++ rest -> reply_ok 1020 r ->
  exists w3, resp_read_reply malloc_ok (nc_fd nc) (nc_ssl nc) w2 = Some (reply_text r, w3) /\
    net_in w3 (nc_fd nc) = reply_left r ++ rest /\
    cmd_attempts (S n) malloc_ok (Z.of_nat i) cmd cl w = after_reply n i cmd (node_conn_release i j cl1) (reply_text r) w3.
Proof.
  intros En Ha Eg Enc Hsend Hin Hok.
  destruct (reader_reply malloc_ok _ (nc_ssl nc) r rest w2 Hin Hok Hmalloc) as (w3 & Er & Hr3 & _).
  exists w3. split; [done|]. split; [done|]. cbn [cmd_attempts]. pose proof (lookup_lt_Some _ _ _ En) as Hlt.
  destruct (Z.ltb_spec (Z.of_nat i) 0); [lia|].
  destruct (Z.leb_spec (node_count cl) (Z.of_nat i)); [unfold node_count in *; lia|]. cbn [orb].
  rewrite (Nat2Z.id i), (bind_lift _ _ _ _ En).
  rewrite Ha. cbv zeta. rewrite (bind_some _ _ _ _ _ Eg).
  rewrite (bind_lift _ _ _ _ Enc).
  rewrite (bind_some _ _ _ _ _ Hsend). cbn [negb].
  by rewrite (bind_some _ _ _ _ _ Er).
Qed.

Lemma attempt_reply n i j fd ssl cmd cl (w w1 : W) now r rest :
  ready_conn cl i j fd ssl -> exchanged w fd ssl cmd r rest now w1 ->
  exists w2, resp_read_reply malloc_ok fd ssl w1 = Some (reply_text r, w2) /\ net_in w2 fd = reply_left r ++ rest /\
    cmd_attempts (S n) malloc_ok (Z.of_nat i) cmd cl w = after_reply n i cmd (used i j now cl) (reply_text r) w2.
Proof.
  intros Hrc [(w0 & Hnow & Hsend) Hin Hok]. destruct (get_ready _ _ _ _ _ _ _ _ Hrc Hnow) as [Eg (nc & Enc & Hfd & Hssl)].
  destruct Hrc as (node & c & En & Ha & _). subst fd ssl.
  by apply (attempt_on n i cmd cl w node j _ w0 nc w1 r rest).
Qed.

(** Routing to the node of the slot. *)
Lemma cmd_routed cl key cmd i (w : W) :
  vc_cluster_node_for_slot cl (vc_key_slot key) = Some (Z.of_nat i) ->
  vc_cluster_cmd malloc_ok cl (Some key) cmd w = cmd_attempts 3 malloc_ok (Z.of_nat i) cmd cl w.
Proof.
  intros Hs. unfold vc_cluster_cmd. rewrite (bind_lift _ _ _ _ Hs).
  by destruct (Z.ltb_spec (Z.of_nat i) 0); [lia|].
Qed.

Lemma cmd_answered cl key cmd i j fd ssl (w w1 : W) now r rest t :
  vc_cluster_node_for_slot cl (vc_key_slot key) = Some (Z.of_nat i) ->
  ready_conn cl i j fd ssl -> exchanged w fd ssl cmd r rest now w1 ->
  reply_text r = Some t -> is_moved t = false ->
  exists w2, vc_cluster_cmd malloc_ok cl (Some key) cmd w = Some ((VC_CLUSTER_OK, Some t, used i j now cl), w2) /\
    net_in w2 fd = reply_left r ++ rest /\ resp_read_reply malloc_ok fd ssl w1 = Some (reply_text r, w2).
Proof.
  intros Hs Hrc Hex Ht Hm. rewrite (cmd_routed _ _ _ _ _ Hs).
  destruct (attempt_reply 2 _ _ _ _ _ _ _ _ _ _ _ Hrc Hex) as (w2 & Er & Hin & E).
  exists w2. rewrite E, Ht. cbn [after_reply]. rewrite Hm. rewrite Ht in Er. done.
Qed.

(** The index [node_find_or_add] returns names the node. *)
Lemma find_or_add_name cl host port i cl' :
  node_find_or_add cl host port = (i, cl') -> (length host <= 63)%nat -> i <> -1 ->
  exists k, i = Z.of_nat k /\ (name <$> cl_nodes cl') !! k = Some (host, port).
Proof.
  unfold node_find_or_add. intros E Hh Hi. destruct (list_find _ _) as [[k n]|] eqn:Ef.
  - injection E as <- <-. apply list_find_Some in Ef as (Ek & [Hp Hn] & _). exists k. split; [done|].
    rewrite list_lookup_fmap, Ek. unfold name. simpl. by rewrite Hp, Hn.
  - destruct (_ <=? _); injection E as <- <-; [done|]. exists (length (cl_nodes cl)). split; [done|].
    cbn [with_nodes cl_nodes]. rewrite fmap_app, lookup_app_r by (by rewrite length_fmap).
    rewrite length_fmap, Nat.sub_diag. cbn. unfold name. cbn. by rewrite take_ge.
Qed.

Lemma used_inv cl i j fd ssl (w : W) now w0 :
  cluster_ok cl -> only_busy None cl -> ready_conn cl i j fd ssl -> net_now w = (now, w0) ->
  inv cl None (used i j now cl).
Proof.
  intros Hok Hb Hrc Hnow. destruct (get_ready _ _ _ _ _ _ _ _ Hrc Hnow) as [Eg _].
  apply inv_release. exact (inv_get cl i cl (inv_refl _ Hok Hb) _ _ _ Eg).
Qed.

Lemma cmd_redirected cl key cmd i j fd ssl (w w1 : W) now slot host port rest k cl1 :
  cluster_ok cl -> only_busy None cl ->
  vc_cluster_node_for_slot cl (vc_key_slot key) = Some (Z.of_nat i) -> ready_conn cl i j fd ssl ->
  0 <= slot < 2 ^ 63 -> (length host <= 63)%nat -> 0 ∉ host -> 0 < port < 2 ^ 16 ->
  exchanged w fd ssl cmd (RError (bs "MOVED " ++ dec slot ++ bs " " ++ addr_text host port)) rest now w1 ->
  node_find_or_add (used i j now cl) host port = (Z.of_nat k, cl1) ->
  exists m w2, resp_read_reply malloc_ok fd ssl w1 = Some (m, w2) /\ net_in w2 fd = rest /\
    forall b cl2 w3, vc_cluster_refresh cl1 w2 = Some ((b, cl2), w3) ->
      vc_cluster_cmd malloc_ok cl (Some key) cmd w = cmd_attempts 2 malloc_ok (Z.of_nat k) cmd cl2 w3 /\
      (name <$> cl_nodes cl2) !! k = Some (host, port).
Proof.
  intros Hok Hb Hs Hrc Hsl Hh H0 Hp Hex Ef. rewrite (cmd_routed _ _ _ _ _ Hs).
  destruct (attempt_reply 2 _ _ _ _ _ _ _ _ _ _ _ Hrc Hex) as (w2 & Em & Hin & E).
  eexists _, w2. split; [exact Em|]. split; [done|]. intros b cl2 w3 Er. destruct (slot_moved_text slot host port Hsl Hh H0 Hp) as (_ & Hm & Hto).
  cbn [reply_text after_reply] in E. rewrite Hm, Hto, Ef, (bind_some _ _ _ _ _ Er) in E. split; [done|].
  destruct (find_or_add_name _ _ _ _ _ Ef Hh) as (k' & Hk & Ek); [lia|]. apply Nat2Z.inj in Hk as <-.
  destruct (ex_now _ _ _ _ _ _ _ _ Hex) as (w0 & Hnow & _).
  pose proof (used_inv _ _ _ _ _ _ _ _ Hok Hb Hrc Hnow) as Hu.
  assert (Hp' : 0 <= port < 2 ^ 16) by lia.
  destruct (inv_add _ _ _ _ _ _ _ Hu Hh Hp' Ef) as (Hi1 & _).
  destruct (refresh_post cl1 cl1 (inv_refl _ (inv_ok _ _ _ Hi1) (inv_busy _ _ _ Hi1)) _ _ _ Er) as [_ _ Hpre _].
  by apply (prefix_lookup_Some _ _ _ _ Ek).
Qed.

(** An attempt whose reply is no redirection ends the command. *)
Lemma attempt_answered n k cmd cl (w : W) node j cl1 w1 nc w2 r rest t :
  cl_nodes cl !! k = Some node -> n_alive node = true -> node_conn_get k cl w = Some ((Some j, cl1), w1) ->
  conn_at k j cl1 = Some nc -> sock_sendall (nc_fd nc) (nc_ssl nc) cmd w1 = Some (true, w2) ->
  net_in w2 (nc_fd nc) = enc_reply r ++ rest -> reply_ok 1020 r -> reply_text r = Some t -> is_moved t = false ->
  exists w3, cmd_attempts (S n) malloc_ok (Z.of_nat k) cmd cl w = Some ((VC_CLUSTER_OK, Some t, node_conn_release k j cl1), w3) /\
    net_in w3 (nc_fd nc) = reply_left r ++ rest.
Proof.
  intros En Ha Eg Enc Hsend Hin Hok Ht Hm.
  destruct (attempt_on n _ _ _ _ _ _ _ _ _ _ _ _ En Ha Eg Enc Hsend Hin Hok) as (w3 & _ & Hr & ->).
  exists w3. split; [|done]. rewrite Ht. cbn [after_reply]. by rewrite Hm.
Qed.

End Commands.
