(* ===== verification/ClusterTopo.v ===== *)
(** * Cluster client: topology

    The reply to CLUSTER SLOTS that the parser of [vc_cluster_refresh] understands, and
    the slot map it makes of it: every slot is routed to the first address of the last
    range that has it. *)

From S2P Require Import Prelude Proto ProtoSpec Resp Net Cluster ClusterInv ClusterThm.

(** ** The reply *)

Record range := Range { rg_start : Z; rg_end : Z; rg_addrs : list (list Z * Z) }.

Definition enc_addr (a : list Z * Z) : list Z := header 42 2 ++ enc_bulk (a.1) ++ header 58 (a.2).

Definition enc_range (r : range) : list Z :=
  header 42 3 ++ header 58 (rg_start r) ++ header 58 (rg_end r) ++
  header 42 (Z.of_nat (length (rg_addrs r))) ++ concat (enc_addr <$> rg_addrs r).

Definition enc_topology (t : list range) : list Z :=
  header 42 (Z.of_nat (length t)) ++ concat (enc_range <$> t).

Definition addr_ok (a : list Z * Z) : Prop := (length a.1 <= 63)%nat /\ (0 ∉ a.1) /\ 0 <= a.2 < 2 ^ 16.

Record range_ok (r : range) : Prop := {
  ro_start : 0 <= rg_start r < VC_CLUSTER_SLOTS;
  ro_end : 0 <= rg_end r < VC_CLUSTER_SLOTS;
  ro_addrs : Forall addr_ok (rg_addrs r);
  ro_some : rg_addrs r <> [];
  ro_len : (length (rg_addrs r) <= 64)%nat;
}.

(** ** Its meaning *)

(** The address that serves a slot: the first one of the last range that has it. *)
Definition owner_of (t : list range) (s : Z) : option (list Z * Z) :=
  fold_left (fun o r => if (rg_start r <=? s) && (s <=? rg_end r) then head (rg_addrs r) else o) t None.

Definition all_addrs (t : list range) : list (list Z * Z) := t ≫= rg_addrs.

(** The slot map routes every slot to the node with the name [own] gives. *)
Definition routes (cl : vc_cluster) (own : Z -> option (list Z * Z)) : Prop :=
  forall s, 0 <= s < VC_CLUSTER_SLOTS ->
    match own s with
    | None => cl_slot_map cl !! s = None
    | Some a => exists k, cl_slot_map cl !! s = Some (Z.of_nat k) /\ (name <$> cl_nodes cl) !! k = Some a
    end.

Definition add_addr (cl : vc_cluster) (a : list Z * Z) : vc_cluster := (node_find_or_add cl a.1 a.2).2.

(** What one range does to the handle. *)
Definition apply_range (cl : vc_cluster) (r : range) : vc_cluster :=
  let owner := match rg_addrs r with a :: _ => (node_find_or_add cl a.1 a.2).1 | [] => -1 end in
  let cl := fold_left add_addr (rg_addrs r) cl in
  if 0 <=? owner then with_slots (map_slots (rg_start r) (rg_end r) (int8 owner) (cl_slot_map cl)) cl else cl.

(** ** The parser reads it *)

Section Parse.
Context {W : Type} {N : Net W} {NS : NetStream W}.

(** A header line into a buffer of 256 bytes: its number can be read after the type. *)
Lemma read_header fd ssl old c n rest (w : W) :
  net_in w fd = header c n ++ rest -> c <> CR -> - 2 ^ 63 <= n < 2 ^ 63 ->
  exists w' buf, sock_readline fd ssl old 256 w = Some ((true, buf), w') /\ net_in w' fd = rest /\
    buf !! 0%nat = Some c /\ c_string (drop 1 buf) = Some (dec n).
Proof.
  intros Hw Hc Hn. destruct (dec_text n Hn) as (Hcr & H0 & Hl).
  destruct (readline_spec fd ssl old 256 (c :: dec n) rest w) as (w' & E & _ & Hr).
  - unfold header in Hw. cbn [app] in *. by rewrite <- app_assoc in Hw.
  - set_solver.
  - cbn [length]. lia.
  - exists w', (overwrite ((c :: dec n) ++ [0; LF]) old). split; [done|]. split; [done|]. split; [done|].
    by apply line_rest.
Qed.

Lemma put_nul_host (h : list Z) : 0 ∉ h -> (length h <= 63)%nat ->
  c_string_n 63 (put_nul (Z.of_nat (length h)) (h ++ CRLF)) = Some h.
Proof.
  intros H0 Hl. rewrite put_nul_crlf. unfold c_string_n. rewrite decide_True by (left; set_solver).
  by rewrite cstr_nul, take_ge.
Qed.

Lemma read_addr_spec fd ssl l h p rest (w : W) :
  l !! 0%nat = Some 42 -> addr_ok (h, p) -> net_in w fd = enc_bulk h ++ header 58 p ++ rest ->
  exists w', read_addr fd ssl l w = Some ((h, p, l), w') /\ net_in w' fd = rest.
Proof.
  intros Hl (Hh & H0 & Hp) Hw. cbn [fst snd] in *. unfold read_addr. rewrite Hl. change (default 0 (Some 42) =? 42) with true. cbv iota.
  assert (Hw' : net_in w fd = header 36 (Z.of_nat (length h)) ++ (h ++ CRLF) ++ header 58 p ++ rest).
  { rewrite Hw, enc_bulk_header. by rewrite <- !app_assoc. }
  destruct (read_header fd ssl [] _ _ _ w Hw') as (w1 & b1 & E1 & H1 & _ & S1); [done|lia|].
  rewrite (bind_some _ _ _ _ _ E1).
  rewrite (bind_lift _ _ _ _ S1).
  rewrite atoll_dec by lia. unfold u64. rewrite Z.mod_small by lia.
  destruct (Z.ltb_spec 254 (Z.of_nat (length h))); [lia|].
  destruct (readn_spec fd ssl (h ++ CRLF) _ w1 H1) as (w2 & E2 & _ & H2).
  { rewrite length_app. cbn [length CRLF]. lia. }
  rewrite length_app, Nat2Z.inj_add in E2. change (Z.of_nat (length CRLF)) with 2 in E2.
  rewrite (bind_some _ _ _ _ _ E2).
  destruct (read_header fd ssl b1 _ _ _ w2 H2) as (w3 & b3 & E3 & H3 & _ & S3); [done|lia|].
  rewrite (bind_some _ _ _ _ _ E3).
  rewrite (bind_lift _ _ _ _ S3).
  rewrite (bind_lift _ _ _ _ (put_nul_host h H0 Hh)).
  exists w3. split; [|done]. rewrite atoll_dec by lia. unfold u16. by rewrite Z.mod_small by lia.
Qed.

Lemma read_addrs_spec addrs first fd ssl l owner cl rest (w : W) :
  Forall addr_ok addrs -> net_in w fd = concat (enc_addr <$> addrs) ++ rest ->
  exists w', net_in w' fd = rest /\
    read_addrs (length addrs) first fd ssl l owner cl w =
    Some ((match addrs with
           | a :: _ => let i := (node_find_or_add cl a.1 a.2).1 in if (0 <=? i) && first then i else owner
           | [] => owner
           end, fold_left add_addr addrs cl), w').
Proof.
  intros Ha. revert first l owner cl w. induction Ha as [|[h p] addrs Ha _ IH]; intros first l owner cl w Hw.
  { exists w. by split. }
  cbn [read_addrs length fold_left]. cbn [fmap list_fmap concat] in Hw. unfold enc_addr at 1 in Hw.
  cbn [fst snd] in Hw. rewrite <- !app_assoc in Hw.
  destruct (read_header fd ssl l _ _ _ w Hw) as (w1 & b1 & E1 & H1 & T1 & _); [done|lia|].
  rewrite (bind_some _ _ _ _ _ E1). cbn [negb].
  destruct (read_addr_spec fd ssl b1 h p _ w1 T1 Ha H1) as (w2 & E2 & H2).
  rewrite (bind_some _ _ _ _ _ E2). unfold add_addr at 2. cbn [fst snd].
  destruct (node_find_or_add cl h p) as [idx cl'] eqn:Ef. cbn [fst snd].
  destruct (IH false b1 (if (0 <=? idx) && first then idx else owner) cl' w2 H2) as (w3 & H3 & E3).
  exists w3. split; [done|]. rewrite E3. destruct addrs as [|a ?]; [done|].
  cbv zeta. by rewrite andb_false_r.
Qed.

Lemma read_range_spec fd ssl cl r rest (w : W) :
  range_ok r -> net_in w fd = enc_range r ++ rest ->
  exists w', read_range fd ssl cl w = Some (Some (apply_range cl r), w') /\ net_in w' fd = rest.
Proof.
  intros [[Hs0 Hs] [He0 He] Ha Hne Hl] Hw. unfold enc_range, VC_CLUSTER_SLOTS in *. rewrite <- !app_assoc in Hw.
  destruct (read_header fd ssl [] _ _ _ w Hw) as (w1 & b1 & E1 & H1 & _ & _); [done|lia|].
  destruct (read_header fd ssl b1 _ _ _ w1 H1) as (w2 & b2 & E2 & H2 & _ & S2); [done|lia|].
  destruct (read_header fd ssl b2 _ _ _ w2 H2) as (w3 & b3 & E3 & H3 & _ & S3); [done|lia|].
  destruct (read_header fd ssl b3 _ _ _ w3 H3) as (w4 & b4 & E4 & H4 & _ & S4); [done|lia|].
  destruct (read_addrs_spec (rg_addrs r) true fd ssl b4 (-1) cl rest w4 Ha H4) as (w5 & H5 & E5).
  exists w5. split; [|done]. unfold read_range.
  rewrite (bind_some _ _ _ _ _ E1). cbn [negb]. rewrite (bind_some _ _ _ _ _ E2). cbn [negb].
  rewrite (bind_lift _ _ _ _ S2).
  rewrite (bind_some _ _ _ _ _ E3). cbn [negb]. rewrite (bind_lift _ _ _ _ S3).
  rewrite (bind_some _ _ _ _ _ E4). cbn [negb]. rewrite (bind_lift _ _ _ _ S4).
  rewrite !atoi_dec by lia. rewrite Nat2Z.id, (bind_some _ _ _ _ _ E5). unfold mret, io_ret, apply_range.
  replace (if 0 <? rg_start r then rg_start r else 0) with (rg_start r) by (zcase; lia).
  unfold VC_CLUSTER_SLOTS. replace (if rg_end r <? 16384 then rg_end r else 16384 - 1) with (rg_end r) by (zcase; lia).
  destruct (rg_addrs r) as [|a addrs]; [done|]. cbv zeta. rewrite andb_true_r.
  by destruct (Z.leb_spec 0 (node_find_or_add cl a.1 a.2).1) as [Hi|Hi];
    [destruct (Z.leb_spec 0 (node_find_or_add cl a.1 a.2).1); [|lia]|].
Qed.

Lemma read_ranges_spec t fd ssl cl rest (w : W) :
  Forall range_ok t -> net_in w fd = concat (enc_range <$> t) ++ rest ->
  exists w', read_ranges (length t) fd ssl cl w = Some (fold_left apply_range t cl, w') /\ net_in w' fd = rest.
Proof.
  intros Ht. revert cl w. induction Ht as [|r t Hr _ IH]; intros cl w Hw; [by exists w|].
  cbn [fmap list_fmap concat] in Hw. rewrite <- app_assoc in Hw.
  destruct (read_range_spec fd ssl cl r _ w Hr Hw) as (w1 & E1 & H1).
  destruct (IH (apply_range cl r) w1 H1) as (w2 & E2 & H2). exists w2. split; [|done].
  cbn [read_ranges length fold_left]. by rewrite (bind_some _ _ _ _ _ E1).
Qed.

End Parse.

(** ** The map it makes *)

(** What adding addresses keeps: the slot map and the indices of the nodes. *)
Record grows (cl cl' : vc_cluster) (n : Z) : Prop := {
  gr_names : (name <$> cl_nodes cl) `prefix_of` (name <$> cl_nodes cl');
  gr_slots : cl_slot_map cl' = cl_slot_map cl;
  gr_count : node_count cl' <= node_count cl + n;
}.

Lemma add_addr_grows cl a : grows cl (add_addr cl a) 1.
Proof.
  unfold add_addr, node_find_or_add. destruct (list_find _ _) as [[i n]|]; [by split; simpl; [..|lia]|].
  destruct (_ <=? _); [by split; simpl; [..|lia]|]. split; unfold node_count; cbn [snd with_nodes cl_nodes cl_slot_map].
  - rewrite fmap_app. apply prefix_app_r. done.
  - done.
  - rewrite length_app. simpl. lia.
Qed.

Lemma add_addrs_inv cl0 b addrs cl :
  inv cl0 b cl -> Forall addr_ok addrs ->
  inv cl0 b (fold_left add_addr addrs cl) /\ grows cl (fold_left add_addr addrs cl) (Z.of_nat (length addrs)).
Proof.
  intros Hi Ha. revert cl Hi. induction Ha as [|a addrs Ha _ IH]; intros cl Hi.
  { split; [done|]. split; simpl; [done|done|lia]. }
  cbn [fold_left]. pose proof (add_addr_grows cl a) as [G1 G2 G3]. destruct Ha as (Hh & H0 & Hp).
  assert (Hi' : inv cl0 b (add_addr cl a)).
  { unfold add_addr. destruct (node_find_or_add cl a.1 a.2) as [i cl'] eqn:E.
    by apply (inv_add _ _ _ _ _ _ _ Hi Hh Hp E). }
  destruct (IH _ Hi') as [Hi2 [K1 K2 K3]]. split; [done|].
  split; [by etrans|by rewrite K2|]. cbn [length]. lia.
Qed.

Lemma routes_grow cl cl' own n : routes cl own -> grows cl cl' n -> routes cl' own.
Proof.
  intros Hr [G1 G2 _] s Hs. specialize (Hr s Hs). rewrite G2. destruct (own s) as [a|]; [|done].
  destruct Hr as (k & Hk & Hn). exists k. split; [done|]. by apply (prefix_lookup_Some _ _ _ _ Hn).
Qed.

Lemma apply_range_routes cl0 b cl r own :
  inv cl0 b cl -> range_ok r -> routes cl own ->
  node_count cl + Z.of_nat (length (rg_addrs r)) <= VC_CLUSTER_MAX_NODES ->
  inv cl0 b (apply_range cl r) /\
  node_count (apply_range cl r) <= node_count cl + Z.of_nat (length (rg_addrs r)) /\
  routes (apply_range cl r) (fun s => if (rg_start r <=? s) && (s <=? rg_end r) then head (rg_addrs r) else own s).
Proof.
  intros Hi [Hs He Ha Hne Hl] Hr Hc. destruct (add_addrs_inv cl0 b _ cl Hi Ha) as [Hi1 G1].
  unfold apply_range. destruct (rg_addrs r) as [|a addrs] eqn:Er; [done|]. cbn [fold_left] in *.
  apply Forall_cons in Ha as [(Hh & H0 & Hp) Ha].
  destruct (node_find_or_add cl a.1 a.2) as [i cl1] eqn:Ef. cbn [fst snd] in *.
  assert (Hcl1 : add_addr cl a = cl1) by (unfold add_addr; by rewrite Ef). rewrite Hcl1 in *.
  set (cl2 := fold_left add_addr addrs cl1) in *.
  assert (Hneg : i <> -1).
  { unfold node_find_or_add in Ef. destruct (list_find _ _) as [[k n]|]; [injection Ef as <- _; lia|].
    destruct (Z.leb_spec VC_CLUSTER_MAX_NODES (node_count cl)); [cbn [length] in Hc; lia|].
    injection Ef as <- _. unfold node_count. lia. }
  destruct (find_or_add_name cl a.1 a.2 i cl1 Ef Hh Hneg) as (k & -> & Ek).
  destruct (inv_add _ _ _ _ _ _ _ Hi Hh Hp Ef) as (Hi1' & Hk & _).
  destruct (add_addrs_inv cl0 b addrs cl1 Hi1' Ha) as [_ G2]. fold cl2 in G2.
  assert (Ek2 : (name <$> cl_nodes cl2) !! k = Some (a.1, a.2)) by (apply (prefix_lookup_Some _ _ _ _ Ek), G2).
  assert (Hk2 : Z.of_nat k < node_count cl2).
  { apply lookup_lt_Some in Ek2. rewrite length_fmap in Ek2. unfold node_count. lia. }
  pose proof (co_count _ (inv_ok _ _ _ Hi1)) as Hcnt. unfold VC_CLUSTER_MAX_NODES in Hcnt.
  destruct (Z.leb_spec 0 (Z.of_nat k)); [|lia]. rewrite int8_small by lia.
  split; [apply inv_map; [done|lia|lia|lia]|]. split; [apply G1|].
  intros s Hsr. cbn [with_slots cl_slot_map cl_nodes]. rewrite map_slots_lookup.
  destruct (Z.leb_spec (rg_start r) s); destruct (Z.leb_spec s (rg_end r)); cbn [andb];
    try (rewrite decide_False by lia; exact (routes_grow _ _ _ _ Hr G1 s Hsr)).
  rewrite decide_True by lia. cbn [head]. exists k. split; [done|]. by destruct a.
Qed.

(** The addresses of the first range and of all of them. *)
Lemma apply_ranges_routes cl0 b t cl own :
  inv cl0 b cl -> Forall range_ok t -> routes cl own ->
  node_count cl + Z.of_nat (length (all_addrs t)) <= VC_CLUSTER_MAX_NODES ->
  routes (fold_left apply_range t cl)
    (fun s => fold_left (fun o r => if (rg_start r <=? s) && (s <=? rg_end r) then head (rg_addrs r) else o) t (own s)).
Proof.
  intros Hi Ht. revert cl own Hi. induction Ht as [|r t Hr _ IH]; intros cl own Hi Ho Hc; [done|].
  unfold all_addrs in *. rewrite bind_cons, length_app in Hc. cbn [fold_left].
  destruct (apply_range_routes cl0 b cl r own Hi Hr Ho) as (Hi' & Hc' & Hr'); [lia|].
  apply (IH (apply_range cl r) (fun s => if (rg_start r <=? s) && (s <=? rg_end r) then head (rg_addrs r) else own s));
    [done|done|lia].
Qed.

(** ** A refresh *)

Section Refresh.
Context {W : Type} {N : Net W} {NS : NetStream W}.

(** Dead nodes are passed over. *)
Lemma refresh_skip i m fuel cl (w : W) :
  (forall k, (k < i)%nat -> exists n, cl_nodes cl !! (m + k)%nat = Some n /\ n_alive n = false) ->
  refresh_loop (i + fuel) m cl w = refresh_loop fuel (m + i) cl w.
Proof.
  revert m. induction i as [|i IH]; intros m Hd; [by rewrite Nat.add_0_r|].
  destruct (Hd O ltac:(lia)) as (n & En & Hn). rewrite Nat.add_0_r in En.
  cbn [Nat.add refresh_loop]. rewrite (bind_lift _ _ _ _ En), Hn. cbn [negb].
  rewrite (IH (S m)).
  - f_equal. lia.
  - intros k Hk. destruct (Hd (S k) ltac:(lia)) as (n' & En' & Hn'). exists n'. by rewrite Nat.add_succ_comm.
Qed.

Lemma refresh_reads cl i j fd ssl (w w0 w1 : W) now t rest :
  cluster_ok cl -> only_busy None cl ->
  (forall k, (k < i)%nat -> exists n, cl_nodes cl !! k = Some n /\ n_alive n = false) ->
  ready_conn cl i j fd ssl -> net_now w = (now, w0) ->
  sock_sendall fd ssl (enc_command [bs "CLUSTER"; bs "SLOTS"]) w0 = Some (true, w1) ->
  net_in w1 fd = enc_topology t ++ rest ->
  Forall range_ok t -> node_count cl + Z.of_nat (length (all_addrs t)) <= VC_CLUSTER_MAX_NODES ->
  Z.of_nat (length t) < 2 ^ 31 ->
  exists cl' w2, vc_cluster_refresh cl w = Some ((true, cl'), w2) /\ net_in w2 fd = rest /\
    routes cl' (owner_of t).
Proof.
  intros Hok Hb Hd Hrc Hnow Hsend Hin Ht Hc Hl.
  destruct (get_ready _ _ _ _ _ _ _ _ Hrc Hnow) as [Eg (nc & Enc & Hfd & Hssl)].
  destruct Hrc as (node & c & En & Ha & _). pose proof (lookup_lt_Some _ _ _ En) as Hlt.
  unfold enc_topology in Hin. rewrite <- app_assoc in Hin.
  destruct (read_header fd ssl [] _ _ _ w1 Hin) as (w2 & b2 & E2 & H2 & T2 & S2); [done|lia|].
  destruct (read_ranges_spec t fd ssl (with_slots ∅ (taken i j now cl)) rest w2 Ht H2) as (w3 & E3 & H3).
  eexists _, w3. split; [|split; [exact H3|]].
  - unfold vc_cluster_refresh. replace (length (cl_nodes cl)) with (i + S (length (cl_nodes cl) - S i))%nat by lia.
    rewrite refresh_skip by done. cbn [Nat.add refresh_loop]. rewrite (bind_lift _ _ _ _ En), Ha. cbn [negb].
    rewrite (bind_some _ _ _ _ _ Eg), (bind_lift _ _ _ _ Enc), Hfd, Hssl, (bind_some _ _ _ _ _ Hsend).
    cbn [negb]. rewrite (bind_some _ _ _ _ _ E2). cbn [negb]. rewrite T2. change (default 0 (Some 42) =? 42) with true.
    cbn [negb]. rewrite (bind_lift _ _ _ _ S2), atoi_dec, Nat2Z.id by lia. by rewrite (bind_some _ _ _ _ _ E3).
  - assert (Hi : inv cl (Some (i, j)) (with_slots ∅ (taken i j now cl))).
    { apply inv_clear. exact (inv_get cl i cl (inv_refl _ Hok Hb) _ _ _ Eg). }
    assert (Hr : routes (fold_left apply_range t (with_slots ∅ (taken i j now cl))) (owner_of t)).
    { apply (apply_ranges_routes cl (Some (i, j)) t _ (fun _ => None) Hi Ht).
      - intros s _. cbn [with_slots cl_slot_map]. apply lookup_empty.
      - unfold node_count, taken, upd_conn, upd_node in *. cbn [with_slots with_nodes cl_nodes].
        by rewrite length_alter. }
    revert Hr. generalize (fold_left apply_range t (with_slots ∅ (taken i j now cl))). intros cl2 Hr s Hs.
    specialize (Hr s Hs). unfold node_conn_release, upd_conn, upd_node. cbn [with_nodes cl_slot_map cl_nodes].
    rewrite names_upd by done. exact Hr.
Qed.

End Refresh.
