(* ===== verification/ClusterUse.v ===== *)
(** * Cluster client: what its users rely on

    The claims about [src/net/cluster.c], each with a run on the scripted network, and the
    behaviours that modelling brought up. *)

From S2P Require Import Prelude Proto ProtoSpec Resp Net NetScript Cluster ClusterInv ClusterThm ClusterTopo.

(** ** Formatting *)

(** What the loop stored, when it ended inside the buffer. *)
Lemma format_loop_fits outsz args pos out p o :
  format_loop outsz args pos out = (p, o) -> p < outsz ->
  o = out ++ enc_bulks args /\ p = pos + Z.of_nat (length (enc_bulks args)).
Proof.
  revert pos out. induction args as [|a args IH]; intros pos out E Hp; cbn [format_loop] in E.
  - injection E as <- <-. rewrite app_nil_r. cbn. split; [done|lia].
  - destruct (Z.ltb_spec pos outsz) as [Hlt|]; [|injection E as <- <-; lia].
    change (bs "$" ++ dec (Z.of_nat (length a)) ++ CRLF ++ a ++ CRLF) with (enc_bulk a) in E.
    destruct (IH _ _ E Hp) as [-> ->]. change (enc_bulks (a :: args)) with (enc_bulk a ++ enc_bulks args).
    rewrite length_app in *. split; [|lia]. unfold stored. rewrite take_ge by lia. by rewrite <- app_assoc.
Qed.

Lemma format_fits outsz args p o :
  vc_resp_format outsz args = (p, o) -> p < outsz -> o = enc_command args /\ p = Z.of_nat (length o).
Proof.
  unfold vc_resp_format. set (h := bs "*" ++ dec (Z.of_nat (length args)) ++ CRLF). intros E Hp.
  destruct (format_loop_fits _ _ _ _ _ _ E Hp) as [-> ->]. unfold stored. rewrite take_ge by lia.
  split; [|rewrite length_app; lia]. unfold h, enc_command. by rewrite <- !app_assoc.
Qed.

(** ** Health *)

Section Health.
Context {W : Type} {N : Net W} {NS : NetStream W}.

Lemma health_alive malloc_ok i cl (w : W) node now w1 j cl1 w2 nc w3 :
  cluster_ok cl -> cl_nodes cl !! i = Some node -> n_alive node = false ->
  net_now w = (now, w1) -> n_last_seen_ns node + 3200000000 <= now ->
  node_conn_get i cl w1 = Some ((Some j, cl1), w2) -> conn_at i j cl1 = Some nc ->
  sock_sendall (nc_fd nc) (nc_ssl nc) (enc_command [bs "PING"]) w2 = Some (true, w3) ->
  exists cl' w', health_node malloc_ok i cl w = Some (cl', w') /\
    exists node', cl_nodes cl' !! i = Some node' /\ n_alive node' = true /\ n_backoff_ns node' = 100000000.
Proof.
  intros Hok En Hd Hnow Hlate Eg Enc Hsend.
  destruct (Forall_lookup_1 _ _ _ _ (co_nodes _ Hok) En) as [_ _ (k & Hk & Hbk) _ _].
  assert (Hb : n_backoff_ns node <= 3200000000).
  { rewrite Hbk. pose proof (Z.pow_le_mono_r 2 k 5). change (2 ^ 5) with 32 in *. lia. }
  unfold health_node. rewrite (bind_lift _ _ _ _ En), Hd.
  rewrite (bind_some _ _ w false w1).
  2: { unfold mbind, io_bind, sys. rewrite Hnow.
       by destruct (Z.ltb_spec (now - n_last_seen_ns node) (n_backoff_ns node)); [lia|]. }
  cbv iota.
  rewrite (bind_some _ _ _ _ _ Eg), (bind_lift _ _ _ _ Enc), (bind_some _ _ _ _ _ Hsend). cbn [negb].
  destruct (reader_total malloc_ok (nc_fd nc) (nc_ssl nc) w3) as [[r w4] Er].
  rewrite (bind_some _ _ _ _ _ Er). unfold mbind, io_bind, sys. destruct (net_now w4) as [t w5].
  eexists _, w5. split; [reflexivity|]. unfold conn_at in Enc. apply bind_Some in Enc as (n1 & En1 & _).
  unfold node_conn_release, upd_conn, upd_node. cbn [with_nodes cl_nodes].
  rewrite !list_lookup_alter_eq, En1. cbn. by eexists.
Qed.

End Health.

(** ** Theorems *)

(** C25: the handle stays well formed.  Whatever the network answers, a handle that
    [vc_cluster_connect] returned and that any sequence of commands, refreshes and rounds
    of the health check has changed has at most 64 nodes with different addresses, eight
    pool entries each, delays of 0.1 to 3.2 seconds, slots that name an existing node; and
    between operations no connection is left marked as in use. *)
Theorem cluster_history_ok {W : Type} {N : Net W} malloc_ok (cl : vc_cluster) (w : W) :
  reach malloc_ok cl w -> cluster_ok cl /\ only_busy None cl.
Proof. apply reach_inv. Qed.

(** Reading a reply always ends, with a reply or with NULL, whatever bytes the peer
    sends: no line, length or type makes the reader run into undefined behaviour. *)
Theorem reply_reader_total {W : Type} {N : Net W} {NS : NetStream W} malloc_ok fd ssl (w : W) :
  exists r w', resp_read_reply malloc_ok fd ssl w = Some (r, w').
Proof. destruct (reader_total malloc_ok fd ssl w) as [[r w'] E]. by exists r, w'. Qed.

(** A command goes to the node of its key's slot and its answer comes back.  When the
    request was sent on the first idle connection and a well-formed reply arrived, the
    caller gets the text of that reply, the connection is back in the pool and exactly
    the reply has been taken from the stream (of an array or map only the header). *)
Theorem cmd_answer {W : Type} {N : Net W} {NS : NetStream W} malloc_ok cl key cmd i j fd ssl (w w1 : W) now r rest t :
  (forall n, malloc_ok n = true) ->
  vc_cluster_node_for_slot cl (vc_key_slot key) = Some (Z.of_nat i) ->
  ready_conn cl i j fd ssl -> exchanged w fd ssl cmd r rest now w1 ->
  reply_text r = Some t -> is_moved t = false ->
  exists w2, vc_cluster_cmd malloc_ok cl (Some key) cmd w = Some ((VC_CLUSTER_OK, Some t, used i j now cl), w2) /\
    net_in w2 fd = reply_left r ++ rest.
Proof.
  intros Hm Hs Hrc Hex Ht Hmv. destruct (cmd_answered malloc_ok Hm _ _ _ _ _ _ _ _ _ _ _ _ _ Hs Hrc Hex Ht Hmv)
    as (w2 & E & Hin & _). by exists w2.
Qed.


(** C23: a refresh implements the topology it is sent.  The first live node is asked; when
    it answers with a list of ranges in the nested form the parser expects and the table
    has room, every slot is then routed to the node whose address comes first in the last
    range that has the slot, and every other slot is unassigned. *)
Theorem refresh_routes {W : Type} {N : Net W} {NS : NetStream W} cl i j fd ssl (w w0 w1 : W) now t rest :
  cluster_ok cl -> only_busy None cl ->
  (forall k, (k < i)%nat -> exists n, cl_nodes cl !! k = Some n /\ n_alive n = false) ->
  ready_conn cl i j fd ssl -> net_now w = (now, w0) ->
  sock_sendall fd ssl (enc_command [bs "CLUSTER"; bs "SLOTS"]) w0 = Some (true, w1) ->
  net_in w1 fd = enc_topology t ++ rest ->
  Forall range_ok t -> node_count cl + Z.of_nat (length (all_addrs t)) <= VC_CLUSTER_MAX_NODES ->
  Z.of_nat (length t) < 2 ^ 31 ->
  exists cl' w2, vc_cluster_refresh cl w = Some ((true, cl'), w2) /\ net_in w2 fd = rest /\
    routes cl' (owner_of t).
Proof. apply refresh_reads. Qed.

(** C26: a node comes back.  A node that was found dead is tried again at the first round of
    the health check after 3.2 seconds at most; when it can be reached and the PING is
    sent, the round ends with the node alive and its delay reset. *)
Theorem health_recovers {W : Type} {N : Net W} {NS : NetStream W} malloc_ok i cl (w : W) node now w1 j cl1 w2 nc w3 :
  cluster_ok cl -> cl_nodes cl !! i = Some node -> n_alive node = false ->
  net_now w = (now, w1) -> n_last_seen_ns node + 3200000000 <= now ->
  node_conn_get i cl w1 = Some ((Some j, cl1), w2) -> conn_at i j cl1 = Some nc ->
  sock_sendall (nc_fd nc) (nc_ssl nc) (enc_command [bs "PING"]) w2 = Some (true, w3) ->
  exists cl' w', health_node malloc_ok i cl w = Some (cl', w') /\
    exists node', cl_nodes cl' !! i = Some node' /\ n_alive node' = true /\ n_backoff_ns node' = 100000000.
Proof. apply health_alive. Qed.

(** Hash tags.  A non-empty tag between the first opening brace of a key and the next
    closing one decides the slot alone, so keys that share it share a slot; the slot is
    below 16384. *)
Theorem hash_tag_slot pre tag post :
  123 ∉ pre -> 125 ∉ tag -> tag <> [] ->
  vc_key_slot (pre ++ 123 :: tag ++ 125 :: post) = Z.land (vc_crc16 tag) (VC_CLUSTER_SLOTS - 1) /\
  0 <= vc_key_slot (pre ++ 123 :: tag ++ 125 :: post) < VC_CLUSTER_SLOTS.
Proof.
  intros Hp Ht Hne. split; [|apply key_slot_range]. unfold vc_key_slot. by rewrite hash_tag_braces.
Qed.

(** The checksum is CRC16-CCITT exactly as long as no table lookup falls on one of the
    65 entries (64 to 127 and 206) that differ from the CCITT table; on those it is not. *)
Theorem crc16_ccitt key :
  Forall is_byte key ->
  (clean 0 key = true -> vc_crc16 key = ccitt key) /\
  (forall c, is_byte c -> vc_crc16 [c] = ccitt [c] <-> bad_index c = false).
Proof.
  intros Hk. split; [intros Hc; by apply crc16_clean_from|]. intros c Hc.
  rewrite <- (tab_ccitt c Hc). unfold vc_crc16, ccitt. cbn [fold_left]. unfold crc16_step.
  change (u16 (Z.shiftl 0 8)) with 0. change (Z.shiftr 0 8) with 0. rewrite !Z.lxor_0_l.
  change 255 with (2 ^ 8 - 1). rewrite land_mask by lia. unfold is_byte in Hc.
  rewrite Z.mod_small by lia. destruct (crc16_tab !! Z.to_nat c) as [v|] eqn:E; [by cbn; split; [intros ->|intros [= ->]]|].
  apply lookup_ge_None in E. change (length crc16_tab) with 256%nat in E. lia.
Qed.

(** What [vc_resp_format] leaves in the buffer, when the position it returns is inside
    it, is a command that the server's parser reads back with the same arguments. *)
Theorem format_parses (alloc_ok : allocator) outsz args p out rest :
  (forall n, n <= VC_MAX_INLINE_ARG + 1 -> alloc_ok n = true) ->
  Z.of_nat (length args) <= VC_MAX_ARGS -> Forall arg_fits args ->
  vc_resp_format outsz args = (p, out) -> p < outsz ->
  resp_parse_command alloc_ok (out ++ rest) = RESP_PARSE_OK (Cmd (enc_args args) 0) p.
Proof.
  intros Ha Hn Hf E Hp. destruct (format_fits _ _ _ _ E Hp) as [-> ->]. by apply parse_command_ok.
Qed.

(** ** Runs on the scripted network *)

(** One node with one open connection, and the slot of one key. *)
Definition demo_node (alive : bool) : vc_cluster_node :=
  ClusterNode (bs "10.0.0.1") 7000 alive 0 100000000 (NodeConn 5 false false 0 :: replicate 7 no_conn).
Definition demo_key : list Z := bs "k1".
Definition demo_cluster (alive : bool) : vc_cluster :=
  Cluster [demo_node alive] {[vc_key_slot demo_key := 0]} true false [] [].
Definition demo_world (replies : list (list Z)) : script := Script ∅ replies 8 5000000000.

Lemma demo_cluster_ok alive : cluster_ok (demo_cluster alive) /\ only_busy None (demo_cluster alive).
Proof.
  split.
  - split; [|vm_compute; congruence|apply NoDup_singleton| |simpl; lia|simpl; lia].
    + apply Forall_singleton. split; [cbn; lia|cbn; lia|exists 0; cbn; lia|done|].
      apply Forall_cons. split; [left; cbn; lia|]. apply (Forall_replicate conn_ok 7). by right.
    + intros s i E. cbn [demo_cluster cl_slot_map] in E. apply lookup_singleton_Some in E as [<- <-]. split; [apply key_slot_range|].
      unfold node_count. cbn. lia.
  - intros i j c E Hu. unfold conn_at in E. cbn [demo_cluster cl_nodes] in E.
    destruct i as [|i]; [|done]. cbn in E.
    destruct j as [|j]; [by injection E as <-|]. apply (lookup_replicate 7 no_conn) in E as [-> _]. done.
Qed.

Lemma demo_ready : ready_conn (demo_cluster true) 0 0 5 false.
Proof. by eexists _, _. Qed.

Lemma demo_routed : vc_cluster_node_for_slot (demo_cluster true) (vc_key_slot demo_key) = Some (Z.of_nat 0).
Proof. vm_compute. done. Qed.

Lemma demo_exchanged cmd r rest :
  reply_ok 1020 r -> cmd <> [] ->
  exchanged (demo_world [enc_reply r ++ rest]) 5 false cmd r rest 5000000000
    (Script (<[5 := enc_reply r ++ rest]> ∅) [] 8 5000000000).
Proof.
  intros Hr Hc. split; [|cbn; unfold sc_bytes; cbn [sc_in]; by rewrite lookup_insert_eq|done].
  eexists. split; [reflexivity|]. by apply sendall_once.
Qed.

Definition demo_topology : list range := [Range 0 20 [(bs "10.0.0.2", 7001)]; Range 5 9 [(bs "10.0.0.1", 7000)]].

Lemma cluster_history_witness :
  exists cl w, reach (fun _ => true) cl (w : script) /\ node_count cl = 2 /\ cluster_ok cl /\ only_busy None cl.
Proof.
  set (o := vc_cluster_connect true true (bs "10.0.0.1:7000") None None false (demo_world [enc_topology demo_topology])).
  assert (Ho : match o with Some (Some cl, _) => node_count cl =? 2 | _ => false end = true) by (vm_compute; done).
  destruct o as [[[cl|] w]|] eqn:E; [|done..]. apply Z.eqb_eq in Ho. exists cl, w.
  assert (Hr : reach (fun _ => true) cl w) by (by eapply reach_connect).
  split; [done|]. split; [done|]. by apply (cluster_history_ok (fun _ => true) cl w).
Defined.

Lemma cmd_answer_witness :
  exists w2, vc_cluster_cmd (fun _ => true) (demo_cluster true) (Some demo_key) (enc_command [bs "GET"; demo_key])
      (demo_world [enc_reply (RBulk (bs "v"))]) = Some ((VC_CLUSTER_OK, Some (bs "v"), used 0 0 5000000000 (demo_cluster true)), w2).
Proof.
  pose proof (demo_exchanged (enc_command [bs "GET"; demo_key]) (RBulk (bs "v")) [] ltac:(vm_compute; done) ltac:(done)) as Hex.
  destruct (cmd_answer (fun _ => true) (demo_cluster true) demo_key (enc_command [bs "GET"; demo_key]) 0 0 5 false _ _
              5000000000 (RBulk (bs "v")) [] (bs "v") ltac:(done) demo_routed demo_ready Hex ltac:(done) ltac:(vm_compute; done))
    as (w2 & E & _). exists w2. exact E.
Defined.

(** The other node is new: the refresh asks the first node, then a connection is opened. *)
Definition moved_reply : reply := RError (bs "MOVED " ++ dec 1 ++ bs " " ++ addr_text (bs "10.0.0.2") 7001).
Definition moved_script : list (list Z) := [enc_topology demo_topology; enc_reply (RBulk (bs "v"))].


Lemma refresh_routes_witness :
  exists cl' w2, vc_cluster_refresh (demo_cluster true) (demo_world [enc_topology demo_topology ++ []]) = Some ((true, cl'), w2) /\
    routes cl' (owner_of demo_topology).
Proof.
  destruct (demo_cluster_ok true) as [Hok Hb].
  destruct (refresh_routes (demo_cluster true) 0 0 5 false (demo_world [enc_topology demo_topology ++ []])
              (demo_world [enc_topology demo_topology ++ []])
              (Script {[5 := enc_topology demo_topology ++ []]} [] 8 5000000000) 5000000000 demo_topology [] Hok Hb)
    as (cl' & w2 & E & _ & Hr).
  - intros k Hk. lia.
  - exact demo_ready.
  - reflexivity.
  - vm_compute. reflexivity.
  - vm_compute. reflexivity.
  - repeat constructor; vm_compute; try congruence; try set_solver; lia.
  - vm_compute. congruence.
  - vm_compute. congruence.
  - exists cl', w2. by split.
Defined.

Lemma health_recovers_witness :
  exists cl' w', health_node (fun _ => true) 0 (demo_cluster false) (demo_world [enc_reply (RSimple (bs "PONG"))]) = Some (cl', w') /\
    exists node', cl_nodes cl' !! 0%nat = Some node' /\ n_alive node' = true /\ n_backoff_ns node' = 100000000.
Proof.
  destruct (demo_cluster_ok false) as [Hok _].
  eapply (health_recovers (fun _ => true) 0 (demo_cluster false) (demo_world [enc_reply (RSimple (bs "PONG"))])
            (demo_node false) 5000000000); [exact Hok|done|done|done|vm_compute; congruence|reflexivity|reflexivity|reflexivity].
Defined.

Lemma hash_tag_witness :
  vc_key_slot (bs "a{user}b") = Z.land (vc_crc16 (bs "user")) 16383.
Proof.
  apply (hash_tag_slot (bs "a") (bs "user") (bs "b")); [vm_compute; set_solver..|done].
Defined.

Lemma crc16_ccitt_witness : vc_crc16 (bs "123") = ccitt (bs "123") /\ ~ vc_crc16 (bs "a") = ccitt (bs "a").
Proof.
  split.
  - apply (crc16_ccitt (bs "123")); [repeat constructor; vm_compute; congruence | vm_compute; done].
  - intros E. apply (crc16_ccitt []) in E; [done | constructor | split; vm_compute; congruence].
Defined.

Lemma format_parses_witness :
  resp_parse_command granting (enc_command [bs "GET"; bs "k"] ++ []) = RESP_PARSE_OK (Cmd (enc_args [bs "GET"; bs "k"]) 0) 20.
Proof.
  apply (format_parses granting 64 [bs "GET"; bs "k"] 20); try done.
  repeat constructor; vm_compute; congruence.
Defined.
