(* ===== verification/ClusterBugs.v ===== *)
(** * Cluster client: behaviours to know

    Runs of the client on the scripted network that its comments do not announce: the
    elements of an array stay on the connection, the reply type is dropped so data can
    look like a redirection, the host length of a topology is not checked, and the
    topology that this server sends is not the one this client reads. *)

From S2P Require Import Prelude Proto ProtoSpec Resp Net NetScript Cluster ClusterInv ClusterThm ClusterUse.
From S2P Require Import Auth Kv Commands CommandsSpec.

(** The text a command returned. *)
Definition answer {W} (r : option (vc_cluster_err * option (list Z) * vc_cluster * W)) : option (vc_cluster_err * option (list Z)) :=
  match r with Some (e, t, _, _) => Some (e, t) | None => None end.

(** The elements of an array reply are left on the connection, and the next command on
    it gets the first of them instead of its own answer, whatever that is: here MGET, then
    a GET that the server answers with another value.  The comment at the array case says
    that the elements are read and discarded. *)
Theorem array_reply_desync reply2 :
  exists cl' w', 
    vc_cluster_cmd (fun _ => true) (demo_cluster true) (Some demo_key) (enc_command [bs "MGET"; demo_key; demo_key])
      (demo_world [enc_reply (RArray [RBulk (bs "a"); RBulk (bs "b")]); reply2])
    = Some ((VC_CLUSTER_OK, Some (bs "*2"), cl'), w') /\
    answer (vc_cluster_cmd (fun _ => true) cl' (Some demo_key) (enc_command [bs "GET"; demo_key]) w')
    = Some (VC_CLUSTER_OK, Some (bs "a")).
Proof. eexists _, _. split; [vm_compute; reflexivity|]. vm_compute. reflexivity. Qed.

(** Data as a redirection: the type of the reply is dropped, so a stored value that starts
    with [MOVED ] makes the client add the node it names. *)
Theorem value_redirects :
  exists e t cl' w',
    vc_cluster_cmd (fun _ => true) (demo_cluster true) (Some demo_key) (enc_command [bs "GET"; demo_key])
      (demo_world [enc_reply (RBulk (bs "MOVED 1 6.6.6.6:666"))])
    = Some ((e, t, cl'), w') /\ name <$> cl_nodes cl' = [(bs "10.0.0.1", 7000); (bs "6.6.6.6", 666)].
Proof. eexists _, _, _, _. split; [vm_compute; reflexivity|]. vm_compute. reflexivity. Qed.

(** A host length of 255 or more in a topology is past the parser's buffer. *)
Theorem topology_overflow :
  vc_cluster_refresh (demo_cluster true)
    (demo_world [bs "*1" ++ CRLF ++ bs "*3" ++ CRLF ++ bs ":0" ++ CRLF ++ bs ":1" ++ CRLF ++ bs "*1" ++ CRLF ++
                 bs "*2" ++ CRLF ++ bs "$300" ++ CRLF ++ replicate 300 97 ++ CRLF ++ bs ":1" ++ CRLF]) = None.
Proof. vm_compute. reflexivity. Qed.

(** The slots a map gives a node to, by the name of the node. *)
Definition routed_name (cl : vc_cluster) (s : Z) : option (list Z * Z) :=
  i ← vc_cluster_node_for_slot cl s; (name <$> cl_nodes cl) !! Z.to_nat i.

(** The bytes of the server's answer to CLUSTER SLOTS. *)
Definition slots_reply (addr : list Z) (port : Z) : list Z :=
  r_array 1 ++ r_array 3 ++ r_int 0 ++ r_int 16383 ++ r_array 2 ++ r_bulk addr ++ r_int port.

Lemma server_slots_reply {C} (s : server C) c e :
  cmd_cluster e s c [bs "CLUSTER"; bs "SLOTS"] = Some (s, cn_write (slots_reply (announce s) (sv_port s)) c).
Proof. reflexivity. Qed.

(** The client does not read the topology this server sends.  The server answers CLUSTER
    SLOTS with one range whose third element is the pair of host and port; the client takes
    that element for a list of addresses, the length line of the host for a host and the
    host for a port.  After a refresh against this server every slot is routed to the node
    "9", port 27, which is the address 127.0.0.1 misread. *)
Theorem server_slots_misread {C} (s : server C) c e :
  sv_announce_addr s = None -> sv_port s = 6379 -> cn_out c = [] ->
  exists c' cl' w',
    cmd_cluster e s c [bs "CLUSTER"; bs "SLOTS"] = Some (s, c') /\
    vc_cluster_refresh (demo_cluster true) (demo_world [cn_out c']) = Some ((true, cl'), w') /\
    forall slot, 0 <= slot < VC_CLUSTER_SLOTS -> routed_name cl' slot = Some (bs "9", 27).
Proof.
  intros Ha Hp Hc. rewrite server_slots_reply. eexists. cut (exists cl' w',
    vc_cluster_refresh (demo_cluster true) (demo_world [slots_reply (bs "127.0.0.1") 6379]) = Some ((true, cl'), w') /\
    forall slot, 0 <= slot < VC_CLUSTER_SLOTS -> routed_name cl' slot = Some (bs "9", 27)).
  { intros (cl' & w' & E & H). exists cl', w'. split; [done|]. split; [|exact H].
    unfold cn_write, announce. cbn [cn_out]. rewrite Ha, Hp, Hc. exact E. }
  set (o := vc_cluster_refresh _ _).
  assert (Ho : match o with
               | Some ((true, cl), _) => forallb (fun s => bool_decide (routed_name cl s = Some (bs "9", 27))) (zrange 0 (Z.to_nat VC_CLUSTER_SLOTS))
               | _ => false
               end = true) by (vm_compute; done).
  destruct o as [[[[] cl'] w']|]; [|done..]. exists cl', w'. split; [done|].
  intros slot Hs. rewrite forallb_forall in Ho. specialize (Ho slot). apply bool_decide_eq_true in Ho; [done|].
  apply list_elem_of_In, elem_of_zrange. lia.
Qed.

Lemma server_slots_witness :
  exists c' cl' w',
    cmd_cluster (mini_cenv 1) (mini_server (AuthDb [] false)) (mini_conn None) [bs "CLUSTER"; bs "SLOTS"]
      = Some (mini_server (AuthDb [] false), c') /\
    vc_cluster_refresh (demo_cluster true) (demo_world [cn_out c']) = Some ((true, cl'), w') /\
    forall slot, 0 <= slot < VC_CLUSTER_SLOTS -> routed_name cl' slot = Some (bs "9", 27).
Proof. apply (server_slots_misread (mini_server (AuthDb [] false)) (mini_conn None) (mini_cenv 1)); reflexivity. Defined.
