(* ===== verification/Cli.v ===== *)
(** * Command-line client

    [src/cli/vcli.c]: the reply printer, the command encoder, the tokenizer, the options
    and the three modes of the client.  The terminal (standard input, output and error) is
    a layer around the network; colours, raw mode and latency are the globals of the
    source.  [atof] with ["%g"], and the text of a latency, are parameters. *)

From S2P Require Import Prelude Proto ProtoSpec Auth Net Cluster.
From S2P Require Import Commands.

(** ** Terminal *)

Record tty (W : Type) := Tty { tty_net : W; tty_in : list Z; tty_out : list Z; tty_err : list Z }.
Arguments Tty {W}. Arguments tty_net {W}. Arguments tty_in {W}. Arguments tty_out {W}. Arguments tty_err {W}.

Definition on_net {W A} (f : W -> A * W) (t : tty W) : A * tty W :=
  let '(a, w) := f (tty_net t) in (a, Tty w (tty_in t) (tty_out t) (tty_err t)).

#[export] Instance tty_is_net {W} `{N : Net W} : Net (tty W) := {
  net_addrs host port := on_net (net_addrs host port);
  net_close fd := on_net (net_close fd);
  net_ssl_connect fd := on_net (net_ssl_connect fd);
  net_send fd ssl buf n := on_net (net_send fd ssl buf n);
  net_recv fd ssl n := on_net (net_recv fd ssl n);
  net_now := on_net net_now;
}.

#[export] Instance tty_is_stream {W} `{N : Net W} {NS : NetStream W} : NetStream (tty W).
Proof.
  refine {| net_in t fd := net_in (tty_net t) fd |}; cbn [net_send net_recv tty_is_net]; unfold on_net; intros.
  - pose proof (send_bound fd ssl buf n (tty_net w)). by destruct (net_send _ _ _ _ _).
  - pose proof (recv_bound fd ssl n (tty_net w)). by destruct (net_recv _ _ _ _).
  - pose proof (recv_order fd ssl n (tty_net w)). by destruct (net_recv _ _ _ _); auto.
  - pose proof (recv_some fd ssl n (tty_net w)). by destruct (net_recv _ _ _ _); auto.
  - pose proof (recv_other fd ssl n (tty_net w) fd'). by destruct (net_recv _ _ _ _); auto.
Defined.

Definition printf {W} (s : list Z) : io (tty W) () :=
  fun t => Some ((), Tty (tty_net t) (tty_in t) (tty_out t ++ s) (tty_err t)).
Definition eprintf {W} (s : list Z) : io (tty W) () :=
  fun t => Some ((), Tty (tty_net t) (tty_in t) (tty_out t) (tty_err t ++ s)).

(** ** Display *)

Record display := Display { use_color : bool; raw_mode : bool; show_latency : bool }.

Definition ESC : Z := 27.
Definition sgr (s : list Z) : list Z := ESC :: bs "[" ++ s ++ bs "m".
Definition COL_RESET : list Z := sgr (bs "0").
Definition COL_RED : list Z := sgr (bs "31").
Definition COL_GREEN : list Z := sgr (bs "32").
Definition COL_YELLOW : list Z := sgr (bs "33").
Definition COL_MAGENTA : list Z := sgr (bs "35").
Definition COL_CYAN : list Z := sgr (bs "36").
Definition COL_BOLD : list Z := sgr (bs "1").
Definition COL_DIM : list Z := sgr (bs "2").

(** [COL s RESET] in colour, [s] without. *)
Definition colored (d : display) (col s : list Z) : list Z := if use_color d then col ++ s ++ COL_RESET else s.

(** A tag and a value: the value is bold in colour. *)
Definition tagged (d : display) (col tag v : list Z) : list Z :=
  if use_color d then col ++ tag ++ COL_BOLD ++ v ++ COL_RESET else tag ++ v.

Definition NL : list Z := [LF].
Definition indent (depth : nat) : list Z := concat (replicate depth (bs "   ")).
Definition true_false (v : bool) : list Z := if v then bs "true" else bs "false".

(** ["%.*s"]: a negative precision is none. *)
Definition prec_s (n : Z) (s : list Z) : list Z :=
  if s32 n <? 0 then cstr s else take (Z.to_nat (s32 n)) (cstr s).

Definition hex2 (c : Z) : list Z := [hex_digit (c / 16); hex_digit (c mod 16)].

(** ["%g"] of the number a text has, and of the eight bytes of a double. *)
Record floats := Floats { g_text : list Z -> list Z; g_bits : list Z -> list Z }.

(** [buf] is the buffer of the bulk string with its NUL and LF, [plen] the length of the
    payload.  The eight bytes of a double are read whatever the length is. *)
Definition print_vc_typed (fl : floats) (d : display) (buf : list Z) (plen : Z) : option (list Z) :=
  if plen <? VC_WIRE_MAGIC_LEN + 1 then Some (prec_s plen buf)
  else if negb (bool_decide (take 4 buf = VC_WIRE_MAGIC)) then Some (prec_s plen buf)
  else
    let type := default 0 (buf !! 4%nat) in
    let data := drop 5 buf in
    let dlen := plen - VC_WIRE_MAGIC_LEN - 1 in
    if type =? VC_TYPE_INT64 then
      Some (tagged d COL_CYAN (bs "(integer) ") (dec (s64 (le_decode (take 8 (take (Z.to_nat dlen) data))))))
    else if type =? VC_TYPE_FLOAT64 then
      if (length data <? 8)%nat then None
      else Some (tagged d COL_CYAN (bs "(float) ") (g_bits fl (take 8 data)))
    else if type =? VC_TYPE_BOOL then
      Some (tagged d COL_MAGENTA (bs "(bool) ") (true_false (negb (default 0 (data !! 0%nat) =? 0))))
    else if type =? VC_TYPE_JSON then
      Some ((if raw_mode d then [] else colored d COL_YELLOW (bs "(json) ")) ++ prec_s dlen data)
    else if type =? VC_TYPE_BINARY then
      Some (colored d COL_DIM (bs "(binary " ++ dec dlen ++ bs " bytes)"))
    else Some (prec_s plen buf).

Definition printable (data : list Z) : bool := forallb (fun c => negb ((c <? 9) || (c =? 127))) data.

Definition nil_text (d : display) : list Z := if raw_mode d then [] else colored d COL_DIM (bs "(nil)") ++ NL.

(** What is printed of a bulk string; [buf] as above. *)
Definition bulk_text (fl : floats) (d : display) (depth : nat) (buf : list Z) (blen : Z) : option (list Z) :=
  if negb (raw_mode d) && (VC_WIRE_MAGIC_LEN <? blen) && bool_decide (take 4 buf = VC_WIRE_MAGIC) then
    t ← print_vc_typed fl d buf blen; Some (indent depth ++ t ++ NL)
  else
    Some (indent depth ++
      (if raw_mode d then take (Z.to_nat blen) buf ++ NL
       else if printable (take (Z.to_nat blen) buf) then colored d COL_GREEN ([34] ++ cstr buf ++ [34]) ++ NL
       else colored d COL_DIM (bs "(binary " ++ dec blen ++ bs " bytes)") ++ NL)).

(** ** Reply printer *)

Record vcli_conn := CliConn { cc_fd : Z; cc_ssl : bool; cc_resp3 : bool }.

Section Client.
Context {W : Type} {N : Net W}.
Variable malloc_ok : Z -> bool.
Variable fl : floats.
Variable d : display.

Definition cli_sendall (c : vcli_conn) (buf : list Z) : io (tty W) bool := sock_sendall (cc_fd c) (cc_ssl c) buf.
Definition read_line (c : vcli_conn) (old : list Z) (maxlen : nat) : io (tty W) (bool * list Z) :=
  sock_readline (cc_fd c) (cc_ssl c) old maxlen.
Definition read_exactly (c : vcli_conn) (n : Z) : io (tty W) (bool * list Z) := sock_readn (cc_fd c) (cc_ssl c) n.

(** [n] elements, the first of them with number [i]; [elem] prints one. *)
Fixpoint print_array (elem : io (tty W) bool) (n : nat) (i : Z) (depth : nat) : io (tty W) bool :=
  match n with
  | O => mret true
  | S n =>
      _ ← (if raw_mode d then mret () else printf (indent depth ++ dec i ++ bs ") "));
      ok ← elem;
      if negb ok then mret false else print_array elem n (i + 1) depth
  end.

Fixpoint print_map (elem : io (tty W) bool) (n : nat) (depth : nat) : io (tty W) bool :=
  match n with
  | O => mret true
  | S n =>
      _ ← printf (indent (depth + 1) ++ (if raw_mode d then [] else colored d COL_BOLD (bs "key: ")));
      ok ← elem;
      if negb ok then mret false else
      _ ← printf (indent (depth + 1) ++ (if raw_mode d then [] else colored d COL_BOLD (bs "val: ")));
      ok ← elem;
      if negb ok then mret false else print_map elem n depth
  end.

Fixpoint print_set (elem : io (tty W) bool) (n : nat) (depth : nat) : io (tty W) bool :=
  match n with
  | O => mret true
  | S n => _ ← printf (indent (depth + 1)); ok ← elem; if negb ok then mret false else print_set elem n depth
  end.

(** Whether a reply was read and printed.  [fuel] bounds the nesting of the reply, which the
    source bounds by its stack. *)
Fixpoint print_reply (fuel : nat) (c : vcli_conn) (depth : nat) : io (tty W) bool :=
  match fuel with
  | O => ub
  | S fuel =>
      '(ok, line) ← read_line c [] 4096;
      if negb ok then mret false else
      let type := default 0 (line !! 0%nat) in
      if type =? 43 then
        rest ← lift (c_string (drop 1 line));
        _ ← printf ((if raw_mode d then rest else colored d COL_GREEN rest) ++ NL); mret true
      else if type =? 45 then
        rest ← lift (c_string (drop 1 line));
        _ ← eprintf (colored d COL_RED (bs "(error) " ++ rest) ++ NL); mret true
      else if type =? 58 then
        rest ← lift (c_string (drop 1 line));
        let v := dec (atoll rest) in
        _ ← printf ((if raw_mode d then v else tagged d COL_CYAN (bs "(integer) ") v) ++ NL); mret true
      else if type =? 44 then
        rest ← lift (c_string (drop 1 line));
        let v := g_text fl rest in
        _ ← printf ((if raw_mode d then v else tagged d COL_CYAN (bs "(double) ") v) ++ NL); mret true
      else if type =? 35 then
        b ← lift (line !! 1%nat);
        let v := true_false (b =? 116) in
        _ ← printf ((if raw_mode d then v else tagged d COL_MAGENTA (bs "(boolean) ") v) ++ NL); mret true
      else if type =? 95 then
        _ ← printf (nil_text d); mret true
      else if type =? 36 then
        rest ← lift (c_string (drop 1 line));
        let blen := atoll rest in
        if blen <? 0 then _ ← printf (nil_text d); mret true
        else if negb (malloc_ok (blen + 3)) then mret false
        else
          '(ok, buf) ← read_exactly c (blen + 2);
          if negb ok then mret false
          else t ← lift (bulk_text fl d depth (put_nul blen buf) blen); _ ← printf t; mret true
      else if type =? 42 then
        rest ← lift (c_string (drop 1 line));
        let count := atoll rest in
        if count <? 0 then _ ← printf (if raw_mode d then [] else bs "(nil)" ++ NL); mret true
        else if count =? 0 then _ ← printf (if raw_mode d then [] else bs "(empty array)" ++ NL); mret true
        else print_array (print_reply fuel c (depth + 1)) (Z.to_nat count) 1 depth
      else if type =? 37 then
        rest ← lift (c_string (drop 1 line));
        _ ← printf (if raw_mode d then [] else (if use_color d then COL_BOLD ++ bs "(map)" ++ COL_RESET else bs "(map)") ++ NL);
        print_map (print_reply fuel c (depth + 2)) (Z.to_nat (atoll rest)) depth
      else if type =? 126 then
        rest ← lift (c_string (drop 1 line));
        _ ← printf (if raw_mode d then [] else (if use_color d then COL_BOLD ++ bs "(set)" ++ COL_RESET else bs "(set)") ++ NL);
        print_set (print_reply fuel c (depth + 1)) (Z.to_nat (atoll rest)) depth
      else if type =? 33 then
        rest ← lift (c_string (drop 1 line));
        let blen := atoll rest in
        if negb (malloc_ok (u64 (blen + 3))) then mret false
        else if blen <? 0 then ub                       (* [buf[blen]] is before the block *)
        else
          '(_, buf) ← read_exactly c (blen + 2);
          s ← lift (c_string (put_nul blen buf));
          _ ← eprintf (colored d COL_RED (bs "(error) " ++ s) ++ NL); mret true
      else
        _ ← eprintf (bs "Unknown RESP type: '" ++ [type] ++ bs "' (0x" ++ hex2 type ++ bs ")" ++ NL); mret false
  end.

(** ** Encoder *)

(** [None] is -1. *)
Fixpoint encode_args (bufsz : Z) (args : list (list Z)) (pos : Z) (buf : list Z) : option (list Z) :=
  match args with
  | [] => Some buf
  | a :: args =>
      let text := bs "$" ++ dec (Z.of_nat (length a)) ++ CRLF ++ a ++ CRLF in
      let pos := pos + Z.of_nat (length text) in
      if bufsz <=? pos then None else encode_args bufsz args pos (buf ++ text)
  end.

Definition encode_command (bufsz : Z) (args : list (list Z)) : option (list Z) :=
  let text := bs "*" ++ dec (Z.of_nat (length args)) ++ CRLF in
  encode_args bufsz args (Z.of_nat (length text)) text.

(** ** Tokenizer *)

(** The bytes before the first byte that satisfies [stop], and those after it. *)
Fixpoint cut (stop : Z -> bool) (l : list Z) : list Z * list Z :=
  match l with
  | [] => ([], [])
  | c :: l => if stop c then ([], l) else let '(a, b) := cut stop l in (c :: a, b)
  end.

(** A token is a piece of the line: the byte after it becomes its NUL.  [n] is
    [maxargc - argc]. *)
Fixpoint tokenize (n : nat) (p : list Z) : list (list Z) :=
  match n with
  | O => []
  | S n =>
      match skip_blank p with
      | [] => []
      | c :: q =>
          let '(tok, rest) := if c =? 34 then cut (fun x => x =? 34) q
                              else if c =? 39 then cut (fun x => x =? 39) q
                              else cut is_blank (c :: q) in
          tok :: tokenize n rest
      end
  end.

(** ** Commands *)

Definition CMDBUF : Z := 256 * 1024.

(** [ms] is the text of a latency in nanoseconds. *)
Variable ms : Z -> list Z.

Definition do_command (fuel : nat) (c : vcli_conn) (args : list (list Z)) : io (tty W) bool :=
  match encode_command CMDBUF args with
  | None => _ ← eprintf (bs "Command too long" ++ NL); mret false
  | Some cmd =>
      t0 ← (if show_latency d then sys net_now else mret 0);
      sent ← cli_sendall c cmd;
      if negb sent then _ ← eprintf (bs "Connection lost" ++ NL); mret false
      else
        r ← print_reply fuel c 0;
        if show_latency d && r then
          t1 ← sys net_now;
          _ ← printf (COL_DIM ++ bs " [" ++ ms (t1 - t0) ++ bs " ms]" ++ COL_RESET ++ NL);
          mret r
        else mret r
  end.

(** [getline]: a line with its LF, or the rest of the input. *)
Fixpoint getline (l : list Z) : list Z * list Z :=
  match l with
  | [] => ([], [])
  | c :: l => if c =? LF then ([c], l) else let '(a, b) := getline l in (c :: a, b)
  end.

(** The line as a string, without its LF; [None] at the end of the input. *)
Definition stdin_line : io (tty W) (option (list Z)) := fun t =>
  let '(line, rest) := getline (tty_in t) in
  Some (match line with
        | [] => None
        | _ :: _ => Some (cstr (if default 0 (last line) =? LF then removelast line else line))
        end, Tty (tty_net t) rest (tty_out t) (tty_err t)).

Definition cli_readline (isatty : bool) (prompt : list Z) : io (tty W) (option (list Z)) :=
  _ ← (if isatty then printf prompt else mret ()); stdin_line.

(** ** The client *)

Definition pipe_line (fuel : nat) (c : vcli_conn) (line : list Z) : io (tty W) () :=
  match tokenize (Z.to_nat VC_MAX_ARGS) line with
  | [] => mret ()
  | toks => _ ← do_command fuel c toks; mret ()
  end.

(** [lines] bounds the lines of the input. *)
Fixpoint pipe_loop (lines fuel : nat) (c : vcli_conn) (isatty : bool) : io (tty W) () :=
  match lines with
  | O => ub
  | S lines =>
      o ← cli_readline isatty [];
      match o with
      | None => mret ()
      | Some line => _ ← pipe_line fuel c line; pipe_loop lines fuel c isatty
      end
  end.

Definition help_text : list Z := concat ((fun l => l ++ NL) <$>
  [bs "Standard Redis commands:  GET SET DEL EXISTS EXPIRE TTL";
   bs "                          INCR DECR APPEND KEYS SCAN DBSIZE";
   bs "                          MGET MSET RENAME FLUSHDB INFO";
   bs "VoidCache extended:       VCSET VCGET VCINFO";
   bs "  VCSET <key> int <n>         — store typed integer";
   bs "  VCSET <key> float <n>       — store typed float";
   bs "  VCSET <key> bool true|false — store typed boolean";
   bs "  VCSET <key> json '<json>'   — store JSON (validated server-side)";
   bs "  VCSET <key> binary <data>   — store binary blob";
   bs "  VCGET <key>                 — get with type metadata";
   bs "  VCINFO                      — server info as JSON";
   bs "  CLUSTER INFO/NODES/MYID/SLOTS"]).

Fixpoint repl_loop (lines fuel : nat) (c : vcli_conn) (isatty : bool) (prompt : list Z) : io (tty W) () :=
  match lines with
  | O => ub
  | S lines =>
      o ← cli_readline isatty prompt;
      match o with
      | None => mret ()
      | Some line =>
          if decide (line = []) then repl_loop lines fuel c isatty prompt
          else if strcaseeq line (bs "quit") || strcaseeq line (bs "exit") then mret ()
          else if strcaseeq line (bs "help") then _ ← printf help_text; repl_loop lines fuel c isatty prompt
          else _ ← pipe_line fuel c line; repl_loop lines fuel c isatty prompt
      end
  end.

(** The reply to HELLO, read and discarded: one line per element, and the bytes of a
    non-empty bulk string.  The results of the reads are not looked at. *)
Fixpoint discard (n : nat) (c : vcli_conn) (line : list Z) : io (tty W) () :=
  match n with
  | O => mret ()
  | S n =>
      '(_, line) ← read_line c line 256;
      t ← lift (line !! 0%nat);
      _ ← (if t =? 36 then
             rest ← lift (c_string (drop 1 line));
             if (0 <? atoll rest) && malloc_ok (atoll rest + 3)
             then _ ← read_exactly c (atoll rest + 2); mret () else mret ()
           else mret ());
      discard n c line
  end.

Definition cli_hello (c : vcli_conn) : io (tty W) vcli_conn :=
  _ ← cli_sendall c (enc_command [bs "HELLO"; bs "3"]);
  '(_, line) ← read_line c [] 256;
  t ← lift (line !! 0%nat);
  if t =? 37 then
    rest ← lift (c_string (drop 1 line));
    _ ← discard (Z.to_nat (atoll rest * 2)) c line;
    mret (CliConn (cc_fd c) (cc_ssl c) true)
  else mret c.

Definition cli_auth_text (username password : list Z) : list Z :=
  if decide (username = []) then enc_command [bs "AUTH"; password] else enc_command [bs "AUTH"; username; password].

Definition cli_auth (fuel : nat) (c : vcli_conn) (username password : list Z) : io (tty W) () :=
  if decide (password = []) then mret ()
  else
    text ← lift (printed 512 (cli_auth_text username password));
    _ ← cli_sendall c text; _ ← print_reply fuel c 0; mret ().

End Client.

(** ** Options *)

(** [strtoull(s, &end, 10)]: the value and the bytes up to [end]. *)
Definition strtoull (l : list Z) : Z * nat :=
  let ws := skip_space l in
  let r := drop ws l in
  let '(neg, r, sg) := match r with
                       | c :: r' => if c =? 45 then (true, r', 1%nat)
                                    else if c =? 43 then (false, r', 1%nat) else (false, r, O)
                       | [] => (false, r, O)
                       end in
  let '(v, n) := digits r 0 in
  if (n =? 0)%nat then (0, O)
  else (if 2 ^ 64 - 1 <? v then 2 ^ 64 - 1 else if neg then u64 (- v) else v, (ws + sg + n)%nat).

Definition parse_mem (s : list Z) : Z :=
  let '(v, e) := strtoull s in
  let c := default 0 (drop e s !! 0%nat) in
  if (c =? 109) || (c =? 77) then u64 (v * (1024 * 1024))
  else if (c =? 103) || (c =? 71) then u64 (v * (1024 * 1024 * 1024))
  else if (c =? 107) || (c =? 75) then u64 (v * 1024)
  else v.

(** The fields of [vc_server_cfg_t] that the options set, and the variables of [main];
    [op_server] is [do_server], [op_cmd] the arguments from [cmd_start] on. *)
Record server_opts := ServerOpts {
  so_port : Z;
  so_bind : list Z;
  so_cert : option (list Z);
  so_key : option (list Z);
  so_acl : option (list Z);
  so_pass : option (list Z);
  so_mem : Z;
  so_wal : option (list Z);
  so_threads : Z;
  so_cluster : bool;
  so_ann_addr : option (list Z);
  so_ann_port : Z;
}.

Record cli_opts := CliOpts {
  op_host : list Z;
  op_port : Z;
  op_user : list Z;
  op_pass : list Z;
  op_tls : bool;
  op_cacert : list Z;
  op_pipe : bool;
  op_cluster : bool;
  op_color : bool;
  op_raw : bool;
  op_latency : bool;
  op_server : bool;
  op_scfg : server_opts;
  op_cmd : list (list Z);
}.

Definition set_so_port (v : Z) (o : server_opts) : server_opts :=
  ServerOpts v (so_bind o) (so_cert o) (so_key o) (so_acl o) (so_pass o) (so_mem o) (so_wal o) (so_threads o) (so_cluster o) (so_ann_addr o) (so_ann_port o).
Definition set_so_bind (v : list Z) (o : server_opts) : server_opts :=
  ServerOpts (so_port o) v (so_cert o) (so_key o) (so_acl o) (so_pass o) (so_mem o) (so_wal o) (so_threads o) (so_cluster o) (so_ann_addr o) (so_ann_port o).
Definition set_so_cert (v : option (list Z)) (o : server_opts) : server_opts :=
  ServerOpts (so_port o) (so_bind o) v (so_key o) (so_acl o) (so_pass o) (so_mem o) (so_wal o) (so_threads o) (so_cluster o) (so_ann_addr o) (so_ann_port o).
Definition set_so_key (v : option (list Z)) (o : server_opts) : server_opts :=
  ServerOpts (so_port o) (so_bind o) (so_cert o) v (so_acl o) (so_pass o) (so_mem o) (so_wal o) (so_threads o) (so_cluster o) (so_ann_addr o) (so_ann_port o).
Definition set_so_acl (v : option (list Z)) (o : server_opts) : server_opts :=
  ServerOpts (so_port o) (so_bind o) (so_cert o) (so_key o) v (so_pass o) (so_mem o) (so_wal o) (so_threads o) (so_cluster o) (so_ann_addr o) (so_ann_port o).
Definition set_so_pass (v : option (list Z)) (o : server_opts) : server_opts :=
  ServerOpts (so_port o) (so_bind o) (so_cert o) (so_key o) (so_acl o) v (so_mem o) (so_wal o) (so_threads o) (so_cluster o) (so_ann_addr o) (so_ann_port o).
Definition set_so_mem (v : Z) (o : server_opts) : server_opts :=
  ServerOpts (so_port o) (so_bind o) (so_cert o) (so_key o) (so_acl o) (so_pass o) v (so_wal o) (so_threads o) (so_cluster o) (so_ann_addr o) (so_ann_port o).
Definition set_so_wal (v : option (list Z)) (o : server_opts) : server_opts :=
  ServerOpts (so_port o) (so_bind o) (so_cert o) (so_key o) (so_acl o) (so_pass o) (so_mem o) v (so_threads o) (so_cluster o) (so_ann_addr o) (so_ann_port o).
Definition set_so_threads (v : Z) (o : server_opts) : server_opts :=
  ServerOpts (so_port o) (so_bind o) (so_cert o) (so_key o) (so_acl o) (so_pass o) (so_mem o) (so_wal o) v (so_cluster o) (so_ann_addr o) (so_ann_port o).
Definition set_so_cluster (v : bool) (o : server_opts) : server_opts :=
  ServerOpts (so_port o) (so_bind o) (so_cert o) (so_key o) (so_acl o) (so_pass o) (so_mem o) (so_wal o) (so_threads o) v (so_ann_addr o) (so_ann_port o).
Definition set_so_ann_addr (v : option (list Z)) (o : server_opts) : server_opts :=
  ServerOpts (so_port o) (so_bind o) (so_cert o) (so_key o) (so_acl o) (so_pass o) (so_mem o) (so_wal o) (so_threads o) (so_cluster o) v (so_ann_port o).
Definition set_so_ann_port (v : Z) (o : server_opts) : server_opts :=
  ServerOpts (so_port o) (so_bind o) (so_cert o) (so_key o) (so_acl o) (so_pass o) (so_mem o) (so_wal o) (so_threads o) (so_cluster o) (so_ann_addr o) v.

Definition set_op_host (v : list Z) (o : cli_opts) : cli_opts :=
  CliOpts v (op_port o) (op_user o) (op_pass o) (op_tls o) (op_cacert o) (op_pipe o) (op_cluster o) (op_color o) (op_raw o) (op_latency o) (op_server o) (op_scfg o) (op_cmd o).
Definition set_op_port (v : Z) (o : cli_opts) : cli_opts :=
  CliOpts (op_host o) v (op_user o) (op_pass o) (op_tls o) (op_cacert o) (op_pipe o) (op_cluster o) (op_color o) (op_raw o) (op_latency o) (op_server o) (op_scfg o) (op_cmd o).
Definition set_op_user (v : list Z) (o : cli_opts) : cli_opts :=
  CliOpts (op_host o) (op_port o) v (op_pass o) (op_tls o) (op_cacert o) (op_pipe o) (op_cluster o) (op_color o) (op_raw o) (op_latency o) (op_server o) (op_scfg o) (op_cmd o).
Definition set_op_pass (v : list Z) (o : cli_opts) : cli_opts :=
  CliOpts (op_host o) (op_port o) (op_user o) v (op_tls o) (op_cacert o) (op_pipe o) (op_cluster o) (op_color o) (op_raw o) (op_latency o) (op_server o) (op_scfg o) (op_cmd o).
Definition set_op_tls (v : bool) (o : cli_opts) : cli_opts :=
  CliOpts (op_host o) (op_port o) (op_user o) (op_pass o) v (op_cacert o) (op_pipe o) (op_cluster o) (op_color o) (op_raw o) (op_latency o) (op_server o) (op_scfg o) (op_cmd o).
Definition set_op_cacert (v : list Z) (o : cli_opts) : cli_opts :=
  CliOpts (op_host o) (op_port o) (op_user o) (op_pass o) (op_tls o) v (op_pipe o) (op_cluster o) (op_color o) (op_raw o) (op_latency o) (op_server o) (op_scfg o) (op_cmd o).
Definition set_op_pipe (v : bool) (o : cli_opts) : cli_opts :=
  CliOpts (op_host o) (op_port o) (op_user o) (op_pass o) (op_tls o) (op_cacert o) v (op_cluster o) (op_color o) (op_raw o) (op_latency o) (op_server o) (op_scfg o) (op_cmd o).
Definition set_op_cluster (v : bool) (o : cli_opts) : cli_opts :=
  CliOpts (op_host o) (op_port o) (op_user o) (op_pass o) (op_tls o) (op_cacert o) (op_pipe o) v (op_color o) (op_raw o) (op_latency o) (op_server o) (op_scfg o) (op_cmd o).
Definition set_op_color (v : bool) (o : cli_opts) : cli_opts :=
  CliOpts (op_host o) (op_port o) (op_user o) (op_pass o) (op_tls o) (op_cacert o) (op_pipe o) (op_cluster o) v (op_raw o) (op_latency o) (op_server o) (op_scfg o) (op_cmd o).
Definition set_op_raw (v : bool) (o : cli_opts) : cli_opts :=
  CliOpts (op_host o) (op_port o) (op_user o) (op_pass o) (op_tls o) (op_cacert o) (op_pipe o) (op_cluster o) (op_color o) v (op_latency o) (op_server o) (op_scfg o) (op_cmd o).
Definition set_op_latency (v : bool) (o : cli_opts) : cli_opts :=
  CliOpts (op_host o) (op_port o) (op_user o) (op_pass o) (op_tls o) (op_cacert o) (op_pipe o) (op_cluster o) (op_color o) (op_raw o) v (op_server o) (op_scfg o) (op_cmd o).
Definition set_op_server (v : bool) (o : cli_opts) : cli_opts :=
  CliOpts (op_host o) (op_port o) (op_user o) (op_pass o) (op_tls o) (op_cacert o) (op_pipe o) (op_cluster o) (op_color o) (op_raw o) (op_latency o) v (op_scfg o) (op_cmd o).
Definition set_op_scfg (v : server_opts) (o : cli_opts) : cli_opts :=
  CliOpts (op_host o) (op_port o) (op_user o) (op_pass o) (op_tls o) (op_cacert o) (op_pipe o) (op_cluster o) (op_color o) (op_raw o) (op_latency o) (op_server o) v (op_cmd o).
Definition set_op_cmd (v : list (list Z)) (o : cli_opts) : cli_opts :=
  CliOpts (op_host o) (op_port o) (op_user o) (op_pass o) (op_tls o) (op_cacert o) (op_pipe o) (op_cluster o) (op_color o) (op_raw o) (op_latency o) (op_server o) (op_scfg o) v.

Definition default_server : server_opts :=
  ServerOpts 6379 (bs "0.0.0.0") None None None None (256 * 1024 * 1024) None 4 false None 0.
(** [color] is whether standard output is a terminal. *)
Definition default_opts (color : bool) : cli_opts :=
  CliOpts (bs "127.0.0.1") 6379 [] [] false [] false false color false false false default_server [].

(** The options of the server that take an argument. *)
Definition server_flag (a : list Z) : option (list Z -> server_opts -> server_opts) :=
  if decide (a = bs "--port") then Some (fun v => set_so_port (u16 (atoi v)))
  else if decide (a = bs "--bind") then Some set_so_bind
  else if decide (a = bs "--tls-cert") then Some (fun v => set_so_cert (Some v))
  else if decide (a = bs "--tls-key") then Some (fun v => set_so_key (Some v))
  else if decide (a = bs "--acl-file") then Some (fun v => set_so_acl (Some v))
  else if decide (a = bs "--requirepass") then Some (fun v => set_so_pass (Some v))
  else if decide (a = bs "--maxmemory") then Some (fun v => set_so_mem (parse_mem v))
  else if decide (a = bs "--wal") then Some (fun v => set_so_wal (Some v))
  else if decide (a = bs "--threads") then Some (fun v => set_so_threads (atoi v))
  else if decide (a = bs "--announce-addr") then Some (fun v => set_so_ann_addr (Some v))
  else if decide (a = bs "--announce-port") then Some (fun v => set_so_ann_port (u16 (atoi v)))
  else None.

(** Those of the client, with the sizes of its arrays. *)
Definition client_flag (a : list Z) : option (list Z -> cli_opts -> cli_opts) :=
  if decide (a = bs "-h") then Some (fun v => set_op_host (take 255 v))
  else if decide (a = bs "-p") then Some (fun v => set_op_port (u16 (atoi v)))
  else if decide (a = bs "-a") then Some (fun v => set_op_pass (take 255 v))
  else if decide (a = bs "-u") then Some (fun v => set_op_user (take 63 v))
  else if decide (a = bs "--cacert") then Some (fun v => set_op_cacert (take 255 v))
  else if decide (a = bs "-n") then Some (fun _ o => o)
  else None.

(** Those without an argument. *)
Definition client_switch (a : list Z) : option (cli_opts -> cli_opts) :=
  if decide (a = bs "--tls") then Some (set_op_tls true)
  else if decide (a = bs "--raw") then Some (set_op_raw true)
  else if decide (a = bs "--no-color") then Some (set_op_color false)
  else if decide (a = bs "--latency") then Some (set_op_latency true)
  else if decide (a = bs "--pipe") then Some (set_op_pipe true)
  else if decide (a = bs "--cluster") then Some (set_op_cluster true)
  else None.

Inductive parsed := ShowHelp | ShowServerHelp | Parsed (o : cli_opts).

(** An option that wants an argument and is the last word is skipped by the server and is
    the command of the client. *)
Fixpoint parse_opts (fuel : nat) (args : list (list Z)) (o : cli_opts) : parsed :=
  match fuel, args with
  | S fuel, a :: rest =>
      if decide (a = bs "--help" \/ a = bs "-?") then ShowHelp
      else if decide (a = bs "--help-server") then ShowServerHelp
      else if decide (a = bs "server") then parse_opts fuel rest (set_op_server true o)
      else if op_server o then
        match server_flag a, rest with
        | Some f, v :: rest' => parse_opts fuel rest' (set_op_scfg (f v (op_scfg o)) o)
        | _, _ =>
            parse_opts fuel rest
              (if decide (a = bs "--cluster") then set_op_scfg (set_so_cluster true (op_scfg o)) o else o)
        end
      else
        match client_flag a, rest with
        | Some f, v :: rest' => parse_opts fuel rest' (f v o)
        | _, _ => match client_switch a with
                  | Some f => parse_opts fuel rest (f o)
                  | None => Parsed (set_op_cmd args o)
                  end
        end
  | _, _ => Parsed o
  end.

(** Every round takes at least one word; [args] is without the program's name. *)
Definition parse_args (color : bool) (args : list (list Z)) : parsed :=
  parse_opts (length args) args (default_opts color).

(** ** Help *)

Definition print_help (prog : list Z) : list Z := concat ((fun l => l ++ NL) <$>
  [COL_BOLD ++ bs "VoidCache CLI " ++ COL_RESET ++ bs "(" ++ VC_SERVER_VERSION ++ bs ")";
   [];
   bs "Usage: " ++ prog ++ bs " [options] [command [args...]]";
   [];
   bs "Connection options:";
   bs "  -h <hostname>     Server hostname (default: 127.0.0.1)";
   bs "  -p <port>         Server port (default: 6379)";
   bs "  -a <password>     Password";
   bs "  -u <username>     Username for ACL auth";
   bs "  -n <db>           Database number (VoidCache always uses 0)";
   bs "  --tls             Enable TLS";
   bs "  --cacert <file>   CA certificate for TLS verification";
   bs "  --cluster         Connect in cluster routing mode";
   [];
   bs "Display options:";
   bs "  --raw             Print raw output (no type decorations)";
   bs "  --no-color        Disable colored output";
   bs "  --latency         Show per-command latency";
   [];
   bs "Modes:";
   bs "  --pipe            Read commands from stdin (batch mode)";
   bs "  server            Start VoidCache server (see --help-server)";
   [];
   bs "VoidCache extended commands:";
   bs "  VCSET <key> <type> <value>   Store typed value";
   bs "    types: int, float, bool, json, binary, string";
   bs "  VCGET <key>                  Get with type metadata";
   bs "  VCINFO                       Server info as JSON";
   [];
   bs "Examples:";
   bs "  " ++ prog ++ bs " PING";
   bs "  " ++ prog ++ bs " SET mykey myvalue";
   bs "  " ++ prog ++ bs " VCSET score int 42";
   bs "  " ++ prog ++ bs " VCSET config json '{" ++ [34] ++ bs "timeout" ++ [34] ++ bs ":30}'";
   bs "  " ++ prog ++ bs " -h 10.0.0.1 -p 6379 --tls -a password INFO";
   bs "  " ++ prog ++ bs " --cluster -h 10.0.0.1 GET mykey"]).

Definition print_server_help : list Z := concat ((fun l => l ++ NL) <$>
  [COL_BOLD ++ bs "VoidCache Server" ++ COL_RESET;
   [];
   bs "Usage: vcli server [options]";
   [];
   bs "  --port <port>         Listen port (default: 6379)";
   bs "  --bind <addr>         Bind address (default: 0.0.0.0)";
   bs "  --tls-cert <file>     TLS certificate (enables TLS)";
   bs "  --tls-key  <file>     TLS private key";
   bs "  --acl-file <file>     ACL file (username pw_sha256_hex flags)";
   bs "  --requirepass <pass>  Simple password (Redis compat)";
   bs "  --maxmemory <bytes>   Memory cap (e.g. 256m, 1g)";
   bs "  --wal <path>          WAL file path";
   bs "  --threads <n>         Worker threads (default: 4)";
   bs "  --cluster             Enable cluster mode";
   bs "  --announce-addr <ip>  Address reported to cluster peers";
   bs "  --announce-port <p>   Port reported to cluster peers";
   [];
   bs "ACL file format (one user per line):";
   bs "  <username> <sha256_of_password_hex> <acl_flags>";
   bs "  flags: r=read  w=write  a=admin  p=pubsub  *=all";
   [];
   bs "Example:";
   bs "  vcli server --port 6379 --tls-cert cert.pem --tls-key key.pem \";
   bs "              --requirepass secret --maxmemory 1g"]).

(** ** The main program, client side *)

Section Main.
Context {W : Type} {N : Net W}.
Variable malloc_ok : Z -> bool.
Variable fl : floats.
Variable ms : Z -> list Z.
(** The text of [errno]; whether standard input is a terminal. *)
Variable strerr : list Z.
Variable isatty : bool.
(** Bounds of the input lines and of the nesting of replies. *)
Variables lines fuel : nat.

Definition opts_display (o : cli_opts) : display := Display (op_color o) (op_raw o) (op_latency o).

(** The first address only; a blocking [connect] is done when it returns. *)
Definition cli_tcp_connect (host : list Z) (port : Z) : io (tty W) Z :=
  l ← sys (net_addrs host port);
  let failed fd := _ ← eprintf (bs "Could not connect to " ++ host ++ bs ":" ++ dec port ++ bs ": " ++ strerr ++ NL);
                   _ ← sys (net_close fd); mret (-1) in
  match l with
  | None => _ ← eprintf (bs "Could not resolve " ++ host ++ NL); mret (-1)
  | Some (SocketFailed :: _) => mret (-1)
  | Some (ConnectNow fd :: _) => mret fd
  | Some (ConnectFailed fd :: _) => failed fd
  | Some (ConnectLater fd ready so_error :: _) => if ready && negb so_error then mret fd else failed fd
  | Some [] => ub
  end.

Definition banner (o : cli_opts) : list Z :=
  let tls := if op_tls o then bs " [TLS]" else [] in
  if op_color o then
    COL_BOLD ++ bs "VoidCache " ++ VC_SERVER_VERSION ++ COL_RESET ++ bs "  connected to " ++ op_host o ++ bs ":" ++
    dec (op_port o) ++ tls ++ NL ++ COL_DIM ++
    bs "Type commands, HELP for extended commands, QUIT to exit." ++ COL_RESET ++ NL
  else
    bs "VoidCache " ++ VC_SERVER_VERSION ++ bs "  connected to " ++ op_host o ++ bs ":" ++ dec (op_port o) ++ tls ++ NL.

(** The connected client: negotiation, login, then one command, a batch or the prompt. *)
Definition client_session (o : cli_opts) (c : vcli_conn) : io (tty W) () :=
  let d := opts_display o in
  c ← cli_hello malloc_ok c;
  _ ← cli_auth malloc_ok fl d fuel c (op_user o) (op_pass o);
  match op_cmd o with
  | _ :: _ => _ ← do_command malloc_ok fl d ms fuel c (take (Z.to_nat VC_MAX_ARGS) (op_cmd o)); mret ()
  | [] =>
      if op_pipe o then pipe_loop malloc_ok fl d ms lines fuel c isatty
      else
        _ ← printf (banner o);
        repl_loop malloc_ok fl d ms lines fuel c isatty (take 63 (op_host o ++ bs ":" ++ dec (op_port o) ++ bs "> "))
  end.

(** The exit code.  The certificate of the server is not verified. *)
Definition client_direct (ctx_ok : bool) (o : cli_opts) : io (tty W) Z :=
  fd ← cli_tcp_connect (op_host o) (op_port o);
  if fd <? 0 then mret 1
  else if op_tls o && negb ctx_ok then _ ← sys (net_close fd); mret 1
  else
    tls ← (if op_tls o then sys (net_ssl_connect fd) else mret true);
    if negb tls then _ ← eprintf (bs "TLS handshake failed" ++ NL); _ ← sys (net_close fd); mret 1
    else
      _ ← client_session o (CliConn fd (op_tls o) false);
      _ ← sys (net_close fd); mret 0.

(** Cluster mode.  [vc_resp_format] is called for all the words with only the first of them
    passed: reading a second one is undefined.  When the command fails, the pointer
    [reply] that is then tested was never set. *)
Definition client_cluster (alloc_ok ctx_ok : bool) (o : cli_opts) : io (tty W) Z :=
  let seeds := take 511 (op_host o ++ bs ":" ++ dec (op_port o)) in
  let given s := if decide (s = []) then None else Some s in
  ocl ← vc_cluster_connect alloc_ok ctx_ok seeds (given (op_user o)) (given (op_pass o))
          (op_tls o && negb (bool_decide (op_cacert o = [])));
  match ocl with
  | None => _ ← eprintf (bs "Cluster connection failed" ++ NL); mret 1
  | Some cl =>
      match op_cmd o with
      | [] => _ ← vc_cluster_destroy cl; mret 0
      | [w] =>
          cmd ← lift (encode_command CMDBUF [w]);
          '(e, r, cl) ← vc_cluster_cmd malloc_ok cl None cmd;
          reply ← lift r;
          _ ← printf (cstr reply ++ NL);
          _ ← vc_cluster_destroy cl; mret 0
      | _ => ub
      end
  end.

Definition client_main (alloc_ok ctx_ok : bool) (o : cli_opts) : io (tty W) Z :=
  if op_cluster o then client_cluster alloc_ok ctx_ok o else client_direct ctx_ok o.

(** The exit code, or the configuration the server is started with.  [prog] and [args] are
    [argv]; [color] is whether standard output is a terminal. *)
Definition main (alloc_ok ctx_ok color : bool) (prog : list Z) (args : list (list Z)) : io (tty W) (Z + server_opts) :=
  match parse_args color args with
  | ShowHelp => _ ← printf (print_help prog); mret (inl 0)
  | ShowServerHelp => _ ← printf print_server_help; mret (inl 0)
  | Parsed o =>
      if op_server o then mret (inr (op_scfg o))
      else r ← client_main alloc_ok ctx_ok o; mret (inl r)
  end.

End Main.
