(* ===== verification/CliThm.v ===== *)
(** * Command-line client: theorems

    A typed line reaches the server's parser as the words that were typed; the printer
    takes exactly one reply from the stream, however deep it is nested, and prints what a
    function on the reply as a tree prescribes; the handshake leaves the stream in step. *)

From S2P Require Import Prelude Proto ProtoSpec Auth Resp Net Cluster ClusterInv ClusterThm Cli.
From S2P Require Import Commands.

(** ** Encoder and tokenizer *)

Lemma encode_args_spec bufsz args pos buf :
  pos < bufsz ->
  encode_args bufsz args pos buf =
  if bufsz <=? pos + Z.of_nat (length (enc_bulks args)) then None else Some (buf ++ enc_bulks args).
Proof.
  revert pos buf. induction args as [|a args IH]; intros pos buf Hp; cbn [encode_args].
  - change (enc_bulks []) with (@nil Z). cbn [length]. destruct (Z.leb_spec bufsz (pos + Z.of_nat 0)); [lia|].
    by rewrite app_nil_r.
  - change (bs "$" ++ dec (Z.of_nat (length a)) ++ CRLF ++ a ++ CRLF) with (enc_bulk a).
    change (enc_bulks (a :: args)) with (enc_bulk a ++ enc_bulks args). rewrite length_app, Nat2Z.inj_add.
    destruct (Z.leb_spec bufsz (pos + Z.of_nat (length (enc_bulk a)))).
    + destruct (Z.leb_spec bufsz (pos + (Z.of_nat (length (enc_bulk a)) + Z.of_nat (length (enc_bulks args))))); [done|lia].
    + rewrite IH by done. rewrite Z.add_assoc, <- app_assoc. done.
Qed.

(** The encoder gives the command, or -1 exactly when it does not fit with its NUL. *)
Lemma encode_command_spec bufsz args :
  64 <= bufsz -> Z.of_nat (length args) < 2 ^ 31 ->
  encode_command bufsz args =
  if bufsz <=? Z.of_nat (length (enc_command args)) then None else Some (enc_command args).
Proof.
  intros Hb Hn. unfold encode_command. set (h := bs "*" ++ dec (Z.of_nat (length args)) ++ CRLF).
  assert (Hh : Z.of_nat (length h) < 64).
  { unfold h. rewrite !length_app. pose proof (length_dec (Z.of_nat (length args)) ltac:(lia)). cbn. lia. }
  assert (E : enc_command args = h ++ enc_bulks args).
  { unfold h, enc_command. by rewrite <- !app_assoc. }
  rewrite encode_args_spec by lia. by rewrite E, length_app, Nat2Z.inj_add.
Qed.

(** A line as a user types it: every word in double quotes. *)
Definition typed (args : list (list Z)) : list Z := concat ((fun a => 34 :: a ++ [34; 32]) <$> args).

Lemma cut_at stop a c rest : Forall (fun x => stop x = false) a -> stop c = true -> cut stop (a ++ c :: rest) = (a, rest).
Proof.
  induction 1 as [|x a Hx _ IH]; intros Hc; cbn [app cut]; [by rewrite Hc|]. by rewrite Hx, IH.
Qed.

Lemma tokenize_typed n args :
  Forall (fun a => 34 ∉ a) args -> (length args <= n)%nat ->
  tokenize n (typed args) = args /\ tokenize n (32 :: typed args) = args.
Proof.
  intros Ha. revert n. induction Ha as [|a args Ha _ IH]; intros n Hn.
  { destruct n; done. }
  destruct n as [|n]; [cbn in Hn; lia|]. destruct (IH n ltac:(cbn in Hn; lia)) as [_ E].
  assert (Ht : typed (a :: args) = 34 :: a ++ 34 :: 32 :: typed args).
  { unfold typed. cbn [fmap list_fmap concat app]. by rewrite <- app_assoc. }
  assert (Hc : cut (fun x => x =? 34) (a ++ 34 :: 32 :: typed args) = (a, 32 :: typed args)).
  { apply cut_at; [|done]. apply Forall_forall. intros x Hx. apply Z.eqb_neq. intros ->. done. }
  rewrite Ht. cbn [tokenize skip_blank]. change (is_blank 34) with false. change (is_blank 32) with true. cbv iota.
  rewrite Z.eqb_refl, Hc, E. done.
Qed.

(** ** Terminal and network *)

Section Printer.
Context {W : Type} {N : Net W} {NS : NetStream W}.
Implicit Types t : tty W.

(** The terminal is left alone. *)
Definition same_tty t t' : Prop := tty_in t' = tty_in t /\ tty_out t' = tty_out t /\ tty_err t' = tty_err t.

#[local] Instance same_tty_preorder : PreOrder same_tty.
Proof. split; [by intros t|]. intros t1 t2 t3 (? & ? & ?) (? & ? & ?). repeat split; congruence. Qed.

Lemma same_tty_recv fd ssl n t : same_tty t (net_recv fd ssl n t).2.
Proof. cbn. unfold on_net. by destruct (net_recv _ _ _ _). Qed.

Lemma quiet_readline fd ssl old n : frames same_tty (sock_readline fd ssl old n).
Proof. apply frames_readline; [apply _|apply same_tty_recv]. Qed.

Lemma quiet_readn fd ssl n : frames same_tty (sock_readn fd ssl n).
Proof. apply frames_readn; [apply _|apply same_tty_recv]. Qed.

Lemma tty_eta t t' : same_tty t t' ->
  t' = Tty (tty_net t') (tty_in t) (tty_out t) (tty_err t).
Proof. unfold same_tty. destruct t'. cbn. by intros (-> & -> & ->). Qed.

(** ** What is printed of a reply *)

Variable malloc_ok : Z -> bool.
Hypothesis Hmalloc : forall n, malloc_ok n = true.
Variable fl : floats.
Variable d : display.

Definition title (name : list Z) : list Z := if raw_mode d then [] else colored d COL_BOLD name ++ NL.

(** A typed value: its type and its payload. *)
Definition typed_payload (data : list Z) : option (Z * list Z) :=
  match data with
  | a :: b :: c :: x :: ty :: payload => if decide ([a; b; c; x] = VC_WIRE_MAGIC) then Some (ty, payload) else None
  | _ => None
  end.

(** The text of a typed value; the texts in it end at a NUL. *)
Definition show_typed (ty : Z) (payload data : list Z) : list Z :=
  if decide (ty = VC_TYPE_INT64) then tagged d COL_CYAN (bs "(integer) ") (dec (s64 (le_decode (take 8 payload))))
  else if decide (ty = VC_TYPE_FLOAT64) then tagged d COL_CYAN (bs "(float) ") (g_bits fl (take 8 payload))
  else if decide (ty = VC_TYPE_BOOL) then
    tagged d COL_MAGENTA (bs "(bool) ") (match payload with [] | 0 :: _ => bs "false" | _ => bs "true" end)
  else if decide (ty = VC_TYPE_JSON) then colored d COL_YELLOW (bs "(json) ") ++ cstr payload
  else if decide (ty = VC_TYPE_BINARY) then
    colored d COL_DIM (bs "(binary " ++ dec (Z.of_nat (length payload)) ++ bs " bytes)")
  else cstr data.

(** A byte that can be shown: a tab, anything from the line feed on, but not DEL. *)
Definition visible (c : Z) : Prop := 9 <= c /\ c <> 127.

#[local] Instance visible_dec c : Decision (visible c).
Proof. unfold visible. apply _. Defined.

(** A bulk string: as it is in raw mode, else by its type, in quotes if it can be shown, or
    only its length. *)
Definition show_bulk (depth : nat) (data : list Z) : list Z :=
  indent depth ++
  (if raw_mode d then data
   else match typed_payload data with
        | Some (ty, payload) => show_typed ty payload data
        | None => if decide (Forall visible data) then colored d COL_GREEN ([34] ++ data ++ [34])
                  else colored d COL_DIM (bs "(binary " ++ dec (Z.of_nat (length data)) ++ bs " bytes)")
        end) ++ NL.

(** Elements with their numbers, from [i] on. *)
Fixpoint numbered (depth : nat) (i : Z) (l : list (list Z)) : list Z :=
  match l with
  | [] => []
  | x :: l => (if raw_mode d then [] else indent depth ++ dec i ++ bs ") ") ++ x ++ numbered depth (i + 1) l
  end.

Definition labelled (depth : nat) (label x : list Z) : list Z :=
  indent (depth + 1) ++ (if raw_mode d then [] else colored d COL_BOLD label) ++ x.

(** Standard output. *)
Fixpoint show_out (depth : nat) (r : reply) : list Z :=
  match r with
  | RSimple s => (if raw_mode d then s else colored d COL_GREEN s) ++ NL
  | RError _ => []
  | RInt n => (if raw_mode d then dec n else tagged d COL_CYAN (bs "(integer) ") (dec n)) ++ NL
  | RBool b => (if raw_mode d then true_false b else tagged d COL_MAGENTA (bs "(boolean) ") (true_false b)) ++ NL
  | RNull | RNil => nil_text d
  | RBulk data => show_bulk depth data
  | RDouble s => (if raw_mode d then g_text fl s else tagged d COL_CYAN (bs "(double) ") (g_text fl s)) ++ NL
  | RBlobError _ => []
  | RArray [] => if raw_mode d then [] else bs "(empty array)" ++ NL
  | RArray l => numbered depth 1 (show_out (depth + 1) <$> l)
  | RMap l =>
      title (bs "(map)") ++ concat ((fun p => labelled depth (bs "key: ") (show_out (depth + 2) p.1) ++
                                     labelled depth (bs "val: ") (show_out (depth + 2) p.2)) <$> l)
  | RSet l => title (bs "(set)") ++ concat ((fun r => indent (depth + 1) ++ show_out (depth + 1) r) <$> l)
  end.

(** Standard error: the errors in it. *)
Fixpoint show_err (r : reply) : list Z :=
  match r with
  | RError s => colored d COL_RED (bs "(error) " ++ s) ++ NL
  | RBlobError data => colored d COL_RED (bs "(error) " ++ cstr data) ++ NL
  | RArray l | RSet l => concat (show_err <$> l)
  | RMap l => concat ((fun p => show_err p.1 ++ show_err p.2) <$> l)
  | _ => []
  end.

(** The floats among the typed values in it have their eight bytes. *)
Fixpoint typed_ok (r : reply) : Prop :=
  match r with
  | RBulk data =>
      match typed_payload data with
      | Some (ty, payload) => ty = VC_TYPE_FLOAT64 -> (8 <= length payload)%nat
      | None => True
      end
  | RArray l | RSet l => foldr (fun r Q => typed_ok r /\ Q) True l
  | RMap l => foldr (fun p Q => (typed_ok p.1 /\ typed_ok p.2) /\ Q) True l
  | _ => True
  end.

(** How deep it is nested. *)
Fixpoint height (r : reply) : nat :=
  match r with
  | RArray l | RSet l => S (foldr (fun r m => max (height r) m) O l)
  | RMap l => S (foldr (fun p m => max (max (height p.1) (height p.2)) m) O l)
  | _ => 1
  end.

(** The terminal after text. *)
Definition said t (w : W) (out err : list Z) : tty W := Tty w (tty_in t) (tty_out t ++ out) (tty_err t ++ err).

Lemma said_said t w1 w2 o1 e1 o2 e2 : said (said t w1 o1 e1) w2 o2 e2 = said t w2 (o1 ++ o2) (e1 ++ e2).
Proof. unfold said. cbn. by rewrite !app_assoc. Qed.

Lemma said_nil t w : said t w [] [] = Tty w (tty_in t) (tty_out t) (tty_err t).
Proof. unfold said. by rewrite !app_nil_r. Qed.

(** [m] reads the bytes [s] of connection [c] and prints. *)
Definition prints (c : vcli_conn) (m : io (tty W) bool) (s out err : list Z) : Prop :=
  forall t rest, net_in (tty_net t) (cc_fd c) = s ++ rest ->
    exists w', m t = Some (true, said t w' out err) /\ net_in w' (cc_fd c) = rest.

Lemma print_bind {A} s (f : io (tty W) A) t : (printf s ≫= fun _ => f) t = f (said t (tty_net t) s []).
Proof. unfold mbind, io_bind, printf, said. by rewrite app_nil_r. Qed.

Lemma eprint_bind {A} s (f : io (tty W) A) t : (eprintf s ≫= fun _ => f) t = f (said t (tty_net t) [] s).
Proof. unfold mbind, io_bind, eprintf, said. by rewrite app_nil_r. Qed.

(** The first line of a reply. *)
Lemma first_line c old n r rest t :
  net_in (tty_net t) (cc_fd c) = enc_reply r ++ rest -> reply_ok n r -> (21 <= n)%nat ->
  exists w1 line, read_line c old (n + 4) t = Some ((true, line), said t w1 [] []) /\
    net_in w1 (cc_fd c) = reply_tail r ++ rest /\ line !! 0%nat = Some (reply_line r).1 /\
    c_string (drop 1 line) = Some (reply_line r).2 /\ line !! 1%nat = ((reply_line r).2 ++ [0; LF]) !! 0%nat.
Proof.
  intros Hw Hr Hn. rewrite enc_reply_line in Hw. destruct (reply_line_ok n r Hr Hn) as (Ht & Hc & _).
  set (x := (reply_line r).1) in *. set (s := (reply_line r).2) in *.
  replace ((x :: s ++ CRLF ++ reply_tail r) ++ rest) with ((x :: s) ++ CRLF ++ reply_tail r ++ rest) in Hw
    by (cbn [app]; by rewrite <- !app_assoc).
  destruct (readline_spec (NS := tty_is_stream) (cc_fd c) (cc_ssl c) old (n + 4) (x :: s) (reply_tail r ++ rest) t Hw) as (t1 & E1 & _ & H1).
  { by eapply text_ok_cons. } { destruct Ht as (_ & _ & Hl). cbn [length]. lia. }
  pose proof (quiet_readline _ _ _ _ _ _ _ E1) as Hq. rewrite (tty_eta _ _ Hq) in E1.
  exists (tty_net t1), (overwrite ((x :: s) ++ [0; LF]) old). rewrite said_nil. split; [exact E1|]. split; [exact H1|].
  split; [done|]. split; [apply line_rest, Ht|]. unfold overwrite. cbn [app]. by destruct s.
Qed.

(** The elements of an array, of a map. *)
Lemma print_array_prints c elem (l : list reply) dep i depth :
  Forall (fun r => prints c elem (enc_reply r) (show_out dep r) (show_err r)) l ->
  prints c (print_array d elem (length l) i depth) (concat (enc_reply <$> l))
    (numbered depth i (show_out dep <$> l)) (concat (show_err <$> l)).
Proof.
  intros Hl. revert i. induction Hl as [|r l Hr _ IH]; intros i t rest Hw.
  { exists (tty_net t). cbn. rewrite said_nil. split; [by destruct t|done]. }
  cbn [fmap list_fmap concat length print_array numbered] in *. rewrite <- app_assoc in Hw.
  set (pre := if raw_mode d then [] else indent depth ++ dec i ++ bs ") ").
  assert (E : forall (f : io (tty W) bool),
    ((if raw_mode d then mret () else printf (indent depth ++ dec i ++ bs ") ")) ≫= fun _ => f) t
    = f (said t (tty_net t) pre [])).
  { intros f. unfold pre. destruct (raw_mode d); [|apply print_bind].
    unfold mbind, io_bind, mret, io_ret. rewrite said_nil. by destruct t. }
  rewrite E. destruct (Hr (said t (tty_net t) pre []) (concat (enc_reply <$> l) ++ rest) Hw) as (w1 & E1 & H1).
  rewrite (bind_some _ _ _ _ _ E1). cbn [negb]. rewrite said_said.
  destruct (IH (i + 1) (said t w1 (pre ++ show_out dep r) ([] ++ show_err r)) rest H1) as (w2 & E2 & H2).
  exists w2. rewrite E2, said_said. split; [|done]. by rewrite <- !app_assoc.
Qed.

Lemma print_map_prints c elem (l : list (reply * reply)) dep depth :
  Forall (fun p => prints c elem (enc_reply p.1) (show_out dep p.1) (show_err p.1) /\
                   prints c elem (enc_reply p.2) (show_out dep p.2) (show_err p.2)) l ->
  prints c (print_map d elem (length l) depth) (concat ((fun p => enc_reply p.1 ++ enc_reply p.2) <$> l))
    (concat ((fun p => labelled depth (bs "key: ") (show_out dep p.1) ++ labelled depth (bs "val: ") (show_out dep p.2)) <$> l))
    (concat ((fun p => show_err p.1 ++ show_err p.2) <$> l)).
Proof.
  intros Hl. induction Hl as [|[a b] l [Ha Hb] _ IH]; intros t rest Hw.
  { exists (tty_net t). cbn. rewrite said_nil. split; [by destruct t|done]. }
  cbn [fmap list_fmap concat length print_map fst snd] in *. rewrite <- !app_assoc in Hw. rewrite print_bind.
  match goal with |- context [(elem ≫= _) ?u] => destruct (Ha u _ Hw) as (w1 & E1 & H1) end. rewrite (bind_some _ _ _ _ _ E1). cbn [negb].
  rewrite said_said, print_bind.
  match goal with |- context [(elem ≫= _) ?u] => destruct (Hb u _ H1) as (w2 & E2 & H2) end.
  rewrite (bind_some _ _ _ _ _ E2). cbn [negb]. rewrite !said_said.
  match goal with |- context [print_map d elem (length l) depth ?u] => destruct (IH u _ H2) as (w3 & E3 & H3) end.
  exists w3. rewrite E3, said_said. split; [|done].
  unfold labelled. by rewrite !app_nil_l, ?app_nil_r, <- !app_assoc.
Qed.

Lemma print_set_prints c elem (l : list reply) dep depth :
  Forall (fun r => prints c elem (enc_reply r) (show_out dep r) (show_err r)) l ->
  prints c (print_set elem (length l) depth) (concat (enc_reply <$> l))
    (concat ((fun r => indent (depth + 1) ++ show_out dep r) <$> l)) (concat (show_err <$> l)).
Proof.
  intros Hl. induction Hl as [|r l Hr _ IH]; intros t rest Hw.
  { exists (tty_net t). cbn. rewrite said_nil. split; [by destruct t|done]. }
  cbn [fmap list_fmap concat length print_set] in *. rewrite <- !app_assoc in Hw. rewrite print_bind.
  match goal with |- context [(elem ≫= _) ?u] => destruct (Hr u _ Hw) as (w1 & E1 & H1) end. rewrite (bind_some _ _ _ _ _ E1). cbn [negb].
  rewrite said_said. match goal with |- context [print_set elem (length l) depth ?u] => destruct (IH u _ H1) as (w2 & E2 & H2) end.
  exists w2. rewrite E2, said_said. split; [|done]. by rewrite !app_nil_l, <- !app_assoc.
Qed.

Lemma printable_visible data : printable data = bool_decide (Forall visible data).
Proof.
  unfold printable. induction data as [|c data IH]; [done|]. cbn [forallb]. rewrite IH. apply eq_bool_prop_intro.
  rewrite andb_True, !bool_decide_spec, Forall_cons. unfold visible.
  destruct (Z.ltb_spec c 9), (Z.eqb_spec c 127); cbn; naive_solver lia.
Qed.

Lemma cstr_cut a b : cstr (a ++ 0 :: b) = cstr a.
Proof. induction a as [|c a IH]; [done|]. cbn [app cstr]. destruct (c =? 0); [done|]. by rewrite IH. Qed.

Lemma length_cstr a : (length (cstr a) <= length a)%nat.
Proof. induction a as [|c a IH]; [done|]. cbn [cstr]. destruct (c =? 0); cbn [length]; lia. Qed.

Lemma prec_text a b : Z.of_nat (length a) < 2 ^ 31 -> prec_s (Z.of_nat (length a)) (a ++ 0 :: b) = cstr a.
Proof.
  intros Hl. unfold prec_s. assert (s32 (Z.of_nat (length a)) = Z.of_nat (length a)) as ->
    by (unfold s32; rewrite Z.mod_small by lia; lia). destruct (Z.ltb_spec (Z.of_nat (length a)) 0); [lia|].
  rewrite cstr_cut, Nat2Z.id, take_ge; [done | apply length_cstr].
Qed.

Lemma take_inside {A} n (a b : list A) : take n (take (length a) (a ++ b)) = take n a.
Proof. by rewrite take_app_length. Qed.

(** The text of a typed value. *)
Lemma typed_text ty payload : Z.of_nat (length payload) < 2 ^ 31 - 7 ->
  (ty = VC_TYPE_FLOAT64 -> (8 <= length payload)%nat) -> raw_mode d = false ->
  let data := VC_WIRE_MAGIC ++ ty :: payload in
  print_vc_typed fl d (data ++ [0; LF]) (Z.of_nat (length data)) = Some (show_typed ty payload data).
Proof.
  intros Hl Hf Hraw data. unfold print_vc_typed, show_typed.
  assert (Elen : Z.of_nat (length data) = Z.of_nat (length payload) + 5) by (unfold data; rewrite length_app; cbn; lia).
  destruct (Z.ltb_spec (Z.of_nat (length data)) (VC_WIRE_MAGIC_LEN + 1)); [unfold VC_WIRE_MAGIC_LEN in *; lia|].
  change (take 4 (data ++ [0; LF])) with VC_WIRE_MAGIC. rewrite bool_decide_true by done. cbn [negb]. cbv zeta.
  change (default 0 ((data ++ [0; LF]) !! 4%nat)) with ty. change (drop 5 (data ++ [0; LF])) with (payload ++ [0; LF]).
  rewrite Elen. replace (Z.of_nat (length payload) + 5 - VC_WIRE_MAGIC_LEN - 1) with (Z.of_nat (length payload)) by (unfold VC_WIRE_MAGIC_LEN; lia).
  rewrite Nat2Z.id, take_inside. destruct (Z.eqb_spec ty VC_TYPE_INT64); [by rewrite decide_True|]. rewrite decide_False by done.
  destruct (Z.eqb_spec ty VC_TYPE_FLOAT64) as [Ef|].
  { rewrite decide_True by done. destruct (Nat.ltb_spec (length (payload ++ [0; LF])) 8); [rewrite length_app in *; specialize (Hf Ef); lia|].
    rewrite take_app_le by (by apply Hf). done. }
  rewrite decide_False by done. destruct (Z.eqb_spec ty VC_TYPE_BOOL).
  { rewrite decide_True by done. do 2 f_equal. destruct payload as [|x payload]; [done|]. cbn. by destruct x. }
  rewrite decide_False by done. destruct (Z.eqb_spec ty VC_TYPE_JSON).
  { rewrite decide_True by done. rewrite Hraw, prec_text by lia. done. }
  rewrite decide_False by done. destruct (Z.eqb_spec ty VC_TYPE_BINARY); [by rewrite decide_True|]. rewrite decide_False by done.
  f_equal. rewrite <- Elen. apply prec_text. lia.
Qed.

Lemma typed_payload_magic data :
  match typed_payload data with
  | Some (ty, payload) => data = VC_WIRE_MAGIC ++ ty :: payload
  | None => (VC_WIRE_MAGIC_LEN <? Z.of_nat (length data)) && bool_decide (take 4 (data ++ [0; LF]) = VC_WIRE_MAGIC) = false
  end.
Proof.
  destruct data as [|a [|b [|c [|x [|ty payload]]]]]; try done. cbn [typed_payload]. case_decide as Hm; [by rewrite <- Hm|].
  rewrite andb_false_iff. right. cbn [app take]. by rewrite bool_decide_false.
Qed.

Lemma bulk_text_shows depth data : Z.of_nat (length data) < 2 ^ 31 - 2 -> typed_ok (RBulk data) ->
  bulk_text fl d depth (data ++ [0; LF]) (Z.of_nat (length data)) = Some (show_bulk depth data).
Proof.
  cbn [typed_ok]. unfold bulk_text, show_bulk. intros Hl Hty. pose proof (typed_payload_magic data) as Hm.
  rewrite Nat2Z.id, take_app_length. destruct (raw_mode d) eqn:Hraw; cbn [negb andb]; [done|].
  destruct (typed_payload data) as [[ty payload]|].
  - rewrite Hm. assert (Z.of_nat (length payload) < 2 ^ 31 - 7) by (rewrite Hm, length_app in Hl; cbn in Hl; lia).
    rewrite (typed_text ty payload) by done. rewrite bool_decide_true by done.
    destruct (Z.ltb_spec VC_WIRE_MAGIC_LEN (Z.of_nat (length (VC_WIRE_MAGIC ++ ty :: payload)))) as [_|Hx];
      [done | rewrite length_app in Hx; cbn in Hx; unfold VC_WIRE_MAGIC_LEN in Hx; lia].
  - rewrite Hm, printable_visible. destruct (decide (Forall visible data)) as [Hv|Hv].
    + rewrite (bool_decide_eq_true_2 _ Hv). rewrite cstr_cut, cstr_id; [done|]. intros H0.
      rewrite Forall_forall in Hv. by destruct (Hv _ H0).
    + by rewrite (bool_decide_eq_false_2 _ Hv).
Qed.

Lemma height_in_array r l : r ∈ l -> (height r < height (RArray l))%nat.
Proof. cbn. induction 1 as [|x r l _ IH]; cbn; lia. Qed.

Lemma height_in_set r l : r ∈ l -> (height r < height (RSet l))%nat.
Proof. apply height_in_array. Qed.

Lemma height_in_map p l : p ∈ l -> (height p.1 < height (RMap l))%nat /\ (height p.2 < height (RMap l))%nat.
Proof. cbn. induction 1 as [|x r l _ IH]; cbn; lia. Qed.

(** The printer takes one reply from the stream and prints it. *)
Lemma print_reply_prints r : forall fuel c depth,
  reply_ok 4092 r -> typed_ok r -> (height r <= fuel)%nat ->
  prints c (print_reply malloc_ok fl d fuel c depth) (enc_reply r) (show_out depth r) (show_err r).
Proof.
  induction r as [s|s|n|b| | |data|l IH|l IH|l IH|s|data] using reply_nested_ind; intros fuel c depth Hok Hty Hh t rest Hw;
    (destruct fuel as [|fuel]; [cbn in Hh; lia|]);
    destruct (first_line c [] 4092 _ rest t Hw Hok ltac:(lia)) as (w1 & line & E1 & H1 & Tl & Sl & L1);
    cbn [print_reply]; change 4096%nat with (4092 + 4)%nat; rewrite (bind_some _ _ _ _ _ E1); cbn [negb]; rewrite Tl;
    cbn [default reply_line fst snd] in *; cbn [id Z.eqb Pos.eqb]; rewrite ?(bind_lift _ _ _ _ Sl); cbn [reply_tail reply_left app] in H1.
  - rewrite print_bind, said_said. by exists w1.
  - rewrite eprint_bind, said_said. by exists w1.
  - cbn [reply_ok] in Hok. rewrite atoll_dec by lia. rewrite print_bind, said_said. by exists w1.
  - rewrite (bind_lift _ _ _ _ L1), print_bind, said_said. exists w1. split; [by destruct b|done].
  - rewrite print_bind, said_said. by exists w1.
  - change (atoll (dec (-1))) with (-1). cbn [Z.ltb Z.compare]. rewrite print_bind, said_said. by exists w1.
  - cbn [reply_ok] in Hok. rewrite atoll_dec by lia. destruct (Z.ltb_spec (Z.of_nat (length data)) 0); [lia|].
    rewrite Hmalloc. cbn [negb].
    destruct (readn_spec (NS := tty_is_stream) (cc_fd c) (cc_ssl c) (data ++ CRLF) rest (said t w1 [] [])) as (t2 & E2 & _ & H2).
    { exact H1. } { rewrite length_app. cbn [length CRLF]. lia. }
    pose proof (quiet_readn _ _ _ _ _ _ E2) as Hq. rewrite (tty_eta _ _ Hq) in E2.
    rewrite length_app, Nat2Z.inj_add in E2. change (Z.of_nat (length CRLF)) with 2 in E2.
    unfold read_exactly. rewrite (bind_some _ _ _ _ _ E2). cbn [negb]. rewrite put_nul_crlf.
    rewrite (bind_lift _ _ _ _ (bulk_text_shows depth data Hok Hty)), print_bind.
    exists (tty_net t2). split; [|exact H2]. cbn [show_out show_err].
    unfold said, mret, io_ret. cbn. by rewrite !app_nil_r.
  - cbn [reply_ok] in Hok. destruct Hok as [Hlen Hok]. apply foldr_and in Hok. cbn [typed_ok] in Hty. apply foldr_and in Hty.
    rewrite atoll_dec by lia. destruct (Z.ltb_spec (Z.of_nat (length l)) 0); [lia|].
    destruct (Z.eqb_spec (Z.of_nat (length l)) 0) as [E0|].
    { assert (l = []) as -> by (apply nil_length_inv; lia). rewrite print_bind, said_said. by exists w1. }
    assert (Hel : Forall (fun r => prints c (print_reply malloc_ok fl d fuel c (depth + 1)) (enc_reply r)
                                    (show_out (depth + 1) r) (show_err r)) l).
    { apply Forall_forall. intros r Hr. rewrite Forall_forall in IH, Hok, Hty. apply IH; auto.
      pose proof (height_in_array r l Hr). lia. }
    rewrite Nat2Z.id. destruct (print_array_prints c _ l _ 1 depth Hel (said t w1 [] []) rest H1) as (w2 & E2 & H2).
    exists w2. rewrite E2, said_said. split; [|done]. cbn [app show_err]. destruct l; [done|reflexivity].
  - cbn [reply_ok] in Hok. destruct Hok as [Hlen Hok]. apply (foldr_and (fun p => reply_ok 4092 p.1 /\ reply_ok 4092 p.2)) in Hok.
    cbn [typed_ok] in Hty. apply (foldr_and (fun p => typed_ok p.1 /\ typed_ok p.2)) in Hty.
    rewrite print_bind, said_said, atoll_dec, Nat2Z.id by lia.
    assert (Hel : Forall (fun p => prints c (print_reply malloc_ok fl d fuel c (depth + 2)) (enc_reply p.1) (show_out (depth + 2) p.1) (show_err p.1) /\
                                   prints c (print_reply malloc_ok fl d fuel c (depth + 2)) (enc_reply p.2) (show_out (depth + 2) p.2) (show_err p.2)) l).
    { apply Forall_forall. intros p Hp. rewrite Forall_forall in IH, Hok, Hty.
      destruct (IH p Hp), (Hok p Hp), (Hty p Hp), (height_in_map p l Hp). split; auto with lia. }
    destruct (print_map_prints c _ l _ depth Hel (said t w1 ([] ++ title (bs "(map)")) ([] ++ [])) rest H1) as (w2 & E2 & H2).
    exists w2. split; [|done]. etrans; [exact E2|]. rewrite said_said. by rewrite !app_nil_l.
  - cbn [reply_ok] in Hok. destruct Hok as [Hlen Hok]. apply foldr_and in Hok. cbn [typed_ok] in Hty. apply foldr_and in Hty.
    rewrite print_bind, said_said, atoll_dec, Nat2Z.id by lia.
    assert (Hel : Forall (fun r => prints c (print_reply malloc_ok fl d fuel c (depth + 1)) (enc_reply r)
                                    (show_out (depth + 1) r) (show_err r)) l).
    { apply Forall_forall. intros r Hr. rewrite Forall_forall in IH, Hok, Hty. apply IH; auto.
      pose proof (height_in_set r l Hr). lia. }
    destruct (print_set_prints c _ l _ depth Hel (said t w1 ([] ++ title (bs "(set)")) ([] ++ [])) rest H1) as (w2 & E2 & H2).
    exists w2. split; [|done]. etrans; [exact E2|]. rewrite said_said. by rewrite !app_nil_l.
  - rewrite print_bind, said_said. by exists w1.
  - cbn [reply_ok] in Hok. rewrite atoll_dec by lia. rewrite Hmalloc. cbn [negb].
    destruct (Z.ltb_spec (Z.of_nat (length data)) 0); [lia|].
    destruct (readn_spec (NS := tty_is_stream) (cc_fd c) (cc_ssl c) (data ++ CRLF) rest (said t w1 [] [])) as (t2 & E2 & _ & H2).
    { exact H1. } { rewrite length_app. cbn [length CRLF]. lia. }
    pose proof (quiet_readn _ _ _ _ _ _ E2) as Hq. rewrite (tty_eta _ _ Hq) in E2.
    rewrite length_app, Nat2Z.inj_add in E2. change (Z.of_nat (length CRLF)) with 2 in E2.
    unfold read_exactly. rewrite (bind_some _ _ _ _ _ E2). rewrite put_nul_crlf.
    assert (Es : c_string (data ++ [0; LF]) = Some (cstr data)) by (unfold c_string; rewrite decide_True by set_solver; by rewrite cstr_cut).
    rewrite (bind_lift _ _ _ _ Es), eprint_bind.
    exists (tty_net t2). split; [|exact H2]. cbn [show_out show_err].
    unfold said, mret, io_ret. cbn. by rewrite !app_nil_r.
Qed.

(** ** Handshake *)

(** What the client discards as one element: a line, or a bulk string that is not empty. *)
Definition one_line (r : reply) : Prop :=
  match r with RSimple _ | RError _ | RInt _ | RBool _ | RNull | RNil => True | RBulk data => data <> [] | _ => False end.

Lemma discard_reads c line rs rest t :
  Forall (fun r => one_line r /\ reply_ok 252 r) rs ->
  net_in (tty_net t) (cc_fd c) = concat (enc_reply <$> rs) ++ rest ->
  exists w', discard malloc_ok (length rs) c line t = Some ((), said t w' [] []) /\ net_in w' (cc_fd c) = rest.
Proof.
  intros Hrs. revert line t. induction Hrs as [|r rs [Hf Hr] _ IH]; intros line t Hw.
  { exists (tty_net t). cbn. rewrite said_nil. split; [by destruct t|done]. }
  cbn [fmap list_fmap concat length discard] in *. rewrite <- app_assoc in Hw.
  destruct (first_line c line 252 r _ t Hw Hr ltac:(lia)) as (w1 & l1 & E1 & H1 & Tl & Sl & _).
  change 256%nat with (252 + 4)%nat. rewrite (bind_some _ _ _ _ _ E1), (bind_lift _ _ _ _ Tl).
  assert (Hone : reply_tail r = [] /\ ((reply_line r).1 <> 36 \/ atoll (reply_line r).2 = -1) \/ exists data, r = RBulk data /\ data <> []).
  { destruct r; try done; try (left; split; [done|]); try (by left); [by right|right; by exists data]. }
  destruct Hone as [(Htail & Hty)|(data & -> & Hne)].
  - match goal with |- context [(?m ≫= _) (said t w1 [] [])] =>
      assert (E2 : m (said t w1 [] []) = Some ((), said t w1 [] [])) end.
    { destruct (Z.eqb_spec (reply_line r).1 36); [|done]. destruct Hty as [|Ha]; [done|].
      by rewrite (bind_lift _ _ _ _ Sl), Ha. }
    rewrite (bind_some _ _ _ _ _ E2). rewrite Htail in H1. destruct (IH l1 (said t w1 [] []) H1) as (w2 & E3 & H3).
    exists w2. by rewrite E3, said_said.
  - cbn [reply_line fst snd reply_tail reply_ok] in *. cbn [Z.eqb Pos.eqb].
    destruct (readn_spec (NS := tty_is_stream) (cc_fd c) (cc_ssl c) (data ++ CRLF) (concat (enc_reply <$> rs) ++ rest)
                (said t w1 [] [])) as (t2 & E2 & _ & H2). { exact H1. } { rewrite length_app. cbn [length CRLF]. lia. }
    pose proof (quiet_readn _ _ _ _ _ _ E2) as Hq. rewrite (tty_eta _ _ Hq) in E2.
    rewrite length_app, Nat2Z.inj_add in E2. change (Z.of_nat (length CRLF)) with 2 in E2.
    match goal with |- context [(?m ≫= _) (said t w1 [] [])] =>
      assert (E3 : m (said t w1 [] []) = Some ((), said t (tty_net t2) [] [])) end.
    { rewrite (bind_lift _ _ _ _ Sl), atoll_dec, Hmalloc, andb_true_r by lia.
      destruct data as [|x data]; [done|]. destruct (Z.ltb_spec 0 (Z.of_nat (length (x :: data)))); [|cbn [length] in *; lia].
      unfold read_exactly. rewrite (bind_some _ _ _ _ _ E2). unfold said, mret, io_ret. cbn. by rewrite !app_nil_r. }
    rewrite (bind_some _ _ _ _ _ E3). destruct (IH l1 (said t (tty_net t2) [] []) H2) as (w2 & E4 & H4).
    exists w2. by rewrite E4, said_said.
Qed.

Definition pair_list (p : reply * reply) : list reply := [p.1; p.2].

Lemma hello_discards c t t1 l rest :
  cli_sendall c (enc_command [bs "HELLO"; bs "3"]) t = Some (true, t1) ->
  net_in (tty_net t1) (cc_fd c) = enc_reply (RMap l) ++ rest -> Z.of_nat (length l) < 2 ^ 31 ->
  Forall (fun r => one_line r /\ reply_ok 252 r) (l ≫= pair_list) ->
  exists w', cli_hello malloc_ok c t = Some (CliConn (cc_fd c) (cc_ssl c) true, said t1 w' [] []) /\
    net_in w' (cc_fd c) = rest.
Proof.
  intros Hsend Hw Hlen Hl. unfold cli_hello. rewrite (bind_some _ _ _ _ _ Hsend).
  assert (Hw' : net_in (tty_net t1) (cc_fd c) = (header 37 (Z.of_nat (length l)) ++ concat (enc_reply <$> (l ≫= pair_list))) ++ rest).
  { rewrite Hw. cbn [enc_reply]. do 2 f_equal. clear. induction l as [|[a b] l IH]; [done|].
    cbn [fmap list_fmap concat]. rewrite bind_cons, fmap_app, concat_app. cbn. rewrite IH. by rewrite app_nil_r. }
  destruct (readline_spec (NS := tty_is_stream) (cc_fd c) (cc_ssl c) [] 256 (37 :: dec (Z.of_nat (length l)))
              (concat (enc_reply <$> (l ≫= pair_list)) ++ rest) t1) as (t2 & E2 & _ & H2).
  { cbn [net_in]. etrans; [exact Hw'|]. unfold header. cbn [app]. by rewrite <- !app_assoc. }
  { destruct (dec_text (Z.of_nat (length l)) ltac:(lia)) as (? & _). set_solver. }
  { destruct (dec_text (Z.of_nat (length l)) ltac:(lia)) as (_ & _ & ?). cbn [length]. lia. }
  pose proof (quiet_readline _ _ _ _ _ _ _ E2) as Hq. rewrite (tty_eta _ _ Hq) in E2.
  unfold read_line at 1. rewrite (bind_some _ _ _ _ _ E2).
  set (line := overwrite _ _) in *. assert (Hty : line !! 0%nat = Some 37) by done.
  assert (Hs : c_string (drop 1 line) = Some (dec (Z.of_nat (length l)))).
  { apply line_rest. apply dec_text. lia. }
  rewrite (bind_lift _ _ _ _ Hty). cbn [Z.eqb Pos.eqb]. rewrite (bind_lift _ _ _ _ Hs), atoll_dec by lia.
  replace (Z.to_nat (Z.of_nat (length l) * 2)) with (length (l ≫= pair_list)).
  2: { clear. induction l as [|p l IH]; [done|]. rewrite bind_cons, length_app, IH. cbn [pair_list length]. lia. }
  destruct (discard_reads c line _ rest (Tty (tty_net t2) (tty_in t1) (tty_out t1) (tty_err t1)) Hl H2) as (w' & E3 & H3).
  rewrite (bind_some _ _ _ _ _ E3). exists w'. split; [|exact H3].
  unfold said, mret, io_ret. cbn. done.
Qed.

End Printer.
