(* ===== verification/CliArgs.v ===== *)
(** * Command line options

    Every setting of the client and of the server can be given on the command line of
    [src/cli/vcli.c] and arrives as it was given. *)

From S2P Require Import Prelude Proto ProtoSpec Auth Kv Commands Resp Net NetScript Cluster ClusterInv ClusterThm Cli CliThm.

(** ** Words *)

Definition opt (flag : list Z) (v : list Z) : list (list Z) := if decide (v = []) then [] else [flag; v].
Definition some_opt (flag : list Z) (v : option (list Z)) : list (list Z) := match v with Some v => [flag; v] | None => [] end.
Definition switch (flag : list Z) (b : bool) : list (list Z) := if b then [flag] else [].

(** The command line of a client and of a server. *)
Definition client_args (o : cli_opts) : list (list Z) :=
  [bs "-h"; op_host o; bs "-p"; dec (op_port o)] ++ opt (bs "-u") (op_user o) ++ opt (bs "-a") (op_pass o) ++
  opt (bs "--cacert") (op_cacert o) ++ switch (bs "--tls") (op_tls o) ++ switch (bs "--pipe") (op_pipe o) ++
  switch (bs "--cluster") (op_cluster o) ++ switch (bs "--no-color") (negb (op_color o)) ++
  switch (bs "--raw") (op_raw o) ++ switch (bs "--latency") (op_latency o) ++ op_cmd o.

Definition server_args (s : server_opts) : list (list Z) :=
  [bs "server"; bs "--port"; dec (so_port s); bs "--bind"; so_bind s] ++
  some_opt (bs "--tls-cert") (so_cert s) ++ some_opt (bs "--tls-key") (so_key s) ++ some_opt (bs "--acl-file") (so_acl s) ++
  some_opt (bs "--requirepass") (so_pass s) ++ [bs "--maxmemory"; dec (so_mem s)] ++ some_opt (bs "--wal") (so_wal s) ++
  [bs "--threads"; dec (so_threads s)] ++ switch (bs "--cluster") (so_cluster s) ++
  some_opt (bs "--announce-addr") (so_ann_addr s) ++ [bs "--announce-port"; dec (so_ann_port s)].

(** A word that starts a command: not an option of any kind. *)
Definition command_word (w : list Z) : Prop :=
  (w ∉ [bs "--help"; bs "-?"; bs "--help-server"; bs "server"]) /\ client_flag w = None /\ client_switch w = None.

Definition client_opts_ok (o : cli_opts) : Prop :=
  op_server o = false /\ op_scfg o = default_server /\ (length (op_host o) <= 255)%nat /\ 0 <= op_port o < 2 ^ 16 /\
  (length (op_user o) <= 63)%nat /\ (length (op_pass o) <= 255)%nat /\ (length (op_cacert o) <= 255)%nat /\
  match op_cmd o with [] => True | w :: _ => command_word w end.

Definition server_opts_ok (s : server_opts) : Prop :=
  0 <= so_port s < 2 ^ 16 /\ 0 <= so_mem s < 2 ^ 63 /\ - 2 ^ 31 <= so_threads s < 2 ^ 31 /\ 0 <= so_ann_port s < 2 ^ 16.

(** ** Steps of the parser *)

Definition parses (args : list (list Z)) (o : cli_opts) (p : parsed) : Prop :=
  forall fuel, (length args <= fuel)%nat -> parse_opts fuel args o = p.

Definition plain_word (a : list Z) : bool :=
  negb (bool_decide (a = bs "--help" \/ a = bs "-?")) && negb (bool_decide (a = bs "--help-server")) && negb (bool_decide (a = bs "server")).

Lemma parse_word fuel a rest o : plain_word a = true ->
  parse_opts (S fuel) (a :: rest) o =
  if op_server o then
    match server_flag a, rest with
    | Some f, v :: rest' => parse_opts fuel rest' (set_op_scfg (f v (op_scfg o)) o)
    | _, _ => parse_opts fuel rest (if decide (a = bs "--cluster") then set_op_scfg (set_so_cluster true (op_scfg o)) o else o)
    end
  else
    match client_flag a, rest with
    | Some f, v :: rest' => parse_opts fuel rest' (f v o)
    | _, _ => match client_switch a with
              | Some f => parse_opts fuel rest (f o)
              | None => Parsed (set_op_cmd (a :: rest) o)
              end
    end.
Proof.
  intros Hp. unfold plain_word in Hp. repeat (apply andb_prop in Hp as [Hp ?]). rewrite !negb_true_iff, !bool_decide_eq_false in *.
  cbn [parse_opts]. by rewrite !decide_False by done.
Qed.

Lemma parses_flag a v rest o f p :
  plain_word a = true -> op_server o = false -> client_flag a = Some f -> parses rest (f v o) p -> parses (a :: v :: rest) o p.
Proof.
  intros Hp Hs Hf Hr fuel Hl. destruct fuel as [|fuel]; cbn [length] in Hl; [lia|].
  rewrite parse_word, Hs, Hf by done. apply Hr. lia.
Qed.

Lemma parses_opt a v rest o f p :
  plain_word a = true -> op_server o = false -> client_flag a = Some f -> f [] o = o ->
  parses rest (f v o) p -> parses (opt a v ++ rest) o p.
Proof.
  intros Hp Hs Hf H0 Hr. unfold opt. case_decide as Hv; [|by eapply parses_flag].
  subst v. rewrite H0 in Hr. exact Hr.
Qed.

Lemma parses_switch (g : bool -> cli_opts -> cli_opts) a b rest o p :
  plain_word a = true -> op_server o = false -> client_flag a = None -> client_switch a = Some (g true) -> g false o = o ->
  parses rest (g b o) p -> parses (switch a b ++ rest) o p.
Proof.
  intros Hp Hs Hf Hw H0 Hr. destruct b; [|by rewrite H0 in Hr]. intros [|fuel] Hl; cbn [switch app length] in *; [lia|].
  rewrite parse_word, Hs, Hf, Hw by done. apply Hr. lia.
Qed.

Lemma parses_command rest o :
  op_server o = false -> op_cmd o = [] -> match rest with [] => True | w :: _ => command_word w end ->
  parses rest o (Parsed (set_op_cmd rest o)).
Proof.
  intros Hs Hc Hw [|fuel] Hl; destruct rest as [|w rest]; cbn [length] in Hl; try lia; cbn [parse_opts];
    [by destruct o; cbn in *; subst..|]. destruct Hw as (Hn & Hf & Hsw). change (parse_opts (S fuel) (w :: rest) o = Parsed (set_op_cmd (w :: rest) o)).
  rewrite parse_word, Hs, Hf, Hsw; [done|]. unfold plain_word. rewrite !bool_decide_false by set_solver. done.
Qed.

Lemma parses_server_flag a v rest o f p :
  plain_word a = true -> op_server o = true -> server_flag a = Some f ->
  parses rest (set_op_scfg (f v (op_scfg o)) o) p -> parses (a :: v :: rest) o p.
Proof.
  intros Hp Hs Hf Hr fuel Hl. destruct fuel as [|fuel]; cbn [length] in Hl; [lia|].
  rewrite parse_word, Hs, Hf by done. apply Hr. lia.
Qed.

Lemma parses_some_opt (g : option (list Z) -> server_opts -> server_opts) a v rest o p :
  plain_word a = true -> op_server o = true -> server_flag a = Some (fun v => g (Some v)) -> set_op_scfg (g None (op_scfg o)) o = o ->
  parses rest (set_op_scfg (g v (op_scfg o)) o) p -> parses (some_opt a v ++ rest) o p.
Proof. intros Hp Hs Hf H0 Hr. destruct v; [by eapply parses_server_flag | by rewrite H0 in Hr]. Qed.

Lemma parses_server_cluster (b : bool) rest o p :
  op_server o = true -> so_cluster (op_scfg o) = false ->
  parses rest (set_op_scfg (set_so_cluster b (op_scfg o)) o) p -> parses (switch (bs "--cluster") b ++ rest) o p.
Proof.
  intros Hs Hc Hr. destruct b.
  - intros [|fuel] Hl; cbn [switch app length] in *; [lia|]. rewrite parse_word, Hs by done. change (server_flag (bs "--cluster")) with (@None (list Z -> server_opts -> server_opts)).
    rewrite decide_True by done. destruct rest; apply Hr; cbn [length] in *; lia.
  - replace (set_op_scfg (set_so_cluster false (op_scfg o)) o) with o in Hr; [exact Hr|].
    destruct o as [? ? ? ? ? ? ? ? ? ? ? ? [] ?]. cbn in *. by subst.
Qed.

(** Reading back a number that ends or is followed by something else than a digit. *)
Lemma strtoull_dec n rest : 0 <= n < 2 ^ 63 -> match rest with [] => True | c :: _ => isdigit c = false end ->
  strtoull (dec n ++ rest) = (n, length (dec n)).
Proof.
  intros Hn Hc. unfold dec. destruct (Z.ltb_spec n 0); [lia|].
  destruct (dec_digits_spec 20 n []) as (ds & Ed & Hne & Hall & _ & Hdig); [lia|lia|].
  rewrite Ed, app_nil_r. unfold strtoull. destruct ds as [|x ds]; [done|].
  apply Forall_cons in Hall as [Hx _]. destruct (digit_not_space x Hx) as (Hs & H45 & H43).
  cbn [app skip_space]. rewrite Hs. cbn [drop]. replace (x =? 45) with false by lia. replace (x =? 43) with false by lia.
  cbv beta iota zeta. specialize (Hdig 0 rest). cbn [app] in Hdig. rewrite Hdig.
  assert (Hd : forall a, digits rest a = (a, O)) by (intros a; destruct rest as [|c rest]; cbn [digits]; [done|by rewrite Hc]).
  rewrite Hd. cbn [length Nat.eqb Nat.add]. rewrite Nat.add_0_r.
  destruct (Z.ltb_spec (2 ^ 64 - 1) (0 * 10 ^ Z.of_nat (S (length ds)) + n)); [lia|]. done.
Qed.

Lemma parse_mem_dec n : 0 <= n < 2 ^ 63 -> parse_mem (dec n) = n.
Proof.
  intros Hn. unfold parse_mem. pose proof (strtoull_dec n [] Hn I) as H. rewrite app_nil_r in H. rewrite H.
  by rewrite drop_all.
Qed.

(** The options so far, as a record. *)
Ltac settle :=
  match goal with
  | |- parses ?r ?o ?p =>
      let o' := eval cbv beta iota delta
      [default_opts default_server op_host op_port op_user op_pass op_tls op_cacert op_pipe op_cluster op_color op_raw op_latency op_server op_scfg op_cmd
       set_op_host set_op_port set_op_user set_op_pass set_op_tls set_op_cacert set_op_pipe set_op_cluster set_op_color set_op_raw set_op_latency set_op_server set_op_scfg set_op_cmd
       so_port so_bind so_cert so_key so_acl so_pass so_mem so_wal so_threads so_cluster so_ann_addr so_ann_port
       set_so_port set_so_bind set_so_cert set_so_key set_so_acl set_so_pass set_so_mem set_so_wal set_so_threads set_so_cluster set_so_ann_addr set_so_ann_port] in o in
      change (parses r o' p)
  end.
Ltac given t := eapply t; [reflexivity..|]; settle.

(** ** Theorem *)

Lemma client_options o : client_opts_ok o -> parses (client_args o) (default_opts true) (Parsed o).
Proof.
  intros (Hs & Hcfg & Hh & Hp & Hu & Hpw & Hca & Hc).
  destruct o as [host port user pass tls ca pipe cluster color raw latency server cfg cmd]. cbn in *. subst server cfg.
  unfold client_args. cbn [op_host op_port op_user op_pass op_tls op_cacert op_pipe op_cluster op_color op_raw op_latency op_cmd app].
  do 2 (given parses_flag). do 3 (given parses_opt).
  given (parses_switch set_op_tls). given (parses_switch set_op_pipe).
  given (parses_switch set_op_cluster). given (parses_switch (fun b => set_op_color (negb b))).
  given (parses_switch set_op_raw). given (parses_switch set_op_latency).
  rewrite !take_ge, atoi_dec, negb_involutive, u16_id by lia.
  by apply (parses_command cmd).
Qed.

Lemma server_options s : server_opts_ok s ->
  parses (server_args s) (default_opts true) (Parsed (set_op_scfg s (set_op_server true (default_opts true)))).
Proof.
  intros (Hp & Hm & Ht & Ha). destruct s as [port bind cert key acl pass mem wal threads cluster aaddr aport]. cbn in *.
  unfold server_args. cbn [so_port so_bind so_cert so_key so_acl so_pass so_mem so_wal so_threads so_cluster so_ann_addr so_ann_port app].
  cut (forall args p, parses args (set_op_server true (default_opts true)) p -> parses (bs "server" :: args) (default_opts true) p).
  { intros H. apply H. clear H. do 2 (given parses_server_flag).
    given (parses_some_opt set_so_cert). given (parses_some_opt set_so_key).
    given (parses_some_opt set_so_acl). given (parses_some_opt set_so_pass).
    given parses_server_flag. given (parses_some_opt set_so_wal).
    given parses_server_flag. given parses_server_cluster.
    given (parses_some_opt set_so_ann_addr). given parses_server_flag.
    rewrite !atoi_dec, !u16_id, parse_mem_dec by lia. by intros [|fuel]. }
  intros args p Hr [|fuel] Hl; cbn [length] in Hl; [lia|]. cbn [parse_opts]. apply Hr. lia.
Qed.

(** A server takes its settings from the options after [server] and none from the client's. *)
Definition opts_args (o : cli_opts) : list (list Z) := if op_server o then server_args (op_scfg o) else client_args o.
Definition opts_ok (o : cli_opts) : Prop :=
  if op_server o then server_opts_ok (op_scfg o) /\ o = set_op_scfg (op_scfg o) (set_op_server true (default_opts true))
  else client_opts_ok o.

(** The command line determines the settings.  Written out as options, the settings of a
    client (host, port, user, password, certificate, switches, then the command) or of a
    server (port, address, files, password, memory, log, threads, cluster) are read back
    unchanged by the option loop of [main], when they fit the arrays and integers of the
    program and the command does not start with a word that is itself an option. *)
Theorem options_parse o : opts_ok o -> parse_args true (opts_args o) = Parsed o.
Proof.
  unfold opts_ok, opts_args, parse_args. destruct (op_server o) eqn:Hs.
  - intros [Hok ->]. by apply server_options.
  - intros Hok. by apply client_options.
Qed.

Definition demo_opts : cli_opts :=
  CliOpts (bs "10.0.0.1") 7000 (bs "bob") (bs "--help") true [] false false false true false false default_server [bs "GET"; bs "k"].

Lemma options_parse_witness : parse_args true (opts_args demo_opts) = Parsed demo_opts.
Proof.
  apply (options_parse demo_opts). split; [reflexivity|]. split; [reflexivity|].
  cbn [demo_opts op_host op_port op_user op_pass op_cacert op_cmd]. repeat split; try (cbn; lia).
  vm_compute. set_solver.
Defined.
