(* ===== verification/CliUse.v ===== *)
(** * Command-line client: what its users rely on

    The claims about [src/cli/vcli.c], each with a run on the scripted network. *)

From S2P Require Import Prelude Proto ProtoSpec Auth Kv Commands Resp Net NetScript Cluster ClusterInv ClusterThm ClusterUse Cli CliThm CliArgs.

(** ** Sizes *)

(** The factor of a suffix. *)
Definition unit_of (c : Z) : option Z :=
  if decide (c ∈ [107; 75]) then Some 1024
  else if decide (c ∈ [109; 77]) then Some (1024 * 1024)
  else if decide (c ∈ [103; 71]) then Some (1024 * 1024 * 1024) else None.

(** ** Theorems *)

(** What is typed is what the server parses.  A line with every word in double quotes is
    split into those words, and unless the command is too long for the 256 KB buffer, in
    which case it is refused, the bytes that are sent are parsed by the server as exactly
    these arguments, the name in upper case. *)
Theorem typed_line_parses args rest :
  Forall (fun a => (34 ∉ a) /\ (0 ∉ a)) args -> Z.of_nat (length args) <= VC_MAX_ARGS -> Forall arg_fits args ->
  match encode_command CMDBUF (tokenize (Z.to_nat VC_MAX_ARGS) (typed args)) with
  | Some cmd => resp_parse_command granting (cmd ++ rest) = RESP_PARSE_OK (Cmd (enc_args args) 0) (Z.of_nat (length cmd))
  | None => CMDBUF <= Z.of_nat (length (enc_command args))
  end.
Proof.
  intros Hq Hn Hf. apply Forall_and in Hq as [Hq _]. unfold VC_MAX_ARGS in *. destruct (tokenize_typed (Z.to_nat 128) args Hq ltac:(lia)) as [-> _].
  rewrite encode_command_spec by (unfold CMDBUF; lia). destruct (Z.leb_spec CMDBUF (Z.of_nat (length (enc_command args)))); [done|].
  by apply parse_command_ok.
Qed.

(** C27: the printer takes exactly one reply from the stream, of any kind and however it is
    nested, and prints on standard output and standard error what [show_out] and [show_err]
    prescribe for the reply as a tree, typed values, binary strings, sets, doubles and errors
    with a length included; the next reply starts where it stopped.  Lines have at most 4092
    bytes, strings and collections less than 2^31, typed floats have their eight bytes and
    memory is granted.  A depth of the recursion equal to the nesting is enough. *)
Theorem print_reply_exact {W : Type} {N : Net W} {NS : NetStream W} malloc_ok fl d r fuel c depth (t : tty W) rest :
  (forall n, malloc_ok n = true) -> reply_ok 4092 r -> typed_ok r -> (height r <= fuel)%nat ->
  net_in (tty_net t) (cc_fd c) = enc_reply r ++ rest ->
  exists w', print_reply malloc_ok fl d fuel c depth t = Some (true, said t w' (show_out fl d depth r) (show_err d r)) /\
    net_in w' (cc_fd c) = rest.
Proof. intros Hm Hr Hty Hh. by apply (print_reply_prints malloc_ok Hm). Qed.

(** The reply of the server to HELLO 3. *)
Definition hello_reply (node_id : list Z) : reply :=
  RMap [(RBulk (bs "server"), RBulk (bs "voidcache")); (RBulk (bs "version"), RBulk VC_SERVER_VERSION);
        (RBulk (bs "proto"), RInt 3); (RBulk (bs "id"), RBulk (cstr node_id)); (RBulk (bs "mode"), RBulk (bs "standalone"))].

Lemma r_hello_reply node_id : r_hello node_id true = enc_reply (hello_reply node_id).
Proof. unfold r_hello, hello_reply. cbn [enc_reply fmap list_fmap concat fst snd length]. by rewrite app_nil_r, <- !app_assoc. Qed.

(** The handshake leaves client and server in step.  The client discards the server's
    reply to HELLO 3 element by element without looking at its structure; for the reply
    this server writes, with its node id, exactly that reply is gone from the stream when
    the session starts, and nothing was printed. *)
Theorem hello_in_step {W : Type} {N : Net W} {NS : NetStream W} malloc_ok c (t t1 : tty W) node_id rest :
  (forall n, malloc_ok n = true) -> cstr node_id <> [] -> Z.of_nat (length node_id) < 2 ^ 31 - 2 ->
  cli_sendall c (enc_command [bs "HELLO"; bs "3"]) t = Some (true, t1) ->
  net_in (tty_net t1) (cc_fd c) = r_hello node_id true ++ rest ->
  exists w', cli_hello malloc_ok c t = Some (CliConn (cc_fd c) (cc_ssl c) true, said t1 w' [] []) /\
    net_in w' (cc_fd c) = rest.
Proof.
  intros Hm Hid Hlen Hsend Hw. rewrite r_hello_reply in Hw.
  assert (Hcl : (length (cstr node_id) <= length node_id)%nat).
  { clear. induction node_id as [|x l IH]; cbn; [lia|]. destruct (x =? 0); cbn; lia. }
  eapply hello_discards; [exact Hm|exact Hsend|exact Hw|cbn; lia|].
  cbn [mbind list_bind pair_list app fst snd]. repeat (apply Forall_cons; split); try apply Forall_nil; try done.
  split; [done|]. cbn [reply_ok]. lia.
Qed.

(** Memory sizes.  A number followed by k, m or g, in either case, is that many units,
    reduced modulo 2^64 like the [size_t] it is stored in. *)
Theorem parse_mem_units n c u rest :
  0 <= n < 2 ^ 63 -> unit_of c = Some u -> parse_mem (dec n ++ c :: rest) = u64 (n * u).
Proof.
  intros Hn Hu. unfold unit_of in Hu. unfold parse_mem.
  assert (Hc : c ∈ [107; 75; 109; 77; 103; 71]) by (repeat case_decide; set_solver).
  rewrite strtoull_dec by (try done; cbn; set_unfold; unfold isdigit; lia). rewrite drop_app_length. cbn [lookup list_lookup default].
  set_unfold. repeat destruct Hc as [->|Hc]; try done; by injection Hu as <-.
Qed.

(** Cluster mode is undefined for every command of two or more words.  The call of
    [vc_resp_format] that precedes the real encoding passes only the first word for all of
    them, so the second is read from nowhere, once the cluster was connected. *)
Theorem cluster_mode_undefined {W : Type} {N : Net W} malloc_ok fl ms strerr isatty lines fuel alloc_ok ctx_ok o cl (t t' : tty W) w1 w2 ws :
  op_cluster o = true -> op_cmd o = w1 :: w2 :: ws ->
  vc_cluster_connect alloc_ok ctx_ok (take 511 (op_host o ++ bs ":" ++ dec (op_port o)))
    (if decide (op_user o = []) then None else Some (op_user o)) (if decide (op_pass o = []) then None else Some (op_pass o))
    (op_tls o && negb (bool_decide (op_cacert o = []))) t = Some (Some cl, t') ->
  client_main malloc_ok fl ms strerr isatty lines fuel alloc_ok ctx_ok o t = None.
Proof.
  intros Hc Hw Hconn. unfold client_main. rewrite Hc. unfold client_cluster. rewrite (bind_some _ _ _ _ _ Hconn).
  by rewrite Hw.
Qed.

(** ** Runs on the scripted network *)

Definition plain : display := Display false false false.
Definition no_floats : floats := Floats (fun _ => bs "0") (fun _ => bs "0").
Definition demo_tty (replies : list (list Z)) : tty script := Tty (demo_world replies) [] [] [].
Definition demo_conn : vcli_conn := CliConn 5 false false.

Lemma typed_line_witness :
  resp_parse_command granting (enc_command [bs "set"; bs "my key"; bs ""] ++ []) =
  RESP_PARSE_OK (Cmd (enc_args [bs "set"; bs "my key"; bs ""]) 0) 31.
Proof.
  apply (typed_line_parses [bs "set"; bs "my key"; bs ""] []).
  - repeat constructor; vm_compute; set_solver.
  - done.
  - repeat constructor; vm_compute; congruence.
Defined.

(** An array with a number, a text, a byte that cannot be shown, a typed truth value and a
    set in it. *)
Definition demo_reply : reply :=
  RArray [RInt 7; RBulk (bs "hi"); RBulk [1]; RBulk (VC_WIRE_MAGIC ++ [VC_TYPE_BOOL; 1]); RSet [RBlobError (bs "ERR x"); RNull]].

Lemma print_reply_witness :
  exists w', print_reply (fun _ => true) no_floats plain 3 demo_conn 0
      (Tty (Script {[5 := enc_reply demo_reply ++ bs "+next"]} [] 8 0) [] [] []) =
    Some (true, Tty w' []
      (bs "1) (integer) 7" ++ NL ++ bs "2)    " ++ [34] ++ bs "hi" ++ [34] ++ NL ++ bs "3)    (binary 1 bytes)" ++ NL ++
       bs "4)    (bool) true" ++ NL ++ bs "5) (set)" ++ NL ++ bs "            (nil)" ++ NL)
      (bs "(error) ERR x" ++ NL)) /\ net_in w' 5 = bs "+next".
Proof.
  apply (print_reply_exact (fun _ => true) no_floats plain demo_reply 3 demo_conn 0
           (Tty (Script {[5 := enc_reply demo_reply ++ bs "+next"]} [] 8 0) [] [] []) (bs "+next")).
  - done.
  - cbn. repeat split; try (vm_compute; lia); vm_compute; set_solver.
  - vm_compute. repeat split; done.
  - vm_compute. done.
  - reflexivity.
Defined.

Lemma hello_witness :
  exists w', cli_hello (fun _ => true) demo_conn (demo_tty [r_hello (bs "n1") true ++ bs "+next"]) =
    Some (CliConn 5 false true, Tty w' [] [] []) /\ net_in w' 5 = bs "+next".
Proof.
  apply (hello_in_step (fun _ => true) demo_conn (demo_tty [r_hello (bs "n1") true ++ bs "+next"])
           (Tty (Script {[5 := r_hello (bs "n1") true ++ bs "+next"]} [] 8 5000000000) [] [] []) (bs "n1") (bs "+next")).
  - done.
  - done.
  - cbn. lia.
  - vm_compute. reflexivity.
  - vm_compute. reflexivity.
Defined.

Lemma parse_mem_witness : parse_mem (bs "256m") = 268435456.
Proof. apply (parse_mem_units 256 109 (1024 * 1024) []); [lia | reflexivity]. Defined.

Definition cluster_opts : cli_opts :=
  set_op_cmd [bs "GET"; bs "k"] (set_op_cluster true (default_opts false)).

Lemma cluster_mode_witness :
  client_main (fun _ => true) no_floats (fun _ => []) [] false 1 1 true true cluster_opts (demo_tty [bs "-ERR" ++ CRLF]) = None.
Proof.
  set (t := demo_tty [bs "-ERR" ++ CRLF]).
  set (o := vc_cluster_connect true true (take 511 (op_host cluster_opts ++ bs ":" ++ dec (op_port cluster_opts))) None None false t).
  assert (Ho : match o with Some (Some _, _) => true | _ => false end = true) by (vm_compute; done).
  destruct o as [[[cl|] t']|] eqn:Eo; [|done..].
  exact (cluster_mode_undefined (fun _ => true) no_floats (fun _ => []) [] false 1 1 true true cluster_opts cl t t'
           (bs "GET") (bs "k") [] eq_refl eq_refl Eo).
Defined.
