(* ===== verification/Served.v ===== *)
(** * Clients and server together

    A network whose peer on one descriptor is the server: the bytes a client sends are read,
    parsed, dispatched and answered by [process_conn] of [Server.v] on a connection slot, in
    reads of at most 4096 bytes, with all memory granted and a socket that takes the replies
    byte by byte; what is written comes back.  Over it the clients' results are those of the
    dispatcher. *)

From S2P Require Import Prelude Proto ProtoSpec Auth Kv Commands CommandsSpec Replies Server ServerThm.
From S2P Require Import Resp Net Cluster ClusterInv ClusterThm Cli CliThm.

(** ** The network *)

Definition peer_fd : Z := 5.

Section Served.
Context {C : Type} {KV : Kv C}.
Context (strtod : list Z -> list Z) (print_g : list Z -> list Z).
Context (E : nat -> cenv).

(** The number of the next command, the server and the slot of the connection ([None]:
    closed); and the bytes on their way to the client. *)
Record served := Served { sd_peer : option (nat * server C * slot); sd_in : list Z }.

(** What the reads of the server return: the bytes in pieces of 4096, then nothing more. *)
Fixpoint packets (fuel : nat) (l : list Z) : list (list Z) :=
  match fuel with
  | O => []
  | S fuel => if decide (l = []) then [] else take 4096 l :: packets fuel (drop 4096 l)
  end.

Definition arriving (l : list Z) : list rd_result := (RdBytes <$> packets (length l) l) ++ [RdAgain].

(** The bytes arrive.  After an undefined command the peer is gone. *)
Definition feed (buf : list Z) (w : served) : served :=
  match sd_peer w with
  | None => w
  | Some (i, s, q) =>
      match process_conn strtod print_g granting E i 0 (arriving buf) (fun _ => Wr 1) s q with
      | Some o =>
          Served (if decide (k_state (o_slot o) = VC_CONN_FREE) then None else Some (o_next o, o_srv o, o_slot o))
            (sd_in w ++ o_sent o)
      | None => Served None (sd_in w)
      end
  end.

#[export] Instance served_net : Net served := {
  net_addrs host port w := (Some [SocketFailed], w);
  net_close fd w := ((), if fd =? peer_fd then Served None [] else w);
  net_ssl_connect fd w := (true, w);
  net_send fd ssl buf n w := if fd =? peer_fd then (Z.of_nat (length buf), feed buf w) else (-1, w);
  net_recv fd ssl n w :=
    if fd =? peer_fd then (take (Z.to_nat n) (sd_in w), Served (sd_peer w) (drop (Z.to_nat n) (sd_in w))) else ([], w);
  net_now w := (0, w);
}.

#[export] Instance served_stream : NetStream served.
Proof.
  refine {| net_in w fd := if fd =? peer_fd then sd_in w else [] |}; cbn [net_send net_recv served_net]; intros.
  - destruct (fd =? peer_fd); cbn; lia.
  - destruct (fd =? peer_fd); cbn; rewrite ?length_take; lia.
  - destruct (fd =? peer_fd); cbn; [by rewrite take_drop|done].
  - destruct (fd =? peer_fd); [|done]. cbn. destruct (sd_in w); [done|]. by destruct (Z.to_nat n) eqn:En; [lia|].
  - destruct (Z.eqb_spec fd' peer_fd); [|done]. destruct (Z.eqb_spec fd peer_fd); [congruence|done].
Defined.

Lemma packets_concat fuel l : (length l <= fuel)%nat ->
  concat (packets fuel l) = l /\ Forall (fun x : list Z => Z.of_nat (length x) <= 4096) (packets fuel l).
Proof.
  revert l. induction fuel as [|fuel IH]; intros l Hl; cbn [packets]; [by destruct l; [|cbn in Hl; lia]|].
  case_decide as Hn; [by subst|]. destruct (IH (drop 4096 l)) as [H1 H2].
  { rewrite length_drop. destruct l; [done|]. cbn [length] in *. lia. }
  cbn [concat]. rewrite H1, take_drop. split; [done|]. constructor; [|done]. rewrite length_take. lia.
Qed.

Lemma enc_bulks_length cmd : Forall arg_fits cmd ->
  Z.of_nat (length (enc_bulks cmd)) <= Z.of_nat (length cmd) * 2 ^ 30.
Proof.
  induction 1 as [|a cmd [Ha _] _ IH]; [cbn; lia|]. change (enc_bulks (a :: cmd)) with (enc_bulk a ++ enc_bulks cmd). cbn [length]. rewrite length_app.
  assert (Z.of_nat (length (enc_bulk a)) <= 2 ^ 30); [|lia]. unfold VC_MAX_INLINE_ARG in Ha.
  unfold enc_bulk. destruct (dec_text (Z.of_nat (length a)) ltac:(lia)) as (_ & _ & Hd).
  rewrite !length_app. cbn [length CRLF bs]. change (length (bs "$")) with 1%nat. lia.
Qed.

Lemma enc_command_length cmd : fits cmd -> Z.of_nat (length (enc_command cmd)) <= 2 ^ 60.
Proof.
  intros [Hn Ha]. pose proof (enc_bulks_length cmd Ha) as Hb. unfold VC_MAX_ARGS in Hn. unfold enc_command.
  destruct (dec_text (Z.of_nat (length cmd)) ltac:(lia)) as (_ & _ & Hd).
  rewrite !length_app. change (length (bs "*")) with 1%nat. cbn [length CRLF]. lia.
Qed.

(** A slot that waits for a command: nothing is left to parse or to send; [c] is its
    connection, up to the bytes written last. *)
Record idle_slot (q : slot) (c : conn) : Prop := {
  is_ready : ready q [];
  is_sent : unsent q = [];
  is_conn : set_out [] (k_conn q) = set_out [] c
}.

(** One command of a client that waits for its answer. *)
Lemma feed_command i s q c cmd s' c' :
  fits cmd -> idle_slot q c -> vc_dispatch strtod print_g (E i) s (set_out [] c) (received cmd) = Some (s', c') ->
  closing c' = false ->
  exists q', feed (enc_command cmd) (Served (Some (i, s, q)) []) = Served (Some (S i, s', q')) (cn_out c') /\ idle_slot q' c'.
Proof.
  intros Hf [Hr Hu Hq] Hd Hc'. unfold feed. cbn [sd_peer sd_in app].
  destruct (packets_concat (length (enc_command cmd)) (enc_command cmd)) as [Hp1 Hp2]; [done|].
  destruct (process_step strtod print_g granting (fun _ => eq_refl) E 0 (packets (length (enc_command cmd)) (enc_command cmd)) (fun _ => Wr 1)
    i s q [] [cmd] []) as (l1 & l2 & El & H).
  { by constructor. } { intros b _. by apply small_reads_fit. } { intros [j [Hj|(n & Hj & Hn)]]; [done|]. injection Hj as <-. lia. } { done. }
  { by rewrite Hp1. } { unfold stream. cbn. rewrite app_nil_r. by apply enc_command_length. }
  rewrite Hq in H. destruct l1 as [|cmd1 l1]; cbn [app] in El.
  - subst l2. destruct (H i s (set_out [] c) eq_refl) as (q' & sent & _ & rest & _ & _ & Hx).
    assert (closing (set_out [] c) = false) as Ec by (rewrite <- Hq; apply (ready_open _ _ Hr)). rewrite Ec in Hx.
    destruct Hx as (_ & _ & data & _ & Hs & Hlt). change (stream [cmd]) with (enc_command cmd ++ []) in Hs.
    rewrite !app_nil_r in Hs. rewrite Hs in Hlt. lia.
  - injection El as <- El. destruct l1; [|done]. cbn [app] in El. subst l2.
    destruct (H (S i) s' c') as (q' & sent & Ep & rest & Hs & Hacc & Hx).
    { cbn [session_until]. rewrite Hd. cbn [mbind option_bind]. by rewrite Hc'. }
    rewrite Hc' in Hx. destruct Hx as (Hk & Hu' & data & Hr' & Hdata & _). rewrite app_nil_r in Hdata. cbn in Hdata. subst data.
    unfold arriving. rewrite Ep. cbn [o_slot o_next o_srv o_sent]. exists q'. rewrite decide_False.
    2: { destruct (rd_state _ _ Hr') as [-> | ->]; done. }
    assert (rest = []) as -> by (apply Hacc; [intros j; by exists 1 | done]).
    rewrite app_nil_r, Hu in Hs. cbn in Hs. rewrite Hs. by split.
Qed.

(** The connection waits for a command. *)
Definition waiting (i : nat) (s : server C) (q : slot) : served := Served (Some (i, s, q)) [].

(** A client that sends one command over the connection. *)
Lemma send_command ssl i s q c cmd s' c' :
  fits cmd -> idle_slot q c -> vc_dispatch strtod print_g (E i) s (set_out [] c) (received cmd) = Some (s', c') ->
  closing c' = false ->
  exists q', sock_sendall peer_fd ssl (enc_command cmd) (waiting i s q) = Some (true, Served (Some (S i, s', q')) (cn_out c')) /\
    idle_slot q' c'.
Proof.
  intros Hf Hc Hd Hc'. destruct (feed_command i s q c cmd s' c' Hf Hc Hd Hc') as (q' & Ef & Hq').
  exists q'. split; [|done]. destruct (enc_command_pos cmd) as [Hp|]; [|destruct Hf; lia].
  apply sendall_once; [intros H0; rewrite H0 in Hp; cbn in Hp; lia|]. cbn [net_send served_net].
  rewrite Z.eqb_refl. unfold waiting. by rewrite Ef.
Qed.

(** Reading touches the bytes on their way only. *)
Definition same_peer (w w' : served) : Prop := sd_peer w' = sd_peer w.

#[export] Instance same_peer_preorder : PreOrder same_peer.
Proof. split; [done|]. unfold same_peer. intros w1 w2 w3. congruence. Qed.

Lemma same_peer_recv fd ssl n w : same_peer w (net_recv fd ssl n w).2.
Proof. cbn. by destruct (fd =? peer_fd). Qed.

Lemma same_peer_reply malloc_ok fd ssl : frames same_peer (resp_read_reply malloc_ok fd ssl).
Proof. unfold resp_read_reply. frames_tac; apply same_peer_recv. Qed.

(** ** The cluster client over the server *)

Lemma cluster_over_server cl key n j ssl i s q c cmd s' c' r t :
  vc_cluster_node_for_slot cl (vc_key_slot key) = Some (Z.of_nat n) -> ready_conn cl n j peer_fd ssl ->
  fits cmd -> idle_slot q c -> vc_dispatch strtod print_g (E i) s (set_out [] c) (received cmd) = Some (s', c') ->
  closing c' = false -> cn_out c' = enc_reply r -> reply_ok 1020 r ->
  reply_text r = Some t -> reply_left r = [] -> is_moved t = false ->
  exists q', vc_cluster_cmd (fun _ => true) cl (Some key) (enc_command cmd) (waiting i s q) =
    Some ((VC_CLUSTER_OK, Some t, used n j 0 cl), waiting (S i) s' q') /\ idle_slot q' c'.
Proof.
  intros Hs Hrc Hf Hc Hd Hc' Ho Hr Ht Hl Hm. destruct (send_command ssl i s q c cmd s' c' Hf Hc Hd Hc') as (q' & Es & Hq').
  exists q'. split; [|done].
  assert (Hex : exchanged (waiting i s q) peer_fd ssl (enc_command cmd) r [] 0 (Served (Some (S i, s', q')) (cn_out c'))).
  { split; [|by rewrite app_nil_r|done]. exists (waiting i s q). split; [done|]. exact Es. }
  destruct (cmd_answered (fun _ => true) (fun _ => eq_refl) _ _ _ _ _ _ _ _ _ _ _ _ _ Hs Hrc Hex Ht Hm) as (w2 & Ec & Hin & Er).
  rewrite Ec. pose proof (same_peer_reply _ _ _ _ _ _ Er) as Hp. rewrite Hl in Hin. unfold same_peer in Hp.
  destruct w2 as [p l]. cbn [sd_peer] in Hp. change (l = []) in Hin. unfold waiting. by rewrite Hp, Hin.
Qed.
End Served.
