(* ===== verification/EndToEnd.v ===== *)
(** * From the client's call to the store and back

    SET and GET through the cluster client, the protocol, the dispatcher and the cache;
    a typed line through the command-line client. *)

From S2P Require Import Prelude Proto ProtoSpec Auth Kv Cache CacheSpec CacheThm Commands CommandsSpec Replies Server ServerThm.
From S2P Require Import Resp Net Cluster ClusterInv ClusterThm ClusterUse Cli CliThm CliUse Served.

(** ** Replies as values *)

Lemma r_ok_reply : r_ok = enc_reply (RSimple (bs "OK")).
Proof. reflexivity. Qed.

Lemma r_err_reply msg : (length msg <= 200)%nat -> r_err msg = enc_reply (RError (bs "ERR " ++ msg)).
Proof.
  intros Hl. unfold r_err, r_error, printf_out. rewrite !length_app.
  change (length (bs "-")) with 1%nat. change (length (bs "ERR")) with 3%nat. change (length (bs " ")) with 1%nat.
  change (length CRLF) with 2%nat. destruct (Z.leb_spec 256 (Z.of_nat (1 + (3 + (1 + (length msg + 2)))))); [lia|]. reflexivity.
Qed.

Lemma r_null_reply : r_null false = enc_reply RNil.
Proof. reflexivity. Qed.

(** ** Arguments *)

Lemma short_fits a : (length a <= 4)%nat -> arg_fits a.
Proof.
  intros Hl. unfold arg_fits, strip_vc, VC_MAX_INLINE_ARG, VC_WIRE_MAGIC_LEN.
  destruct (Z.ltb_spec 4 (Z.of_nat (length a))); [lia|]. cbn. repeat split; lia.
Qed.

Lemma dec_fits n : 0 <= n < 2 ^ 63 -> arg_fits (dec n).
Proof.
  intros Hn. destruct (dec_text n ltac:(lia)) as (_ & _ & Hl).
  assert (Hm : take 4 (dec n) <> VC_WIRE_MAGIC).
  { intros E. assert (Hin : 42 ∈ dec n) by (rewrite <- (take_drop 4 (dec n)), E; set_solver).
    apply dec_chars in Hin; [done|lia]. }
  unfold arg_fits, strip_vc, VC_MAX_INLINE_ARG. rewrite bool_decide_false by exact Hm.
  rewrite andb_false_r. cbn. repeat split; lia.
Qed.

(** ** The cluster client *)

Section Cluster.
Context {C : Type} {KV : Kv C} {L : KvLaws C}.
Context (strtod : list Z -> list Z) (print_g : list Z -> list Z) (E : nat -> cenv).

#[local] Existing Instance served_net.
Abbreviation run cl key cmd w := (vc_cluster_cmd (N := served_net strtod print_g E) (fun _ => true) cl (Some key) (enc_command cmd) w).

Lemma idle_open q c : idle_slot q c -> closing c = false.
Proof.
  intros [Hr _ Hq]. pose proof (ready_open _ _ Hr) as Ho. apply (f_equal cn_state) in Hq. unfold closing in *.
  cbn [set_out cn_state] in Hq. by rewrite <- Hq.
Qed.

(** A GET of a key through the client. *)
Lemma cluster_get cl n j ssl i s q c k now :
  vc_cluster_node_for_slot cl (vc_key_slot k) = Some (Z.of_nat n) -> ready_conn cl n j peer_fd ssl ->
  arg_fits k -> idle_slot q c -> cn_resp3 c = false ->
  kv_ok (sv_cache s) -> allowed s c VC_ACL_READ -> at_time (E i) now ->
  Forall (fun v => is_moved v = false /\ Z.of_nat (length v) < 2 ^ 31 - 2) (option_list (view now (kv_map (sv_cache s)) k)) ->
  exists s' q', run cl k [bs "GET"; k] (waiting i s q) =
    Some ((VC_CLUSTER_OK, Some (default [] (view now (kv_map (sv_cache s)) k)), used n j 0 cl), waiting (S i) s' q') /\
    kv_ok (sv_cache s') /\ kv_map (sv_cache s') = kv_map (sv_cache s) /\ sv_auth s' = sv_auth s.
Proof.
  intros Hs Hrc Hk Hc H3 Hok Ha Ht Hv.
  assert (Hsh : short k) by (unfold short; destruct Hk as [Hk _]; unfold VC_MAX_INLINE_ARG in Hk; lia).
  destruct (get_reply strtod print_g (E i) s (set_out [] c) k now Hok Ha Hsh Ht) as (s' & Hd & Hsame).
  set (o := view now (kv_map (sv_cache s)) k) in *.
  set (r := match o with Some v => RBulk v | None => RNil end).
  set (c' := cn_write (value_reply (set_out [] c) o) (set_out [] c)) in *.
  assert (Hout : cn_out c' = enc_reply r).
  { unfold c', cn_write, r, value_reply. cbn. rewrite H3. by destruct o. }
  assert (Hmt : reply_text r = Some (default [] o) /\ reply_left r = [] /\ is_moved (default [] o) = false /\ reply_ok 1020 r).
  { unfold r. destruct o as [v|]; [|by repeat split]. apply Forall_singleton in Hv as [Hm Hl]. by repeat split. }
  destruct Hmt as (Ht1 & Ht2 & Ht3 & Ht4).
  assert (Hcl : closing c' = false) by exact (idle_open _ _ Hc).
  destruct (cluster_over_server strtod print_g E cl k n j ssl i s q c [bs "GET"; k] s' c' r (default [] o)) as (q' & Eq & _); try done.
  { split; [done|]. constructor; [apply short_fits; cbn; lia|]. by constructor. }
  exists s', q'. split; [exact Eq|]. destruct Hsame as (? & ? & ?). by repeat split.
Qed.


End Cluster.

(** ** The command-line client *)

Section CommandLine.
Context {C : Type} {KV : Kv C}.
Context (strtod : list Z -> list Z) (print_g : list Z -> list Z) (E : nat -> cenv).
Context (fl : floats) (d : display).

#[local] Instance N : Net (served (C := C)) := served_net strtod print_g E.
#[local] Instance NS : NetStream (served (C := C)) := served_stream strtod print_g E.
Abbreviation world := (tty (served (C := C))).

(** The server is left alone. *)
Definition same_server (t t' : world) : Prop := sd_peer (tty_net t') = sd_peer (tty_net t).

#[local] Instance same_server_preorder : PreOrder same_server.
Proof. split; [done|]. unfold same_server. intros t1 t2 t3. congruence. Qed.

Lemma same_server_recv fd ssl n t : same_server t (net_recv fd ssl n t).2.
Proof. cbn. unfold on_net, same_server. cbn. by destruct (fd =? peer_fd). Qed.

Lemma frames_printf s : frames same_server (printf s).
Proof. intros t a t' [= _ <-]. done. Qed.

Lemma frames_eprintf s : frames same_server (eprintf s).
Proof. intros t a t' [= _ <-]. done. Qed.

Ltac reads_tac := repeat first [apply frames_printf | apply frames_eprintf | progress frames_tac | apply same_server_recv].

Lemma frames_loops elem n : frames same_server elem ->
  (forall i depth, frames same_server (print_array d elem n i depth)) /\
  (forall depth, frames same_server (print_map d elem n depth)) /\
  (forall depth, frames same_server (print_set elem n depth)).
Proof.
  intros He. induction n as [|n (IHa & IHm & IHs)]; cbn [print_array print_map print_set].
  - repeat split; intros; apply frames_ret, _.
  - split; [|split]; intros; reads_tac; [apply IHa|apply IHm|apply IHs].
Qed.

Lemma frames_print_reply malloc_ok fuel c depth : frames same_server (print_reply malloc_ok fl d fuel c depth).
Proof.
  revert depth. induction fuel as [|fuel IH]; intros depth; [apply frames_ub|]. cbn [print_reply].
  unfold read_line, read_exactly. cbv zeta. reads_tac; apply (frames_loops _ _ (IH _)).
Qed.

(** One command: what is printed is the reply of the dispatcher. *)
Lemma command_prints ms fuel ssl r3 args i s q c s' c' r (t : world) :
  tty_net t = waiting i s q -> show_latency d = false ->
  fits args -> Z.of_nat (length (enc_command args)) < CMDBUF ->
  idle_slot q c -> vc_dispatch strtod print_g (E i) s (set_out [] c) (received args) = Some (s', c') ->
  closing c' = false -> cn_out c' = enc_reply r -> reply_ok 4092 r -> typed_ok r -> (height r <= fuel)%nat ->
  exists q', do_command (fun _ => true) fl d ms fuel (CliConn peer_fd ssl r3) args t =
    Some (true, said t (waiting (S i) s' q') (show_out fl d 0 r) (show_err d r)) /\ idle_slot q' c'.
Proof.
  intros Ht Hlat Hf Hlen Hc Hd Hc' Ho Hr Hty Hh. unfold do_command.
  assert (Hn : Z.of_nat (length args) < 2 ^ 31) by (destruct Hf as [Hn _]; unfold VC_MAX_ARGS in Hn; lia).
  rewrite encode_command_spec by (unfold CMDBUF; lia).
  destruct (Z.leb_spec CMDBUF (Z.of_nat (length (enc_command args)))); [lia|]. rewrite Hlat. cbn [andb].
  destruct (feed_command strtod print_g E i s q c args s' c' Hf Hc Hd Hc') as (q' & Ef & Hq').
  exists q'. split; [|exact Hq']. set (w1 := Served (Some (S i, s', q')) (cn_out c')).
  assert (Hsend : cli_sendall (CliConn peer_fd ssl r3) (enc_command args) t = Some (true, said t w1 [] [])).
  { unfold cli_sendall. cbn [cc_fd cc_ssl]. apply sendall_once.
    - destruct (enc_command_pos args) as [Hp|]; [|destruct Hf; lia]. intros H0. rewrite H0 in Hp. cbn in Hp. lia.
    - cbn [net_send tty_is_net]. unfold on_net. rewrite Ht. cbn [net_send N served_net].
      rewrite Z.eqb_refl. unfold waiting. rewrite Ef. by rewrite said_nil. }
  unfold mbind at 1, io_bind at 1, mret at 1, io_ret at 1. rewrite (bind_some _ _ _ _ _ Hsend). cbn [negb].
  destruct (print_reply_prints (fun _ => true) (fun _ => eq_refl) fl d r fuel (CliConn peer_fd ssl r3) 0%nat Hr Hty Hh
              (said t w1 [] []) []) as (w2 & Ep & Hin).
  { cbn. by rewrite Ho, app_nil_r. }
  rewrite (bind_some _ _ _ _ _ Ep). rewrite said_said. unfold mret, io_ret.
  assert (Hp : sd_peer w2 = sd_peer w1) by exact (frames_print_reply _ _ _ _ _ _ _ Ep).
  destruct w2 as [p l]. cbn in Hp, Hin. subst. unfold w1 in *. cbn in *. done.
Qed.

(** A line of standard input: the words in double quotes. *)
Definition word (a : list Z) : Prop := (34 ∉ a) /\ (0 ∉ a) /\ (LF ∉ a).
Definition input_line (args : list (list Z)) : list Z := typed args ++ [LF].

#[export] Instance word_dec a : Decision (word a).
Proof. unfold word. apply _. Defined.

Lemma typed_no x args : x <> 34 -> x <> 32 -> Forall (fun a => x ∉ a) args -> x ∉ typed args.
Proof.
  intros H34 H32. unfold typed. induction 1 as [|a args Ha _ IH]; cbn [fmap list_fmap concat]; set_solver.
Qed.

Lemma getline_line l rest : LF ∉ l -> getline (l ++ LF :: rest) = (l ++ [LF], rest).
Proof.
  induction l as [|c l IH]; intros H; cbn [app getline]; [done|].
  destruct (Z.eqb_spec c LF); [set_solver|]. rewrite IH by set_solver. done.
Qed.

Lemma readline_typed isatty args rest (t : world) :
  Forall word args -> tty_in t = input_line args ++ rest ->
  cli_readline isatty [] t = Some (Some (typed args), Tty (tty_net t) rest (tty_out t) (tty_err t)).
Proof.
  intros Hw Hi. apply Forall_and in Hw as [_ Hw]. apply Forall_and in Hw as [H0 Hlf].
  assert (El : stdin_line t = Some (Some (typed args), Tty (tty_net t) rest (tty_out t) (tty_err t))).
  { unfold stdin_line. unfold input_line in Hi. rewrite <- app_assoc in Hi. cbn [app] in Hi. rewrite Hi, getline_line by (by apply typed_no).
    rewrite last_snoc. cbn [default Z.eqb]. rewrite removelast_last, cstr_id by (by apply typed_no).
    by destruct (typed args). }
  unfold cli_readline. destruct isatty; [|exact El].
  unfold mbind, io_bind, printf. rewrite app_nil_r. rewrite <- El. by destruct t.
Qed.

(** The server answers a sequence of commands with a sequence of replies. *)
Inductive answers (fuel : nat) : nat -> server C -> conn -> list (list (list Z)) -> list reply -> server C -> conn -> Prop :=
| answers_nil i s c : answers fuel i s c [] [] s c
| answers_cons i s c args cmds r rs s1 c1 s' c' :
    args <> [] -> Forall word args -> fits args -> Z.of_nat (length (enc_command args)) < CMDBUF ->
    vc_dispatch strtod print_g (E i) s (set_out [] c) (received args) = Some (s1, c1) ->
    closing c1 = false -> cn_out c1 = enc_reply r -> reply_ok 4092 r -> typed_ok r -> (height r <= fuel)%nat ->
    answers fuel (S i) s1 c1 cmds rs s' c' -> answers fuel i s c (args :: cmds) (r :: rs) s' c'.

(** C16: a script piped into the command-line client runs against the server command by
    command.  Every line has its words in double quotes (without double quotes, NUL or line
    end in them), the latency is not shown, and every command of it is defined, is within
    the limits of the protocol and of the client's 256 KB buffer, leaves the connection open
    and writes exactly one well-formed reply (so not INCR or DECR, which write two), whose
    lines have at most 4092 bytes.  Then each line is read, split, encoded, and read, parsed
    and dispatched by the server; what the client prints, on standard output and on
    standard error, is the replies of the dispatcher in order, each exactly once; at the end
    of the input the server is in the state after the last command and waits for the next
    one. *)
Theorem piped_script ms fuel ssl r3 isatty i s q c cmds rs s' c' (t : world) :
  show_latency d = false -> answers fuel i s c cmds rs s' c' -> idle_slot q c ->
  tty_net t = waiting i s q -> tty_in t = concat (input_line <$> cmds) ->
  exists q', pipe_loop (fun _ => true) fl d ms (S (length cmds)) fuel (CliConn peer_fd ssl r3) isatty t =
    Some ((), Tty (waiting (i + length cmds) s' q') [] (tty_out t ++ concat (show_out fl d 0 <$> rs))
                  (tty_err t ++ concat (show_err d <$> rs))) /\ idle_slot q' c'.
Proof.
  intros Hlat Ha. revert q t. induction Ha as [i s c|i s c args cmds r rs s1 c1 s' c' Hne Hw Hf Hlen Hd Hc1 Ho Hr Hty Hh _ IH];
    intros q t Hc Ht Hi; cbn [fmap list_fmap concat length] in *.
  - assert (Hr : cli_readline isatty [] t = Some (None, t)).
    { unfold cli_readline, stdin_line. destruct t as [w l o e]. cbn in Hi. subst l.
      destruct isatty; unfold mbind, io_bind, printf, mret, io_ret; cbn; by rewrite ?app_nil_r. }
    exists q. split; [|exact Hc]. cbn [pipe_loop]. rewrite (bind_some _ _ _ _ _ Hr). rewrite Nat.add_0_r, !app_nil_r, <- Ht. destruct t; cbn in *. by subst.
  - change (pipe_loop (fun _ => true) fl d ms (S (S (length cmds))) fuel (CliConn peer_fd ssl r3) isatty t) with
      ((o ← cli_readline isatty [];
        match o with
        | None => mret ()
        | Some line => _ ← pipe_line (fun _ => true) fl d ms fuel (CliConn peer_fd ssl r3) line;
            pipe_loop (fun _ => true) fl d ms (S (length cmds)) fuel (CliConn peer_fd ssl r3) isatty
        end) t).
    rewrite (bind_some _ _ _ _ _ (readline_typed isatty args _ t Hw Hi)).
    set (t1 := Tty (tty_net t) (concat (input_line <$> cmds)) (tty_out t) (tty_err t)).
    destruct (command_prints ms fuel ssl r3 args i s q c s1 c1 r t1 Ht Hlat Hf Hlen Hc Hd Hc1 Ho Hr Hty Hh) as (q1 & Ec & Hq1).
    assert (Hp : pipe_line (fun _ => true) fl d ms fuel (CliConn peer_fd ssl r3) (typed args) t1 =
                 Some ((), said t1 (waiting (S i) s1 q1) (show_out fl d 0 r) (show_err d r))).
    { unfold pipe_line. destruct (tokenize_typed (Z.to_nat VC_MAX_ARGS) args) as [-> _].
      { eapply Forall_impl; [exact Hw|]. by intros a [? _]. } { destruct Hf. unfold VC_MAX_ARGS in *. lia. }
      destruct args as [|a args]; [done|]. by rewrite (bind_some _ _ _ _ _ Ec). }
    rewrite (bind_some _ _ _ _ _ Hp).
    destruct (IH q1 (said t1 (waiting (S i) s1 q1) (show_out fl d 0 r) (show_err d r)) Hq1 eq_refl eq_refl) as (q' & -> & Hq').
    exists q'. split; [|exact Hq']. replace (i + S (length cmds))%nat with (S i + length cmds)%nat by lia. cbn [said tty_out tty_err t1]. by rewrite <- !app_assoc.
Qed.

End CommandLine.

(** ** A fresh server *)

Definition at5 (i : nat) : cenv := mini_cenv (5 + Z.of_nat i).

Lemma demo_idle : idle_slot demo_slot guest.
Proof. split; [exact demo_slot_ready | done | done]. Qed.


Lemma pong_ok : reply_ok 4092 (RSimple (bs "PONG")).
Proof. split; [vm_compute; set_solver | split; [vm_compute; set_solver | cbn; lia]]. Qed.

Definition demo_lines : list (list (list Z)) := [[bs "PING"]; [bs "get"; bs "k"]].
Definition demo_replies : list reply := [RSimple (bs "PONG"); RNil].
Definition demo_input : tty (served (C := vc_cache)) := Tty (waiting 0 open_server demo_slot) (concat (input_line <$> demo_lines)) [] [].

Definition pinged : server vc_cache := count_command open_server.

Lemma demo_ping : vc_dispatch no_strtod no_print_g (at5 0) open_server (set_out [] guest) (received [bs "PING"]) =
  Some (pinged, cn_write (bs "+PONG" ++ CRLF) guest).
Proof.
  exact (dispatch_allowed no_strtod no_print_g (at5 0) open_server guest (bs "PING") []
        (CmdEntry (bs "PING") cmd_ping 0) eq_refl eq_refl).
Qed.

Lemma demo_get : exists s', vc_dispatch no_strtod no_print_g (at5 1) pinged guest (received [bs "get"; bs "k"]) =
  Some (s', cn_write (r_null false) guest).
Proof.
  destruct (get_reply no_strtod no_print_g (at5 1) pinged guest (bs "k") 6) as (s' & Hget & _);
    [exact mini_kv_ok | reflexivity | done | apply mini_at |].
  exists s'. pose proof (view_mini 6 (bs "k")) as Hv.
  rewrite (Hv : view 6 (kv_map (sv_cache pinged)) (bs "k") = None) in Hget. exact Hget.
Qed.

Lemma demo_answers : exists s', answers no_strtod no_print_g at5 1 0 open_server guest demo_lines demo_replies
  s' (cn_write (r_null false) guest).
Proof.
  destruct demo_get as (s' & Hget). exists s'. unfold demo_lines, demo_replies.
  eapply answers_cons;
    [discriminate | by apply (bool_decide_unpack _); vm_compute
    | split; [done|]; repeat (apply Forall_cons_2; [apply short_fits; cbn; lia|]); apply Forall_nil_2
    | reflexivity | exact demo_ping | reflexivity | reflexivity | exact pong_ok | exact I | cbn; lia |].
  eapply answers_cons;
    [discriminate | by apply (bool_decide_unpack _); vm_compute
    | split; [done|]; repeat (apply Forall_cons_2; [apply short_fits; cbn; lia|]); apply Forall_nil_2
    | reflexivity | exact Hget | reflexivity | reflexivity | exact I | exact I | cbn; lia | constructor].
Qed.

Lemma piped_script_witness :
  (concat (show_out no_floats plain 0 <$> demo_replies) = bs "PONG" ++ NL ++ bs "(nil)" ++ NL) /\
  exists s' q',
    pipe_loop (N := served_net no_strtod no_print_g at5) (fun _ => true) no_floats plain (fun _ => []) (S (length demo_lines)) 1
      (CliConn peer_fd false true) false demo_input =
    Some ((), Tty (waiting (0 + length demo_lines) s' q') []
                  (tty_out demo_input ++ concat (show_out no_floats plain 0 <$> demo_replies))
                  (tty_err demo_input ++ concat (show_err plain <$> demo_replies))) /\ idle_slot q' (cn_write (r_null false) guest).
Proof.
  split; [reflexivity|]. destruct demo_answers as (s' & Ha). exists s'.
  exact (piped_script no_strtod no_print_g at5 no_floats plain (fun _ => []) 1 false true false 0 open_server demo_slot guest
           demo_lines demo_replies s' (cn_write (r_null false) guest) demo_input eq_refl Ha demo_idle eq_refl eq_refl).
Defined.
