(* ===== verification/Lifecycle.v ===== *)
(** * The life of a server

    [vcserver_create], [vcserver_start], [vcserver_run], [vcserver_stop] and
    [vcserver_destroy] of [src/net/server.c], and the server mode of [main] in
    [src/cli/vcli.c].  The descriptors of the process are a set, of which some listen; the
    answers of the system calls are arguments, and so is what the workers do while the
    server runs: the operations on the store, the sockets of clients that are left open, and
    which of the threads come to their end.  The descriptor of the log belongs to [Wal.v] and
    is not in the set; messages to standard error are left out. *)

From S2P Require Import Prelude Hash Slab Entry Shard Wal Cache CacheInv CacheSafe CacheSpec CacheThm.
From S2P Require Import Proto ProtoSpec Auth Kv Commands Server ServerThm Resp Net Cluster Cli.

Definition VC_WORKER_THREADS : nat := 4.

(** ** State *)

(** [None] is NULL. *)
Record vc_server_cfg := ServerCfg {
  cfg_bind_addr : option (list Z);
  cfg_port : Z;
  cfg_tls_cert : option (list Z);
  cfg_tls_key : option (list Z);
  cfg_acl_file : option (list Z);
  cfg_worker_threads : Z;
  cfg_max_memory : Z;
  cfg_wal_path : option (list Z);
  cfg_shard_slots : Z;
  cfg_cluster_enabled : bool;
  cfg_announce_addr : option (list Z);
  cfg_announce_port : Z;
  cfg_requirepass : option (list Z)
}.

(** What [main] passes: the options, with its number of slots. *)
Definition cfg_of (o : server_opts) : vc_server_cfg :=
  ServerCfg (Some (so_bind o)) (so_port o) (so_cert o) (so_key o) (so_acl o) (so_threads o) (so_mem o) (so_wal o)
    4096 (so_cluster o) (so_ann_addr o) (so_ann_port o) (so_pass o).

(** The argument of a worker thread: its epoll descriptor and its listening socket. *)
Record worker := WorkerArg { wk_epoll : Z; wk_listen : Z }.

(** [sr_workers] is the array of four thread handles; [None]: no thread. *)
Record vcserver := VcServer {
  sr_cfg : vc_server_cfg;
  sr_server : server vc_cache;
  sr_tls : bool;
  sr_listen_fd : Z;
  sr_epoll_fd : Z;
  sr_conns : list slot;
  sr_workers : list (option worker);
  sr_running : bool
}.

(** The descriptors of the process: the open ones and those that listen. *)
Record os := Os { os_open : gset Z; os_listening : gset Z }.

Definition os_new (fd : Z) (o : os) : os := Os ({[fd]} ∪ os_open o) (os_listening o).
Definition os_listen (fd : Z) (o : os) : os := Os (os_open o) ({[fd]} ∪ os_listening o).
Definition os_close (fd : Z) (o : os) : os := Os (os_open o ∖ {[fd]}) (os_listening o ∖ {[fd]}).

(** ** Creation *)

(** The answers to [vcserver_create]; a descriptor is negative when its call failed. *)
Record start_env := StartEnv {
  se_calloc : bool;
  se_rand : option (list Z);       (** the random bytes of [vc_auth_gen_token] *)
  se_arena_bytes : Z;
  se_cache : create_env;
  se_junk : nat -> Z;
  se_acl : option (list Z);        (** the ACL file, when it can be opened *)
  se_tls : bool;                   (** [tls_ctx_create] *)
  se_addrinfo : bool;
  se_socket : Z;
  se_bind : bool;
  se_listen : bool;
  se_epoll : Z
}.

(** A slot of the pool as [calloc] leaves it. *)
Definition zero_slot : slot := Slot (Conn 0 VC_CONN_FREE false None [] 0 [] 0 []) false None None 0.

(** The result of [vc_auth_gen_token] is not looked at: when it fails the id is empty. *)
Definition node_id_of (rand : option (list Z)) : list Z := take 16 (default [] (vc_auth_gen_token rand)).

Definition new_server (cfg : vc_server_cfg) (c : vc_cache) (db : vc_auth_db) (id : list Z) : server vc_cache :=
  Server c db id 0 0 (cfg_cluster_enabled cfg) (cfg_announce_addr cfg) (cfg_announce_port cfg) (cfg_port cfg).

(** [calloc] has set the descriptors to 0. *)
Definition bare_server (cfg : vc_server_cfg) (s : server vc_cache) (tls : bool) : vcserver :=
  VcServer cfg s tls 0 0 (replicate VC_MAX_CONNS zero_slot) (replicate VC_WORKER_THREADS None) false.

(** What is left of a server: the heap, and the contents of its log file. *)
Definition remains : Type := heap * option bytemap.

(** Undefined while threads still use the server. *)
Definition vcserver_destroy (srv : vcserver) (o : os) : option (remains * os) :=
  if existsb (fun w => bool_decide (is_Some w)) (sr_workers srv) then None
  else
    h ← vc_destroy (sv_cache (sr_server srv));
    let o := if 0 <=? sr_listen_fd srv then os_close (sr_listen_fd srv) o else o in
    let o := if 0 <=? sr_epoll_fd srv then os_close (sr_epoll_fd srv) o else o in
    Some (h, o).

Definition set_fds (lfd efd : Z) (running : bool) (srv : vcserver) : vcserver :=
  VcServer (sr_cfg srv) (sr_server srv) (sr_tls srv) lfd efd (sr_conns srv) (sr_workers srv) running.

(** The sockets: [inl] gives the server that is destroyed on the way out. *)
Definition create_sockets (e : start_env) (srv : vcserver) (o : os) : (vcserver + vcserver) * os :=
  if negb (se_addrinfo e) then (inl srv, o)
  else if se_socket e <? 0 then (inl srv, o)
  else
    let lfd := se_socket e in
    let o := os_new lfd o in
    if negb (se_bind e) || negb (se_listen e) then (inl srv, os_close lfd o)
    else
      let o := os_listen lfd o in
      if se_epoll e <? 0 then (inl (set_fds lfd (se_epoll e) false srv), o)
      else (inr (set_fds lfd (se_epoll e) true srv), os_new (se_epoll e) o).

(** [Some (inl h)]: NULL, with what is left. *)
Definition vcserver_create (e : start_env) (cfg : vc_server_cfg) (h : heap) (o : os) : option ((remains + vcserver) * os) :=
  if negb (se_calloc e) then Some (inl (h, None), o)
  else
    '(oc, h) ← vc_create (se_arena_bytes e) (se_cache e)
                 (if cfg_max_memory cfg =? 0 then 256 * 1024 * 1024 else cfg_max_memory cfg)
                 (cfg_wal_path cfg) (if cfg_shard_slots cfg =? 0 then 4096 else cfg_shard_slots cfg) h;
    match oc with
    | None => Some (inl (h, None), o)
    | Some c =>
        match create_auth (se_junk e) (cfg_acl_file cfg) (se_acl e) (cfg_requirepass cfg) with
        | None => h ← vc_destroy c; Some (inl h, o)
        | Some db =>
            let wanted := bool_decide (is_Some (cfg_tls_cert cfg)) && bool_decide (is_Some (cfg_tls_key cfg)) in
            if wanted && negb (se_tls e) then h ← vc_destroy c; Some (inl h, o)
            else
              let srv := bare_server cfg (new_server cfg c db (node_id_of (se_rand e))) wanted in
              match create_sockets e srv o with
              | (inl srv, o) => '(h, o) ← vcserver_destroy srv o; Some (inl h, o)
              | (inr srv, o) => Some (inr srv, o)
              end
        end
    end.

(** ** Workers *)

(** The answers to one round of the loop of [vcserver_start]. *)
Record worker_env := WorkerEnv {
  we_epoll : Z;
  we_addrinfo : bool;
  we_socket : Z;
  we_bind : bool;
  we_listen : bool;
  we_malloc : bool;
  we_thread : bool
}.

Definition set_worker (i : nat) (w : worker) (srv : vcserver) : vcserver :=
  VcServer (sr_cfg srv) (sr_server srv) (sr_tls srv) (sr_listen_fd srv) (sr_epoll_fd srv) (sr_conns srv)
    (<[i := Some w]> (sr_workers srv)) (sr_running srv).

(** Rounds [i], [i + 1], ..., [n] of them.  The results of [getaddrinfo], [socket], [bind],
    [listen] and [malloc] are not tested: an unset address list or a NULL argument is
    undefined, a socket that could not be made or does not listen is given to the worker.
    The handle is stored at index [i] of an array of four. *)
Fixpoint start_workers (n : nat) (we : nat -> worker_env) (i : nat) (srv : vcserver) (o : os)
    : option (bool * vcserver * os) :=
  match n with
  | O => Some (true, srv, o)
  | S n =>
      let e := we i in
      if we_epoll e <? 0 then Some (false, srv, o)
      else if negb (we_addrinfo e) then None
      else
        let o := os_new (we_epoll e) o in
        let lfd := we_socket e in
        let o := if lfd <? 0 then o else
                   let o := os_new lfd o in if we_bind e && we_listen e then os_listen lfd o else o in
        if negb (we_malloc e) then None
        else if negb (bool_decide (i < length (sr_workers srv))%nat) then None
        else if negb (we_thread e) then Some (false, srv, o)
        else start_workers n we (S i) (set_worker i (WorkerArg (we_epoll e) lfd) srv) o
  end.

Definition worker_count (cfg : vc_server_cfg) : nat :=
  if cfg_worker_threads cfg <=? 0 then VC_WORKER_THREADS else Z.to_nat (cfg_worker_threads cfg).

Definition vcserver_start (we : nat -> worker_env) (srv : vcserver) (o : os) : option (bool * vcserver * os) :=
  start_workers (worker_count (sr_cfg srv)) we 0 srv o.

(** [pthread_join] of handles [i], [i + 1], ..., [n] of them: one that was never created is
    undefined, and the join of a thread that does not end does not return ([Some None]). *)
Fixpoint join_workers (ends : nat -> bool) (n i : nat) (ws : list (option worker)) : option (option (list (option worker))) :=
  match n with
  | O => Some (Some ws)
  | S n =>
      match ws with
      | Some _ :: ws =>
          if ends i then r ← join_workers ends n (S i) ws; Some (option_map (cons None) r) else Some None
      | _ => None
      end
  end.

Definition stopped (ws : list (option worker)) (srv : vcserver) : vcserver :=
  VcServer (sr_cfg srv) (sr_server srv) (sr_tls srv) (sr_listen_fd srv) (sr_epoll_fd srv) (sr_conns srv) ws false.

Definition vcserver_stop (ends : nat -> bool) (srv : vcserver) : option (option vcserver) :=
  r ← join_workers ends (worker_count (sr_cfg srv)) 0 (sr_workers srv);
  Some (option_map (fun ws => stopped ws srv) r).

(** What the workers do until a signal arrives: the operations on the store in the order in
    which they take effect, the pool and the counters then, the sockets of clients that are
    open then, and for each worker whether its thread ends once [running] is false. *)
Record life := Life {
  lf_ops : list (env * op);
  lf_conns : list slot;
  lf_counts : Z * Z;
  lf_clients : gset Z;
  lf_ends : nat -> bool
}.

Definition lived (l : life) (c : vc_cache) (srv : vcserver) : vcserver :=
  let s := sr_server srv in
  VcServer (sr_cfg srv)
    (Server c (sv_auth s) (sv_node_id s) (lf_counts l).1 (lf_counts l).2 (sv_cluster_enabled s) (sv_announce_addr s)
       (sv_announce_port s) (sv_port s))
    (sr_tls srv) (sr_listen_fd srv) (sr_epoll_fd srv) (lf_conns l) (sr_workers srv) (sr_running srv).

(** [Some None]: it does not return. *)
Definition vcserver_run (l : life) (srv : vcserver) (o : os) : option (option vcserver * os) :=
  c ← run_ops (lf_ops l) (sv_cache (sr_server srv));
  r ← vcserver_stop (lf_ends l) (lived l c srv);
  Some (r, Os (os_open o ∪ lf_clients l) (os_listening o)).

(** The server mode of [main]: the exit code and what is left, [Some None] when it does not
    return. *)
Definition server_mode (e : start_env) (we : nat -> worker_env) (l : life) (cfg : vc_server_cfg)
    (h : heap) (o : os) : option (option (Z * remains * os)) :=
  '(r, o) ← vcserver_create e cfg h o;
  match r with
  | inl h => Some (Some (1, h, o))
  | inr srv =>
      '(ok, srv, o) ← vcserver_start we srv o;
      if negb ok then '(h, o) ← vcserver_destroy srv o; Some (Some (1, h, o))
      else
        '(r, o) ← vcserver_run l srv o;
        match r with
        | None => Some None
        | Some srv => '(h, o) ← vcserver_destroy srv o; Some (Some (0, h, o))
        end
  end.
