(* ===== verification/LifecycleThm.v ===== *)
(** * The life of a server: theorems

    Starting gives an empty store, the configured users and workers that listen; the
    socket made at creation is served by nobody; a failed start closes standard input;
    more than four threads write past the array of handles. *)

From S2P Require Import Prelude Hash Slab Entry Shard Wal Cache CacheInv CacheSafe CacheSpec CacheThm.
From S2P Require Import CacheLife Proto ProtoSpec Auth Kv Commands CommandsSpec Server ServerThm Resp Net Cluster Cli Lifecycle.

(** ** Creation *)

(** The system gives the cache its memory. *)
Record memory_ok (e : start_env) (B : base) : Prop := {
  mok_calloc : se_calloc e = true;
  mok_cache : granted (se_arena_bytes e) (se_cache e) B
}.

(** The log of a configuration. *)
Definition log_of (e : start_env) (cfg : vc_server_cfg) : vc_err * vc_wal := wal_init (cfg_wal_path cfg) (ce_wal (se_cache e)).

(** A configuration that authentication and TLS accept, without a log or with one that can
    be opened. *)
Record config_ok (e : start_env) (cfg : vc_server_cfg) (db : vc_auth_db) : Prop := {
  cok_wal : (log_of e cfg).1 = VC_OK;
  cok_slots : 0 <= cfg_shard_slots cfg <= 2 ^ 31;
  cok_auth : create_auth (se_junk e) (cfg_acl_file cfg) (se_acl e) (cfg_requirepass cfg) = Some db;
  cok_tls : is_Some (cfg_tls_cert cfg) -> is_Some (cfg_tls_key cfg) -> se_tls e = true
}.

(** The sockets are made; new descriptors are not in use. *)
Record sockets_ok (e : start_env) (o : os) : Prop := {
  sok_addr : se_addrinfo e = true;
  sok_socket : 0 <= se_socket e /\ (se_socket e ∉ os_open o);
  sok_bind : se_bind e = true /\ se_listen e = true;
  sok_epoll : 0 <= se_epoll e /\ (se_epoll e ∉ os_open o) /\ se_epoll e <> se_socket e
}.

(** The store of a new server, on the memory [B]. *)
Record new_store (e : start_env) (cfg : vc_server_cfg) (B : base) (h : heap) (c : vc_cache) : Prop := {
  ns_made : exists h', vc_create (se_arena_bytes e) (se_cache e)
    (if cfg_max_memory cfg =? 0 then 256 * 1024 * 1024 else cfg_max_memory cfg) (cfg_wal_path cfg)
    (if cfg_shard_slots cfg =? 0 then 4096 else cfg_shard_slots cfg) h = Some (Some c, h');
  ns_ok : exists k, cache_ok k c;
  ns_empty : abs c = ∅;
  ns_alive : alive B c;
  ns_log : c_wal c = (log_of e cfg).2
}.

(** The server when its sockets are about to be made. *)
Lemma create_until_sockets e B cfg db h o :
  memory_ok e B -> config_ok e cfg db ->
  exists c tls, new_store e cfg B h c /\
    let srv := bare_server cfg (new_server cfg c db (node_id_of (se_rand e))) tls in
    vcserver_create e cfg h o =
    match create_sockets e srv o with
    | (inl srv, o) => '(h, o) ← vcserver_destroy srv o; Some (inl h, o)
    | (inr srv, o) => Some (inr srv, o)
    end.
Proof.
  intros [Hca Hce] [Hw Hsl Ha Ht].
  set (slots := if cfg_shard_slots cfg =? 0 then 4096 else cfg_shard_slots cfg).
  set (mem := if cfg_max_memory cfg =? 0 then 256 * 1024 * 1024 else cfg_max_memory cfg).
  destruct (create_logged (se_arena_bytes e) (se_cache e) (ba_arenas B) mem (cfg_wal_path cfg) slots h (gr_env _ _ _ Hce))
    as (c & h' & k & Ec & Hok & He & _ & Elog).
  { unfold slots. destruct (Z.eqb_spec (cfg_shard_slots cfg) 0); lia. } { exact Hw. }
  set (wanted := bool_decide (is_Some (cfg_tls_cert cfg)) && bool_decide (is_Some (cfg_tls_key cfg))).
  exists c, wanted. split.
  { split; [exists h'; exact Ec | exists k; exact Hok | exact He | exact (create_alive _ _ _ _ _ _ _ _ _ Hce Ec) | exact Elog]. }
  cbv zeta. unfold vcserver_create. rewrite Hca. fold slots mem wanted. cbn [negb]. rewrite Ec. cbn [mbind option_bind]. rewrite Ha.
  assert (Hwt : wanted && negb (se_tls e) = false).
  { unfold wanted. destruct (bool_decide_reflect (is_Some (cfg_tls_cert cfg))), (bool_decide_reflect (is_Some (cfg_tls_key cfg))); try done.
    by rewrite Ht. }
  by rewrite Hwt.
Qed.

(** ** Workers *)

(** The answers of round [i] are good. *)
Record worker_ok (e : worker_env) : Prop := {
  wok_epoll : 0 <= we_epoll e;
  wok_addr : we_addrinfo e = true;
  wok_socket : 0 <= we_socket e;
  wok_bind : we_bind e = true;
  wok_listen : we_listen e = true;
  wok_malloc : we_malloc e = true
}.

Definition worker_at (we : nat -> worker_env) (i : nat) : worker := WorkerArg (we_epoll (we i)) (we_socket (we i)).
Definition worker_fds (we : nat -> worker_env) (i n : nat) : list Z :=
  concat ((fun j => [we_epoll (we j); we_socket (we j)]) <$> seq i n).

Definition with_workers (ws : list (option worker)) (srv : vcserver) : vcserver :=
  VcServer (sr_cfg srv) (sr_server srv) (sr_tls srv) (sr_listen_fd srv) (sr_epoll_fd srv) (sr_conns srv) ws (sr_running srv).

(** What a round does to the descriptors. *)
Definition worker_os (e : worker_env) (o : os) : os := os_listen (we_socket e) (os_new (we_socket e) (os_new (we_epoll e) o)).

Lemma start_round n we i srv o : worker_ok (we i) ->
  start_workers (S n) we i srv o =
  if negb (bool_decide (i < length (sr_workers srv))%nat) then None
  else if negb (we_thread (we i)) then Some (false, srv, worker_os (we i) o)
  else start_workers n we (S i) (set_worker i (worker_at we i) srv) (worker_os (we i) o).
Proof.
  intros [He Ha Hs Hb Hl Hm]. cbn [start_workers]. rewrite Ha, Hb, Hl, Hm. cbn [negb andb].
  destruct (Z.ltb_spec (we_epoll (we i)) 0); [lia|]. destruct (Z.ltb_spec (we_socket (we i)) 0); [lia|]. done.
Qed.

Lemma two_more (a b : Z) (A B : gset Z) : {[b]} ∪ ({[a]} ∪ A) ∪ B = A ∪ ({[a]} ∪ ({[b]} ∪ B)).
Proof. set_solver. Qed.

Lemma start_workers_spec n we i srv o :
  (forall j, (i <= j < i + n)%nat -> worker_ok (we j) /\ we_thread (we j) = true) -> (i + n <= length (sr_workers srv))%nat ->
  exists ws o', start_workers n we i srv o = Some (true, with_workers ws srv, o') /\
    length ws = length (sr_workers srv) /\
    (forall j, ws !! j = if decide (i <= j < i + n)%nat then Some (Some (worker_at we j)) else sr_workers srv !! j) /\
    os_open o' = os_open o ∪ list_to_set (worker_fds we i n) /\
    os_listening o ⊆ os_listening o' /\
    (forall j, (i <= j < i + n)%nat -> we_socket (we j) ∈ os_listening o').
Proof.
  revert i srv o. induction n as [|n IH]; intros i srv o Hw Hl.
  - exists (sr_workers srv), o. split; [by destruct srv|]. split; [done|]. split; [intros j; rewrite decide_False by lia; done|].
    split; [cbn; set_solver|]. split; [done|]. lia.
  - destruct (Hw i) as [Hok Ht]; [lia|]. rewrite start_round by done. rewrite bool_decide_true by lia. rewrite Ht. cbn [negb].
    destruct (IH (S i) (set_worker i (worker_at we i) srv) (worker_os (we i) o)) as (ws & o' & E & Hlen & Hlk & Ho & Hsub & Hlis).
    { intros j Hj. apply Hw. lia. } { cbn [set_worker sr_workers]. rewrite length_insert. lia. }
    exists ws, o'. cbn [set_worker sr_workers] in Hlen, Hlk. rewrite length_insert in Hlen.
    split; [exact E|]. split; [done|]. split.
    { intros j. rewrite Hlk. destruct (decide (j = i)) as [->|Hne].
      - rewrite decide_False by lia. rewrite decide_True by lia. rewrite list_lookup_insert_eq by lia. done.
      - rewrite list_lookup_insert_ne by done. by destruct (decide (S i <= j < S i + n)%nat), (decide (i <= j < i + S n)%nat); try lia. }
    split; [rewrite Ho; unfold worker_fds; cbn [seq fmap list_fmap concat app]; unfold worker_os; cbn [os_listen os_new os_open list_to_set]; apply two_more|].
    unfold worker_os in Hsub. cbn [os_listen os_new os_listening] in Hsub. split; [set_solver|].
    intros j Hj. destruct (decide (j = i)) as [->|]; [set_solver | apply Hlis; lia].
Qed.

(** ** Theorems *)

Definition new_fds (e : start_env) (we : nat -> worker_env) (n : nat) : list Z :=
  se_socket e :: se_epoll e :: worker_fds we 0 n.

Lemma socket_in_fds we i n j : (i <= j < i + n)%nat -> we_socket (we j) ∈ worker_fds we i n.
Proof.
  intros Hj. unfold worker_fds. apply list_elem_of_In, in_concat. exists [we_epoll (we j); we_socket (we j)]. split; [|by right; left].
  apply list_elem_of_In, list_elem_of_fmap. exists j. split; [done|]. apply elem_of_seq. lia.
Qed.

Lemma create_succeeds e B cfg db h o :
  memory_ok e B -> config_ok e cfg db -> sockets_ok e o ->
  exists srv, vcserver_create e cfg h o =
      Some (inr srv, os_new (se_epoll e) (os_listen (se_socket e) (os_new (se_socket e) o))) /\
    new_store e cfg B h (sv_cache (sr_server srv)) /\ sv_auth (sr_server srv) = db /\
    sr_cfg srv = cfg /\ sr_listen_fd srv = se_socket e /\ sr_epoll_fd srv = se_epoll e /\
    sr_workers srv = replicate VC_WORKER_THREADS None /\ sr_conns srv = replicate VC_MAX_CONNS zero_slot /\ sr_running srv = true.
Proof.
  intros Hm Hc [Ha [Hs _] [Hb Hl] (Hep & _ & _)].
  destruct (create_until_sockets e B cfg db h o Hm Hc) as (c & tls & Hn & E). cbv zeta in E.
  set (srv := bare_server cfg (new_server cfg c db (node_id_of (se_rand e))) tls) in *.
  assert (Es : create_sockets e srv o = (inr (set_fds (se_socket e) (se_epoll e) true srv),
                 os_new (se_epoll e) (os_listen (se_socket e) (os_new (se_socket e) o)))).
  { unfold create_sockets. rewrite Ha, Hb, Hl. cbn [negb orb]. destruct (Z.ltb_spec (se_socket e) 0); [lia|].
    destruct (Z.ltb_spec (se_epoll e) 0); [lia|]. done. }
  rewrite Es in E. exists (set_fds (se_socket e) (se_epoll e) true srv). split; [exact E|]. split; [exact Hn|]. repeat (split; [reflexivity|]). reflexivity.
Qed.

(** C28: a server starts with an empty store, the configured users and its workers, but one
    listening socket is served by nobody.  When the system grants everything, the log
    included if one is configured, and at most four threads are configured, creation gives
    an empty, well-formed cache and the users of the configuration, every worker gets its own
    epoll descriptor and listening socket;
    the socket made by [vcserver_create] listens too, and no worker polls it, so that the
    connections the kernel gives to it are never accepted. *)
Theorem server_started e B cfg db we h o :
  memory_ok e B -> config_ok e cfg db -> sockets_ok e o ->
  (worker_count cfg <= VC_WORKER_THREADS)%nat ->
  (forall i, (i < worker_count cfg)%nat -> worker_ok (we i) /\ we_thread (we i) = true) ->
  NoDup (new_fds e we (worker_count cfg)) ->
  exists srv o1 ws o2 k,
    vcserver_create e cfg h o = Some (inr srv, o1) /\
    vcserver_start we srv o1 = Some (true, with_workers ws srv, o2) /\
    cache_ok k (sv_cache (sr_server srv)) /\ abs (sv_cache (sr_server srv)) = ∅ /\ sv_auth (sr_server srv) = db /\
    (forall i, (i < worker_count cfg)%nat -> ws !! i = Some (Some (worker_at we i)) /\ we_socket (we i) ∈ os_listening o2) /\
    sr_listen_fd srv ∈ os_listening o2 /\
    (forall i w, ws !! i = Some (Some w) -> wk_listen w <> sr_listen_fd srv).
Proof.
  intros Hm Hc Hs Hn Hw Hnd. destruct (create_succeeds e B cfg db h o Hm Hc Hs)
    as (srv & E & [_ (k & Hok) He _ _] & Hdb & Hcfg & Hlfd & _ & Hws & _).
  set (o1 := os_new (se_epoll e) (os_listen (se_socket e) (os_new (se_socket e) o))) in *.
  destruct (start_workers_spec (worker_count cfg) we 0 srv o1) as (ws & o2 & Es & _ & Hlk & _ & Hsub & Hlis).
  { intros j Hj. apply Hw. lia. } { rewrite Hws, length_replicate. done. }
  exists srv, o1, ws, o2, k. split; [done|]. split; [unfold vcserver_start; by rewrite Hcfg|].
  split; [done|]. split; [done|]. split; [done|]. split.
  { intros i Hi. split; [rewrite Hlk, decide_True by lia; done | apply Hlis; lia]. }
  rewrite Hlfd. split; [apply Hsub; unfold o1; cbn; set_solver|].
  intros i w Hi. rewrite Hlk in Hi. case_decide as Hd.
  - injection Hi as <-. cbn [worker_at wk_listen]. intros Heq. unfold new_fds in Hnd. apply NoDup_cons in Hnd as [Hnin _].
    apply Hnin. right. rewrite <- Heq. by apply socket_in_fds.
  - rewrite Hws in Hi. apply lookup_replicate in Hi as [Hi _]. done.
Qed.

(** More than four threads are undefined.  The number given to [--threads] is not
    compared with the size of the array of thread handles: as soon as the fifth worker is
    started its handle is written past the end of the array. *)
Theorem threads_overflow we srv o :
  length (sr_workers srv) = VC_WORKER_THREADS -> 4 < cfg_worker_threads (sr_cfg srv) ->
  (forall i, (i <= 4)%nat -> worker_ok (we i) /\ we_thread (we i) = true) ->
  vcserver_start we srv o = None.
Proof.
  intros Hl Ht Hw. unfold vcserver_start, worker_count. destruct (Z.leb_spec (cfg_worker_threads (sr_cfg srv)) 0); [lia|].
  destruct (Z.to_nat (cfg_worker_threads (sr_cfg srv))) as [|[|[|[|[|n]]]]] eqn:En; try lia.
  assert (Hlen : forall i w s, length (sr_workers (set_worker i w s)) = length (sr_workers s)).
  { intros. cbn [set_worker sr_workers]. apply length_insert. }
  assert (Hr : forall k i s o, (i < 4)%nat -> length (sr_workers s) = VC_WORKER_THREADS ->
    start_workers (S k) we i s o = start_workers k we (S i) (set_worker i (worker_at we i) s) (worker_os (we i) o)).
  { intros k i s o' Hi Hs. destruct (Hw i) as [Hok Hth]; [lia|]. rewrite start_round by done.
    rewrite bool_decide_true by (rewrite Hs; unfold VC_WORKER_THREADS; lia). by rewrite Hth. }
  rewrite !Hr by (rewrite ?Hlen; lia || done).
  rewrite start_round by (apply Hw; lia). rewrite bool_decide_false by (rewrite !Hlen, Hl; unfold VC_WORKER_THREADS; lia). done.
Qed.

(** A server that cannot bind closes standard input.  When the address is bad, or the
    socket cannot be made, bound or listened on, [vcserver_create] gives everything back
    and returns NULL, but it also closes descriptor 0: the descriptors of the server are
    still the zeros of [calloc]. *)
Theorem failed_bind_closes_stdin e B cfg db h o :
  memory_ok e B -> config_ok e cfg db ->
  se_addrinfo e = false \/ se_socket e < 0 \/ (se_socket e ∉ os_open o) /\ (se_bind e = false \/ se_listen e = false) ->
  exists h' o', vcserver_create e cfg h o = Some (inl h', o') /\ os_open o' = os_open o ∖ {[0]}.
Proof.
  intros Hm Hc Hf. destruct (create_until_sockets e B cfg db h o Hm Hc) as (c & tls & [_ [k Hok] _ Hal _] & E). cbv zeta in E.
  destruct (alive_destroyed B k c (gr_base _ _ _ (mok_cache _ _ Hm)) (cok_wf _ _ Hok) Hal) as (h0 & Hd & _).
  set (h' := (h0, wal_destroy (c_wal c))) in *.
  set (srv := bare_server cfg (new_server cfg c db (node_id_of (se_rand e))) tls) in *.
  assert (Es : exists o1, create_sockets e srv o = (inl srv, o1) /\ os_open o1 = os_open o).
  { unfold create_sockets. destruct (se_addrinfo e); cbn [negb]; [|by eexists].
    destruct (Z.ltb_spec (se_socket e) 0); [by eexists|].
    destruct Hf as [?|[?|[Hn Hbl]]]; [done|lia|]. replace (negb (se_bind e) || negb (se_listen e)) with true by (by destruct Hbl as [-> | ->]; destruct (se_bind e)).
    eexists. split; [done|]. cbn [os_close os_new os_open]. set_solver. }
  destruct Es as (o1 & Es & Ho). rewrite Es in E.
  assert (Ed : vcserver_destroy srv o1 = Some (h', os_close 0 (os_close 0 o1))).
  { unfold vcserver_destroy, srv, bare_server. cbn [sr_workers sr_server sr_listen_fd sr_epoll_fd new_server sv_cache].
    rewrite Hd. done. }
  rewrite Ed in E. exists h', (os_close 0 (os_close 0 o1)). split; [exact E|]. cbn [os_close os_open]. rewrite Ho. set_solver.
Qed.

Lemma two_gone (a b : Z) (A B C : gset Z) : a ∉ A -> b ∉ A -> a ∉ B -> b ∉ B -> a ∉ C -> b ∉ C ->
  ({[b]} ∪ ({[a]} ∪ A) ∪ B ∪ C) ∖ {[a]} ∖ {[b]} = A ∪ B ∪ C.
Proof. set_solver. Qed.

Lemma join_all ends n i ws m : (forall j, (j < n)%nat -> is_Some (mjoin (ws !! j))) -> length ws = (n + m)%nat ->
  (forall j, (n <= j)%nat -> mjoin (ws !! j) = None) ->
  join_workers ends n i ws = Some (if forallb ends (seq i n) then Some (replicate (n + m) None) else None).
Proof.
  revert i ws. induction n as [|n IH]; intros i ws Hj Hl Hr; cbn [join_workers seq forallb].
  - do 2 f_equal. cbn [plus]. apply list_eq_same_length with (n := m); [by rewrite ?Hl, ?length_replicate..|].
    intros j x y Hi Hx Hy. apply lookup_replicate in Hy as [-> _]. specialize (Hr j ltac:(lia)). by rewrite Hx in Hr.
  - destruct ws as [|w ws]; [done|]. destruct (Hj 0%nat ltac:(lia)) as [w0 Hw]. cbn in Hw. subst w.
    destruct (ends i); cbn [andb]; [|done]. rewrite (IH (S i) ws).
    + cbn [mbind option_bind]. by destruct (forallb _ _).
    + intros j Hlt. apply (Hj (S j)). lia.
    + cbn in Hl. lia.
    + intros j Hle. apply (Hr (S j)). lia.
Qed.

(** What the workers may do while the server runs: any operations on the store, with unused
    memory and records that fit in the log, and sockets of clients on new descriptors. *)
Record life_ok (e : start_env) (cfg : vc_server_cfg) (B : base) (l : life) (h : heap) : Prop := {
  lok_log : Forall (op_logged (log_of e cfg).2) (lf_ops l).*2;
  lok_apart : Forall (fun x => apart B x.1) (lf_ops l);
  lok_fresh : forall c, new_store e cfg B h c -> run_fresh (lf_ops l) c;
  lok_clients : (se_socket e ∉ lf_clients l) /\ (se_epoll e ∉ lf_clients l)
}.

(** The store after its operations can be destroyed. *)
Lemma lived_store e cfg B l h c : memory_ok e B -> life_ok e cfg B l h -> new_store e cfg B h c ->
  exists c' h', run_ops (lf_ops l) c = Some c' /\ vc_destroy c' = Some (h', wal_destroy (c_wal c')) /\ all_released B h'.
Proof.
  intros Hm [Hl Ha Hf _] Hn. destruct (ns_ok _ _ _ _ _ Hn) as [k Hok]. pose proof (cok_wf _ _ Hok) as Hwf.
  rewrite <- (ns_log _ _ _ _ _ Hn) in Hl.
  destruct (run_safe k (lf_ops l) c Hwf Hl (Hf c Hn)) as (c' & E' & _).
  destruct (run_alive B k (lf_ops l) c c' Ha E' (ns_alive _ _ _ _ _ Hn) Hwf Hl (Hf c Hn)) as [Ha' Hwf'].
  destruct (alive_destroyed B k c' (gr_base _ _ _ (mok_cache _ _ Hm)) Hwf' Ha') as (h' & E & Hr). by exists c', h'.
Qed.


(** ** A server with two workers *)

Definition demo_start (bind : bool) : start_env :=
  StartEnv true None 64 mini_env (fun _ => 0) None true true 3 bind true 4.
Definition demo_cfg (threads : Z) : vc_server_cfg :=
  ServerCfg None 6379 None None None threads (2 ^ 20) None 4 false None 0 (Some (bs "secret")).
Definition demo_worker (i : nat) : worker_env :=
  WorkerEnv (5 + 2 * Z.of_nat i) true (6 + 2 * Z.of_nat i) true true true true.
Definition std_os : os := Os {[0; 1; 2]} ∅.
Definition demo_db : vc_auth_db := default (AuthDb [] false) (create_auth (fun _ => 0) None None (Some (bs "secret"))).

Lemma demo_memory bind : memory_ok (demo_start bind) mini_base.
Proof. split; [done | exact mini_granted]. Qed.

Lemma demo_config bind threads : config_ok (demo_start bind) (demo_cfg threads) demo_db.
Proof. split; [done | cbn; lia | vm_compute; reflexivity | by intros [? ?]]. Qed.

Lemma demo_sockets : sockets_ok (demo_start true) std_os.
Proof. split; cbn; [done | split; [lia | set_solver] | done | split; [lia | split; [set_solver | lia]]]. Qed.

Lemma demo_worker_ok i : worker_ok (demo_worker i) /\ we_thread (demo_worker i) = true.
Proof. split; [split; cbn; lia || done | done]. Qed.

Lemma server_started_witness :
  exists srv o1 ws o2 k,
    vcserver_create (demo_start true) (demo_cfg 2) empty_heap std_os = Some (inr srv, o1) /\
    vcserver_start demo_worker srv o1 = Some (true, with_workers ws srv, o2) /\
    cache_ok k (sv_cache (sr_server srv)) /\ abs (sv_cache (sr_server srv)) = ∅ /\ sv_auth (sr_server srv) = demo_db /\
    (forall i, (i < worker_count (demo_cfg 2))%nat -> ws !! i = Some (Some (worker_at demo_worker i)) /\ we_socket (demo_worker i) ∈ os_listening o2) /\
    sr_listen_fd srv ∈ os_listening o2 /\
    (forall i w, ws !! i = Some (Some w) -> wk_listen w <> sr_listen_fd srv).
Proof.
  apply (server_started (demo_start true) mini_base (demo_cfg 2) demo_db demo_worker empty_heap std_os);
    [apply demo_memory | apply demo_config | apply demo_sockets | vm_compute; lia | intros i _; apply demo_worker_ok
    | by apply (bool_decide_unpack _); vm_compute].
Defined.

Lemma threads_overflow_witness :
  vcserver_start demo_worker (bare_server (demo_cfg 5) (mini_server (AuthDb [] false)) false) std_os = None.
Proof.
  apply (threads_overflow demo_worker (bare_server (demo_cfg 5) (mini_server (AuthDb [] false)) false) std_os);
    [done | cbn; lia | intros i _; apply demo_worker_ok].
Defined.

Lemma failed_bind_witness :
  exists h' o', vcserver_create (demo_start false) (demo_cfg 2) empty_heap std_os = Some (inl h', o') /\ os_open o' = os_open std_os ∖ {[0]}.
Proof.
  apply (failed_bind_closes_stdin (demo_start false) mini_base (demo_cfg 2) demo_db empty_heap std_os);
    [apply demo_memory | apply demo_config | right; right; split; [cbn; set_solver | by left]].
Defined.

(** One client sets a key and stays connected; both workers end. *)
Definition demo_life : life := Life [(clock 5, OSet (bs "k") (bs "v") 0)] [] (1, 1) {[9]} (fun _ => true).

Lemma demo_life_ok : life_ok (demo_start true) (demo_cfg 2) mini_base demo_life empty_heap.
Proof.
  split.
  - repeat constructor.
  - repeat constructor; cbn in *; naive_solver.
  - intros c _. split; [|done]. intros ky val ttl _. apply clock_fresh.
  - split; cbn; set_solver.
Qed.

