(* ===== verification/Wepoll.v ===== *)
(** * The epoll layer for Windows

    [src/compat/wepoll.c]: a table of registered sockets, open to [epoll_ctl], over an I/O
    completion port.  An entry is known to the port by its address; an address that is no
    longer that of an entry was freed.  [calloc] answers an address or NULL, the handles of
    Windows always work. *)

From S2P Require Import Prelude.

(** ** Data *)

Definition EPOLLIN : Z := Z.shiftl 1 0.
Definition EPOLLOUT : Z := Z.shiftl 1 2.
Definition EPOLLERR : Z := Z.shiftl 1 3.
Definition EPOLLHUP : Z := Z.shiftl 1 4.
Definition EPOLLRDNORM : Z := Z.shiftl 1 6.
Definition EPOLLWRNORM : Z := Z.shiftl 1 8.
Definition EPOLLRDHUP : Z := Z.shiftl 1 13.

Definition EPOLL_CTL_ADD : Z := 1.
Definition EPOLL_CTL_MOD : Z := 2.
Definition EPOLL_CTL_DEL : Z := 3.

Inductive win_error := ERROR_ALREADY_EXISTS | ERROR_NOT_ENOUGH_MEMORY | ERROR_NOT_FOUND | ERROR_INVALID_PARAMETER.

(** The fields [pending_events], [overlapped] and [deleted] are never read or written. *)
Record sock_entry := SockEntry { en_addr : Z; en_sock : Z; en_events : Z; en_data : Z }.

(** The chains, the size of the table, the number of entries. *)
Record epoll_port := Port { pt_table : list (list sock_entry); pt_size : Z; pt_used : Z }.

(** ** The table of sockets *)

Definition INITIAL_TABLE_SIZE : Z := 64.

Definition sock_hash (s size : Z) : Z := Z.land (u64 (s * 2654435761)) (size - 1).

Fixpoint chain_find (s : Z) (b : list sock_entry) : option sock_entry :=
  match b with
  | [] => None
  | e :: b => if en_sock e =? s then Some e else chain_find s b
  end.

(** [None]: the slot is outside the table. *)
Definition sock_lookup (p : epoll_port) (s : Z) : option (option sock_entry) :=
  b ← pt_table p !! Z.to_nat (sock_hash s (pt_size p)); Some (chain_find s b).

(** [entry->next = table[idx]; table[idx] = entry;] *)
Definition push (size : Z) (e : sock_entry) (t : list (list sock_entry)) : option (list (list sock_entry)) :=
  let idx := Z.to_nat (sock_hash (en_sock e) size) in
  b ← t !! idx; Some (<[idx := e :: b]> t).

Fixpoint push_all (size : Z) (l : list sock_entry) (t : list (list sock_entry)) : option (list (list sock_entry)) :=
  match l with
  | [] => Some t
  | e :: l => t ← push size e t; push_all size l t
  end.

(** [table_ok]: the [calloc] of a larger table.  The result [false] is -1. *)
Definition sock_insert (table_ok : bool) (e : sock_entry) (p : epoll_port) : option (bool * epoll_port) :=
  if pt_size p <=? pt_used p * 2 then
    if negb table_ok then Some (false, p)
    else
      let n := u64 (pt_size p * 2) in
      t ← push_all n (concat (pt_table p)) (replicate (Z.to_nat n) []);
      t ← push n e t; Some (true, Port t n (pt_used p + 1))
  else t ← push (pt_size p) e (pt_table p); Some (true, Port t (pt_size p) (pt_used p + 1)).

Fixpoint chain_remove (s : Z) (b : list sock_entry) : option (sock_entry * list sock_entry) :=
  match b with
  | [] => None
  | e :: b => if en_sock e =? s then Some (e, b) else '(x, b) ← chain_remove s b; Some (x, e :: b)
  end.

Definition sock_remove (s : Z) (p : epoll_port) : option (option sock_entry * epoll_port) :=
  let idx := Z.to_nat (sock_hash s (pt_size p)) in
  b ← pt_table p !! idx;
  match chain_remove s b with
  | None => Some (None, p)
  | Some (e, b) => Some (Some e, Port (<[idx := b]> (pt_table p)) (pt_size p) (pt_used p - 1))
  end.

(** The entry that [sock_lookup] returned is written through its pointer. *)
Fixpoint chain_update (s ev d : Z) (b : list sock_entry) : list sock_entry :=
  match b with
  | [] => []
  | e :: b => if en_sock e =? s then SockEntry (en_addr e) (en_sock e) ev d :: b else e :: chain_update s ev d b
  end.

(** ** Events *)

Definition AFD_POLL_RECEIVE : Z := 1.
Definition AFD_POLL_SEND : Z := 4.
Definition AFD_POLL_DISCONNECT : Z := 8.
Definition AFD_POLL_ABORT : Z := 16.
Definition AFD_POLL_LOCAL_CLOSE : Z := 32.
Definition AFD_POLL_ACCEPT : Z := 128.
Definition AFD_POLL_CONNECT_FAIL : Z := 256.

Definition has (m bits : Z) : bool := negb (Z.land m bits =? 0).
Definition when (b : bool) (bits m : Z) : Z := if b then Z.lor m bits else m.

Definition epoll_events_to_afd (events : Z) : Z :=
  let afd := when (has events (Z.lor EPOLLIN EPOLLRDNORM)) (Z.lor AFD_POLL_RECEIVE AFD_POLL_ACCEPT) 0 in
  let afd := when (has events (Z.lor EPOLLOUT EPOLLWRNORM)) AFD_POLL_SEND afd in
  let afd := when (has events EPOLLRDHUP) AFD_POLL_DISCONNECT afd in
  Z.lor afd (Z.lor (Z.lor AFD_POLL_ABORT AFD_POLL_LOCAL_CLOSE) AFD_POLL_CONNECT_FAIL).

Definition afd_to_epoll_events (afd : Z) : Z :=
  let ev := when (has afd (Z.lor AFD_POLL_RECEIVE AFD_POLL_ACCEPT)) EPOLLIN 0 in
  let ev := when (has afd AFD_POLL_SEND) EPOLLOUT ev in
  let ev := when (has afd AFD_POLL_DISCONNECT) (Z.lor EPOLLRDHUP EPOLLIN) ev in
  let ev := when (has afd AFD_POLL_ABORT) (Z.lor EPOLLERR EPOLLHUP) ev in
  let ev := when (has afd AFD_POLL_LOCAL_CLOSE) EPOLLHUP ev in
  when (has afd AFD_POLL_CONNECT_FAIL) EPOLLERR ev.

(** ** The interface *)

(** The three allocations. *)
Definition epoll_create1 (port_ok iocp_ok table_ok : bool) : option epoll_port :=
  if port_ok && iocp_ok && table_ok
  then Some (Port (replicate (Z.to_nat INITIAL_TABLE_SIZE) []) INITIAL_TABLE_SIZE 0) else None.

Definition epoll_create (port_ok iocp_ok table_ok : bool) : option epoll_port := epoll_create1 port_ok iocp_ok table_ok.

(** The addresses of the entries that are freed, in order; [None]: -1, the handle is NULL. *)
Definition epoll_close (ephnd : option epoll_port) : option (list Z) :=
  p ← ephnd; Some (en_addr <$> concat (pt_table p)).

(** The error of a call that returns -1 ([None]: it returns 0), and the port. *)
Definition epoll_ctl (calloc : option Z) (table_ok : bool) (op sock events data : Z) (p : epoll_port)
    : option (option win_error * epoll_port) :=
  if op =? EPOLL_CTL_ADD then
    found ← sock_lookup p sock;
    match found, calloc with
    | Some _, _ => Some (Some ERROR_ALREADY_EXISTS, p)
    | None, None => Some (Some ERROR_NOT_ENOUGH_MEMORY, p)
    | None, Some a =>
        '(ok, p) ← sock_insert table_ok (SockEntry a sock events data) p;
        Some (if ok : bool then None else Some ERROR_NOT_ENOUGH_MEMORY, p)
    end
  else if op =? EPOLL_CTL_MOD then
    found ← sock_lookup p sock;
    match found with
    | None => Some (Some ERROR_NOT_FOUND, p)
    | Some _ =>
        Some (None, Port (alter (chain_update sock events data) (Z.to_nat (sock_hash sock (pt_size p))) (pt_table p))
                      (pt_size p) (pt_used p))
    end
  else if op =? EPOLL_CTL_DEL then
    '(e, p) ← sock_remove sock p;
    Some (match e with None => Some ERROR_NOT_FOUND | Some _ => None end, p)
  else Some (Some ERROR_INVALID_PARAMETER, p).

(** What [GetQueuedCompletionStatus] answers: the key of a completion and whether the
    operation succeeded, or nothing. *)
Record completion := Completion { co_ok : bool; co_key : Z }.

Fixpoint entry_at (a : Z) (l : list sock_entry) : option sock_entry :=
  match l with
  | [] => None
  | e :: l => if en_addr e =? a then Some e else entry_at a l
  end.

(** [None]: the key points to a freed entry. *)
Fixpoint wait_loop (l : list completion) (maxevents : nat) (p : epoll_port) : option (list (Z * Z)) :=
  match maxevents, l with
  | O, _ | _, [] => Some []
  | S n, c :: l =>
      if co_key c =? 0 then wait_loop l maxevents p
      else
        e ← entry_at (co_key c) (concat (pt_table p));
        let revents := if co_ok c then Z.lor EPOLLIN EPOLLOUT else Z.lor EPOLLERR EPOLLHUP in
        let revents := Z.land revents (Z.lor (Z.lor (en_events e) EPOLLERR) EPOLLHUP) in
        if revents =? 0 then wait_loop l maxevents p
        else evs ← wait_loop l n p; Some ((revents, en_data e) :: evs)
  end.

(** [inl]: -1. *)
Definition epoll_wait (l : list completion) (maxevents : Z) (p : epoll_port) : option (win_error + list (Z * Z)) :=
  if maxevents <=? 0 then Some (inl ERROR_INVALID_PARAMETER)
  else evs ← wait_loop l (Z.to_nat maxevents) p; Some (inr evs).
