(* ===== verification/WepollThm.v ===== *)
(** * The epoll layer for Windows: theorems

    The chained table of sockets is a finite map from sockets to their interest and data,
    through growth and removals. *)

From S2P Require Import Prelude Wepoll.

(** ** The table as a map *)

Abbreviation interest := (gmap Z (Z * Z)).

Definition entries (p : epoll_port) : list sock_entry := concat (pt_table p).
Definition binding (e : sock_entry) : Z * (Z * Z) := (en_sock e, (en_events e, en_data e)).
Definition interests (p : epoll_port) : interest := list_to_map (binding <$> entries p).

(** Every entry is in the chain of its hash. *)
Definition hashed (size : Z) (t : list (list sock_entry)) : Prop :=
  forall i b e, t !! i = Some b -> e ∈ b -> Z.to_nat (sock_hash (en_sock e) size) = i.

Record port_ok (p : epoll_port) : Prop := {
  po_size : exists k, 6 <= k <= 62 /\ pt_size p = 2 ^ k;
  po_len : Z.of_nat (length (pt_table p)) = pt_size p;
  po_hash : hashed (pt_size p) (pt_table p);
  po_socks : NoDup (en_sock <$> entries p);
  po_used : pt_used p = Z.of_nat (length (entries p))
}.

Lemma hash_range s k : 0 <= k -> 0 <= sock_hash s (2 ^ k) < 2 ^ k.
Proof.
  intros Hk. unfold sock_hash. rewrite Z.sub_1_r, <- Z.ones_equiv, Z.land_ones by lia. apply Z.mod_pos_bound. lia.
Qed.

Lemma slot_exists p s : port_ok p -> is_Some (pt_table p !! Z.to_nat (sock_hash s (pt_size p))).
Proof.
  intros [(k & Hk & Es) Hl _ _ _]. apply lookup_lt_is_Some_2. rewrite Es in *. pose proof (hash_range s k). lia.
Qed.

(** ** Chains *)

Lemma concat_split {A} (t : list (list A)) i b1 x b2 :
  t !! i = Some (b1 ++ x :: b2) -> concat t ≡ₚ x :: concat (<[i := b1 ++ b2]> t).
Proof.
  revert i. induction t as [|b t IH]; intros [|i] Hi; [done..| |].
  - injection Hi as ->. cbn [concat insert list_insert]. rewrite <- !app_assoc. cbn [app]. symmetry. apply Permutation_middle.
  - cbn [concat insert list_insert lookup list_lookup] in *. rewrite (IH i Hi). symmetry. apply Permutation_middle.
Qed.

Lemma chain_remove_split s b : match chain_remove s b with
  | Some (e, b') => exists b1 b2, b = b1 ++ e :: b2 /\ b' = b1 ++ b2 /\ en_sock e = s
  | None => s ∉ en_sock <$> b
  end.
Proof.
  induction b as [|e b IH]; cbn [chain_remove]; [apply not_elem_of_nil|].
  destruct (Z.eqb_spec (en_sock e) s) as [Hs|Hs]; [by exists [], b|].
  destruct (chain_remove s b) as [[x b']|]; cbn [mbind option_bind].
  - destruct IH as (b1 & b2 & -> & -> & Hx). by exists (e :: b1), b2.
  - cbn [fmap list_fmap]. apply not_elem_of_cons. by split.
Qed.

Lemma chain_find_spec s b : match chain_find s b with Some e => e ∈ b /\ en_sock e = s | None => s ∉ en_sock <$> b end.
Proof.
  induction b as [|e b IH]; cbn [chain_find]; [apply not_elem_of_nil|].
  destruct (Z.eqb_spec (en_sock e) s) as [Hs|Hs]; [split; [left | done]|].
  destruct (chain_find s b); [split; [by right; apply IH | apply IH]|]. cbn [fmap list_fmap]. apply not_elem_of_cons. by split.
Qed.

Lemma chain_update_split s ev d b1 e b2 : s ∉ en_sock <$> b1 -> en_sock e = s ->
  chain_update s ev d (b1 ++ e :: b2) = b1 ++ SockEntry (en_addr e) s ev d :: b2.
Proof.
  intros Hn He. induction b1 as [|x b1 IH]; cbn [app chain_update].
  - by rewrite He, Z.eqb_refl.
  - cbn [fmap list_fmap] in Hn. apply not_elem_of_cons in Hn as [Hx Hn]. destruct (Z.eqb_spec (en_sock x) s); [by subst|]. by rewrite IH.
Qed.

(** A socket that is not in its chain is not in the table. *)
Lemma in_chain p s b : port_ok p -> pt_table p !! Z.to_nat (sock_hash s (pt_size p)) = Some b ->
  s ∈ en_sock <$> entries p -> s ∈ en_sock <$> b.
Proof.
  intros Hp Hb Hs. apply list_elem_of_fmap in Hs as (e & -> & He). apply list_elem_of_fmap. exists e. split; [done|].
  unfold entries in He. apply list_elem_of_In, in_concat in He as (b' & Hb' & He).
  apply list_elem_of_In, list_elem_of_lookup in Hb' as [i Hi]. apply list_elem_of_In in He.
  pose proof (po_hash _ Hp i b' e Hi He) as Hh. rewrite Hh, Hi in Hb. by injection Hb as <-.
Qed.

Lemma interests_perm p e l : port_ok p -> entries p ≡ₚ e :: l ->
  interests p = <[en_sock e := (en_events e, en_data e)]> (list_to_map (binding <$> l)) /\ en_sock e ∉ en_sock <$> l.
Proof.
  intros Hp Hl. assert (Hnd : NoDup (en_sock <$> e :: l)) by (rewrite <- Hl; apply Hp).
  cbn [fmap list_fmap] in Hnd. apply NoDup_cons in Hnd as [Hn Hnd]. split; [|exact Hn].
  unfold interests. rewrite (list_to_map_proper (binding <$> entries p) (binding <$> e :: l)); [done| |by rewrite Hl].
  rewrite <- list_fmap_compose. apply Hp.
Qed.

Lemma interests_none p s : s ∉ en_sock <$> entries p -> interests p !! s = None.
Proof. intros Hs. unfold interests. apply not_elem_of_list_to_map. by rewrite <- list_fmap_compose. Qed.

(** ** Insertion *)

Lemma push_spec k e t : 0 <= k -> Z.of_nat (length t) = 2 ^ k -> hashed (2 ^ k) t ->
  exists t', push (2 ^ k) e t = Some t' /\ length t' = length t /\ hashed (2 ^ k) t' /\ concat t' ≡ₚ e :: concat t.
Proof.
  intros Hk Hl Hh. unfold push. set (idx := Z.to_nat (sock_hash (en_sock e) (2 ^ k))).
  assert (Hlt : (idx < length t)%nat) by (pose proof (hash_range (en_sock e) k Hk); unfold idx; lia).
  destruct (lookup_lt_is_Some_2 t idx Hlt) as [b Hb]. rewrite Hb. cbn [mbind option_bind].
  exists (<[idx := e :: b]> t). split; [done|]. split; [apply length_insert|]. split.
  - intros i b' x Hi Hx. apply list_lookup_insert_Some in Hi as [(<- & <- & _)|[_ Hi]]; [|by eapply Hh].
    apply elem_of_cons in Hx as [->|Hx]; [done | by eapply Hh].
  - rewrite (concat_split _ idx [] e b) by (by apply list_lookup_insert_eq). cbn [app].
    by rewrite list_insert_insert_eq, list_insert_id.
Qed.

Lemma push_all_spec k l t : 0 <= k -> Z.of_nat (length t) = 2 ^ k -> hashed (2 ^ k) t ->
  exists t', push_all (2 ^ k) l t = Some t' /\ length t' = length t /\ hashed (2 ^ k) t' /\ concat t' ≡ₚ l ++ concat t.
Proof.
  intros Hk. revert t. induction l as [|e l IH]; intros t Hl Hh; cbn [push_all]; [by exists t|].
  destruct (push_spec k e t Hk Hl Hh) as (t1 & -> & Hl1 & Hh1 & Hp1). cbn [mbind option_bind].
  destruct (IH t1) as (t2 & -> & Hl2 & Hh2 & Hp2); [by rewrite Hl1 | done|].
  exists t2. split; [done|]. split; [congruence|]. split; [done|]. rewrite Hp2, Hp1. cbn [app]. symmetry. apply Permutation_middle.
Qed.

Lemma concat_replicate_nil {A} n : concat (replicate n (@nil A)) = [].
Proof. by induction n. Qed.

Lemma port_pushed p k t e : port_ok p -> 6 <= k <= 62 -> Z.of_nat (length t) = 2 ^ k -> hashed (2 ^ k) t ->
  concat t ≡ₚ e :: entries p -> en_sock e ∉ en_sock <$> entries p -> port_ok (Port t (2 ^ k) (pt_used p + 1)).
Proof.
  intros Hp Hk Hl Hh Hc Hn. split; cbn [pt_size pt_table pt_used]; [by exists k | done | done | |].
  - unfold entries. cbn [pt_table]. rewrite Hc. cbn [fmap list_fmap]. apply NoDup_cons. split; [done | apply Hp].
  - unfold entries at 1. cbn [pt_table]. rewrite Hc. cbn [length]. rewrite (po_used _ Hp). lia.
Qed.

Lemma sock_insert_spec table_ok e p : port_ok p -> pt_size p < 2 ^ 62 -> en_sock e ∉ en_sock <$> entries p ->
  exists ok p', sock_insert table_ok e p = Some (ok, p') /\ port_ok p' /\
    ok = table_ok || (pt_used p * 2 <? pt_size p) /\ (if ok then entries p' ≡ₚ e :: entries p else p' = p).
Proof.
  intros Hp Hs Hn. pose proof Hp as [(k & Hk & Es) Hl Hh _ _]. unfold sock_insert. destruct (Z.leb_spec (pt_size p) (pt_used p * 2)).
  - destruct table_ok; cbn [negb]; [|exists false, p; by rewrite (proj2 (Z.ltb_ge _ _)) by lia].
    assert (Hk2 : k < 62) by (apply (Z.pow_lt_mono_r_iff 2); lia). rewrite Es.
    assert (En : u64 (2 ^ k * 2) = 2 ^ (k + 1)).
    { rewrite Z.pow_add_r by lia. apply u64_id. pose proof (Z.pow_le_mono_r 2 k 61). lia. }
    cbv zeta. rewrite En.
    assert (Hrep : Z.of_nat (length (replicate (Z.to_nat (2 ^ (k + 1))) (@nil sock_entry))) = 2 ^ (k + 1)) by (rewrite length_replicate; lia).
    destruct (push_all_spec (k + 1) (concat (pt_table p)) (replicate (Z.to_nat (2 ^ (k + 1))) [])) as (t1 & -> & Hl1 & Hh1 & Hp1); [lia | done | |].
    { intros i b x Hi Hx. apply lookup_replicate in Hi as [-> _]. by apply elem_of_nil in Hx. }
    cbn [mbind option_bind]. rewrite <- Hl1 in Hrep. destruct (push_spec (k + 1) e t1) as (t2 & -> & Hl2 & Hh2 & Hp2); [lia | done | done|].
    cbn [mbind option_bind]. rewrite concat_replicate_nil, app_nil_r in Hp1. rewrite Hp1 in Hp2.
    eexists true, _. split; [reflexivity|]. split; [|split; [done | exact Hp2]]. eapply port_pushed; try done; [lia|]. by rewrite Hl2.
  - rewrite Es in *. destruct (push_spec k e (pt_table p)) as (t1 & -> & Hl1 & Hh1 & Hp1); [lia | done | done|].
    cbn [mbind option_bind]. eexists true, _. split; [reflexivity|]. split; [|split; [|exact Hp1]]; [eapply port_pushed; try done; by rewrite Hl1|].
    by rewrite (proj2 (Z.ltb_lt _ _)), orb_true_r by lia.
Qed.

(** ** A chain in which one entry is replaced by a few *)

Lemma chain_spliced p s b1 e b2 l : port_ok p -> en_sock e = s ->
  pt_table p !! Z.to_nat (sock_hash s (pt_size p)) = Some (b1 ++ e :: b2) ->
  (forall x, x ∈ l -> en_sock x = s) -> (length l <= 1)%nat ->
  let idx := Z.to_nat (sock_hash s (pt_size p)) in
  let p' := Port (<[idx := b1 ++ l ++ b2]> (pt_table p)) (pt_size p) (pt_used p - 1 + Z.of_nat (length l)) in
  exists rest, entries p ≡ₚ e :: rest /\ entries p' ≡ₚ l ++ rest /\ port_ok p'.
Proof.
  intros Hp He Hb Hl Hlen idx p'. exists (concat (<[idx := b1 ++ b2]> (pt_table p))).
  assert (Hlt : (idx < length (pt_table p))%nat) by (by eapply lookup_lt_Some).
  assert (Hold : entries p ≡ₚ e :: concat (<[idx := b1 ++ b2]> (pt_table p))) by (by apply concat_split).
  assert (Hnew : entries p' ≡ₚ l ++ concat (<[idx := b1 ++ b2]> (pt_table p))).
  { unfold entries. cbn [p' pt_table]. destruct l as [|x [|y l]]; [done| |cbn in Hlen; lia].
    rewrite (concat_split _ idx b1 x b2) by (by apply list_lookup_insert_eq). by rewrite list_insert_insert_eq. }
  split; [done|]. split; [done|]. pose proof (po_socks _ Hp) as Hnd. rewrite Hold in Hnd. cbn [fmap list_fmap] in Hnd. apply NoDup_cons in Hnd as [Hn Hnd].
  split; cbn [p' pt_size pt_table pt_used]; [apply Hp | by rewrite length_insert, (po_len _ Hp) | | |].
  - intros i b x Hi Hx. apply list_lookup_insert_Some in Hi as [(<- & <- & _)|[_ Hi]]; [|by eapply (po_hash _ Hp)].
    rewrite !elem_of_app in Hx. destruct Hx as [Hx|[Hx|Hx]]; [|by rewrite (Hl x Hx)|]; (eapply (po_hash _ Hp); [exact Hb|]; set_solver).
  - rewrite Hnew, fmap_app. destruct l as [|x [|y l]]; [done| |cbn in Hlen; lia]. cbn [fmap list_fmap app]. apply NoDup_cons.
    split; [|done]. rewrite (Hl x) by (by left). by rewrite <- He.
  - rewrite Hnew, length_app, (po_used _ Hp), Hold. cbn [length]. lia.
Qed.

(** ** Theorem *)

(** There is memory for one more socket: for its entry, and for a larger table when half of
    the slots are taken. *)
Definition insert_room (calloc : option Z) (table_ok : bool) (p : epoll_port) : bool :=
  match calloc with
  | None => false
  | Some _ => table_ok || (2 * Z.of_nat (size (interests p)) <? pt_size p)
  end.

Lemma used_size p : port_ok p -> Z.of_nat (size (interests p)) = pt_used p.
Proof.
  intros Hp. rewrite (po_used _ Hp). unfold interests. rewrite map_size_list_to_map; [by rewrite length_fmap|].
  rewrite <- list_fmap_compose. apply (po_socks _ Hp).
Qed.

(** What [epoll_ctl] promises, on the map of interests. *)
Definition ctl_spec (room : bool) (op s ev d : Z) (m : interest) (r : option win_error) (m' : interest) : Prop :=
  if op =? EPOLL_CTL_ADD then
    match m !! s with
    | Some _ => r = Some ERROR_ALREADY_EXISTS /\ m' = m
    | None => if room then r = None /\ m' = <[s := (ev, d)]> m else r = Some ERROR_NOT_ENOUGH_MEMORY /\ m' = m
    end
  else if op =? EPOLL_CTL_MOD then
    match m !! s with Some _ => r = None /\ m' = <[s := (ev, d)]> m | None => r = Some ERROR_NOT_FOUND /\ m' = m end
  else if op =? EPOLL_CTL_DEL then
    match m !! s with Some _ => r = None /\ m' = delete s m | None => r = Some ERROR_NOT_FOUND /\ m' = m end
  else r = Some ERROR_INVALID_PARAMETER /\ m' = m.

Lemma table_cases p s : port_ok p ->
  exists b, pt_table p !! Z.to_nat (sock_hash s (pt_size p)) = Some b /\ sock_lookup p s = Some (chain_find s b) /\
    match chain_remove s b with
    | Some (e, b') => exists b1 b2, b = b1 ++ e :: b2 /\ b' = b1 ++ b2 /\ en_sock e = s /\ (s ∉ en_sock <$> b1) /\
        is_Some (chain_find s b) /\ interests p !! s = Some (en_events e, en_data e)
    | None => chain_find s b = None /\ (s ∉ en_sock <$> entries p) /\ interests p !! s = None
    end.
Proof.
  intros Hp. destruct (slot_exists p s Hp) as [b Hb]. exists b. split; [done|]. split; [unfold sock_lookup; by rewrite Hb|].
  pose proof (chain_remove_split s b) as Hr. pose proof (chain_find_spec s b) as Hf. destruct (chain_remove s b) as [[e b']|].
  - destruct Hr as (b1 & b2 & -> & -> & He). exists b1, b2. split; [done|]. split; [done|]. split; [done|].
    destruct (chain_spliced p s b1 e b2 [] Hp He Hb) as (rest & Hold & _); [set_solver | cbn; lia|].
    destruct (interests_perm p e rest Hp Hold) as [Hi Hn]. split; [|split].
    + intros Hin. apply Hn. rewrite He. pose proof (po_socks _ Hp) as Hnd.
      assert (Hd : entries p ≡ₚ e :: concat (<[Z.to_nat (sock_hash s (pt_size p)) := b1 ++ b2]> (pt_table p))) by (by apply concat_split).
      rewrite Hd in Hold. apply Permutation_cons_inv in Hold. rewrite <- Hold. apply list_elem_of_fmap in Hin as (x & -> & Hx).
      apply list_elem_of_fmap. exists x. split; [done|]. apply list_elem_of_In, in_concat. exists (b1 ++ b2). split; [|apply list_elem_of_In; set_solver].
      apply list_elem_of_In. eapply list_elem_of_lookup_2. apply list_lookup_insert_eq. by eapply lookup_lt_Some.
    + destruct (chain_find s (b1 ++ e :: b2)) eqn:Ef; [by eexists|]. destruct Hf. rewrite fmap_app. cbn [fmap list_fmap]. set_solver.
    + rewrite Hi, He. apply lookup_insert_eq.
  - assert (Hn : s ∉ en_sock <$> entries p) by (intros Hin; apply Hr; by eapply in_chain).
    split; [|split; [done | by apply interests_none]]. destruct (chain_find s b) as [e|]; [|done]. destruct Hf as [Hin <-]. destruct Hr.
    apply list_elem_of_fmap. by exists e.
Qed.

Lemma ctl_refines calloc table_ok op s ev d p :
  port_ok p -> pt_size p < 2 ^ 62 ->
  exists r p', epoll_ctl calloc table_ok op s ev d p = Some (r, p') /\ port_ok p' /\
    ctl_spec (insert_room calloc table_ok p) op s ev d (interests p) r (interests p').
Proof.
  intros Hp Hs. destruct (table_cases p s Hp) as (b & Hb & Hlk & Hc). unfold epoll_ctl, ctl_spec.
  destruct (op =? EPOLL_CTL_ADD); [|destruct (op =? EPOLL_CTL_MOD); [|destruct (op =? EPOLL_CTL_DEL); [|by eexists _, p]]].
  - rewrite Hlk. cbn [mbind option_bind]. destruct (chain_remove s b) as [[e b']|].
    + destruct Hc as (b1 & b2 & _ & _ & _ & _ & [x ->] & ->). by eexists _, p.
    + destruct Hc as (-> & Hn & Hi). rewrite Hi. destruct calloc as [a|]; [|by eexists _, p].
      destruct (sock_insert_spec table_ok (SockEntry a s ev d) p Hp Hs Hn) as (ok & p' & -> & Hp' & Er & Hok). cbn [mbind option_bind].
      unfold insert_room. rewrite (used_size p Hp), (Z.mul_comm 2), <- Er.
      destruct ok; eexists _, p'; (split; [reflexivity|]; split; [done|]); [|by rewrite Hok]. split; [done|].
      by destruct (interests_perm p' _ _ Hp' Hok) as [-> _].
  - rewrite Hlk. cbn [mbind option_bind]. destruct (chain_remove s b) as [[e b']|].
    + destruct Hc as (b1 & b2 & -> & _ & He & Hn1 & [x ->] & Hi). rewrite Hi. eexists _, _. split; [reflexivity|].
      destruct (chain_spliced p s b1 e b2 [SockEntry (en_addr e) s ev d] Hp He Hb) as (rest & Hold & Hnew & Hok).
      { intros y Hy. by apply list_elem_of_singleton in Hy as ->. } { cbn. lia. }
      assert (Ep : Port (alter (chain_update s ev d) (Z.to_nat (sock_hash s (pt_size p))) (pt_table p)) (pt_size p) (pt_used p) =
                   Port (<[Z.to_nat (sock_hash s (pt_size p)) := b1 ++ [SockEntry (en_addr e) s ev d] ++ b2]> (pt_table p)) (pt_size p)
                     (pt_used p - 1 + Z.of_nat (length [SockEntry (en_addr e) s ev d]))).
      { f_equal; [|cbn; lia]. apply list_eq. intros i. destruct (decide (i = Z.to_nat (sock_hash s (pt_size p)))) as [->|Hne].
        - rewrite list_lookup_alter_eq, Hb, list_lookup_insert_eq by (by eapply lookup_lt_Some). cbn [fmap option_fmap option_map].
          by rewrite chain_update_split.
        - by rewrite list_lookup_alter_ne, list_lookup_insert_ne. }
      rewrite Ep. split; [done|]. split; [done|].
      destruct (interests_perm _ _ _ Hok Hnew) as [-> _]. destruct (interests_perm p e rest Hp Hold) as [-> _].
      cbn [en_sock en_events en_data]. rewrite He. by rewrite insert_insert_eq.
    + destruct Hc as (-> & _ & ->). by eexists _, p.
  - unfold sock_remove. rewrite Hb. cbn [mbind option_bind]. destruct (chain_remove s b) as [[e b']|].
    + destruct Hc as (b1 & b2 & -> & -> & He & _ & _ & Hi). rewrite Hi. eexists _, _. split; [reflexivity|].
      destruct (chain_spliced p s b1 e b2 [] Hp He Hb) as (rest & Hold & Hnew & Hok); [set_solver | cbn; lia|].
      cbn [app length] in Hnew, Hok. rewrite Z.add_0_r in Hnew, Hok. split; [exact Hok|]. split; [done|].
      destruct (interests_perm p e rest Hp Hold) as [-> Hn]. rewrite He in *. rewrite delete_insert_id.
      * unfold interests. apply list_to_map_proper; [|by rewrite Hnew]. rewrite <- list_fmap_compose. apply Hok.
      * apply not_elem_of_list_to_map. by rewrite <- list_fmap_compose.
    + destruct Hc as (_ & _ & ->). by eexists _, p.
Qed.

(** C31: the socket table is a map.  In a well-formed table of less than 2^62 slots, whatever
    was registered before, [epoll_ctl] adds an absent socket exactly when the memory for its
    entry is granted and so is that of a larger table when half of the slots are taken, and
    reports lack of memory otherwise; it changes or removes a socket that is present, and
    reports a present one on ADD, an absent one on MOD and DEL, and any other operation, without
    a change.  The chains stay well-formed, so that later lookups find exactly the registered
    sockets. *)
Theorem epoll_ctl_refines calloc table_ok op s ev d p :
  port_ok p -> pt_size p < 2 ^ 62 ->
  exists r p', epoll_ctl calloc table_ok op s ev d p = Some (r, p') /\ port_ok p' /\
    ctl_spec (insert_room calloc table_ok p) op s ev d (interests p) r (interests p').
Proof. apply ctl_refines. Qed.

Lemma create_port_ok p : epoll_create1 true true true = Some p -> port_ok p /\ interests p = ∅.
Proof.
  intros E. assert (Hp : p = Port (replicate 64 []) 64 0) by (by injection E as <-). clear E.
  assert (He : entries p = []) by (rewrite Hp; apply (concat_replicate_nil 64)).
  split; [|unfold interests; by rewrite He]. split; [| | |by rewrite He; constructor|]; [by exists 6; subst | by subst | | by rewrite He; subst].
  intros i b e Hi He'. rewrite Hp in Hi. apply lookup_replicate in Hi as [-> _]. by apply elem_of_nil in He'.
Qed.

Lemma entry_at_none a l : a ∉ en_addr <$> l -> entry_at a l = None.
Proof.
  induction l as [|e l IH]; intros Hn; cbn [entry_at]; [done|]. cbn [fmap list_fmap] in Hn. apply not_elem_of_cons in Hn as [Hx Hn].
  destruct (Z.eqb_spec (en_addr e) a); [by subst | by apply IH].
Qed.

(** A completion that is still queued when its socket is removed is undefined.
    [EPOLL_CTL_DEL] frees the entry whose address is the key of the socket's completions;
    when such a completion is taken from the port afterwards, [epoll_wait] reads the freed
    entry. *)
Theorem removed_socket_undefined calloc table_ok s ev d p e ok l maxevents :
  port_ok p -> NoDup (en_addr <$> entries p) -> e ∈ entries p -> en_sock e = s -> en_addr e <> 0 -> 0 < maxevents ->
  exists p', epoll_ctl calloc table_ok EPOLL_CTL_DEL s ev d p = Some (None, p') /\
    epoll_wait (Completion ok (en_addr e) :: l) maxevents p' = None.
Proof.
  intros Hp Hnd He Hs Ha Hm. destruct (table_cases p s Hp) as (b & Hb & _ & Hc). unfold epoll_ctl. cbn [Z.eqb EPOLL_CTL_DEL EPOLL_CTL_ADD EPOLL_CTL_MOD].
  unfold sock_remove. rewrite Hb. cbn [mbind option_bind]. destruct (chain_remove s b) as [[x b']|].
  2: { destruct Hc as (_ & Hn & _). destruct Hn. apply list_elem_of_fmap. by exists e. }
  destruct Hc as (b1 & b2 & -> & -> & Hx & _). eexists. split; [reflexivity|].
  destruct (chain_spliced p s b1 x b2 [] Hp Hx Hb) as (rest & Hold & Hnew & _); [set_solver | cbn; lia|].
  cbn [app length] in Hnew. rewrite Z.add_0_r in Hnew.
  assert (e = x) as ->.
  { rewrite Hold in He. apply elem_of_cons in He as [->|He]; [done|]. destruct (interests_perm p x rest Hp Hold) as [_ []].
    rewrite Hx, <- Hs. apply list_elem_of_fmap. by exists e. }
  rewrite Hold in Hnd. cbn [fmap list_fmap] in Hnd. apply NoDup_cons in Hnd as [Hn _].
  unfold epoll_wait. destruct (Z.leb_spec maxevents 0); [lia|]. destruct (Z.to_nat maxevents) as [|n] eqn:En; [lia|].
  cbn [wait_loop co_key]. destruct (Z.eqb_spec (en_addr x) 0); [done|].
  rewrite entry_at_none; [done|]. unfold entries in Hnew. cbn [pt_table] in Hnew |- *. by rewrite Hnew.
Qed.

(** ** Two sockets *)

Definition fresh_port : epoll_port := Port (replicate 64 []) 64 0.
Definition one_port : epoll_port := match epoll_ctl (Some 4096) true EPOLL_CTL_ADD 300 1 7 fresh_port with Some (_, p) => p | None => fresh_port end.

Lemma one_port_ok : port_ok one_port.
Proof.
  destruct (create_port_ok fresh_port eq_refl) as [Hok _].
  destruct (ctl_refines (Some 4096) true EPOLL_CTL_ADD 300 1 7 fresh_port Hok ltac:(done)) as (r & p' & E & Hp & _).
  unfold one_port. by rewrite E.
Qed.

(** The second socket falls into the chain of the first. *)
Lemma epoll_ctl_witness :
  sock_hash 364 64 = sock_hash 300 64 /\
  exists p', epoll_ctl (Some 8192) false EPOLL_CTL_ADD 364 5 9 one_port = Some (None, p') /\ port_ok p' /\
    interests p' = <[364 := (5, 9)]> {[300 := (1, 7)]}.
Proof.
  split; [by vm_compute|].
  destruct (epoll_ctl_refines (Some 8192) false EPOLL_CTL_ADD 364 5 9 one_port) as (r & p' & E & Hp & Hs);
    [apply one_port_ok | by vm_compute|].
  assert (Hi : interests one_port = {[300 := (1, 7)]}) by (by vm_compute).
  unfold insert_room in Hs. rewrite Hi in Hs. destruct Hs as [-> Hm]. exists p'. by rewrite Hm.
Defined.

Lemma removed_socket_witness :
  exists p', epoll_ctl None true EPOLL_CTL_DEL 300 0 0 one_port = Some (None, p') /\
    epoll_wait [Completion true 4096] 256 p' = None.
Proof.
  apply (removed_socket_undefined None true 300 0 0 one_port (SockEntry 4096 300 1 7) true [] 256);
    [apply one_port_ok | by apply (bool_decide_unpack _); vm_compute | vm_compute; left | done | done | done].
Defined.
