(* ===== verification/Clock.v ===== *)
(** * Clocks

    The readings of time in the sources ([mono_ns] and [wall_ns] of the cache, [mono_ns] of
    the server, [mono_now_ns] of the commands) from the [struct timespec] that the system
    fills, and the [clock_gettime] that [src/compat/msvc.h] puts in its place on Windows. *)

From S2P Require Import Prelude.

Record timespec := Timespec { tv_sec : Z; tv_nsec : Z }.

(** ** Readings *)

(** [(uint64_t)ts.tv_sec * 1000000000ULL + (uint64_t)ts.tv_nsec] *)
Definition mono_ns (ts : timespec) : Z := u64 (u64 (u64 (tv_sec ts) * 1000000000) + u64 (tv_nsec ts)).

(** The same in [int64_t], where an overflow is undefined. *)
Definition signed_ns (ts : timespec) : option Z :=
  let p := tv_sec ts * 1000000000 in
  let r := p + tv_nsec ts in
  if (- 2 ^ 63 <=? p) && (p <? 2 ^ 63) && (- 2 ^ 63 <=? r) && (r <? 2 ^ 63) then Some r else None.

Definition wall_ns (ts : timespec) : option Z := signed_ns ts.
Definition server_mono_ns (ts : timespec) : option Z := signed_ns ts.
Definition mono_now_ns (ts : timespec) : option Z := signed_ns ts.

(** ** Windows *)

Definition CLOCK_REALTIME : Z := 0.
Definition CLOCK_MONOTONIC : Z := 1.

(** 1601 to 1970 in units of 100 ns. *)
Definition EPOCH_DIFF : Z := 116444736000000000.

(** What [QueryPerformanceFrequency], [QueryPerformanceCounter] and
    [GetSystemTimeAsFileTime] store. *)
Record win_clock := WinClock { wc_freq : Z; wc_count : Z; wc_high : Z; wc_low : Z }.

(** [long] has 32 bits.  A division by zero and an overflow of [LONGLONG] are undefined. *)
Definition clock_gettime (clk : Z) (c : win_clock) : option timespec :=
  if clk =? CLOCK_MONOTONIC then
    if wc_freq c =? 0 then None else
    let scaled := Z.rem (wc_count c) (wc_freq c) * 1000000000 in
    if (- 2 ^ 63 <=? scaled) && (scaled <? 2 ^ 63)
    then Some (Timespec (Z.quot (wc_count c) (wc_freq c)) (s32 (Z.quot scaled (wc_freq c))))
    else None
  else
    let t := u64 (Z.lor (u64 (Z.shiftl (wc_high c) 32)) (wc_low c) - EPOCH_DIFF) in
    Some (Timespec (t / 10000000) (s32 (t mod 10000000 * 100))).

(** A counter that runs, at a frequency of at most 9 GHz. *)
Definition good_counter (c : win_clock) : Prop := 0 < wc_freq c <= 9000000000 /\ 0 <= wc_count c < 2 ^ 63.

Lemma s32_id z : - 2 ^ 31 <= z < 2 ^ 31 -> s32 z = z.
Proof. intros H. unfold s32. rewrite Z.mod_small; lia. Qed.

Lemma monotonic_exact c : good_counter c ->
  exists ts, clock_gettime CLOCK_MONOTONIC c = Some ts /\ 0 <= tv_nsec ts < 1000000000 /\ 0 <= tv_sec ts /\
    tv_sec ts * 1000000000 + tv_nsec ts = wc_count c * 1000000000 / wc_freq c.
Proof.
  intros [Hf Hc]. unfold clock_gettime. change (CLOCK_MONOTONIC =? CLOCK_MONOTONIC) with true. cbv iota.
  rewrite (proj2 (Z.eqb_neq _ 0)) by lia. cbv zeta. set (f := wc_freq c) in *. set (n := wc_count c) in *.
  rewrite Z.rem_mod_nonneg by lia. pose proof (Z.mod_pos_bound n f) as Hr. pose proof (Z.div_mod n f).
  rewrite !Z.quot_div_nonneg by lia.
  rewrite (proj2 (Z.leb_le _ _)), (proj2 (Z.ltb_lt _ _)) by lia. cbn [andb].
  set (q := n mod f * 1000000000 / f).
  assert (Hq : 0 <= q < 1000000000).
  { unfold q. split; [apply Z.div_pos; lia | apply Z.div_lt_upper_bound; lia]. }
  eexists. split; [done|]. cbn [tv_nsec tv_sec]. rewrite s32_id by lia. split; [done|]. split; [apply Z.div_pos; lia|].
  unfold q. rewrite <- Z.div_add_l by lia. f_equal. lia.
Qed.

Lemma mono_ns_exact ts : 0 <= tv_sec ts -> 0 <= tv_nsec ts < 1000000000 -> tv_sec ts * 1000000000 + tv_nsec ts < 2 ^ 64 ->
  mono_ns ts = tv_sec ts * 1000000000 + tv_nsec ts.
Proof. intros Hs Hn Hm. unfold mono_ns. rewrite (u64_id (tv_sec ts)), (u64_id (tv_nsec ts)), (u64_id (_ * _)), u64_id by lia. done. Qed.

(** Time on Windows.  For a performance counter of at most 9 GHz the emulated
    [clock_gettime] gives nanoseconds below one second, [mono_ns] of it is the count scaled to
    nanoseconds and rounded down, and later counts give times that are not earlier: entries
    do not expire early or come back. *)
Theorem windows_clock_monotone c1 c2 :
  good_counter c1 -> good_counter c2 -> wc_freq c2 = wc_freq c1 -> wc_count c1 <= wc_count c2 ->
  wc_count c2 * 1000000000 / wc_freq c2 < 2 ^ 64 ->
  exists ts1 ts2, clock_gettime CLOCK_MONOTONIC c1 = Some ts1 /\ clock_gettime CLOCK_MONOTONIC c2 = Some ts2 /\
    0 <= tv_nsec ts2 < 1000000000 /\ mono_ns ts2 = wc_count c2 * 1000000000 / wc_freq c2 /\ mono_ns ts1 <= mono_ns ts2.
Proof.
  intros H1 H2 Hf Hle Hm. destruct (monotonic_exact c1 H1) as (ts1 & E1 & N1 & S1 & T1).
  destruct (monotonic_exact c2 H2) as (ts2 & E2 & N2 & S2 & T2). exists ts1, ts2. split; [done|]. split; [done|]. split; [done|].
  assert (Hmono : wc_count c1 * 1000000000 / wc_freq c1 <= wc_count c2 * 1000000000 / wc_freq c2).
  { rewrite Hf. destruct H1 as [? _]. apply Z.div_le_mono; lia. }
  rewrite !mono_ns_exact by (done || lia). lia.
Qed.

Lemma windows_clock_witness : exists ts1 ts2,
  clock_gettime CLOCK_MONOTONIC (WinClock 10000000 123456789 0 0) = Some ts1 /\
  clock_gettime CLOCK_MONOTONIC (WinClock 10000000 123456790 0 0) = Some ts2 /\
  0 <= tv_nsec ts2 < 1000000000 /\ mono_ns ts2 = 12345679000 /\ mono_ns ts1 <= mono_ns ts2.
Proof.
  apply (windows_clock_monotone (WinClock 10000000 123456789 0 0) (WinClock 10000000 123456790 0 0));
    try (split; cbn; lia); cbn; try lia; reflexivity.
Defined.

(** The wall clock: the file time less the epoch, in units of 100 ns, from 1970 on. *)
Lemma realtime_exact c : 0 <= wc_low c < 2 ^ 32 -> 0 <= wc_high c < 2 ^ 32 -> EPOCH_DIFF <= wc_high c * 2 ^ 32 + wc_low c ->
  exists ts, clock_gettime CLOCK_REALTIME c = Some ts /\ 0 <= tv_nsec ts < 1000000000 /\
    tv_sec ts * 1000000000 + tv_nsec ts = (wc_high c * 2 ^ 32 + wc_low c - EPOCH_DIFF) * 100.
Proof.
  intros Hl Hh He. unfold clock_gettime. change (CLOCK_REALTIME =? CLOCK_MONOTONIC) with false. cbv iota zeta.
  assert (E : Z.lor (u64 (Z.shiftl (wc_high c) 32)) (wc_low c) = wc_high c * 2 ^ 32 + wc_low c).
  { rewrite Z.shiftl_mul_pow2 by lia. rewrite u64_id by lia. rewrite <- Z.shiftl_mul_pow2 by lia.
    rewrite <- Z.lxor_lor, <- Z.add_nocarry_lxor; [done | |].
    all: apply Z.bits_inj'; intros i Hi; rewrite Z.land_spec, Z.bits_0; destruct (Z.lt_ge_cases i 32).
    1, 3: by rewrite Z.shiftl_spec_low.
    all: apply andb_false_intro2; destruct (Z.eq_dec (wc_low c) 0) as [->|]; [apply Z.bits_0|];
      apply Z.bits_above_log2; [lia|]; apply Z.log2_lt_pow2; [lia|]; pose proof (Z.pow_le_mono_r 2 32 i); lia. }
  rewrite E. set (t := _ - EPOCH_DIFF). unfold EPOCH_DIFF in *. assert (Ht : 0 <= t < 2 ^ 64) by (unfold t; lia).
  rewrite (u64_id t Ht). pose proof (Z.mod_pos_bound t 10000000). pose proof (Z.div_mod t 10000000).
  eexists. split; [done|]. cbn [tv_sec tv_nsec]. rewrite s32_id by lia. lia.
Qed.
