(* ===== verification/WinThread.v ===== *)
(** * Threads and locks on Windows

    [src/compat/pthread_win32.h]: [pthread_rwlock_t] over an [SRWLOCK] and a flag, as steps of
    interleaved threads; [pthread_create], its trampoline and [pthread_join] with the block
    that carries the start routine; [pthread_mutex_t] over a [CRITICAL_SECTION];
    [pthread_once].  The objects of the system are modelled by their documented behaviour. *)

From S2P Require Import Prelude Slab ProtoMem.

(** ** Read-write locks *)

Module RwLock.

(** The [SRWLOCK] is held by one thread exclusively or by any number of threads shared;
    [excl] is the field [exclusive], the only word of the lock the code reads. *)
Record rwlock := RwLock { writer : option nat; readers : gset nat; excl : Z }.

(** [pthread_rwlock_init] *)
Definition rwlock_init : rwlock := RwLock None ∅ 0.

Inductive mode := Shared | Exclusive.

#[export] Instance mode_eq_dec : EqDecision mode.
Proof. solve_decision. Defined.

(** Where a thread is.  The [mode] after a lock call is the one the thread asked for; no
    condition of [pthread_rwlock_unlock] uses it. *)
Inductive rw_pc : Type :=
| Idle
| Acquire (k : mode)         (* before [AcquireSRWLockShared] or [AcquireSRWLockExclusive] *)
| Mark (k : mode)            (* before [rw->exclusive = ...] *)
| Held (k : mode)
| Test (k : mode)            (* in [pthread_rwlock_unlock], before it reads the flag *)
| Clear (k : mode)           (* before [rw->exclusive = 0] *)
| RelExclusive (k : mode)    (* before [ReleaseSRWLockExclusive] *)
| RelShared (k : mode)       (* before [ReleaseSRWLockShared] *)
| Broken.                    (* after a release in a mode in which the thread does not hold the lock *)

#[export] Instance pc_eq_dec : EqDecision rw_pc.
Proof. solve_decision. Defined.

(** [AcquireSRWLockShared], [AcquireSRWLockExclusive]: whether thread [i] gets the lock now. *)
Definition srw_acquire (k : mode) (i : nat) (m : rwlock) : option rwlock :=
  match k, writer m with
  | _, Some _ => None
  | Shared, None => Some (RwLock None ({[i]} ∪ readers m) (excl m))
  | Exclusive, None => if decide (readers m = ∅) then Some (RwLock (Some i) ∅ (excl m)) else None
  end.

(** [ReleaseSRWLockShared], [ReleaseSRWLockExclusive] *)
Definition srw_release (k : mode) (i : nat) (m : rwlock) : option rwlock :=
  match k with
  | Shared => if decide (i ∈ readers m) then Some (RwLock (writer m) (readers m ∖ {[i]}) (excl m)) else None
  | Exclusive => if decide (writer m = Some i) then Some (RwLock None (readers m) (excl m)) else None
  end.

Definition set_excl (v : Z) (m : rwlock) : rwlock := RwLock (writer m) (readers m) v.

Definition mark_value (k : mode) : Z := match k with Shared => 0 | Exclusive => 1 end.

Definition released (k : mode) (i : nat) (m : rwlock) : rwlock * rw_pc :=
  match srw_release k i m with Some m => (m, Idle) | None => (m, Broken) end.

(** The next step inside a call; [None] outside of calls, and while an acquire waits. *)
Definition advance (i : nat) (m : rwlock) (p : rw_pc) : option (rwlock * rw_pc) :=
  match p with
  | Acquire k => (fun m => (m, Mark k)) <$> srw_acquire k i m
  | Mark k => Some (set_excl (mark_value k) m, Held k)
  | Test k => Some (m, if excl m =? 0 then RelShared k else Clear k)
  | Clear k => Some (set_excl 0 m, RelExclusive k)
  | RelExclusive _ => Some (released Exclusive i m)
  | RelShared _ => Some (released Shared i m)
  | Idle | Held _ | Broken => None
  end.

Inductive rw_step (i : nat) : rwlock -> rw_pc -> rwlock -> rw_pc -> Prop :=
| st_rdlock m : rw_step i m Idle m (Acquire Shared)
| st_wrlock m : rw_step i m Idle m (Acquire Exclusive)
| st_unlock m k : rw_step i m (Held k) m (Test k)
| st_inside m p m' p' : advance i m p = Some (m', p') -> rw_step i m p m' p'.

Definition rw_config : Type := rwlock * list rw_pc.

Inductive rw_run1 : rw_config -> rw_config -> Prop :=
| run_step m ts i p m' p' : ts !! i = Some p -> rw_step i m p m' p' -> rw_run1 (m, ts) (m', <[i := p']> ts).

Definition rw_start (n : nat) : rw_config := (rwlock_init, replicate n Idle).

Definition reachable (n : nat) (c : rw_config) : Prop := rtc rw_run1 (rw_start n) c.

(** *** The invariant *)

(** The thread holds the lock in mode [k]. *)
Definition rw_holds (k : mode) (p : rw_pc) : bool :=
  match p with
  | Mark k' | Held k' | Test k' | Clear k' | RelExclusive k' | RelShared k' => bool_decide (k = k')
  | _ => false
  end.

(** The flag is the thread's, and set. *)
Definition marked (p : rw_pc) : bool :=
  match p with Held Exclusive | Test Exclusive | Clear Exclusive => true | _ => false end.

Definition legal (p : rw_pc) : bool :=
  match p with Broken | Clear Shared | RelExclusive Shared | RelShared Exclusive => false | _ => true end.

Record rw_good (c : rw_config) : Prop := {
  g_legal : forall i p, c.2 !! i = Some p -> legal p = true;
  g_excl : forall i p, c.2 !! i = Some p -> rw_holds Exclusive p = true <-> writer c.1 = Some i;
  g_shared : forall i p, c.2 !! i = Some p -> rw_holds Shared p = true <-> i ∈ readers c.1;
  g_apart : forall i, writer c.1 = Some i -> readers c.1 = ∅;
  g_in : forall i, writer c.1 = Some i \/ i ∈ readers c.1 -> is_Some (c.2 !! i);
  g_set : forall i p, c.2 !! i = Some p -> marked p = true -> excl c.1 = 1;
  g_clear : excl c.1 <> 0 -> exists i p, c.2 !! i = Some p /\ marked p = true;
}.

Lemma rw_start_good n : rw_good (rw_start n).
Proof.
  assert (Hi : forall i p, replicate n Idle !! i = Some p -> p = Idle) by (intros i p E; by apply lookup_replicate in E as [-> _]).
  split; cbn; intros; try done; try (apply Hi in H as ->; cbn; set_solver); set_solver.
Qed.

Lemma insert_cases {A} (ts : list A) i p' j q : <[i := p']> ts !! j = Some q ->
  (j = i /\ q = p') \/ (j <> i /\ ts !! j = Some q).
Proof. intros [(-> & -> & _) | [? ?]]%list_lookup_insert_Some; [left | right]; done. Qed.

(** A step that leaves the holders alone. *)
Lemma good_keep m ts i p m' p' : rw_good (m, ts) -> ts !! i = Some p ->
  writer m' = writer m -> readers m' = readers m ->
  legal p' = true -> (forall k, rw_holds k p' = rw_holds k p) ->
  (excl m' = excl m /\ marked p' = marked p \/ excl m' = mark_value (if marked p' then Exclusive else Shared) /\
    (writer m = Some i \/ i ∈ readers m /\ marked p' = false)) ->
  rw_good (m', <[i := p']> ts).
Proof.
  intros [Hl Hx Hs Ha Hin Hm Hc] Hi Hw Hr Hlp Hh Hf. cbn in *.
  assert (Hlen := lookup_lt_Some _ _ _ Hi).
  split; cbn [fst snd]; rewrite ?Hw, ?Hr; auto.
  - intros j q [[-> ->]|[Hj Hq]]%insert_cases; eauto.
  - intros j q [[-> ->]|[Hj Hq]]%insert_cases; rewrite ?Hh; eauto.
  - intros j q [[-> ->]|[Hj Hq]]%insert_cases; rewrite ?Hh; eauto.
  - intros j Hj. destruct (decide (i = j)) as [<-|Hn]; [rewrite list_lookup_insert_eq by done; eauto|].
    rewrite list_lookup_insert_ne by done. auto.
  - intros j q [[-> ->]|[Hj Hq]]%insert_cases Hmq.
    + destruct Hf as [[-> Hf]|[-> _]]; [rewrite Hf in Hmq; eauto|]. by rewrite Hmq.
    + destruct Hf as [[-> _]|[_ Hf]]; [eauto|]. exfalso.
      assert (rw_holds Exclusive q = true) as Hq2 by (destruct q as [| | |[]|[]|[]|[]|[]|]; done).
      apply (Hx j q Hq) in Hq2. destruct Hf as [Hf|[Hf _]]; [congruence|]. apply Ha in Hq2. set_solver.
  - intros Hne. destruct Hf as [[He Hf]|[He Hf]].
    + rewrite He in Hne. apply Hc in Hne as (j & q & Hq & Hmq). destruct (decide (i = j)) as [<-|Hn].
      * exists i, p'. rewrite list_lookup_insert_eq by done. split; [done|]. congruence.
      * exists j, q. by rewrite list_lookup_insert_ne.
    + destruct (marked p') eqn:Hmp; [|rewrite He in Hne; done]. exists i, p'. by rewrite list_lookup_insert_eq.
Qed.

(** A step that changes the holders and not the flag. *)
Lemma good_change m ts i p m' p' : rw_good (m, ts) -> ts !! i = Some p ->
  excl m' = excl m -> marked p = false -> marked p' = false -> legal p' = true ->
  (rw_holds Exclusive p' = true <-> writer m' = Some i) ->
  (rw_holds Shared p' = true <-> i ∈ readers m') ->
  (forall j, j <> i -> writer m' = Some j <-> writer m = Some j) ->
  (forall j, j <> i -> j ∈ readers m' <-> j ∈ readers m) ->
  (forall j, writer m' = Some j -> readers m' = ∅) ->
  rw_good (m', <[i := p']> ts).
Proof.
  intros [Hl Hx Hs Ha Hin Hm Hc] Hi He Hmp Hmp' Hlp Hxi Hsi Hxj Hsj Ha'. cbn in *.
  assert (Hlen := lookup_lt_Some _ _ _ Hi).
  split; cbn [fst snd]; rewrite ?He; auto.
  - intros j q [[-> ->]|[Hj Hq]]%insert_cases; eauto.
  - intros j q [[-> ->]|[Hj Hq]]%insert_cases; [done|]. rewrite Hxj by done. eauto.
  - intros j q [[-> ->]|[Hj Hq]]%insert_cases; [done|]. rewrite Hsj by done. eauto.
  - intros j Hj. destruct (decide (i = j)) as [<-|Hn]; [rewrite list_lookup_insert_eq by done; eauto|].
    rewrite list_lookup_insert_ne by done. rewrite Hxj, Hsj in Hj by done. auto.
  - intros j q [[-> ->]|[Hj Hq]]%insert_cases Hmq; [congruence|]. eauto.
  - intros Hne. apply Hc in Hne as (j & q & Hq & Hmq). exists j, q. split; [|done].
    rewrite list_lookup_insert_ne; [done|]. intros <-. congruence.
Qed.

Lemma acquire_good m ts i k m' : rw_good (m, ts) -> ts !! i = Some (Acquire k) -> srw_acquire k i m = Some m' ->
  rw_good (m', <[i := Mark k]> ts).
Proof.
  intros Hg Hi Hq. assert (Hw : writer m = None) by (destruct k; unfold srw_acquire in Hq; by destruct (writer m)).
  unfold srw_acquire in Hq. rewrite Hw in Hq.
  destruct k; [|destruct (decide _) as [Hr|]; [|done]]; injection Hq as <-; (eapply good_change; [done|done|..]); cbn; rewrite ?Hw; set_solver.
Qed.

Lemma release_good m ts i k p m' : rw_good (m, ts) -> ts !! i = Some p -> rw_holds k p = true -> marked p = false ->
  srw_release k i m = Some m' -> rw_good (m', <[i := Idle]> ts).
Proof.
  intros Hg Hi Hh Hmp Hq. pose proof (g_excl _ Hg _ _ Hi) as Hx. pose proof (g_shared _ Hg _ _ Hi) as Hs. cbn in Hx, Hs.
  pose proof (g_apart _ Hg) as Ha. cbn in Ha.
  unfold srw_release in Hq. destruct k; destruct (decide _) as [Hd|] in Hq; try done; injection Hq as <-;
    (eapply good_change; [done|done|..]); cbn; try done; try set_solver.
  all: split; [done|]. all: intros Hw. all: first [congruence | apply Ha in Hw; set_solver].
Qed.

(** The flag tells the mode of every thread that asks. *)
Lemma excl_mode m ts i k : rw_good (m, ts) -> ts !! i = Some (Test k) -> excl m = mark_value k.
Proof.
  intros Hg Hi. destruct k; [|by apply (g_set _ Hg _ _ Hi)].
  destruct (decide (excl m = 0)) as [He|He]; [done|]. exfalso.
  destruct (g_clear _ Hg He) as (j & q & Hq & Hmq). cbn in Hq.
  assert (rw_holds Exclusive q = true) as Hq2 by (destruct q as [| | |[]|[]|[]|[]|[]|]; done).
  apply (g_excl _ Hg _ _ Hq), (g_apart _ Hg) in Hq2. cbn in Hq2.
  pose proof (proj1 (g_shared _ Hg _ _ Hi) eq_refl) as Hs. cbn in Hs. rewrite Hq2 in Hs. set_solver.
Qed.

Lemma released_good m ts i k p m' p' : rw_good (m, ts) -> ts !! i = Some p -> rw_holds k p = true -> marked p = false ->
  released k i m = (m', p') -> rw_good (m', <[i := p']> ts).
Proof.
  intros Hg Hi Hh Hmp. unfold released. destruct (srw_release k i m) as [m1|] eqn:Er.
  - intros [= <- <-]. by eapply release_good.
  - exfalso. unfold srw_release in Er. destruct k; destruct (decide _) as [|Hd] in Er; try done; apply Hd.
    + by apply (g_shared _ Hg _ _ Hi).
    + by apply (g_excl _ Hg _ _ Hi).
Qed.

Lemma rw_step_good m ts i p m' p' : rw_good (m, ts) -> ts !! i = Some p -> rw_step i m p m' p' -> rw_good (m', <[i := p']> ts).
Proof.
  intros Hg Hi Hs. pose proof (g_legal _ Hg _ _ Hi) as Hl. cbn in Hl.
  pose proof (g_excl _ Hg _ _ Hi) as Hx. pose proof (g_shared _ Hg _ _ Hi) as Hsh. cbn in Hx, Hsh.
  destruct Hs as [m|m|m k|m p m' p' Hs];
    [by (eapply good_keep; eauto; cbn; left) | by (eapply good_keep; eauto; cbn; left)
    | by (eapply good_keep; eauto; cbn; left; destruct k) |].
  destruct p as [|k|k|k|k|k|k|k|]; cbn in Hs; try done.
  - destruct (srw_acquire k i m) as [m1|] eqn:Ea; [|done]. injection Hs as <- <-. by apply (acquire_good m).
  - injection Hs as <- <-. eapply good_keep; eauto; destruct k; cbn; try done; right; (split; [done|]).
    + right. split; [|done]. by apply Hsh.
    + left. by apply Hx.
  - rewrite (excl_mode _ _ _ _ Hg Hi) in Hs. destruct k; injection Hs as <- <-; by (eapply good_keep; eauto; cbn; left).
  - injection Hs as <- <-. destruct k; [done|]. eapply good_keep; eauto; cbn; try done. right. split; [done|]. left. by apply Hx.
  - injection Hs as Hs. destruct k; [done|]. eapply released_good; [done|done|..|exact Hs]; done.
  - injection Hs as Hs. destruct k; [|done]. eapply released_good; [done|done|..|exact Hs]; done.
Qed.

Lemma reachable_good n c : reachable n c -> rw_good c.
Proof.
  intros H. unfold reachable in H. pose proof (rw_start_good n) as Hg. induction H as [|c1 c2 c3 Hr _ IH]; [done|].
  apply IH. destruct Hr. by eapply rw_step_good.
Qed.

Lemma reachable_length n c : reachable n c -> length c.2 = n.
Proof.
  intros H. unfold reachable in H. apply (rtc_ind_r (fun c => length c.2 = n) (rw_start n)) in H; [done|apply length_replicate|].
  intros ? ? _ [] IH. cbn in *. by rewrite length_insert.
Qed.

(** A thread that waits has another thread to wait for, and that thread can go on. *)
Lemma waits_for m ts i p : rw_good (m, ts) -> ts !! i = Some p -> p <> Idle ->
  exists j q m' q', ts !! j = Some q /\ q <> Idle /\ rw_step j m q m' q'.
Proof.
  intros Hg Hi Hne.
  assert (Hgo : forall j q, ts !! j = Some q -> (exists k, rw_holds k q = true) -> exists m' q', q <> Idle /\ rw_step j m q m' q').
  { intros j q Hq [k Hk]. pose proof (g_legal _ Hg _ _ Hq). destruct q; try done; cbn in *.
    all: try (eexists _, _; split; [done|]; apply st_inside; reflexivity).
    - eexists _, _. split; [done|]. constructor.
    - destruct (released Exclusive j m) eqn:E. eexists _, _. split; [done|]. apply st_inside. cbn. by rewrite E.
    - destruct (released Shared j m) eqn:E. eexists _, _. split; [done|]. apply st_inside. cbn. by rewrite E. }
  destruct (writer m) as [j|] eqn:Hw.
  { destruct (g_in _ Hg j (or_introl Hw)) as [q Hq]. destruct (Hgo j q Hq) as (m' & q' & ? & ?); [|by eauto 7].
    exists Exclusive. by apply (g_excl _ Hg _ _ Hq). }
  destruct (set_choose_or_empty (readers m)) as [[j Hj]|He].
  { destruct (g_in _ Hg j (or_intror Hj)) as [q Hq]. destruct (Hgo j q Hq) as (m' & q' & ? & ?); [|by eauto 7].
    exists Shared. by apply (g_shared _ Hg _ _ Hq). }
  exists i, p. destruct p as [|k|k|k|k|k|k|k|]; try done.
  2-7: destruct (Hgo i _ Hi) as (m' & q' & ? & ?); [exists k; cbn; by rewrite bool_decide_true|by eauto 7].
  - assert (exists m', srw_acquire k i m = Some m') as [m' Ha].
    { unfold srw_acquire. rewrite Hw. destruct k; [eauto|]. rewrite decide_True by set_solver. eauto. }
    exists m', (Mark k). split; [done|]. split; [done|]. apply st_inside. cbn. by rewrite Ha.
  - by pose proof (g_legal _ Hg _ _ Hi).
Qed.

(** C30: the read-write lock of the Windows port.  However the calls of any number of
    threads interleave, no [pthread_rwlock_unlock] releases the [SRWLOCK] in a mode in which its
    thread does not hold it, although it only looks at the shared flag; a thread that holds
    the lock exclusively excludes every other holder; and as long as some thread is inside the
    lock's use, some such thread can take a step. *)
Theorem rwlock_unlocks_its_mode n m ts :
  reachable n (m, ts) ->
  (Broken ∉ ts) /\
  (forall i j p q k, ts !! i = Some p -> ts !! j = Some q -> rw_holds Exclusive p = true -> rw_holds k q = true -> i = j) /\
  ((exists p, p ∈ ts /\ p <> Idle) -> exists j q m' q', ts !! j = Some q /\ q <> Idle /\ rw_step j m q m' q').
Proof.
  intros Hr. apply reachable_good in Hr as Hg. split; [|split].
  - intros Hb. apply list_elem_of_lookup in Hb as [i Hi]. by apply (g_legal _ Hg) in Hi.
  - intros i j p q k Hi Hj Hp Hq. apply (g_excl _ Hg _ _ Hi) in Hp. cbn in Hp. destruct k.
    + apply (g_shared _ Hg _ _ Hj) in Hq. cbn in Hq. apply (g_apart _ Hg) in Hp. cbn in Hp. set_solver.
    + apply (g_excl _ Hg _ _ Hj) in Hq. cbn in Hq. congruence.
  - intros (p & Hp & Hne). apply list_elem_of_lookup in Hp as [i Hi]. by eapply waits_for.
Qed.

(** A schedule names the thread of each step, and the lock an idle thread asks for. *)
Definition next (i : nat) (k : mode) (m : rwlock) (p : rw_pc) : option (rwlock * rw_pc) :=
  match p with Idle => Some (m, Acquire k) | Held k' => Some (m, Test k') | _ => advance i m p end.

Fixpoint schedule (l : list (nat * mode)) (c : rw_config) : option rw_config :=
  match l with
  | [] => Some c
  | (i, k) :: l => p ← c.2 !! i; '(m, p) ← next i k c.1 p; schedule l (m, <[i := p]> c.2)
  end.

Lemma schedule_runs l c c' : schedule l c = Some c' -> rtc rw_run1 c c'.
Proof.
  revert c. induction l as [|[i k] l IH]; intros [m ts] H; cbn in H; [injection H as <-; constructor|].
  destruct (ts !! i) as [p|] eqn:Hi; [|done]. cbn in H. destruct (next i k m p) as [[m' p']|] eqn:Hn; [|done]. cbn in H.
  eapply rtc_l; [|exact (IH _ H)]. eapply run_step; [exact Hi|].
  destruct p; cbn in Hn; try (by apply st_inside); injection Hn as <- <-; [destruct k|]; constructor.
Qed.

(** Two readers inside, one of them about to release, and a writer that waits. *)
Lemma rwlock_witness : exists m ts, reachable 3 (m, ts) /\ ts = [Held Shared; Test Shared; Acquire Exclusive] /\
  (Broken ∉ ts) /\ exists j q m' q', ts !! j = Some q /\ q <> Idle /\ rw_step j m q m' q'.
Proof.
  assert (H : reachable 3 (RwLock None {[0%nat; 1%nat]} 0, [Held Shared; Test Shared; Acquire Exclusive])).
  { apply (schedule_runs [(0, Shared); (0, Shared); (0, Shared); (1, Shared); (1, Shared); (1, Shared); (1, Shared); (2, Exclusive)]%nat).
    vm_compute. reflexivity. }
  eexists _, _. split; [exact H|]. split; [reflexivity|].
  pose proof (rwlock_unlocks_its_mode 3 _ _ H) as (Hb & _ & Hgo). split; [exact Hb|]. apply Hgo.
  exists (Held Shared). split; [left|discriminate].
Defined.

End RwLock.

(** ** Threads *)

Module Thread.

(** A start routine and its argument, as words. *)
Record thread_ctx := Ctx { start_routine : Z; arg : Z }.

Definition CTX_SIZE : Z := 16.

Definition ENOMEM : Z := 12.
Definition EAGAIN : Z := 11.

(** A thread behind a handle: created and not yet in the trampoline, in its routine, over. *)
Inductive tstate := Created (ctx : Z) | Running | Exited.

(** [o_made] and [o_ran] are the histories of the accepted calls of [pthread_create] and of
    the routines entered. *)
Record wos := Os {
  o_heap : heap;
  o_ctx : gmap Z thread_ctx;
  o_threads : gmap Z tstate;
  o_made : list thread_ctx;
  o_ran : list thread_ctx
}.

Definition with_heap (h : heap) (o : wos) : wos := Os h (o_ctx o) (o_threads o) (o_made o) (o_ran o).

(** [block] is the answer of [malloc], [handle] that of [_beginthreadex].  The result is the
    return value with what is stored in [*t]. *)
Definition pthread_create (block handle : option Z) (fn a : Z) (o : wos) : option (Z * option Z * wos) :=
  match malloc block CTX_SIZE (o_heap o) with
  | (None, h) => Some (ENOMEM, None, with_heap h o)
  | (Some ctx, h) =>
      let o := Os h (<[ctx := Ctx fn a]> (o_ctx o)) (o_threads o) (o_made o) (o_ran o) in
      match handle with
      | None => h ← cfree ctx (o_heap o); Some (EAGAIN, None, with_heap h o)
      | Some t => Some (0, Some t, Os (o_heap o) (o_ctx o) (<[t := Created ctx]> (o_threads o)) (o_made o ++ [Ctx fn a]) (o_ran o))
      end
  end.

(** [_vc_thread_trampoline], up to the call of the routine.  Reading a block that is not
    live is undefined. *)
Definition vc_thread_trampoline (t : Z) (o : wos) : option wos :=
  match o_threads o !! t with
  | Some (Created ctx) =>
      _ ← h_mallocs (o_heap o) !! ctx;
      c ← o_ctx o !! ctx;
      h ← cfree ctx (o_heap o);
      Some (Os h (o_ctx o) (<[t := Running]> (o_threads o)) (o_made o) (o_ran o ++ [c]))
  | _ => None
  end.

(** The routine returns. *)
Definition thread_exit (t : Z) (o : wos) : option wos :=
  match o_threads o !! t with
  | Some Running => Some (Os (o_heap o) (o_ctx o) (<[t := Exited]> (o_threads o)) (o_made o) (o_ran o))
  | _ => None
  end.

(** [pthread_join] returns when the thread is over, and closes its handle. *)
Definition pthread_join (t : Z) (o : wos) : option (Z * wos) :=
  match o_threads o !! t with
  | Some Exited => Some (0, Os (o_heap o) (o_ctx o) (delete t (o_threads o)) (o_made o) (o_ran o))
  | _ => None
  end.

Inductive tstep : wos -> wos -> Prop :=
| ts_create o block handle fn a r t o' :
    (forall b, block = Some b -> fresh_addr b (o_heap o)) ->
    (forall t, handle = Some t -> o_threads o !! t = None) ->
    pthread_create block handle fn a o = Some (r, t, o') -> tstep o o'
| ts_start t o o' : vc_thread_trampoline t o = Some o' -> tstep o o'
| ts_exit t o o' : thread_exit t o = Some o' -> tstep o o'
| ts_join t o r o' : pthread_join t o = Some (r, o') -> tstep o o'.

(** The blocks beside [m] are those of the threads that have not started, one each. *)
Record accounted (m : gmap Z Z) (o : wos) : Prop := {
  a_block : forall a n, h_mallocs (o_heap o) !! a = Some n ->
    m !! a = Some n \/ m !! a = None /\ exists t, o_threads o !! t = Some (Created a);
  a_kept : m ⊆ h_mallocs (o_heap o);
  a_ctx : forall t a, o_threads o !! t = Some (Created a) ->
    a <> 0 /\ m !! a = None /\ is_Some (h_mallocs (o_heap o) !! a) /\ is_Some (o_ctx o !! a);
  a_one : forall t t' a, o_threads o !! t = Some (Created a) -> o_threads o !! t' = Some (Created a) -> t = t';
  a_runs : exists P : gmap Z thread_ctx, (forall t c, P !! t = Some c <-> exists a, o_threads o !! t = Some (Created a) /\ o_ctx o !! a = Some c) /\
    o_made o ≡ₚ o_ran o ++ (map_to_list P).*2;
}.

Lemma create_accounted m o block handle fn a r t o' :
  (forall b, block = Some b -> fresh_addr b (o_heap o)) -> (forall t, handle = Some t -> o_threads o !! t = None) ->
  pthread_create block handle fn a o = Some (r, t, o') -> accounted m o -> accounted m o'.
Proof.
  intros Hb Hh. unfold pthread_create. destruct block as [b|]; cbn [malloc].
  2:{ intros [= _ _ <-]. by destruct o. }
  destruct (Hb b eq_refl) as [Hb0 Hbf]. intros E Ha. destruct Ha as [Hbk Hk Hc Ho (P & HP & Hm)].
  assert (Hmb : m !! b = None) by (eapply lookup_weaken_None; [exact Hbf|done]).
  assert (Hnb : forall t, o_threads o !! t <> Some (Created b)) by (intros t' Et; destruct (Hc _ _ Et) as (_ & _ & [n En] & _); congruence).
  assert (HPb : forall t c, P !! t = Some c <-> exists a', o_threads o !! t = Some (Created a') /\ <[b := Ctx fn a]> (o_ctx o) !! a' = Some c).
  { intros t' c. rewrite HP. split; intros (a' & Et & Ec); exists a'; (split; [done|]);
      (assert (b <> a') by (intros ->; by eapply Hnb)); [rewrite lookup_insert_ne|rewrite lookup_insert_ne in Ec]; done. }
  destruct handle as [th|]; cbn in E.
  - injection E as _ _ <-. specialize (Hh th eq_refl). split; cbn.
    + intros x n [[<- <-]|[Hx Hl]]%lookup_insert_Some; [right; split; [done|]; exists th; by rewrite lookup_insert_eq|].
      destruct (Hbk _ _ Hl) as [|[? [t' Ht']]]; [by left|right]. split; [done|]. exists t'. rewrite lookup_insert_ne; [done|congruence].
    + by apply insert_subseteq_r.
    + intros t' x [[<- [= <-]]|[Ht Hl]]%lookup_insert_Some; [rewrite !lookup_insert_eq; eauto|].
      destruct (Hc _ _ Hl) as (? & ? & ? & ?). rewrite !lookup_insert_ne; [eauto|congruence..].
    + intros t1 t2 x [[<- [= <-]]|[Ht1 H1]]%lookup_insert_Some [[<- Hx]|[Ht2 H2]]%lookup_insert_Some; try done.
      * by apply Hnb in H2. * injection Hx as ->. by apply Hnb in H1. * eauto.
    + exists (<[th := Ctx fn a]> P). split.
      * intros t' c. destruct (decide (th = t')) as [<-|Hn].
        -- rewrite !lookup_insert_eq. split; [intros [= <-]; eexists; split; [done|]; by rewrite lookup_insert_eq|].
           intros (x & [= <-] & Hx). by rewrite lookup_insert_eq in Hx.
        -- rewrite !(lookup_insert_ne _ th) by done. apply HPb.
      * rewrite map_to_list_insert.
        2:{ destruct (P !! th) as [c|] eqn:Ep; [|done]. apply HP in Ep as (x & Hx & _). congruence. }
        cbn. rewrite Hm. rewrite <- app_assoc. apply Permutation_app_head. symmetry. apply Permutation_cons_append.
  - unfold cfree in E. rewrite (proj2 (Z.eqb_neq _ _) Hb0) in E. unfold free in E. cbn in E. rewrite lookup_insert_eq in E.
    cbn in E. injection E as _ _ <-. split; cbn; rewrite ?delete_insert_eq, ?delete_id by done; eauto.
    intros t' x Ht. destruct (Hc _ _ Ht) as (? & ? & ? & ?). rewrite (lookup_insert_ne _ b); [eauto|]. intros ->. by eapply Hnb.
Qed.

(** A thread that had no block pending moves to a state without one, or goes. *)
Lemma moved_accounted m o ts' : accounted m o ->
  (forall t a, ts' !! t = Some (Created a) <-> o_threads o !! t = Some (Created a)) ->
  accounted m (Os (o_heap o) (o_ctx o) ts' (o_made o) (o_ran o)).
Proof.
  intros [Hbk Hk Hc Ho (P & HP & Hm)] Hts. split; cbn; [|done|..].
  - intros a n Hn. destruct (Hbk _ _ Hn) as [|[? [t Ht]]]; [by left|right]. split; [done|]. exists t. by apply Hts.
  - intros t a Ht. apply (Hc t). by apply Hts.
  - intros t t' a Ht Ht'. apply (Ho t t' a); by apply Hts.
  - exists P. split; [|done]. intros t c. rewrite HP. split; intros (a & Ht & Hx); exists a; (split; [by apply Hts|done]).
Qed.

Lemma start_accounted m o t : accounted m o -> forall a, o_threads o !! t = Some (Created a) ->
  exists o', vc_thread_trampoline t o = Some o' /\ accounted m o'.
Proof.
  intros [Hbk Hk Hc Ho (P & HP & Hm)] a Ht. destruct (Hc _ _ Ht) as (H0 & Hma & [n Hn] & [c Hcc]).
  unfold vc_thread_trampoline. rewrite Ht, Hn, Hcc. cbn. unfold cfree. rewrite (proj2 (Z.eqb_neq _ _) H0). unfold free. rewrite Hn. cbn.
  eexists. split; [reflexivity|]. split; cbn.
  - intros x n' [Hx Hl]%lookup_delete_Some. destruct (Hbk _ _ Hl) as [|[? [t' Ht']]]; [by left|right]. split; [done|].
    exists t'. rewrite lookup_insert_ne; [done|congruence].
  - apply map_subseteq_spec. intros x y Hx. rewrite lookup_delete_ne by congruence. by eapply lookup_weaken.
  - intros t' x [[? [=]]|[Hne Hl]]%lookup_insert_Some. destruct (Hc _ _ Hl) as (? & ? & ? & ?).
    rewrite lookup_delete_ne; [done|]. intros <-. by apply Hne, (Ho _ _ a).
  - intros t1 t2 x [[? [=]]|[Hne1 Hl1]]%lookup_insert_Some [[? [=]]|[Hne2 Hl2]]%lookup_insert_Some. eauto.
  - assert (Hp : P !! t = Some c) by (apply HP; eauto). exists (delete t P). split.
    + intros t' c'. rewrite lookup_delete_Some, HP. split.
      * intros [Hne (x & Hx & Hc')]. exists x. by rewrite lookup_insert_ne.
      * intros (x & [[? [=]]|[Hne Hl]]%lookup_insert_Some & Hc'). eauto.
    + rewrite Hm, <- (map_to_list_delete P t c Hp). cbn. rewrite <- app_assoc. reflexivity.
Qed.

Lemma step_accounted m o o' : tstep o o' -> accounted m o -> accounted m o'.
Proof.
  intros [o1 block handle fn a r t o2 Hb Hh E|t o1 o2 E|t o1 o2 E|t o1 r o2 E] Ha; [by eapply create_accounted|..].
  - assert (exists a, o_threads o1 !! t = Some (Created a)) as [a Ht].
    { unfold vc_thread_trampoline in E. destruct (o_threads o1 !! t) as [[a| |]|]; try done. eauto. }
    destruct (start_accounted _ _ _ Ha _ Ht) as (o3 & E' & Ha'). rewrite E in E'. by injection E' as ->.
  - unfold thread_exit in E. destruct (o_threads o1 !! t) as [[]|] eqn:Ht; try done. injection E as <-. apply moved_accounted; [done|].
    intros t' a. rewrite lookup_insert_Some. split; [intros [[? [=]]|[_ H]]; done|]. intros H. right. split; [congruence|done].
  - unfold pthread_join in E. destruct (o_threads o1 !! t) as [[]|] eqn:Ht; try done. injection E as _ <-. apply moved_accounted; [done|].
    intros t' a. rewrite lookup_delete_Some. split; [intros [_ H]; done|]. intros H. split; [congruence|done].
Qed.

Definition os_start (h : heap) : wos := Os h ∅ ∅ [] [].

Lemma start_ok h : accounted (h_mallocs h) (os_start h).
Proof.
  split; cbn; try done; [by left|]. exists ∅. split; [|done]. intros t c. rewrite lookup_empty. split; [done|]. intros (a & [=] & _).
Qed.

(** C34: threads on Windows.  However calls of [pthread_create], which may fail for want of
    memory or of threads, trampolines, returns and [pthread_join]s interleave, a trampoline
    that has not run yet finds its block live and can go on; and once every thread is joined
    the heap holds exactly the blocks it held before, and the routines that ran are, each with
    its argument and each as often, those that were accepted. *)
Theorem threads_accounted h o :
  rtc tstep (os_start h) o ->
  (forall t a, o_threads o !! t = Some (Created a) -> is_Some (vc_thread_trampoline t o)) /\
  (o_threads o = ∅ -> h_mallocs (o_heap o) = h_mallocs h /\ o_ran o ≡ₚ o_made o).
Proof.
  intros Hr. assert (Ha : accounted (h_mallocs h) o).
  { pose proof (start_ok h) as Hs. revert Hs. generalize (h_mallocs h). induction Hr; eauto using step_accounted. }
  split.
  - intros t a Ht. destruct (start_accounted _ _ _ Ha _ Ht) as (o' & -> & _). eauto.
  - intros He. destruct Ha as [Hbk Hk _ _ (P & HP & Hm)]. split.
    + apply map_eq. intros a. destruct (h_mallocs (o_heap o) !! a) as [n|] eqn:Hn.
      * destruct (Hbk _ _ Hn) as [->|[_ [t Ht]]]; [done|]. by rewrite He, lookup_empty in Ht.
      * symmetry. by eapply lookup_weaken_None.
    + assert (P = ∅) as ->.
      { apply map_empty. intros t. destruct (P !! t) as [c|] eqn:Hp; [|done]. apply HP in Hp as (a & Ht & _). by rewrite He, lookup_empty in Ht. }
      by rewrite Hm, map_to_list_empty, app_nil_r.
Qed.

(** Two threads accepted, one refused, both run and joined. *)
Lemma threads_witness : exists o, rtc tstep (os_start (Heap ∅ ∅ ∅ [])) o /\ length (o_made o) = 2%nat /\
  h_mallocs (o_heap o) = ∅ /\ o_ran o ≡ₚ o_made o.
Proof.
  assert (exists o, rtc tstep (os_start (Heap ∅ ∅ ∅ [])) o /\ length (o_made o) = 2%nat /\ o_threads o = ∅) as (o & Hr & Hl & He).
  { eexists. split; [|shelve].
    eapply rtc_l; [eapply (ts_create _ (Some 16) (Some 4) 100 1); [intros ? [= <-]; done|intros ? [= <-]; done|vm_compute; reflexivity]|].
    eapply rtc_l; [eapply (ts_create _ (Some 32) None 100 9); [intros ? [= <-]; done|done|vm_compute; reflexivity]|].
    eapply rtc_l; [eapply (ts_create _ (Some 48) (Some 8) 100 2); [intros ? [= <-]; done|intros ? [= <-]; done|vm_compute; reflexivity]|].
    eapply rtc_l; [eapply (ts_start 8); vm_compute; reflexivity|]. eapply rtc_l; [eapply (ts_start 4); vm_compute; reflexivity|].
    eapply rtc_l; [eapply (ts_exit 8); vm_compute; reflexivity|]. eapply rtc_l; [eapply (ts_exit 4); vm_compute; reflexivity|].
    eapply rtc_l; [eapply (ts_join 8); vm_compute; reflexivity|]. eapply rtc_l; [eapply (ts_join 4); vm_compute; reflexivity|]. apply rtc_refl.
    Unshelve. split; reflexivity. }
  exists o. destruct (threads_accounted (Heap ∅ ∅ ∅ []) o Hr) as [_ H]. destruct (H He) as [Hh Hp]. auto.
Defined.

End Thread.

(** ** Mutexes *)

Module Mutex.

(** A [CRITICAL_SECTION]: initialised or not, its owner, and how often it has entered. *)
Record mutex := Mutex { cs_live : bool; cs_owner : option nat; cs_count : Z }.

(** A call returns, waits, or is undefined. *)
Inductive lock_outcome := Returned (r : Z) (m : mutex) | Waits | Undefined.

Definition EBUSY : Z := 16.

Definition pthread_mutex_init (m : mutex) : lock_outcome := Returned 0 (Mutex true None 0).

Definition pthread_mutex_destroy (m : mutex) : lock_outcome :=
  if cs_live m && bool_decide (cs_owner m = None) then Returned 0 (Mutex false None 0) else Undefined.

(** [EnterCriticalSection] and [TryEnterCriticalSection] by thread [i]: the owner enters again. *)
Definition enter (i : nat) (m : mutex) : option mutex :=
  match cs_owner m with
  | None => Some (Mutex true (Some i) 1)
  | Some j => if decide (i = j) then Some (Mutex true (Some i) (cs_count m + 1)) else None
  end.

Definition pthread_mutex_lock (i : nat) (m : mutex) : lock_outcome :=
  if cs_live m then match enter i m with Some m => Returned 0 m | None => Waits end else Undefined.

Definition pthread_mutex_trylock (i : nat) (m : mutex) : lock_outcome :=
  if cs_live m then match enter i m with Some m' => Returned 0 m' | None => Returned EBUSY m end else Undefined.

(** [LeaveCriticalSection] by a thread that is not the owner is an error of the caller. *)
Definition pthread_mutex_unlock (i : nat) (m : mutex) : lock_outcome :=
  if cs_live m && bool_decide (cs_owner m = Some i)
  then Returned 0 (if cs_count m =? 1 then Mutex true None 0 else Mutex true (Some i) (cs_count m - 1))
  else Undefined.

(** [PTHREAD_MUTEX_INITIALIZER] *)
Definition mutex_zero : mutex := Mutex false None 0.

Definition then_ (o : lock_outcome) (f : mutex -> lock_outcome) : lock_outcome := match o with Returned _ m => f m | _ => o end.

Fixpoint repeat_call (n : nat) (f : mutex -> lock_outcome) (m : mutex) : lock_outcome :=
  match n with O => Returned 0 m | S n => then_ (f m) (repeat_call n f) end.

Lemma times_lock i c n m : m = Mutex true (Some i) c -> 0 < c ->
  repeat_call n (pthread_mutex_lock i) m = Returned 0 (Mutex true (Some i) (c + Z.of_nat n)).
Proof.
  revert c m. induction n as [|n IH]; intros c m -> Hc; [by rewrite Z.add_0_r|].
  cbn [repeat_call]. unfold pthread_mutex_lock at 1, enter. cbn. rewrite decide_True by done. cbn.
  rewrite (IH (c + 1)) by (done || lia). do 2 f_equal. lia.
Qed.

Lemma times_unlock i c n : Z.of_nat n < c ->
  repeat_call n (pthread_mutex_unlock i) (Mutex true (Some i) c) = Returned 0 (Mutex true (Some i) (c - Z.of_nat n)).
Proof.
  revert c. induction n as [|n IH]; intros c Hc; [by rewrite Z.sub_0_r|].
  cbn [repeat_call]. unfold pthread_mutex_unlock at 1. cbn. rewrite bool_decide_true by done.
  rewrite (proj2 (Z.eqb_neq c 1)) by lia. cbn. rewrite IH by lia. do 2 f_equal. lia.
Qed.

(** A mutex locked [n + 1] times by thread [i] refuses thread [j] until the last unlock. *)
Lemma mutex_nested i j n k : i <> j -> (k <= n)%nat ->
  exists m m', then_ (pthread_mutex_init mutex_zero) (repeat_call (S n) (pthread_mutex_lock i)) = Returned 0 m /\
    repeat_call k (pthread_mutex_unlock i) m = Returned 0 m' /\ pthread_mutex_trylock j m' = Returned EBUSY m' /\
    pthread_mutex_lock j m' = Waits /\ repeat_call (S n) (pthread_mutex_unlock i) m = Returned 0 (Mutex true None 0).
Proof.
  intros Hij Hk. exists (Mutex true (Some i) (1 + Z.of_nat n)), (Mutex true (Some i) (1 + Z.of_nat n - Z.of_nat k)).
  split; [cbn [then_ pthread_mutex_init repeat_call pthread_mutex_lock enter cs_live cs_owner]; by apply times_lock|].
  split; [apply times_unlock; lia|].
  unfold pthread_mutex_trylock, pthread_mutex_lock, enter. cbn [cs_live cs_owner]. rewrite decide_False by done.
  do 2 (split; [done|]). clear Hk k. induction n as [|n IH].
  - cbn [repeat_call]. unfold pthread_mutex_unlock. cbn [cs_live cs_owner]. by rewrite bool_decide_true.
  - cbn [repeat_call]. unfold pthread_mutex_unlock at 1. cbn [cs_live cs_owner]. rewrite bool_decide_true by done. cbn [andb cs_count].
    rewrite (proj2 (Z.eqb_neq _ 1)) by lia. cbn [then_]. replace (1 + Z.of_nat (S n) - 1) with (1 + Z.of_nat n) by lia. exact IH.
Qed.

End Mutex.

(** ** One-time initialisation *)

Module Once.

Inductive pthread_once_t := PTHREAD_ONCE_INIT | OnceDone.

(** The callback returns TRUE, so [InitOnceExecuteOnce] does not run it again. *)
Definition pthread_once {W} (o : pthread_once_t) (fn : W -> W) (w : W) : Z * pthread_once_t * W :=
  match o with PTHREAD_ONCE_INIT => (0, OnceDone, fn w) | OnceDone => (0, OnceDone, w) end.

Lemma once_runs_once {W} (fns : list (W -> W)) (fn : W -> W) (w : W) :
  foldl (fun s f => let r := pthread_once s.1 f s.2 in (r.1.2, r.2)) (PTHREAD_ONCE_INIT, w) (fn :: fns) = (OnceDone, fn w).
Proof. cbn. induction fns as [|f l IH]; [done|]. exact IH. Qed.

End Once.
