(* ===== verification/WinMem.v ===== *)
(** * Mappings on Windows

    [src/compat/mman.c] and [src/compat/mman.h]: [mmap], [munmap], [msync] and [mprotect] over
    [VirtualAlloc] and file mappings.  What the system answers is an argument; what it keeps,
    the regions, the views and the mapping objects behind handles, is the state. *)

From S2P Require Import Prelude Slab.

(** ** Constants *)

Definition PROT_NONE : Z := 0.
Definition PROT_READ : Z := 1.
Definition PROT_WRITE : Z := 2.
Definition PROT_EXEC : Z := 4.
Definition MAP_SHARED : Z := 1.
Definition MAP_PRIVATE : Z := 2.
Definition MAP_ANONYMOUS : Z := 32.
Definition MAP_FAILED : Z := u64 (-1).

Definition EBADF : Z := 9.
Definition ENOMEM : Z := 12.
Definition EACCES : Z := 13.
Definition EINVAL : Z := 22.
Definition EIO : Z := 5.

Definition PAGE_NOACCESS : Z := 1.
Definition PAGE_READONLY : Z := 2.
Definition PAGE_READWRITE : Z := 4.
Definition PAGE_EXECUTE_READ : Z := 32.
Definition PAGE_EXECUTE_READWRITE : Z := 64.
Definition FILE_MAP_WRITE : Z := 2.
Definition FILE_MAP_READ : Z := 4.

Definition has_bit (flags bit : Z) : bool := negb (Z.land flags bit =? 0).

Definition prot_to_page (prot flags : Z) : Z :=
  if prot =? PROT_NONE then PAGE_NOACCESS else
  if has_bit prot PROT_EXEC then (if has_bit prot PROT_WRITE then PAGE_EXECUTE_READWRITE else PAGE_EXECUTE_READ) else
  if has_bit prot PROT_WRITE then (if has_bit flags MAP_SHARED then PAGE_READWRITE else PAGE_READWRITE) else
  PAGE_READONLY.

Definition prot_to_access (prot : Z) : Z :=
  if has_bit prot PROT_WRITE then FILE_MAP_WRITE else
  if has_bit prot PROT_READ then FILE_MAP_READ else FILE_MAP_READ.

(** ** State *)

(** A mapping object with the size it was created for, and a view of one. *)
Record section := MkSection { s_file : Z; s_page : Z; s_hi : Z; s_lo : Z }.
Record file_view := View { v_section : Z; v_access : Z; v_off_hi : Z; v_off_lo : Z; v_len : Z }.

Record wmem := WMem {
  w_regions : gmap Z (Z * Z);      (** [VirtualAlloc]: address, length and protection *)
  w_views : gmap Z file_view;           (** [MapViewOfFile] *)
  w_handles : gmap Z section;      (** open handles of [CreateFileMapping] *)
  w_errno : Z
}.

Definition set_errno (e : Z) (w : wmem) : wmem := WMem (w_regions w) (w_views w) (w_handles w) e.

(** What the system answers to one call of [mmap]; [None] is NULL, or for [osf] an invalid handle. *)
Record map_answers := Answers { virtual : option Z; osf : option Z; fmap : option Z; mapview : option Z }.

(** ** Operations *)

(** The address and the state.  [off_t] is a signed 32-bit [long]; in [length + offset] it is
    converted to [size_t]. *)
Definition mmap (q : map_answers) (length prot flags offset : Z) (w : wmem) : Z * wmem :=
  if length =? 0 then (MAP_FAILED, set_errno EINVAL w) else
  if has_bit flags MAP_ANONYMOUS then
    match virtual q with
    | None => (MAP_FAILED, set_errno ENOMEM w)
    | Some p => (p, WMem (<[p := (length, prot_to_page prot flags)]> (w_regions w)) (w_views w) (w_handles w) (w_errno w))
    end
  else
    match osf q with
    | None => (MAP_FAILED, set_errno EBADF w)
    | Some fh =>
        let size := u64 (length + u64 offset) in
        let size_hi := u32 (Z.shiftr size 32) in
        let size_lo := u32 (Z.land size 4294967295) in
        match fmap q with
        | None => (MAP_FAILED, set_errno ENOMEM w)
        | Some f =>
            let w := WMem (w_regions w) (w_views w) (<[f := MkSection fh (prot_to_page prot flags) size_hi size_lo]> (w_handles w)) (w_errno w) in
            let off_hi := u32 (Z.shiftr (u64 offset) 32) in
            let off_lo := u32 (Z.land (u64 offset) 4294967295) in
            match mapview q with
            | None => (MAP_FAILED, set_errno ENOMEM (WMem (w_regions w) (w_views w) (delete f (w_handles w)) (w_errno w)))
            | Some p => (p, WMem (w_regions w) (<[p := View f (prot_to_access prot) off_hi off_lo length]> (w_views w)) (w_handles w) (w_errno w))
            end
        end
    end.

(** [UnmapViewOfFile] and [VirtualFree(addr, 0, MEM_RELEASE)]: the address must be the start of
    a view, of a region. *)
Definition UnmapViewOfFile (addr : Z) (w : wmem) : option wmem :=
  match w_views w !! addr with
  | Some _ => Some (WMem (w_regions w) (delete addr (w_views w)) (w_handles w) (w_errno w))
  | None => None
  end.

Definition VirtualFree (addr : Z) (w : wmem) : option wmem :=
  match w_regions w !! addr with
  | Some _ => Some (WMem (delete addr (w_regions w)) (w_views w) (w_handles w) (w_errno w))
  | None => None
  end.

Definition munmap (addr length : Z) (w : wmem) : Z * wmem :=
  if addr =? 0 then (-1, set_errno EINVAL w) else
  match UnmapViewOfFile addr w with
  | Some w => (0, w)
  | None =>
      match VirtualFree addr w with
      | Some w => (0, w)
      | None => (-1, set_errno EINVAL w)
      end
  end.

Section Answers.
(** [FlushViewOfFile] and [VirtualProtect], by what they return. *)
Context (FlushViewOfFile : Z -> Z -> wmem -> bool) (VirtualProtect : Z -> Z -> Z -> wmem -> bool).

Definition msync (addr length flags : Z) (w : wmem) : Z * wmem :=
  if FlushViewOfFile addr length w then (0, w) else (-1, set_errno EIO w).

Definition mprotect (addr length prot : Z) (w : wmem) : Z * wmem :=
  if VirtualProtect addr length (prot_to_page prot MAP_PRIVATE) w then (0, w) else (-1, set_errno EACCES w).

End Answers.

(** ** Sizes and protections *)

Lemma split_exact size : 0 <= size < 2 ^ 64 ->
  u32 (Z.shiftr size 32) * 2 ^ 32 + u32 (Z.land size 4294967295) = size.
Proof.
  intros Hs. change 4294967295 with (2 ^ 32 - 1). rewrite land_mask, Z.shiftr_div_pow2 by lia.
  pose proof (Z.div_mod size (2 ^ 32)). pose proof (Z.mod_pos_bound size (2 ^ 32)).
  assert (0 <= size / 2 ^ 32 < 2 ^ 32) by (split; [apply Z.div_pos; lia | apply Z.div_lt_upper_bound; lia]).
  unfold u32. rewrite (Z.mod_small (size / _)), Z.mod_small by lia. lia.
Qed.

(** The uses in the cache: read and write. *)
Lemma cache_protection flags : prot_to_page (Z.lor PROT_READ PROT_WRITE) flags = PAGE_READWRITE.
Proof. unfold prot_to_page. cbn [Z.eqb Z.lor PROT_READ PROT_WRITE Pos.lor]. by destruct (has_bit flags MAP_SHARED). Qed.

(** ** Anonymous mappings *)

(** A call of the cache for anonymous memory, with the answer to the first. *)
Inductive mop := MMap (ans : option Z) (len : Z) | MUnmap (addr len : Z).

Definition ANON : Z := Z.lor MAP_PRIVATE MAP_ANONYMOUS.

(** The call on Windows: what it returns, and the state. *)
Definition win_step (x : mop) (w : wmem) : Z * wmem :=
  match x with
  | MMap ans len => mmap (Answers ans None None None) len (Z.lor PROT_READ PROT_WRITE) ANON 0 w
  | MUnmap addr len => munmap addr len w
  end.

(** The same call on the heap that the components use. *)
Definition heap_step (x : mop) (h : heap) : option (Z * heap) :=
  match x with
  | MMap ans len => let '(r, h) := mmap_anon ans len h in Some (default MAP_FAILED r, h)
  | MUnmap addr len => h ← Slab.munmap addr len h; Some (0, h)
  end.

Fixpoint win_steps (l : list mop) (w : wmem) : list Z * wmem :=
  match l with
  | [] => ([], w)
  | x :: l => let '(r, w) := win_step x w in let '(rs, w) := win_steps l w in (r :: rs, w)
  end.

Fixpoint heap_steps (l : list mop) (h : heap) : option (list Z * heap) :=
  match l with
  | [] => Some ([], h)
  | x :: l => '(r, h) ← heap_step x h; '(rs, h) ← heap_steps l h; Some (r :: rs, h)
  end.

(** The same mappings are live. *)
Definition same_maps (w : wmem) (h : heap) : Prop := fst <$> w_regions w = h_maps h.

(** Sizes are positive, and [VirtualAlloc] answers an address that is in no use. *)
Definition mop_ok (w : wmem) (x : mop) : Prop :=
  match x with
  | MMap ans len => 0 < len /\ forall p, ans = Some p -> p <> 0 /\ w_regions w !! p = None /\ w_views w !! p = None
  | MUnmap addr len => addr <> 0 /\ w_views w !! addr = None
  end.

Fixpoint mops_ok (w : wmem) (l : list mop) : Prop :=
  match l with [] => True | x :: l => mop_ok w x /\ mops_ok (win_step x w).2 l end.

Lemma mop_refines x w h r h' : mop_ok w x -> same_maps w h -> heap_step x h = Some (r, h') ->
  (win_step x w).1 = r /\ same_maps (win_step x w).2 h' /\
  w_views (win_step x w).2 = w_views w /\ w_handles (win_step x w).2 = w_handles w.
Proof.
  intros Hx Hs E. destruct x as [ans len|addr len]; cbn [heap_step win_step mop_ok] in *.
  - destruct Hx as [Hl Hp]. unfold mmap. rewrite (proj2 (Z.eqb_neq len 0)) by lia. change (has_bit ANON MAP_ANONYMOUS) with true. cbv iota.
    cbn [virtual]. destruct ans as [p|]; cbn in E; injection E as <- <-; cbn; (split; [done|]; split; [|done]); [|done].
    unfold same_maps in *. cbn. by rewrite fmap_insert, Hs.
  - destruct Hx as [H0 Hv]. unfold munmap. rewrite (proj2 (Z.eqb_neq addr 0)) by done. unfold UnmapViewOfFile. rewrite Hv.
    unfold Slab.munmap in E. unfold same_maps in Hs. rewrite <- Hs, lookup_fmap in E. unfold VirtualFree.
    destruct (w_regions w !! addr) as [[n pg]|]; [|done]. cbn in E. injection E as <- <-. cbn. split; [done|]. split; [|done].
    unfold same_maps. cbn. by rewrite fmap_delete, Hs.
Qed.

(** Anonymous memory on Windows.  For every sequence of the cache's anonymous mappings,
    granted or refused, and unmappings of addresses that it mapped, the functions of the
    port return what [mmap] and [munmap] return in the model that the other components
    use, and leave the same mappings live, whatever length [munmap] is given, and neither views
    nor handles. *)
Theorem anonymous_maps_refine l w h rs h' :
  mops_ok w l -> same_maps w h -> heap_steps l h = Some (rs, h') ->
  (win_steps l w).1 = rs /\ same_maps (win_steps l w).2 h' /\
  w_views (win_steps l w).2 = w_views w /\ w_handles (win_steps l w).2 = w_handles w.
Proof.
  revert w h rs. induction l as [|x l IH]; intros w h rs Hok Hs E; cbn in *; [by injection E as <- <-|].
  destruct Hok as [Hx Hl]. destruct (heap_step x h) as [[r h1]|] eqn:E1; [|done]. cbn in E.
  destruct (heap_steps l h1) as [[rs1 h2]|] eqn:E2; [|done]. injection E as <- <-.
  destruct (mop_refines x w h r h1 Hx Hs E1) as (Hr & Hs1 & Hv1 & Hh1). destruct (win_step x w) as [r' w1]. cbn in *. subst r'.
  destruct (IH w1 h1 rs1 Hl Hs1 E2) as (Hrs & Hs2 & Hv2 & Hh2). destruct (win_steps l w1) as [rs' w2]. cbn in *.
  split; [by rewrite Hrs|]. split; [done|]. split; congruence.
Qed.

(** Two mappings, a refusal, and the release of the larger one under a length of 1. *)
Lemma anonymous_maps_witness :
  let l := [MMap (Some 4096) 8192; MMap None 10; MMap (Some 65536) 4096; MUnmap 4096 1] in
  let w := WMem ∅ ∅ ∅ 0 in
  (win_steps l w).1 = [4096; MAP_FAILED; 65536; 0] /\ fst <$> w_regions (win_steps l w).2 = {[65536 := 4096]}.
Proof.
  intros l w. edestruct (anonymous_maps_refine l w (Heap ∅ ∅ ∅ [])) as (H1 & H2 & _); [| |vm_compute; reflexivity|].
  - cbn. repeat split; try lia; try done; repeat match goal with E : Some _ = Some _ |- _ => injection E as <- end; done.
  - reflexivity.
  - split; [exact H1|]. rewrite H2. reflexivity.
Defined.

(** ** File mappings *)

(** One mapping of a file of [len] bytes at offset 0, and its release. *)
Definition file_cycle (len f p : Z) (w : wmem) : wmem :=
  (munmap p len (mmap (Answers None (Some 3) (Some f) (Some p)) len (Z.lor PROT_READ PROT_WRITE) MAP_SHARED 0 w).2).2.

(** The handle of each mapping object stays open. *)
Lemma file_cycles_leak len l w : len <> 0 -> NoDup l.*1 -> (forall x, x ∈ l -> w_handles w !! x.1 = None /\ x.2 <> 0) ->
  let w' := foldl (fun w x => file_cycle len x.1 x.2 w) w l in
  size (w_handles w') = (size (w_handles w) + length l)%nat.
Proof.
  intros Hlen. revert w. induction l as [|[f p] l IH]; intros w Hnd Hl; cbn [foldl]; [cbn; lia|].
  apply NoDup_cons in Hnd as [Hf Hnd]. destruct (Hl (f, p)) as [Hfr Hp]; [left|]. cbn in Hfr, Hp.
  assert (Hw : w_handles (file_cycle len f p w) = <[f := MkSection 3 4 (u32 (Z.shiftr (u64 (len + u64 0)) 32)) (u32 (Z.land (u64 (len + u64 0)) 4294967295))]> (w_handles w)).
  { unfold file_cycle, mmap. rewrite (proj2 (Z.eqb_neq len 0)) by done. change (has_bit MAP_SHARED MAP_ANONYMOUS) with false. cbv iota. cbn [osf fmap mapview snd w_handles w_regions w_views w_errno].
    unfold munmap. rewrite (proj2 (Z.eqb_neq p 0)) by done. unfold UnmapViewOfFile. cbn [w_views]. by rewrite lookup_insert_eq. }
  cbn. cbn in IH. rewrite IH, Hw; [|done|].
  - rewrite map_size_insert_None by done. lia.
  - intros x Hx. destruct (Hl x) as [Hx1 Hx2]; [by right|]. split; [|done]. rewrite Hw, lookup_insert_ne; [done|].
    intros ->. apply Hf. apply list_elem_of_fmap. exists x. by split.
Qed.
