(* ===== verification/ServerIo.v ===== *)
(** * Sockets and TLS

    The layer of [src/net/server.c] between the connections and the system: the socket options,
    [tls_ctx_create], [conn_read], [conn_write] and [conn_flush] with the calls they make and
    the codes they look at, [vcserver_info]; and [vc_hmac_sha256] of [src/net/auth.c].  The system
    and OpenSSL ([src/net/vc_ssl_abi.h] declares their functions) are arguments.  [Server.v] has
    [conn_flush] over the answers of one abstract [write]; the theorems here say that this is
    what the calls amount to. *)

From S2P Require Import Prelude Hash Slab Entry Shard Wal Cache Proto ProtoMem Auth Kv Commands Server.

(** ** Constants of [vc_ssl_abi.h] and of the system *)

Definition SSL_FILETYPE_PEM : Z := 1.
Definition SSL_ERROR_SSL : Z := 1.
Definition SSL_ERROR_WANT_READ : Z := 2.
Definition SSL_ERROR_WANT_WRITE : Z := 3.
Definition SSL_MODE_AUTO_RETRY : Z := 4.
Definition SSL_OP_NO_SSLv2 : Z := 16777216.
Definition SSL_OP_NO_SSLv3 : Z := 33554432.
Definition SSL_OP_NO_TLSv1 : Z := 67108864.
Definition SSL_OP_NO_TLSv1_1 : Z := 268435456.
Definition SSL_VERIFY_NONE : Z := 0.
Definition EAGAIN : Z := 11.
Definition EWOULDBLOCK : Z := 11.

(** ** TLS contexts *)

(** What the calls on a context have stored in it. *)
Record ssl_ctx := SslCtx {
  x_options : Z;
  x_mode : Z;
  x_verify : Z;
  x_cert : option (list Z);
  x_key : option (list Z)
}.

(** The live contexts by address, and the text on standard error. *)
Record tls := Tls { t_ctxs : gmap Z ssl_ctx; t_err : list Z }.

(** What OpenSSL answers: the new context ([None]: NULL), the return values of the three calls
    that load and check the files, the text of the error. *)
Record tls_answers := TlsAnswers {
  ta_new : option Z;
  ta_cert : list Z -> Z -> Z;
  ta_key : list Z -> Z -> Z;
  ta_check : Z;
  ta_error : list Z
}.

Definition err_said (msg : list Z) (t : tls) : tls := Tls (t_ctxs t) (t_err t ++ msg).
Definition on_ctx (f : ssl_ctx -> ssl_ctx) (ctx : Z) (t : tls) : tls := Tls (alter f ctx (t_ctxs t)) (t_err t).

Definition SSL_CTX_set_options (op : Z) : Z -> tls -> tls :=
  on_ctx (fun x => SslCtx (Z.lor (x_options x) op) (x_mode x) (x_verify x) (x_cert x) (x_key x)).
Definition SSL_CTX_set_mode (m : Z) : Z -> tls -> tls :=
  on_ctx (fun x => SslCtx (x_options x) (Z.lor (x_mode x) m) (x_verify x) (x_cert x) (x_key x)).
Definition SSL_CTX_set_verify (v : Z) : Z -> tls -> tls :=
  on_ctx (fun x => SslCtx (x_options x) (x_mode x) v (x_cert x) (x_key x)).

(** The files are only loaded when the call answers a positive value. *)
Definition use_certificate (ans : Z) (file : list Z) (ctx : Z) (t : tls) : Z * tls :=
  (ans, if 0 <? ans then on_ctx (fun x => SslCtx (x_options x) (x_mode x) (x_verify x) (Some file) (x_key x)) ctx t else t).
Definition use_PrivateKey (ans : Z) (file : list Z) (ctx : Z) (t : tls) : Z * tls :=
  (ans, if 0 <? ans then on_ctx (fun x => SslCtx (x_options x) (x_mode x) (x_verify x) (x_cert x) (Some file)) ctx t else t).

(** The condition of the [if], evaluated from left to right: [true] for a failure. *)
Definition load_fails (q : tls_answers) (cert key : list Z) (ctx : Z) (t : tls) : bool * tls :=
  let '(r, t) := use_certificate (ta_cert q cert SSL_FILETYPE_PEM) cert ctx t in
  if r <=? 0 then (true, t) else
  let '(r, t) := use_PrivateKey (ta_key q key SSL_FILETYPE_PEM) key ctx t in
  if r <=? 0 then (true, t) else (ta_check q <=? 0, t).

(** [defaults] is a context as [SSL_CTX_new] makes it. *)
Definition tls_ctx_create (q : tls_answers) (defaults : ssl_ctx) (cert key : list Z) (t : tls) : option Z * tls :=
  match ta_new q with
  | None => (None, err_said (bs "[TLS] SSL_CTX_new failed" ++ [10]) t)
  | Some ctx =>
      let t := Tls (<[ctx := defaults]> (t_ctxs t)) (t_err t) in
      let t := SSL_CTX_set_options (Z.lor (Z.lor SSL_OP_NO_SSLv2 SSL_OP_NO_SSLv3) (Z.lor SSL_OP_NO_TLSv1 SSL_OP_NO_TLSv1_1)) ctx t in
      let t := SSL_CTX_set_mode SSL_MODE_AUTO_RETRY ctx t in
      let t := SSL_CTX_set_verify SSL_VERIFY_NONE ctx t in
      let '(bad, t) := load_fails q cert key ctx t in
      if bad then
        let t := err_said (bs "[TLS] cert/key error: " ++ ta_error q ++ [10]) t in
        (None, Tls (delete ctx (t_ctxs t)) (t_err t))
      else (Some ctx, err_said (bs "[TLS] context created, cert=" ++ cert ++ [10]) t)
  end.

(** The contexts of [t] beside [ctx]. *)
Lemma load_fails_cases q cert key ctx x m e :
  exists x', load_fails q cert key ctx (Tls (<[ctx := x]> m) e) =
    (negb ((0 <? ta_cert q cert SSL_FILETYPE_PEM) && (0 <? ta_key q key SSL_FILETYPE_PEM) && (0 <? ta_check q)), Tls (<[ctx := x']> m) e) /\
    x_options x' = x_options x /\ x_mode x' = x_mode x /\ x_verify x' = x_verify x /\
    (0 < ta_cert q cert SSL_FILETYPE_PEM -> 0 < ta_key q key SSL_FILETYPE_PEM -> x_cert x' = Some cert /\ x_key x' = Some key).
Proof.
  unfold load_fails, use_certificate, use_PrivateKey. set (c := ta_cert _ _ _). set (k := ta_key _ _ _).
  rewrite (Z.leb_antisym 0 c), (Z.leb_antisym 0 k), (Z.leb_antisym 0 (ta_check q)).
  destruct (0 <? c) eqn:Ec; cbn [negb andb].
  2:{ eexists. split; [reflexivity|]. repeat (split; [done|]). lia. }
  destruct (0 <? k) eqn:Ek; cbn [negb andb]; unfold on_ctx; cbn [t_ctxs t_err]; rewrite ?alter_insert_eq.
  - eexists. split; [reflexivity|]. cbn. done.
  - eexists. split; [reflexivity|]. cbn. repeat (split; [done|]). lia.
Qed.

Definition OLD_PROTOCOLS : list Z := [SSL_OP_NO_SSLv2; SSL_OP_NO_SSLv3; SSL_OP_NO_TLSv1; SSL_OP_NO_TLSv1_1].

Lemma old_bits x : Forall (fun bit => Z.land (Z.lor x (Z.lor (Z.lor SSL_OP_NO_SSLv2 SSL_OP_NO_SSLv3) (Z.lor SSL_OP_NO_TLSv1 SSL_OP_NO_TLSv1_1))) bit = bit) OLD_PROTOCOLS.
Proof. repeat constructor; rewrite Z.land_lor_distr_l; cbn [Z.lor Z.land Pos.lor Pos.land SSL_OP_NO_SSLv2 SSL_OP_NO_SSLv3 SSL_OP_NO_TLSv1 SSL_OP_NO_TLSv1_1];
  apply Z.bits_inj'; intros n Hn; rewrite Z.lor_spec, Z.land_spec; by destruct (Z.testbit x n), (Z.testbit _ n).
Qed.

(** The TLS context.  The server gets a context exactly when OpenSSL made one and
    accepted the certificate, the key and their match; the context then refuses every protocol
    before TLS 1.2 and holds the two files, and in every other case no context is left behind. *)
Theorem tls_ctx_create_exact q defaults cert key t :
  (forall a, ta_new q = Some a -> t_ctxs t !! a = None) ->
  let ok := bool_decide (is_Some (ta_new q)) && (0 <? ta_cert q cert SSL_FILETYPE_PEM) &&
            (0 <? ta_key q key SSL_FILETYPE_PEM) && (0 <? ta_check q) in
  match tls_ctx_create q defaults cert key t with
  | (None, t') => ok = false /\ t_ctxs t' = t_ctxs t /\ exists msg, t_err t' = t_err t ++ msg /\ msg <> []
  | (Some ctx, t') => ok = true /\ ta_new q = Some ctx /\ exists x, t_ctxs t' = <[ctx := x]> (t_ctxs t) /\
      Forall (fun bit => Z.land (x_options x) bit = bit) OLD_PROTOCOLS /\ x_verify x = SSL_VERIFY_NONE /\
      x_cert x = Some cert /\ x_key x = Some key
  end.
Proof.
  intros Hf ok. subst ok. unfold tls_ctx_create. destruct (ta_new q) as [a|] eqn:Ea.
  2:{ split; [done|]. split; [done|]. eexists. split; [reflexivity|]. by destruct (bs _). }
  specialize (Hf a eq_refl). rewrite bool_decide_true by eauto.
  cbv zeta. unfold SSL_CTX_set_options, SSL_CTX_set_mode, SSL_CTX_set_verify, on_ctx. cbn [t_ctxs t_err]. rewrite !alter_insert_eq.
  match goal with |- context [load_fails q cert key a (Tls (<[a := ?y]> _) _)] =>
    destruct (load_fails_cases q cert key a y (t_ctxs t) (t_err t)) as (x & -> & Ho & Hm & Hv & Hck) end.
  cbn [andb]. destruct (0 <? ta_cert _ _ _) eqn:E1, (0 <? ta_key _ _ _) eqn:E2, (0 <? ta_check q) eqn:E3; cbn [andb negb].
  1:{ split; [done|]. split; [done|]. exists x. split; [done|]. destruct (Hck ltac:(lia) ltac:(lia)) as [-> ->].
      rewrite Ho, Hv. split; [apply old_bits|]. done. }
  all: split; [done|]; cbn; rewrite delete_insert_eq, delete_id by done; split; [done|]; eexists; split; [reflexivity|done].
Qed.

Definition tls_sample : tls_answers := TlsAnswers (Some 4096) (fun _ _ => 1) (fun _ _ => 1) 1 [].
Definition tls_default : ssl_ctx := SslCtx 0 0 0 None None.

Lemma tls_ctx_witness : exists x t', tls_ctx_create tls_sample tls_default (bs "c.pem") (bs "k.pem") (Tls ∅ []) = (Some 4096, t') /\
  t_ctxs t' = {[4096 := x]} /\ Forall (fun bit => Z.land (x_options x) bit = bit) OLD_PROTOCOLS /\ x_cert x = Some (bs "c.pem").
Proof.
  pose proof (tls_ctx_create_exact tls_sample tls_default (bs "c.pem") (bs "k.pem") (Tls ∅ []) ltac:(done)) as H. cbv zeta in H.
  destruct (tls_ctx_create tls_sample tls_default (bs "c.pem") (bs "k.pem") (Tls ∅ [])) as [[a|] t'] eqn:E; [|by destruct H as [H _]].
  destruct H as (_ & Ha & x & Ht & Hb & _ & Hc & _). injection Ha as <-. exists x, t'. auto.
Defined.

(** ** Reading and writing *)

(** The system and OpenSSL over a state [W]: a call gives its return value, and [read] the
    bytes it stores.  [ssl] is the address of the session, and [SSL_write] is given the address
    of the bytes too. *)
Class NetIo (W : Type) := {
  net_read : Z -> Z -> W -> Z * list Z * W;
  net_write : Z -> list Z -> W -> Z * W;
  net_errno : W -> Z;
  SSL_read : Z -> Z -> W -> Z * list Z * W;
  SSL_write : Z -> Z -> list Z -> Z -> W -> Z * W;
  SSL_get_error : Z -> Z -> W -> Z;
}.

Section Io.
Context {W : Type} {N : NetIo W}.

(** A connection: its descriptor and its session, 0 for NULL. *)
Record peer := Peer { p_fd : Z; p_ssl : Z }.

Definition conn_read (c : peer) (len : Z) (s : W) : Z * list Z * W :=
  if negb (p_ssl c =? 0) then SSL_read (p_ssl c) (s32 len) s else net_read (p_fd c) len s.

Definition conn_write (c : peer) (addr : Z) (data : list Z) (s : W) : Z * W :=
  if negb (p_ssl c =? 0) then SSL_write (p_ssl c) addr data (s32 (Z.of_nat (length data))) s else net_write (p_fd c) data s.

(** The code that the two loops look at after a failure. *)
Definition io_error (c : peer) (n : Z) (s : W) : Z :=
  if negb (p_ssl c =? 0) then SSL_get_error (p_ssl c) (s32 n) s else net_errno s.

Definition try_again (want err : Z) : bool := (err =? EAGAIN) || (err =? EWOULDBLOCK) || (err =? want).

(** [conn_flush] on a buffer at address [a] with contents [data]: the status, the new [rpos]
    and the answer to each call. *)
Fixpoint flush_io (fuel : nat) (c : peer) (a : Z) (data : list Z) (rpos : Z) (s : W) : flush_status * Z * list wr_result * W :=
  match fuel with
  | O => (FlushError, rpos, [], s)
  | S fuel =>
      if rpos <? Z.of_nat (length data) then
        let '(n, s) := conn_write c (a + rpos) (drop (Z.to_nat rpos) data) s in
        if 0 <? n then let '(st, r, l, s) := flush_io fuel c a data (rpos + n) s in (st, r, Wr n :: l, s)
        else if n =? 0 then (FlushError, rpos, [Wr 0], s)
        else let e := try_again SSL_ERROR_WANT_WRITE (io_error c n s) in
             (if e then FlushAgain else FlushError, rpos, [WrErr e], s)
      else (FlushOk, rpos, [], s)
  end.

(** One round of the read loop of [process_conn]. *)
Definition read_io (c : peer) (room : Z) (s : W) : rd_result * W :=
  let '(n, l, s) := conn_read c room s in
  if 0 <? n then (RdBytes (take (Z.to_nat n) l), s)
  else if n =? 0 then (RdEof, s)
  else if try_again SSL_ERROR_WANT_READ (io_error c n s) then (RdAgain, s) else (RdError, s).

Definition answers_of (l : list wr_result) (j : nat) : wr_result := default (WrErr false) (l !! j).

(** [flush_io] is the loop of [Server.v] on the answers it got. *)
Lemma flush_io_answers fuel c a data rpos s st r l s' w j :
  flush_io fuel c a data rpos s = (st, r, l, s') -> (forall i x, l !! i = Some x -> w (j + i)%nat = x) ->
  exists sent, flush_loop fuel w j data rpos = (st, r, sent).
Proof.
  revert rpos s l j. induction fuel as [|fuel IH]; intros rpos s l j E Hw; cbn in E |- *; [injection E as <- <- _ _; eauto|].
  destruct (rpos <? _); [|injection E as <- <- _ _; eauto].
  destruct (conn_write c _ _ s) as [n s1]. destruct (0 <? n) eqn:En.
  - destruct (flush_io fuel c a data (rpos + n) s1) as [[[st1 r1] l1] s2] eqn:E1. injection E as -> -> <- ->.
    pose proof (Hw 0%nat _ eq_refl) as H0. rewrite Nat.add_0_r in H0. rewrite H0, En.
    destruct (IH _ _ _ (S j) E1) as [sent ->]; [|eauto].
    intros i x Hi. replace (S j + i)%nat with (j + S i)%nat by lia. by apply Hw.
  - destruct (n =? 0) eqn:En0; injection E as <- <- <- _; pose proof (Hw 0%nat _ eq_refl) as H0; rewrite Nat.add_0_r in H0; rewrite H0; cbn; [eauto|].
    destruct (try_again _ _); eauto.
Qed.

(** Every flush of the server is a flush of [Server.v] for some answers. *)
Lemma conn_flush_refines c a k rpos s : k_wpos k = Some rpos ->
  let data := cn_out (k_conn k) in
  exists w sent k', conn_flush w k = Some ((flush_io (S (length data)) c a data rpos s).1.1.1, sent, k').
Proof.
  intros Hk data. destruct (flush_io (S (length data)) c a data rpos s) as [[[st r] l] s'] eqn:E.
  destruct (flush_io_answers _ _ _ _ _ _ _ _ _ _ (answers_of l) 0 E) as [sent Hs].
  { intros i x Hi. unfold answers_of. cbn. by rewrite Hi. }
  exists (answers_of l). unfold conn_flush. rewrite Hk. cbn [mbind option_bind]. fold data. rewrite Hs. cbn. destruct st; eauto.
Qed.

(** *** Writes that are tried again *)

(** What OpenSSL documents of a session without [SSL_MODE_ACCEPT_MOVING_WRITE_BUFFER], which
    [tls_ctx_create] does not set: a write that has to be tried again must be tried again from
    the same address, and reading in between does not change that.  [pending] is that address. *)
Context (pending : Z -> W -> option Z).
Hypothesis write_pends : forall ssl a d n s r s', SSL_write ssl a d n s = (r, s') -> r < 0 ->
  try_again SSL_ERROR_WANT_WRITE (SSL_get_error ssl (s32 r) s') = true -> pending ssl s' = Some a.
Hypothesis moved_fails : forall ssl a b d n s, pending ssl s = Some b -> a <> b ->
  exists s', SSL_write ssl a d n s = (-1, s') /\ SSL_get_error ssl (-1) s' = SSL_ERROR_SSL.
Hypothesis read_keeps : forall ssl n s, pending ssl (SSL_read ssl n s).2 = pending ssl s.

Lemma flush_again_pends fuel c a data rpos s r l s' : p_ssl c <> 0 -> 0 <= rpos ->
  flush_io fuel c a data rpos s = (FlushAgain, r, l, s') ->
  pending (p_ssl c) s' = Some (a + r) /\ rpos <= r < Z.of_nat (length data).
Proof.
  intros Hc. revert rpos s l. induction fuel as [|fuel IH]; intros rpos s l Hr E; cbn in E; [done|].
  destruct (rpos <? _) eqn:Ep; [|done]. destruct (conn_write c _ _ s) as [n s1] eqn:Ew. destruct (0 <? n) eqn:En.
  - destruct (flush_io fuel c a data (rpos + n) s1) as [[[st1 r1] l1] s2] eqn:E1. injection E as -> -> <- ->.
    apply IH in E1; [|lia]. destruct E1. split; [done|lia].
  - destruct (n =? 0) eqn:En0; [done|]. destruct (try_again _ _) eqn:Ea; [|done]. injection E as <- <- <-. split; [|lia].
    unfold conn_write in Ew. unfold io_error in Ea. rewrite (proj2 (Z.eqb_neq _ _) Hc) in Ew, Ea. cbn in Ew, Ea.
    eapply write_pends; [exact Ew|lia|exact Ea].
Qed.

(** What comes after a flush that has to be continued: [n] reads of a connection. *)
Fixpoint reads (c : peer) (lens : list Z) (s : W) : W :=
  match lens with [] => s | n :: lens => reads c lens (read_io c n s).2 end.

Lemma reads_keep c lens s : p_ssl c <> 0 -> pending (p_ssl c) (reads c lens s) = pending (p_ssl c) s.
Proof.
  intros Hc. revert s. induction lens as [|n lens IH]; intros s; [done|]. cbn. rewrite IH. unfold read_io, conn_read.
  rewrite (proj2 (Z.eqb_neq _ _) Hc). cbn. pose proof (read_keeps (p_ssl c) (s32 n) s) as Hk.
  destruct (SSL_read _ _ s) as [[r l] s1]. cbn in Hk. by repeat case_match.
Qed.

(** A TLS reply that is cut short is lost when the buffer moves.  When a flush on a TLS
    connection has to be continued, and before that more commands are read and their replies
    make the write buffer move to another address, the next flush fails, and with it the
    server closes the connection although the peer was only slow. *)
Theorem tls_moved_buffer_fails fuel c a data rpos s r l s1 lens a' more fuel' :
  p_ssl c <> 0 -> 0 <= rpos ->
  flush_io fuel c a data rpos s = (FlushAgain, r, l, s1) -> a' <> a ->
  exists s2, flush_io (S fuel') c a' (data ++ more) r (reads c lens s1) = (FlushError, r, [WrErr false], s2).
Proof.
  intros Hc Hr E Ha. destruct (flush_again_pends _ _ _ _ _ _ _ _ _ Hc Hr E) as [Hp Hlt].
  rewrite <- (reads_keep c lens s1 Hc) in Hp.
  destruct (moved_fails (p_ssl c) (a' + r) (a + r) (drop (Z.to_nat r) (data ++ more)) (s32 (Z.of_nat (length (drop (Z.to_nat r) (data ++ more))))) _ Hp) as (s2 & Ew & Ee); [lia|].
  exists s2. cbn [flush_io]. rewrite length_app, (proj2 (Z.ltb_lt _ _)) by lia.
  unfold conn_write, io_error. rewrite (proj2 (Z.eqb_neq _ _) Hc). cbn [negb]. rewrite Ew. cbn.
  change (s32 (-1)) with (-1). by rewrite Ee.
Qed.

End Io.

(** A session whose first write has to be tried again; [sl_pend] is its pending address. *)
Record slow := Slow { sl_err : Z; sl_pend : option Z }.

#[export] Instance slow_net : NetIo slow := {
  net_read := fun _ _ s => (0, [], s);
  net_write := fun _ d s => (Z.of_nat (length d), s);
  net_errno := sl_err;
  SSL_read := fun _ _ s => (-1, [], Slow SSL_ERROR_WANT_READ (sl_pend s));
  SSL_write := fun _ a d n s =>
    match sl_pend s with
    | None => (-1, Slow SSL_ERROR_WANT_WRITE (Some a))
    | Some b => if a =? b then (n, Slow 0 None) else (-1, Slow SSL_ERROR_SSL (Some b))
    end;
  SSL_get_error := fun _ _ s => sl_err s;
}.

(** With the buffer at the same address the reply goes out; moved, the flush fails. *)
Lemma tls_moved_witness :
  let c := Peer 5 64 in let s1 := Slow SSL_ERROR_WANT_WRITE (Some 4096) in
  flush_io 9 c 4096 (bs "+OK") 0 (Slow 0 None) = (FlushAgain, 0, [WrErr true], s1) /\
  (flush_io 9 c 4096 (bs "+OK") 0 (reads c [100] s1)).1.1.1 = FlushOk /\
  exists s2, flush_io 9 c 8192 (bs "+OK" ++ bs "+OK") 0 (reads c [100] s1) = (FlushError, 0, [WrErr false], s2).
Proof.
  intros c s1. split; [reflexivity|]. split; [reflexivity|].
  apply (tls_moved_buffer_fails (fun _ => sl_pend)) with (fuel := 9%nat) (a := 4096) (rpos := 0) (s := Slow 0 None) (l := [WrErr true]); try done; try lia.
  - intros ssl a d n s r s' E Hr Hag. cbn in E. destruct (sl_pend s) as [b|].
    + destruct (a =? b) eqn:Eab; injection E as <- <-; cbn in Hag; [done|]. done.
    + by injection E as <- <-.
  - intros ssl a b d n s Hp Hne. cbn. rewrite Hp, (proj2 (Z.eqb_neq _ _)) by done. eexists. split; reflexivity.
Defined.

(** ** Socket options *)

(** [fcntl] over a state [W]: the platform's [O_NONBLOCK], whether a descriptor is
    non-blocking, and what the call promises. *)
Class Fcntl (W : Type) := {
  O_NONBLOCK : Z;
  fcntl_getfl : Z -> W -> Z;
  fcntl_setfl : Z -> Z -> W -> Z * W;
  nonblocking : Z -> W -> bool;
  setfl_law fd fl s s' : 0 <= fl -> fcntl_setfl fd fl s = (0, s') ->
    nonblocking fd s' = negb (Z.land fl O_NONBLOCK =? 0) /\ forall g, g <> fd -> nonblocking g s' = nonblocking g s;
  nonblock_bit : 0 < O_NONBLOCK;
}.

Section Options.
Context {W : Type} {F : Fcntl W}.

Definition set_nonblocking (fd : Z) (s : W) : Z * W :=
  let fl := fcntl_getfl fd s in
  if fl <? 0 then (-1, s) else fcntl_setfl fd (Z.lor fl O_NONBLOCK) s.

(** When it reports success the descriptor is non-blocking and the others are as before. *)
Lemma set_nonblocking_ok fd s s' : set_nonblocking fd s = (0, s') ->
  nonblocking fd s' = true /\ forall g, g <> fd -> nonblocking g s' = nonblocking g s.
Proof.
  unfold set_nonblocking. destruct (_ <? 0) eqn:E; [done|]. intros H. pose proof nonblock_bit.
  apply setfl_law in H; [|apply Z.lor_nonneg; lia]. destruct H as [-> H]. split; [|done].
  rewrite Z.land_comm, Z.land_lor_distr_r, Z.land_diag.
  destruct (Z.eqb_spec (Z.lor (Z.land O_NONBLOCK (fcntl_getfl fd s)) O_NONBLOCK) 0) as [Hz|]; [|done].
  apply Z.lor_eq_0_iff in Hz as [_ Hz]. lia.
Qed.

End Options.

Definition IPPROTO_TCP : Z := 6.
Definition TCP_NODELAY : Z := 1.
Definition SOL_SOCKET : Z := 1.
Definition SO_REUSEADDR : Z := 2.
Definition SO_REUSEPORT : Z := 15.

Section SockOpts.
(** [setsockopt(fd, level, option, value)] *)
Context {W : Type} (setsockopt : Z -> Z -> Z -> Z -> W -> Z * W).

Definition set_tcp_nodelay (fd : Z) : W -> Z * W := setsockopt fd IPPROTO_TCP TCP_NODELAY 1.
Definition set_reuseport (fd : Z) : W -> Z * W := setsockopt fd SOL_SOCKET SO_REUSEPORT 1.
Definition set_reuseaddr (fd : Z) : W -> Z * W := setsockopt fd SOL_SOCKET SO_REUSEADDR 1.

End SockOpts.

(** ** The summary line *)

Definition info_line (s : server vc_cache) : list Z :=
  let st := vc_stats (sv_cache s) in
  bs "VoidCache " ++ VC_SERVER_VERSION ++ bs "  node=" ++ cstr (sv_node_id s) ++ bs "  keys=" ++ dec (st_total_keys st) ++
  bs "  hits=" ++ dec (st_hits st) ++ bs "  misses=" ++ dec (st_misses st) ++ [10].

(** The result of [vc_buf_grow] is not looked at; [None]: [memcpy] writes past the buffer. *)
Definition vcserver_info (alloc_ok : allocator) (s : server vc_cache) (out : vc_buf) : option vc_buf :=
  let buf := take 1023 (info_line s) in
  '(_, out) ← vc_buf_grow alloc_ok out (Z.of_nat (length buf) + 1);
  if b_cap out - b_len out <? Z.of_nat (length buf) then None
  else Some (Buf (b_data out ++ buf) (b_cap out) (b_rpos out)).

(** Without memory and without room the call writes outside of the buffer. *)
Lemma vcserver_info_no_memory s out : b_cap out = b_len out ->
  0 < b_len out < 2 ^ 60 -> vcserver_info (Allocator (fun _ => false) (fun _ => false)) s out = None.
Proof.
  intros Hc Hl. unfold vcserver_info.
  assert (Hb : 10 <= Z.of_nat (length (take 1023 (info_line s))) <= 1023).
  { rewrite length_take. unfold info_line. rewrite length_app. cbn [bs length]. change (length (bs "VoidCache ")) with 10%nat. lia. }
  unfold vc_buf_grow. rewrite Hc, Z.sub_diag. change (u64 0) with 0. rewrite (proj2 (Z.leb_gt _ 0)) by lia.
  destruct (grow_loop _ _ _ _) as [nc|]; [|done]. cbn. rewrite Hc, Z.sub_diag. by rewrite (proj2 (Z.ltb_lt 0 _)) by lia.
Qed.

(** ** HMAC *)

(** [HMAC(EVP_sha256(), key, key_len, d, n, md)], [None] for NULL; the result is what
    [vc_hmac_sha256] returns, with the bytes stored in [out]. *)
Definition vc_hmac_sha256 (HMAC : list Z -> Z -> list Z -> option (list Z)) (key msg : list Z) : Z * option (list Z) :=
  match HMAC key (s32 (Z.of_nat (length key))) msg with Some md => (0, Some md) | None => (-1, None) end.
