(* ===== verification/WinPort.v ===== *)
(** * The Windows port

    The shims of [src/compat/msvc.h] and [src/compat/windows.h]: sockets behind [read], [write],
    [close] and [fcntl], [isatty], pauses, the shutdown event that stands for [sigwait], random
    bytes, the start of Winsock and the translation of its errors.  What Windows answers is an
    argument.  [Clock.v] has [clock_gettime], [WinThread.v] the threads, [WinMem.v] the mappings. *)

From S2P Require Import Prelude Slab Entry Proto Kv Commands Server ServerIo.

(** ** Descriptors *)

Section Sockets.
(** [recv] and [send] with flags 0, [closesocket]: the first argument is the [SOCKET], to which
    the descriptor is converted, and lengths are [int]. *)
Context {W : Type}.
Context (recv : Z -> Z -> W -> Z * list Z * W) (send : Z -> list Z -> Z -> W -> Z * W) (closesocket : Z -> W -> Z * W).

Definition vc_read (fd len : Z) : W -> Z * list Z * W := recv (u64 fd) (s32 len).
Definition vc_write (fd : Z) (buf : list Z) : W -> Z * W := send (u64 fd) buf (s32 (Z.of_nat (length buf))).
Definition vc_close (fd : Z) : W -> Z * W := closesocket (u64 fd).

(** Below 2 GiB the length is passed as it is; above, a length of [2^31] more than a multiple
    of [2^32] is negative, and [send] refuses it. *)
Lemma vc_write_length fd buf s : Z.of_nat (length buf) < 2 ^ 31 -> vc_write fd buf s = send (u64 fd) buf (Z.of_nat (length buf)) s.
Proof. intros Hl. unfold vc_write, s32. rewrite Z.mod_small by lia. f_equal. lia. Qed.

End Sockets.

(** Milliseconds passed to [Sleep], in the 32 bits of a [DWORD]. *)
Definition sleep_ms (s : Z) : Z := u32 (s * 1000).
Definition usleep_ms (us : Z) : Z := us / 1000.

Inductive std_handle := STD_INPUT_HANDLE | STD_OUTPUT_HANDLE | STD_ERROR_HANDLE.

Definition vc_isatty (GetConsoleMode : std_handle -> bool) (fd : Z) : Z :=
  let h := if fd =? 1 then STD_OUTPUT_HANDLE else if fd =? 2 then STD_ERROR_HANDLE else STD_INPUT_HANDLE in
  if GetConsoleMode h then 1 else 0.

(** ** Non-blocking sockets *)

Definition F_GETFL : Z := 3.
Definition F_SETFL : Z := 4.
Definition WIN_O_NONBLOCK : Z := 16384.

(** The sockets of the process, with their mode; [ioctlsocket] answers 0 exactly for those. *)
Record socks := Socks { sk_mode : gmap Z bool }.

Definition ioctlsocket (fd mode : Z) (s : socks) : Z * socks :=
  match sk_mode s !! fd with
  | Some _ => (0, Socks (<[fd := negb (mode =? 0)]> (sk_mode s)))
  | None => (-1, s)
  end.

Definition vc_fcntl (fd cmd arg : Z) (s : socks) : Z * socks :=
  if (cmd =? F_SETFL) && negb (Z.land arg WIN_O_NONBLOCK =? 0) then
    let '(r, s) := ioctlsocket fd 1 s in (if r =? 0 then 0 else -1, s)
  else if (cmd =? F_SETFL) && (Z.land arg WIN_O_NONBLOCK =? 0) then
    let '(r, s) := ioctlsocket fd 0 s in (if r =? 0 then 0 else -1, s)
  else if cmd =? F_GETFL then (0, s)
  else (-1, s).

Lemma vc_fcntl_setfl fd fl s : vc_fcntl fd F_SETFL fl s =
  match sk_mode s !! fd with
  | Some _ => (0, Socks (<[fd := negb (Z.land fl WIN_O_NONBLOCK =? 0)]> (sk_mode s)))
  | None => (-1, s)
  end.
Proof. unfold vc_fcntl, ioctlsocket. cbn. destruct (Z.land fl _ =? 0), (sk_mode s !! fd); done. Qed.

(** The emulation keeps the promise that [set_nonblocking] needs. *)
#[export] Program Instance win_fcntl : Fcntl socks := {
  O_NONBLOCK := WIN_O_NONBLOCK;
  fcntl_getfl := fun fd s => (vc_fcntl fd F_GETFL 0 s).1;
  fcntl_setfl := fun fd fl s => vc_fcntl fd F_SETFL fl s;
  nonblocking := fun fd s => default false (sk_mode s !! fd);
}.
Next Obligation.
  cbn. intros fd fl s s' _. rewrite vc_fcntl_setfl. destruct (sk_mode s !! fd); [|done]. intros [= <-]. cbn.
  split; [by rewrite lookup_insert_eq|]. intros g Hg. by rewrite lookup_insert_ne.
Qed.
Next Obligation. reflexivity. Qed.

(** On a socket the call succeeds. *)
Lemma win_nonblocking fd s m : sk_mode s !! fd = Some m ->
  set_nonblocking fd s = (0, Socks (<[fd := true]> (sk_mode s))).
Proof. intros H. unfold set_nonblocking. cbn -[vc_fcntl]. rewrite vc_fcntl_setfl, H. done. Qed.

(** ** Signal sets *)

Definition SIGINT : Z := 2.
Definition SIGTERM : Z := 15.

Definition sigemptyset : Z * Z := (0, 0).
Definition sigaddset (s sig : Z) : Z * Z := (0, Z.lor s (u32 (Z.shiftl 1 sig))).

(** The mask that [vcserver_run] builds. *)
Definition server_mask : Z := (sigaddset (sigaddset sigemptyset.2 SIGINT).2 SIGTERM).2.

Lemma server_mask_bits n : 0 <= n -> Z.testbit server_mask n = (n =? SIGINT) || (n =? SIGTERM).
Proof.
  intros Hn. unfold server_mask, sigaddset. cbn [fst snd sigemptyset]. rewrite !Z.lor_spec, Z.testbit_0_l.
  change (u32 (Z.shiftl 1 SIGINT)) with (2 ^ SIGINT). change (u32 (Z.shiftl 1 SIGTERM)) with (2 ^ SIGTERM).
  rewrite !Z.pow2_bits_eqb by (done || lia). cbn. by rewrite !(Z.eqb_sym n).
Qed.

(** ** Shutdown *)

Module Shutdown.

Definition CTRL_C_EVENT : Z := 0.
Definition CTRL_BREAK_EVENT : Z := 1.
Definition CTRL_CLOSE_EVENT : Z := 2.

(** Where the main thread is: before [sigwait], between [CreateEventA] and
    [SetConsoleCtrlHandler], in [WaitForSingleObject], after [sigwait]. *)
Inductive main_pc := Before | Made | Waiting | Woken.

(** [event]: the static variable, [None] for NULL, else whether the event is set; [registered]:
    the console handler; [killed]: Windows has ended the process. *)
Record shut := Shut { event : option bool; registered : bool; main : main_pc; killed : bool }.

Definition shut_start : shut := Shut None false Before false.

Definition set_event (s : shut) : shut :=
  match event s with
  | None => s
  | Some _ => Shut (Some true) (registered s) (main s) (killed s)
  end.

(** [_vcache_ctrl_handler] of [msvc.h], [_vcache_console_handler] of [windows.h]: whether the
    event is handled. *)
Definition ctrl_handler (t : Z) (s : shut) : bool * shut :=
  if (t =? CTRL_C_EVENT) || (t =? CTRL_BREAK_EVENT) || (t =? CTRL_CLOSE_EVENT) then (true, set_event s) else (false, s).

(** A console event: the registered handler, and the default one, which ends the process. *)
Definition console (t : Z) (s : shut) : shut :=
  let '(handled, s) := if registered s then ctrl_handler t s else (false, s) in
  if handled then s else Shut (event s) (registered s) (main s) true.

(** [vcache_win_signal_shutdown] *)
Definition win_signal_shutdown (s : shut) : shut := set_event s.

(** One step of the main thread through [sigwait] ([vcache_win_init_shutdown] and
    [vcache_win_wait_for_shutdown] in [windows.h]); [ok]: what [CreateEventA] answers.  A wait on
    NULL fails at once.  [None]: it waits, or there is nothing more to do. *)
Definition sigwait_step (ok : bool) (s : shut) : option shut :=
  match main s, event s with
  | Before, None => Some (Shut (if ok then Some false else None) (registered s) Made (killed s))
  | Before, Some _ => Some (Shut (event s) (registered s) Waiting (killed s))
  | Made, _ => Some (Shut (event s) true Waiting (killed s))
  | Waiting, Some false => None
  | Waiting, _ => Some (Shut (event s) (registered s) Woken (killed s))
  | Woken, _ => None
  end.

Inductive sstep : shut -> shut -> Prop :=
| ss_console t s : sstep s (console t s)
| ss_signal s : sstep s (win_signal_shutdown s)
| ss_main ok s s' : sigwait_step ok s = Some s' -> sstep s s'.

(** The main thread through [n] steps, as far as it comes. *)
Fixpoint main_steps (n : nat) (s : shut) : shut :=
  match n with O => s | S n => match sigwait_step true s with Some s' => main_steps n s' | None => s end end.

Lemma console_cases t s : console t s = set_event s \/ console t s = Shut (event s) (registered s) (main s) true.
Proof.
  unfold console, ctrl_handler. destruct (registered s) eqn:Er; [|right; by rewrite Er].
  match goal with |- context [if ?b then _ else _] => destruct b end; [by left|right; by rewrite Er].
Qed.

Lemma set_event_main s : main (set_event s) = main s /\ registered (set_event s) = registered s.
Proof. by destruct s as [[] r m k]. Qed.

Lemma console_main t s : main (console t s) = main s /\ registered (console t s) = registered s.
Proof. destruct (console_cases t s) as [-> | ->]; [apply set_event_main|done]. Qed.

(** The handler is only registered once the main thread is about to wait. *)
Lemma registered_main s : rtc sstep shut_start s -> registered s = true -> main s = Waiting \/ main s = Woken.
Proof.
  intros H. refine (rtc_ind_r (fun s => registered s = true -> main s = Waiting \/ main s = Woken) shut_start _ _ s H); [done|].
  clear s H. intros s s' _ Hs IH. destruct Hs as [t s|s|ok s s' E].
  - destruct (console_main t s) as [-> ->]. exact IH.
  - unfold win_signal_shutdown. destruct (set_event_main s) as [-> ->]. exact IH.
  - destruct s as [e r m k]. cbn in *. destruct m, e as [[]|]; cbn in E; try done; injection E as <-; cbn; auto.
    all: intros ->; by destruct (IH eq_refl).
Qed.

(** The event is set, or there is none. *)
Definition told (s : shut) : Prop := (main s = Waiting \/ main s = Woken) /\ event s <> Some false.

Lemma told_step s s' : told s -> sstep s s' -> told s'.
Proof.
  intros [Hm He] Hs. destruct Hs as [t s|s|ok s s' E].
  - destruct (console_cases t s) as [-> | ->]; [|done]. by destruct s as [[[]|] r m k].
  - by destruct s as [[[]|] r m k].
  - destruct s as [e r m k]. cbn in *. destruct Hm as [-> | ->], e as [[]|]; cbn in E; try done; injection E as <-; by split; [right|].
Qed.

(** Ctrl+C ends the server on Windows.  Once [sigwait] has registered the handler, a
    Ctrl+C, Ctrl+Break or close event does not end the process, and whatever events and signals
    come after it, the main thread is out of [sigwait] or its next step takes it out. *)
Theorem console_event_wakes s t s' :
  rtc sstep shut_start s -> registered s = true -> t = CTRL_C_EVENT \/ t = CTRL_BREAK_EVENT \/ t = CTRL_CLOSE_EVENT ->
  rtc sstep (console t s) s' ->
  killed (console t s) = killed s /\ main (main_steps 1 s') = Woken.
Proof.
  intros Hs Hr Ht Hs'. assert (Hc : console t s = set_event s).
  { unfold console. rewrite Hr. unfold ctrl_handler. by destruct Ht as [-> | [-> | ->]]. }
  split; [rewrite Hc; by destruct s as [[] r m k]|].
  assert (Htold : told s').
  { assert (H0 : told (console t s)).
    { rewrite Hc. pose proof (registered_main s Hs Hr). destruct (set_event_main s) as [Hm _]. split; [by rewrite Hm|].
      destruct s as [[[]|] r m k]; done. }
    clear -H0 Hs'. induction Hs'; eauto using told_step. }
  destruct Htold as [Hm He]. destruct s' as [e r m k]. cbn in *. destruct Hm as [-> | ->], e as [[]|]; done.
Qed.

Lemma console_event_witness : exists s, rtc sstep shut_start s /\ registered s = true /\ event s = Some false /\
  main (main_steps 1 (console CTRL_C_EVENT s)) = Woken.
Proof.
  assert (H : rtc sstep shut_start (Shut (Some false) true Waiting false)).
  { eapply rtc_l; [by apply (ss_main true)|]. eapply rtc_l; [by apply (ss_main true)|]. apply rtc_refl. }
  eexists. split; [exact H|]. split; [reflexivity|]. split; [reflexivity|].
  apply (console_event_wakes _ CTRL_C_EVENT (console CTRL_C_EVENT (Shut (Some false) true Waiting false)) H eq_refl); [by left|apply rtc_refl].
Defined.

(** A call of [vcache_win_signal_shutdown] before the main thread is in [sigwait] is lost: the
    thread then waits. *)
Lemma early_signal_lost n : main_steps (2 + n) (win_signal_shutdown shut_start) = Shut (Some false) true Waiting false.
Proof. destruct n; reflexivity. Qed.

End Shutdown.

(** ** Random bytes, Winsock, errors *)

(** [vcache_random_bytes]; [BCryptGenRandom] gets the length as a [ULONG] and answers an
    [NTSTATUS], a success when it is not negative. *)
Definition vcache_random_bytes (BCryptGenRandom : Z -> Z * list Z) (len : Z) : Z * list Z :=
  let '(st, buf) := BCryptGenRandom (u32 len) in (if 0 <=? st then 0 else -1, buf).

(** [vcache_winsock_init] of [msvc.h], with its static [done], and of [windows.h]: the calls of
    [WSAStartup] so far are counted. *)
Definition winsock_init_msvc (st : Z * nat) : Z * nat :=
  let '(done, n) := st in if done =? 0 then (1, S n) else (done, n).
Definition winsock_init_mingw (n : nat) : nat := S n.

Lemma winsock_started_once k : Nat.iter (S k) winsock_init_msvc (0, 0%nat) = (1, 1%nat).
Proof. induction k as [|k IH]; [done|]. change (winsock_init_msvc (Nat.iter (S k) winsock_init_msvc (0, 0%nat)) = (1, 1%nat)). by rewrite IH. Qed.

Definition WSAEWOULDBLOCK : Z := 10035.
Definition WSAEINPROGRESS : Z := 10036.
Definition WSAECONNREFUSED : Z := 10061.
Definition WSAETIMEDOUT : Z := 10060.
Definition WSAEHOSTUNREACH : Z := 10065.

(** The values of [errno.h] on the platform. *)
Record errnos := Errnos { E_AGAIN : Z; E_INPROGRESS : Z; E_CONNREFUSED : Z; E_TIMEDOUT : Z; E_HOSTUNREACH : Z; E_IO : Z }.

Definition vc_socket_errno (n : errnos) (e : Z) : Z :=
  if e =? WSAEWOULDBLOCK then E_AGAIN n
  else if e =? WSAEINPROGRESS then E_INPROGRESS n
  else if e =? WSAECONNREFUSED then E_CONNREFUSED n
  else if e =? WSAETIMEDOUT then E_TIMEDOUT n
  else if e =? WSAEHOSTUNREACH then E_HOSTUNREACH n
  else E_IO n.

(** *** Errors after [recv] *)

(** A process with one socket: what has arrived on it, the error of the last Winsock call,
    and [errno], which Winsock does not set. *)
Record wproc := WProc { wp_arrived : list Z; wp_wsa : Z; wp_errno : Z }.

(** [recv] of at most [len] bytes on a non-blocking socket. *)
Definition win_recv (sock len : Z) (s : wproc) : Z * list Z * wproc :=
  match wp_arrived s with
  | [] => (-1, [], WProc [] WSAEWOULDBLOCK (wp_errno s))
  | l => let n := Z.min len (Z.of_nat (length l)) in
         (n, take (Z.to_nat n) l, WProc (drop (Z.to_nat n) l) (wp_wsa s) (wp_errno s))
  end.

#[export] Instance win_net : NetIo wproc := {
  net_read := vc_read win_recv;
  net_write := fun _ d s => (Z.of_nat (length d), s);
  net_errno := wp_errno;
  SSL_read := fun _ _ s => (-1, [], s);
  SSL_write := fun _ _ _ _ s => (-1, s);
  SSL_get_error := fun _ _ _ => SSL_ERROR_SSL;
}.

Definition msvc_errnos : errnos := Errnos 11 112 107 138 110 5.

(** The first round of the read loop takes what has arrived. *)
Lemma win_round_bytes fd room l w e : l <> [] -> Z.of_nat (length l) <= room < 2 ^ 31 ->
  read_io (Peer fd 0) room (WProc l w e) = (RdBytes l, WProc [] w e).
Proof.
  intros Hl Hr. assert (Hs : s32 room = room) by (unfold s32; rewrite Z.mod_small; lia).
  assert (0 < length l)%nat by (destruct l; [done|cbn; lia]).
  unfold read_io, conn_read. cbn [p_ssl p_fd Z.eqb negb net_read win_net]. unfold vc_read, win_recv. cbn [wp_arrived wp_wsa wp_errno].
  rewrite Hs. destruct l as [|b l]; [done|]. rewrite Z.min_r by lia. rewrite (proj2 (Z.ltb_lt 0 _)) by lia.
  rewrite Nat2Z.id, !take_ge, drop_ge; rewrite ?length_take; (done || lia).
Qed.

(** The next finds the socket empty: Winsock says try again, which [errno] does not. *)
Lemma win_round_empty fd room w e :
  read_io (Peer fd 0) room (WProc [] w e) = (if try_again SSL_ERROR_WANT_READ e then RdAgain else RdError, WProc [] WSAEWOULDBLOCK e).
Proof. unfold read_io. cbn. unfold io_error. cbn. by destruct (try_again _ e). Qed.

Lemma grow_roomy alloc_ok b need : need <= b_cap b - b_len b < 2 ^ 31 -> 0 <= need -> vc_buf_grow alloc_ok b need = Some (true, b).
Proof. intros H Hn. unfold vc_buf_grow. rewrite u64_id by lia. by rewrite (proj2 (Z.leb_le _ _)) by lia. Qed.

(** C39: no request is served over plain sockets on MSVC.  The read loop looks at [errno]
    after [recv] has failed, but the failure is in [WSAGetLastError]: with [errno] 0, as in a new
    thread, a connection on which any bytes have arrived is closed once they are read, before
    a command in them is parsed, although the translation of [msvc.h] gives [EAGAIN]. *)
Theorem msvc_requests_closed alloc_ok fd l w b :
  l <> [] -> Z.of_nat (length l) + 4096 <= b_cap b - b_len b < 2 ^ 31 ->
  let '(r1, s1) := read_io (Peer fd 0) (b_cap b - b_len b) (WProc l w 0) in
  let '(r2, s2) := read_io (Peer fd 0) (b_cap b - b_len b - Z.of_nat (length l)) s1 in
  r1 = RdBytes l /\ read_loop alloc_ok [r1; r2] b = Some None /\
  try_again SSL_ERROR_WANT_READ (vc_socket_errno msvc_errnos (wp_wsa s2)) = true.
Proof.
  intros Hl Hr. rewrite win_round_bytes by (done || lia). rewrite win_round_empty. cbn [try_again Z.eqb orb EAGAIN EWOULDBLOCK SSL_ERROR_WANT_READ].
  split; [done|]. split; [|reflexivity]. cbn [read_loop]. rewrite grow_roomy by lia. cbn [mbind option_bind negb].
  rewrite (proj2 (Z.ltb_ge _ _)) by lia. rewrite grow_roomy; [done| |lia]. unfold b_len in *. cbn [b_cap b_data]. rewrite length_app. lia.
Qed.

Lemma msvc_requests_witness : read_loop granting [RdBytes (bs "PING"); RdError] (Buf [] 16384 0) = Some None.
Proof.
  pose proof (msvc_requests_closed granting 5 (bs "PING") 0 (Buf [] 16384 0) ltac:(done) ltac:(split; [vm_compute; discriminate | reflexivity])) as H.
  destruct H as (_ & H & _). exact H.
Defined.
